(* ===== verification/_CoqProject ===== *)
-Q . S2P
Prelude.v
Mem.v
Heap.v
Params.v
State.v
Spinlock.v
SpinThms.v
StateSpec.v
KString.v
KStringSpec.v
Kalloc.v
KallocSpec.v
Vm.v
PageTable.v
Walk.v
MapSpec.v
UvmSpec.v
UvmCopySpec.v
CopySpec.v
MemThms.v
VmThms.v
Sched.v
Console.v
Bio.v
Log.v
Virtio.v
Fs.v
File.v
Proc.v
Exec.v
Sysfile.v
Syscall.v
Trap.v
Wp.v
SchedSpec.v
ConsoleSpec.v
BioSpec.v
BioRef.v
LogSpec.v
LogRecover.v
Boot0.v
BioThms.v
LogThms.v
VirtioThms.v
ConsoleThms.v
PathThms.v
FsTx.v
BlockSpec.v
BlockThms.v
ItableThms.v
InodeThms.v
FileMap.v
FileRun.v
FileThms.v
DirThms.v
DirLink.v
PipeSpec.v
PipeThms.v
ProcThms.v
Grep.v
Umalloc.v
UmallocRun.v
UmallocThms.v
Sh.v
ShThms.v
ShRun.v
ShRound.v
ShRunThms.v
Find.v
Sixfive.v
Sleep.v
SleepThms.v
Mkfs.v
MkfsThms.v
UPrintf.v
Memdump.v
Tools.v
Ulib.v
Asm.v
Start.v
