(* ===== verification/Prelude.v ===== *)
(** * A verification of xv6

    xv6 is a small Unix-like operating system for RISC-V: a kernel (src/kernel),
    user programs (src/user) and the program that makes the first disk image
    (src/mkfs).  This library translates most of the kernel, mkfs and most of the user
    programs into executable definitions and proves what makes them correct.

    ** The program and its model

    Definitions keep the names of the C functions; a loop of a function [f] is
    [f_loop] or has a name of its own, with a comment that quotes its head.  C
    integers are numbers in [Z] that are reduced where C converts or wraps around
    ([u8] ... [u64], [s32], ... below).  A stateful function is an [M S A] (below):
    from a state it returns a value and the new state, panics with the message that
    the code gives to panic, faults (touches memory that does not exist, or does
    what C leaves undefined) or is stuck (waits for something that never happens).
    Error returns are the values of the code: -1, a null pointer as 0, or [None].
    Kernel functions work on [st sys] (State.v): byte-addressed physical memory and
    a record of the kernel's global variables.  Params.v has the constants of the
    headers, Wp.v and StateSpec.v the rules for reasoning about runs.

    - _Memory and page tables._  Mem.v is memory, Heap.v a separation logic for it.
      KString.v is kernel/string.c, Kalloc.v kernel/kalloc.c, Vm.v kernel/vm.c, with
      page tables in memory.  KStringSpec.v, KallocSpec.v, PageTable.v, Walk.v,
      MapSpec.v, UvmSpec.v, UvmCopySpec.v and CopySpec.v hold the specifications of
      their functions; MemThms.v and VmThms.v the theorems: the allocator hands out
      every page once; a mapping made by mappages is the one that the hardware's
      walk finds; growing, copying and freeing an address space account for every
      page on every path, failures included; copyin, copyout and copyinstr transfer
      exactly the bytes that the user sees, over page boundaries and over pages that
      are allocated lazily.
    - _Locks._  Spinlock.v is kernel/spinlock.c as atomic steps of several harts;
      SpinThms.v shows mutual exclusion, and that the interface with a list of held
      locks, which the rest of the kernel's model uses, is what these steps provide.
    - _Sleeping and waking._  Sched.v is sleep, wakeup, sched, yield and kkill as
      one kernel thread sees them; what other threads do while it is switched out is
      a parameter (class [Sched]), over which theorems quantify.  Sleep.v has sleep
      and wakeup as steps of any number of processes in any order, and SleepThms.v
      shows that no wakeup is lost.  SchedSpec.v and ProcThms.v have the theorems on
      the process table.
    - _Console._  Console.v is kernel/uart.c, kernel/printf.c and kernel/console.c;
      ConsoleSpec.v and ConsoleThms.v show that printf prints what its format says
      and that the interrupt handler implements line editing.
    - _Disk, cache and log._  Virtio.v is kernel/virtio_disk.c with the device as a
      step function, Bio.v kernel/sleeplock.c and kernel/bio.c, Log.v kernel/log.c.
      The cache uses the driver through the class [BlockDev] with the laws
      [BlockDevOk]; VirtioThms.v proves the laws for the driver.  BioSpec.v, BioRef.v
      and BioThms.v have the cache's invariant and its view of the disk; LogSpec.v,
      LogRecover.v and LogThms.v show that commit is atomic under a crash after any
      prefix of its writes and any number of interrupted recoveries, and that end_op
      makes the transaction's writes durable.  Boot0.v is a concrete machine for
      instances.
    - _File system._  Fs.v is kernel/fs.c.  FsTx.v has the rules for reading and
      writing blocks inside a transaction; BlockSpec.v and BlockThms.v the block
      allocator; ItableThms.v and InodeThms.v inodes in memory and on disk; FileMap.v,
      FileRun.v and FileThms.v files as sequences of bytes over direct and indirect
      blocks; DirThms.v and DirLink.v directories; PathThms.v path names.
    - _Files, processes, system calls, traps._  File.v is kernel/pipe.c and
      kernel/file.c, Proc.v the rest of kernel/proc.c, Exec.v kernel/exec.c, Sysfile.v
      kernel/sysfile.c and the arguments of system calls, Syscall.v kernel/sysproc.c
      and the dispatch of kernel/syscall.c, Trap.v kernel/trap.c.  PipeSpec.v,
      PipeThms.v and ProcThms.v have theorems on them.
    - _Registers, traps, start-up._  Asm.v runs the instructions of kernel/swtch.S,
      kernel/trampoline.S and kernel/kernelvec.S on a hart, with translation of
      addresses, a TLB that may be stale and the hardware's trap entry and return;
      what the MMU answers is a parameter.  It shows that swtch exchanges contexts,
      that a trap gives a user program all its registers back, that prepare_return of
      Trap.v leaves what the next trap needs, and that an interrupt in the kernel is
      transparent.  Start.v is kernel/entry.S, kernel/start.c and kernel/plic.c.
    - _The first disk image._  Mkfs.v is mkfs/mkfs.c; MkfsThms.v shows that the image
      satisfies the invariants of the file system above and has the files in it.
    - _User programs._  Grep.v: user/grep.c decides the language of its patterns and
      prints the matching lines.  Umalloc.v, UmallocRun.v, UmallocThms.v: malloc and
      free implement a set of disjoint blocks.  Sh.v, ShThms.v, ShRun.v, ShRound.v,
      ShRunThms.v: the shell parses every command it can be given and starts its
      programs with the right descriptors.  Find.v, Sixfive.v: user/find.c and
      user/sixfive.c.  UPrintf.v: user/printf.c.  Memdump.v: user/memdump.c, and what
      happens when its format is longer than its data.  Tools.v: user/cat.c and
      user/wc.c.  Ulib.v: user/ulib.c, whose memory functions agree with the kernel's
      and whose atoi reads what printf prints, and user/ls.c, echo.c, ln.c, mkdir.c,
      rm.c, kill.c and sleep.c.

    ** Termination

    Loops and recursion that are not structural take fuel, and running out of it is
    [Stuck], which the theorems exclude: they are about total correctness.  The fuel
    is computed from the input where the function is called (the number of bytes or
    pages to go, the length of a list, the depth of a path buffer), so a definition
    has no free choice of it.  Where code waits for other threads the bound
    [sched_bound] says how often it may be switched out.

    ** What is not modelled

    - The control-register accessors of riscv.h, which are fields and updates of the
      registers here, and main.c, a list of calls.  The C code between uservec and
      userret and below kernelvec is a parameter of Asm.v, with the calling convention
      as its contract; the model of the C code takes from swtch that a thread resumes
      where it was switched out.
    - What hardware does beyond the page-table walk, trap entry and return, the virtio
      block device and the registers of the interrupt controller.
    - Tests (usertests.c, grind.c, forktest.c, stressfs.c, logstress.c, forphan.c,
      dorphan.c, zombie.c), which exercise the system calls that are modelled, and
      init.c, which restarts the shell for ever.
    - Scripts and the build. *)
From stdpp Require Export base numbers list gmap strings.
From stdpp Require Import tactics.

(** ** Machine integers

    C integers are kept as [Z]; [uW x] is the value of [x] after conversion to
    an unsigned type of [W] bits, [sW x] after conversion to a signed one. *)
Definition uN (w x : Z) : Z := (x mod 2 ^ w)%Z.
Definition sN (w x : Z) : Z := ((x + 2 ^ (w - 1)) mod 2 ^ w - 2 ^ (w - 1))%Z.
Abbreviation u8 := (uN 8).
Abbreviation u16 := (uN 16).
Abbreviation u32 := (uN 32).
Abbreviation u64 := (uN 64).
Abbreviation s8 := (sN 8).
Abbreviation s16 := (sN 16).
Abbreviation s32 := (sN 32).
Abbreviation s64 := (sN 64).

(** ** Outcomes

    Every stateful function of the model is an [M S A]: it takes the state and
    either returns a value with the new state, panics (kernel/printf.c
    [panic]), touches memory that does not exist ([Fault]), or can make no
    further progress ([Stuck]: it spins on a lock nobody will release or
    sleeps with no other process left to run). *)
Inductive outcome (S A : Type) : Type :=
| Ok (a : A) (s : S)
| Panic (msg : string)
| Fault
| Stuck.
Arguments Ok {S A} a s.
Arguments Panic {S A} msg.
Arguments Fault {S A}.
Arguments Stuck {S A}.

Definition M (S A : Type) : Type := S → outcome S A.

#[export] Instance M_ret {S} : MRet (M S) := λ A a s, Ok a s.
#[export] Instance M_bind {S} : MBind (M S) := λ A B k m s,
  match m s with
  | Ok a s' => k a s'
  | Panic msg => Panic msg
  | Fault => Fault
  | Stuck => Stuck
  end.
#[export] Instance M_fmap {S} : FMap (M S) := λ A B f m,
  mbind (λ a, mret (f a)) m.

Definition panic {S A} (msg : string) : M S A := λ _, Panic msg.
Definition fault {S A} : M S A := λ _, Fault.
Definition stuck {S A} : M S A := λ _, Stuck.
Definition get {S} : M S S := λ s, Ok s s.
Definition put {S} (s : S) : M S unit := λ _, Ok tt s.
Definition gets {S A} (f : S → A) : M S A := λ s, Ok (f s) s.
Definition modify {S} (f : S → S) : M S unit := λ s, Ok tt (f s).

(** [if(c) body;] *)
Definition when {S} (c : bool) (m : M S unit) : M S unit :=
  if c then m else mret tt.

(** [for(i = start; i < start + n; i++) body] whose body may leave the loop
    (break, return, goto) by yielding [Some]. *)
Fixpoint for_ {S A} (n : nat) (i : nat) (body : nat → M S (option A)) :
    M S (option A) :=
  match n with
  | O => mret None
  | Datatypes.S n' =>
      r ← body i;
      match r with
      | Some a => mret (Some a)
      | None => for_ n' (Datatypes.S i) body
      end
  end.

(** The same loop over a body that never leaves it early. *)
Fixpoint for_each {S} (n : nat) (i : nat) (body : nat → M S unit) : M S unit :=
  match n with
  | O => mret tt
  | Datatypes.S n' => body i;; for_each n' (Datatypes.S i) body
  end.

(** ** Strings

    The bytes of a string constant, without its NUL. *)
Definition str (s : string) : list Z :=
  map (λ c, Z.of_N (Ascii.N_of_ascii c)) (String.list_ascii_of_string s).

(** ** Record update

    [r <| f := v |>] is [r] with field [f] set to [v]; [r <| f ::= g |>]
    applies [g] to the field. Each field has a [Setter] instance. *)
Class Setter {R T : Type} (proj : R → T) := set_field : (T → T) → R → R.
Arguments set_field {R T} proj {_} g r.
Notation "r <| f := v |>" := (set_field f (λ _, v) r)
  (at level 1, left associativity, format "r  <| f  :=  v |>").
Notation "r <| f ::= g |>" := (set_field f g r)
  (at level 1, left associativity, format "r  <| f  ::=  g |>").
