(* ===== verification/Mem.v ===== *)
(** * Byte-addressed memory

    Physical memory is a finite map from addresses to bytes; an address outside
    the map does not exist and touching it is a [Fault].  The loads and stores
    of the C code are little-endian ([load_le], [store_le]). *)
From S2P Require Import Prelude.

(** ** State and memory primitives *)
Abbreviation heap := (gmap Z Z).

Record st (R : Type) : Type := St { mem : heap; rest : R }.
Arguments St {R} mem rest.
Arguments mem {R} _.
Arguments rest {R} _.

Definition load8 {R} (a : Z) : M (st R) Z := λ s,
  match mem s !! a with
  | Some b => Ok b s
  | None => Fault
  end.

Definition store8 {R} (a v : Z) : M (st R) unit := λ s,
  match mem s !! a with
  | Some _ => Ok tt (St (<[a := u8 v]> (mem s)) (rest s))
  | None => Fault
  end.

(** An [n]-byte little-endian load and store. *)
Fixpoint load_le {R} (n : nat) (a : Z) : M (st R) Z :=
  match n with
  | O => mret 0%Z
  | S n' => b ← load8 a; v ← load_le n' (a + 1)%Z; mret (b + 256 * v)%Z
  end.

Fixpoint store_le {R} (n : nat) (a v : Z) : M (st R) unit :=
  match n with
  | O => mret tt
  | S n' => store8 a v;; store_le n' (a + 1)%Z (v / 256)%Z
  end.

Definition load64 {R} (a : Z) : M (st R) Z := load_le 8 a.
Definition store64 {R} (a v : Z) : M (st R) unit := store_le 8 a v.

Definition get_rest {R} : M (st R) R := λ s, Ok (rest s) s.
Definition put_rest {R} (r : R) : M (st R) unit := λ s, Ok tt (St (mem s) r).

(** Value of a little-endian byte string, and the [n] low bytes of a value. *)
Fixpoint le_combine (bs : list Z) : Z :=
  match bs with
  | [] => 0
  | b :: bs' => (b + 256 * le_combine bs')%Z
  end.

Fixpoint le_split (n : nat) (v : Z) : list Z :=
  match n with
  | O => []
  | S n' => u8 v :: le_split n' (v / 256)
  end.

Definition is_byte (b : Z) : Prop := (0 ≤ b < 256)%Z.

Lemma length_le_split n v : length (le_split n v) = n.
Proof. revert v; induction n; intros; simpl; auto. Qed.

Lemma le_split_bytes n v : Forall is_byte (le_split n v).
Proof.
  revert v; induction n; intros; simpl; constructor; auto.
  unfold is_byte, uN. change (2 ^ 8)%Z with 256%Z. apply Z.mod_pos_bound. lia.
Qed.

Lemma le_combine_split n v :
  le_combine (le_split n v) = (v mod 256 ^ Z.of_nat n)%Z.
Proof.
  revert v; induction n as [|n IH]; intros v; simpl le_split; simpl le_combine.
  - by rewrite Z.mod_1_r.
  - rewrite IH, Nat2Z.inj_succ, Z.pow_succ_r by lia.
    unfold uN. change (2 ^ 8)%Z with 256%Z.
    rewrite Z.rem_mul_r by (try apply Z.pow_nonzero; lia). lia.
Qed.

Lemma le_split_combine bs :
  Forall is_byte bs → le_split (length bs) (le_combine bs) = bs.
Proof.
  induction 1 as [|b bs Hb _ IH]; simpl; [done|].
  unfold is_byte in Hb. unfold uN. change (2 ^ 8)%Z with 256%Z.
  rewrite (Z.mul_comm 256), Z.mod_add, Z.mod_small, Z.div_add, Z.div_small by lia.
  by rewrite Z.add_0_l, IH.
Qed.

Lemma le_combine_bound bs :
  Forall is_byte bs → (0 ≤ le_combine bs < 256 ^ Z.of_nat (length bs))%Z.
Proof.
  induction 1 as [|b bs Hb _ IH]; [simpl; lia|].
  simpl length; rewrite Nat2Z.inj_succ, Z.pow_succ_r by lia.
  unfold is_byte in Hb. simpl. lia.
Qed.

Lemma le_split_0 n : le_split n 0 = replicate n 0%Z.
Proof. induction n; simpl; f_equal; auto. Qed.


Lemma le_split_mod n v : le_split n (v mod 256 ^ Z.of_nat n) = le_split n v.
Proof.
  rewrite <-le_combine_split. pose proof (length_le_split n v) as Hl.
  rewrite <-Hl at 1. apply le_split_combine, le_split_bytes.
Qed.

Lemma le_split_u64 v : le_split 8 (u64 v) = le_split 8 v.
Proof. apply (le_split_mod 8). Qed.

(** Reading and writing a whole byte string. *)
Fixpoint load_bytes {R} (n : nat) (a : Z) : M (st R) (list Z) :=
  match n with
  | O => mret []
  | S n' => b ← load8 a; bs ← load_bytes n' (a + 1)%Z; mret (b :: bs)
  end.

Fixpoint store_bytes {R} (a : Z) (bs : list Z) : M (st R) unit :=
  match bs with
  | [] => mret tt
  | b :: bs' => store8 a b;; store_bytes (a + 1)%Z bs'
  end.
