(* ===== verification/Heap.v ===== *)
(** * A separation logic for the memory

    The assertions [hprop] are predicates on heap fragments, made an instance
    of Iris's [bi] interface so that the Iris proof mode applies.  The logic is
    linear: a fragment cannot be dropped, so a specification also says that no
    memory is leaked.  [hwp m Q r] is total correctness: from every heap that
    extends the fragment, [m] returns (no panic, no fault, no endless loop),
    changes nothing outside the fragment and leaves [Q]. *)
From S2P Require Import Prelude.
From S2P Require Import Mem.
From iris.algebra Require Import ofe.
From iris.bi Require Import bi.
From iris.proofmode Require Import proofmode.

(** ** Assertions *)
Record hprop : Type := HProp { hp :> heap → Prop }.

#[global] Instance hprop_equiv : Equiv hprop := λ P Q, ∀ h, P h ↔ Q h.
#[global] Instance hprop_equivalence : Equivalence (≡@{hprop}).
Proof.
  split; [by intros P h|by intros P Q HPQ h; symmetry|].
  intros P Q Q' H1 H2 h. by trans (Q h).
Qed.
#[local] Set Warnings "-redundant-canonical-projection".
Canonical Structure hpropO := discreteO hprop.

Inductive hprop_entails (P Q : hprop) : Prop :=
  EntailsIntro { entails_at : ∀ h, P h → Q h }.
Arguments entails_at {P Q} _ h _.
Definition hprop_emp : hprop := HProp (λ h, h = ∅).
Definition hprop_pure (φ : Prop) : hprop := HProp (λ _, φ).
Definition hprop_and (P Q : hprop) : hprop := HProp (λ h, P h ∧ Q h).
Definition hprop_or (P Q : hprop) : hprop := HProp (λ h, P h ∨ Q h).
Definition hprop_impl (P Q : hprop) : hprop := HProp (λ h, P h → Q h).
Definition hprop_forall (A : Type) (Φ : A → hprop) : hprop :=
  HProp (λ h, ∀ x, Φ x h).
Definition hprop_exist (A : Type) (Φ : A → hprop) : hprop :=
  HProp (λ h, ∃ x, Φ x h).
Definition hprop_sep (P Q : hprop) : hprop :=
  HProp (λ h, ∃ h1 h2, h = h1 ∪ h2 ∧ h1 ##ₘ h2 ∧ P h1 ∧ Q h2).
Definition hprop_wand (P Q : hprop) : hprop :=
  HProp (λ h, ∀ h', h ##ₘ h' → P h' → Q (h ∪ h')).
Definition hprop_later (P : hprop) : hprop := P.
Definition hprop_persistently (P : hprop) : hprop :=
  hprop_pure (hprop_entails hprop_emp P).

Lemma hprop_bi_mixin :
  BiMixin hprop_entails hprop_emp hprop_pure hprop_and hprop_or hprop_impl
    hprop_forall hprop_exist hprop_sep hprop_wand.
Proof.
  split.
  - split; [by intros P; split|].
    intros P Q Q' H1 H2; split; intros h HP. by apply H2, H1.
  - intros P Q; split.
    + intros H; split; split; intros h; apply H.
    + intros [H1 H2] h; split; [apply H1|apply H2].
  - intros n φ ψ Hφ h. apply Hφ.
  - intros n P P' HP Q Q' HQ h. specialize (HP h). specialize (HQ h). simpl. tauto.
  - intros n P P' HP Q Q' HQ h. specialize (HP h). specialize (HQ h). simpl. tauto.
  - intros n P P' HP Q Q' HQ h. specialize (HP h). specialize (HQ h). simpl. tauto.
  - intros A n Φ Φ' HΦ h. simpl. split; intros H x; by apply (HΦ x).
  - intros A n Φ Φ' HΦ h. simpl. split; intros [x H]; exists x; by apply (HΦ x).
  - intros n P P' HP Q Q' HQ h. simpl.
    split; intros (h1&h2&?&?&H1&H2); exists h1, h2;
      split_and!; auto; first [by apply HP|by apply HQ].
  - intros n P P' HP Q Q' HQ h. simpl.
    split; intros H h' Hd HPh; apply HQ, H; auto; by apply HP.
  - intros φ P Hφ; split; intros h _. exact Hφ.
  - intros φ P H; split; intros h Hφ. by apply (H Hφ).
  - intros P Q; split; by intros h [].
  - intros P Q; split; by intros h [].
  - intros P Q Q' H1 H2; split; intros h HP. split; [by apply H1|by apply H2].
  - intros P Q; split; intros h; by left.
  - intros P Q; split; intros h; by right.
  - intros P Q Q' H1 H2; split; intros h [|]; [by apply H1|by apply H2].
  - intros P Q Q' H; split; intros h HP HQ. by apply H.
  - intros P Q Q' H; split; intros h [HP HQ]. by apply (entails_at H h HP).
  - intros A P Ψ H; split; intros h HP a. by apply H.
  - intros A Ψ a; split; intros h H. apply H.
  - intros A Ψ a; split; intros h H. by exists a.
  - intros A Φ Q H; split; intros h [a Ha]. by apply (H a).
  - intros P P' Q Q' HP HQ; split; intros h (h1&h2&->&?&?&?). exists h1, h2.
    split_and!; [done|done|by apply HP|by apply HQ].
  - intros P; split; intros h HP. exists ∅, h. split_and!; auto.
    + by rw left_id_L.
    + apply map_disjoint_empty_l.
    + done.
  - intros P; split; intros h (h1&h2&->&_&->&HP). by rw left_id_L.
  - intros P Q; split; intros h (h1&h2&->&?&?&?). exists h2, h1.
    split_and!; auto. by apply map_union_comm.
  - intros P Q Q'; split; intros h (h1&h2&->&Hd&(h3&h4&->&Hd'&?&?)&?).
    apply map_disjoint_union_l in Hd as [??].
    exists h3, (h4 ∪ h2). split_and!; auto.
    + by rw assoc_L.
    + by apply map_disjoint_union_r.
    + exists h4, h2. by split_and!.
  - intros P Q Q' H; split; intros h HP h' Hd HQ. apply H. exists h, h'. by split_and!.
  - intros P Q Q' H; split; intros h (h1&h2&->&Hd&HP&HQ).
    by apply (entails_at H h1 HP).
Qed.

Lemma hprop_persistently_mixin :
  BiPersistentlyMixin hprop_entails hprop_emp hprop_and hprop_exist hprop_sep
    hprop_persistently.
Proof.
  eapply bi_persistently_mixin_discrete, hprop_bi_mixin; [done| |done].
  intros A Φ H. destruct (entails_at H ∅ eq_refl) as [x Hx].
  exists x. split. by intros h ->.
Qed.

Lemma hprop_later_mixin :
  BiLaterMixin hprop_entails hprop_pure hprop_or hprop_impl hprop_forall
    hprop_exist hprop_sep hprop_persistently hprop_later.
Proof. by eapply bi_later_mixin_id, hprop_bi_mixin. Qed.

Canonical Structure hpropI : bi :=
  {| bi_ofe_mixin := ofe_mixin_of hprop;
     bi_bi_mixin := hprop_bi_mixin;
     bi_bi_persistently_mixin := hprop_persistently_mixin;
     bi_bi_later_mixin := hprop_later_mixin |}.

#[global] Instance hprop_pure_forall : BiPureForall hpropI.
Proof. intros A φ; split; intros h H x. apply H. Qed.

Notation "⟦ φ ⟧" := (<affine> ⌜φ⌝)%I (at level 0, φ at level 200) : bi_scope.

(** ** Points-to assertions *)
Definition pt8 (a b : Z) : hprop := HProp (λ h, h = {[a := b]}).
Notation "a ↦ b" := (pt8 a b) (at level 20) : bi_scope.

(** [a ↦∗ bs]: the byte string [bs] starts at address [a]. *)
Definition array_def (a : Z) (bs : list Z) : hprop :=
  ([∗ list] i ↦ b ∈ bs, (a + Z.of_nat i)%Z ↦ b)%I.
Definition array_aux : seal (@array_def). Proof. by eexists. Qed.
Definition array := array_aux.(unseal).
Notation "a ↦∗ bs" := (array a bs) (at level 20) : bi_scope.

(** [a ↦w v]: the 64-bit word [v] is at address [a]. *)
Definition pt64 (a v : Z) : hprop :=
  (⟦(0 ≤ v < 2 ^ 64)%Z⟧ ∗ a ↦∗ le_split 8 v)%I.
Notation "a ↦w v" := (pt64 a v) (at level 20) : bi_scope.

Lemma array_unfold a bs : a ↦∗ bs ⊣⊢ [∗ list] i ↦ b ∈ bs, (a + Z.of_nat i)%Z ↦ b.
Proof. by rw /array array_aux.(seal_eq). Qed.

Lemma array_nil a : a ↦∗ [] ⊣⊢ emp.
Proof. by rw array_unfold. Qed.

Lemma array_cons a b bs : a ↦∗ (b :: bs) ⊣⊢ a ↦ b ∗ (a + 1)%Z ↦∗ bs.
Proof.
  rw !array_unfold /=. rw Z.add_0_r. f_equiv.
  apply big_sepL_proper. intros i x _. by replace (a + S i)%Z with (a + 1 + i)%Z by lia.
Qed.

Lemma array_app a bs1 bs2 :
  a ↦∗ (bs1 ++ bs2) ⊣⊢ a ↦∗ bs1 ∗ (a + Z.of_nat (length bs1))%Z ↦∗ bs2.
Proof.
  rw !array_unfold big_sepL_app. f_equiv. apply big_sepL_proper. intros i x _.
  by replace (a + (length bs1 + i)%nat)%Z with (a + length bs1 + i)%Z by lia.
Qed.

(** ** Weakest preconditions *)
Definition hwp {R A} (m : M (st R) A) (Q : A → R → hprop) (r : R) : hprop :=
  HProp (λ h, ∀ hf, h ##ₘ hf →
    ∃ a r' h', m (St (h ∪ hf) r) = Ok a (St (h' ∪ hf) r') ∧ h' ##ₘ hf ∧ Q a r' h').

Section hwp.
Context {R : Type}.
Implicit Types r : R.

Lemma hwp_ret {A} (a : A) (Q : A → R → hprop) r : Q a r ⊢ hwp (mret a) Q r.
Proof. split; intros h HQ hf Hd. by exists a, r, h. Qed.

Lemma hwp_bind {A B} (m : M (st R) A) (k : A → M (st R) B) Q r :
  hwp m (λ a r', hwp (k a) Q r') r ⊢ hwp (m ≫= k) Q r.
Proof.
  split; intros h H hf Hd. destruct (H hf Hd) as (a & r' & h' & Hm & Hd' & H').
  destruct (H' hf Hd') as (b & r'' & h'' & Hk & Hd'' & HQ).
  exists b, r'', h''. split; [|done].
  by rw /mbind /M_bind Hm Hk.
Qed.

(** The frame rule and the rule of consequence in one. *)
Lemma hwp_wand {A} (m : M (st R) A) (Q Q' : A → R → hprop) r :
  hwp m Q r ∗ (∀ a r', Q a r' -∗ Q' a r') ⊢ hwp m Q' r.
Proof.
  split; intros h (h1 & h2 & -> & H12 & H1 & Hw) hf Hd.
  apply map_disjoint_union_l in Hd as [Hd1 Hd2].
  destruct (H1 (h2 ∪ hf)) as (a & r' & h' & Hm & Hd' & HQ).
  { by apply map_disjoint_union_r. }
  apply map_disjoint_union_r in Hd' as [Hd'2 Hd'f].
  exists a, r', (h2 ∪ h'). split_and!.
  - rw -assoc_L Hm. by rw (map_union_comm h2 h') // -assoc_L.
  - by apply map_disjoint_union_l.
  - by apply (Hw a r' h').
Qed.

Lemma hwp_load8 a b (Q : Z → R → hprop) r :
  a ↦ b ∗ (a ↦ b -∗ Q b r) ⊢ hwp (load8 a) Q r.
Proof.
  split; intros h (h1 & h2 & -> & Hd & -> & Hw) hf Hdf.
  assert (h2 ##ₘ {[a := b]}) as Hd' by done.
  exists b, r, (h2 ∪ {[a := b]}). split_and!.
  - rw /load8 /=.
    rw (lookup_union_Some_l _ hf a b); last by apply lookup_union_Some_l, lookup_singleton_eq.
    by rw (map_union_comm h2).
  - by rw map_union_comm.
  - by apply Hw.
Qed.

Lemma hwp_store8 a b v (Q : unit → R → hprop) r :
  a ↦ b ∗ (a ↦ u8 v -∗ Q tt r) ⊢ hwp (store8 a v) Q r.
Proof.
  split; intros h (h1 & h2 & -> & Hd & -> & Hw) hf Hdf.
  assert (h2 !! a = None) as Ha by by apply map_disjoint_singleton_l in Hd.
  assert (h2 ##ₘ {[a := u8 v]}) as Hd' by by apply map_disjoint_singleton_r.
  apply map_disjoint_union_l in Hdf as [Hf1 Hf2].
  apply map_disjoint_singleton_l in Hf1.
  exists tt, r, (h2 ∪ {[a := u8 v]}). split_and!.
  - rw /store8 /=.
    rw (lookup_union_Some_l _ hf a b); last by apply lookup_union_Some_l, lookup_singleton_eq.
    do 2 f_equal. rw insert_union_l insert_union_l.
    by rw insert_singleton_eq (map_union_comm h2).
  - apply map_disjoint_union_l; split; [done|]. by apply map_disjoint_singleton_l.
  - by apply Hw.
Qed.

Lemma hwp_get_rest (Q : R → R → hprop) r : Q r r ⊢ hwp get_rest Q r.
Proof. split; intros h HQ hf Hd. by exists r, r, h. Qed.

Lemma hwp_put_rest r' (Q : unit → R → hprop) r : Q tt r' ⊢ hwp (put_rest r') Q r.
Proof. split; intros h HQ hf Hd. by exists tt, r', h. Qed.

(** A computation that depends on and changes only the rest of the state. *)
Lemma hwp_rest {A} (m : M (st R) A) a r' (Q : A → R → hprop) r :
  (∀ h, m (St h r) = Ok a (St h r')) → Q a r' ⊢ hwp m Q r.
Proof. intros Hm. split; intros h HQ hf Hd. by exists a, r', h. Qed.

(** What a derivation in the logic says of one run of the program. *)
Lemma hwp_adequate {A} (P : hprop) (m : M (st R) A) (Q : A → R → hprop) r h :
  (P ⊢ hwp m Q r) → P h →
  ∃ a r' h', m (St h r) = Ok a (St h' r') ∧ Q a r' h'.
Proof.
  intros HP Hh. destruct (entails_at HP h Hh ∅) as (a & r' & h' & Hm & _ & HQ).
  { apply map_disjoint_empty_r. }
  exists a, r', h'. split; [|done]. by rw !right_id_L in Hm.
Qed.
End hwp.

(** ** Derived rules: words, byte strings, word arrays *)
Lemma pt64_range a v : a ↦w v ⊢ ⌜(0 ≤ v < 2 ^ 64)%Z⌝.
Proof. by iIntros "[% _]". Qed.

Lemma pt8_excl a b b' : a ↦ b ∗ a ↦ b' ⊢ False.
Proof.
  split; intros h (h1 & h2 & -> & Hd & -> & ->).
  apply map_disjoint_singleton_l in Hd. by rw lookup_singleton_eq in Hd.
Qed.

Lemma bytes_pt64 a bs :
  length bs = 8%nat → Forall is_byte bs → a ↦∗ bs ⊢ a ↦w le_combine bs.
Proof.
  iIntros (Hl Hb) "H". rw /pt64. iSplitR.
  - iPureIntro. pose proof (le_combine_bound bs Hb) as H. by rw Hl in H.
  - by rw -{1}Hl le_split_combine.
Qed.

Lemma pt64_bytes a v :
  a ↦w v ⊢ ∃ bs, ⟦length bs = 8%nat ∧ Forall is_byte bs⟧ ∗ a ↦∗ bs.
Proof.
  iIntros "[_ H]". iExists (le_split 8 v). iFrame. iPureIntro.
  split; [apply length_le_split|apply le_split_bytes].
Qed.

Definition words (a : Z) (ws : list Z) : hprop :=
  ([∗ list] i ↦ w ∈ ws, (a + 8 * Z.of_nat i)%Z ↦w w)%I.

Lemma words_cons a w ws : words a (w :: ws) ⊣⊢ a ↦w w ∗ words (a + 8) ws.
Proof.
  rw /words /=. replace (a + 8 * 0%nat)%Z with a by lia. f_equiv.
  apply big_sepL_proper. intros i x _.
  by replace (a + 8 * S i)%Z with (a + 8 + 8 * i)%Z by lia.
Qed.

Lemma words_bytes a ws :
  words a ws ⊢ ∃ bs, ⟦length bs = (8 * length ws)%nat ∧ Forall is_byte bs⟧ ∗ a ↦∗ bs.
Proof.
  revert a; induction ws as [|w ws IH]; intros a.
  - iIntros "_". iExists []. by rw array_nil.
  - rw words_cons IH pt64_bytes.
    iIntros "[(%bs1 & [%Hl1 %Hb1] & H1) (%bs2 & [%Hl2 %Hb2] & H2)]".
    iExists (bs1 ++ bs2). rw array_app Hl1. iFrame. iPureIntro.
    rw length_app Forall_app /=. split; [lia|done].
Qed.

Lemma bytes_words a n bs :
  length bs = (8 * n)%nat → Forall is_byte bs →
  a ↦∗ bs ⊢ ∃ ws, ⟦length ws = n⟧ ∗ words a ws.
Proof.
  revert a bs; induction n as [|n IH]; intros a bs Hl Hb.
  - destruct bs; [|simpl in Hl; lia]. iIntros "H". iExists [].
    rw array_nil /words /=. by iFrame.
  - rw -(take_drop 8 bs) array_app length_take_le; last lia.
    iIntros "[H1 H2]".
    iDestruct (bytes_pt64 with "H1") as "H1"; [by rw length_take_le; lia|by apply Forall_take|].
    iDestruct (IH with "H2") as (ws) "[%Hws H2]"; [rw length_drop; lia|by apply Forall_drop|].
    iExists (le_combine (take 8 bs) :: ws). rw words_cons /= Hws.
    iSplitR; [done|]. by iFrame.
Qed.

Lemma zero_words a n : a ↦∗ replicate (8 * n) 0%Z ⊢ words a (replicate n 0%Z).
Proof.
  revert a; induction n as [|n IH]; intros a; [by rw array_nil|].
  replace (8 * S n)%nat with (8 + 8 * n)%nat by lia.
  rw replicate_add array_app length_replicate IH /= words_cons.
  iIntros "[H $]". by iDestruct (bytes_pt64 _ (replicate 8 0%Z) with "H") as "H";
    [|repeat constructor|].
Qed.

Section hwp_derived.
Context {R : Type}.
Implicit Types r : R.

Lemma hwp_load_le n a bs (Q : Z → R → hprop) r :
  length bs = n →
  a ↦∗ bs ∗ (a ↦∗ bs -∗ Q (le_combine bs) r) ⊢ hwp (load_le n a) Q r.
Proof.
  revert a bs Q; induction n as [|n IH]; intros a bs Q Hl.
  - destruct bs; [|done]. iIntros "[H HQ]". iApply hwp_ret. by iApply "HQ".
  - destruct bs as [|b bs]; [done|]. injection Hl as Hl.
    rw /= array_cons. iIntros "[[Hb H] HQ]".
    iApply hwp_bind. iApply hwp_load8. iFrame. iIntros "Hb".
    iApply hwp_bind. iApply IH; [done|]. iFrame. iIntros "H".
    iApply hwp_ret. iApply "HQ". iFrame.
Qed.

Lemma hwp_store_le n a bs v (Q : unit → R → hprop) r :
  length bs = n →
  a ↦∗ bs ∗ (a ↦∗ le_split n v -∗ Q tt r) ⊢ hwp (store_le n a v) Q r.
Proof.
  revert a bs v Q; induction n as [|n IH]; intros a bs v Q Hl.
  - destruct bs; [|done]. iIntros "[H HQ]". iApply hwp_ret. by iApply "HQ".
  - destruct bs as [|b bs]; [done|]. injection Hl as Hl.
    rw /= !array_cons. iIntros "[[Hb H] HQ]".
    iApply hwp_bind. iApply hwp_store8. iFrame. iIntros "Hb".
    iApply IH; [done|]. iFrame. iIntros "H".
    iApply "HQ". iFrame.
Qed.

Lemma hwp_load64 a v (Q : Z → R → hprop) r :
  a ↦w v ∗ (a ↦w v -∗ Q v r) ⊢ hwp (load64 a) Q r.
Proof.
  iIntros "[[%Hv H] HQ]". iApply hwp_load_le; [apply length_le_split|].
  iFrame. rw le_combine_split Z.mod_small //. iIntros "H". iApply "HQ". by iFrame.
Qed.

Lemma hwp_store64 a v v' (Q : unit → R → hprop) r :
  a ↦w v ∗ (a ↦w u64 v' -∗ Q tt r) ⊢ hwp (store64 a v') Q r.
Proof.
  iIntros "[[_ H] HQ]". iApply hwp_store_le; [apply length_le_split|].
  iFrame. iIntros "H". iApply "HQ". rw /pt64. iSplitR.
  - iPureIntro. rw /uN. by apply Z.mod_pos_bound.
  - by rw le_split_u64.
Qed.
End hwp_derived.

(** ** Hoare triples

    [⦃ P ⦄ m @ r ⟪ a r', Q ⟫]: run from any memory with a part [h] that
    satisfies [P], and globals [r], [m] terminates without panic or fault; it
    turns that part into one that satisfies [Q], for the value [a] it returns
    and the globals [r'] it leaves, and does not touch the rest [hf]. *)
Definition triple {R A} (P : hprop) (m : M (st R) A) (r : R) (Q : A → R → hprop) : Prop :=
  ∀ h hf, P h → h ##ₘ hf →
    ∃ a r' h', m (St (h ∪ hf) r) = Ok a (St (h' ∪ hf) r') ∧ h' ##ₘ hf ∧ Q a r' h'.

Notation "⦃ P ⦄ m @ r ⟪ a r' , Q ⟫" := (triple P%I m r (λ a r', Q%I))
  (at level 0, P at level 200, m at level 19, r at level 19, a name, r' name, Q at level 200,
   format "'[hv' ⦃  P  ⦄  m  @  r  ⟪  a  r' ,  Q  ⟫ ']'").

Lemma hwp_triple {R A} (P : hprop) (m : M (st R) A) r Q : (P ⊢ hwp m Q r) → triple P m r Q.
Proof. intros HP h hf Hh Hd. exact (entails_at HP h Hh hf Hd). Qed.

Lemma triple_hwp {R A} (P : hprop) (m : M (st R) A) r Q : triple P m r Q → P ⊢ hwp m Q r.
Proof. intros Ht. split; intros h Hh hf Hd. exact (Ht h hf Hh Hd). Qed.

Lemma triple_run {R A} (P : hprop) (m : M (st R) A) r Q h :
  triple P m r Q → P h → ∃ a r' h', m (St h r) = Ok a (St h' r') ∧ Q a r' h'.
Proof.
  intros Ht Hh. destruct (Ht h ∅ Hh) as (a & r' & h' & Hm & _ & HQ); [apply map_disjoint_empty_r|].
  exists a, r', h'. by rw !map_union_empty in Hm.
Qed.

(** ** Satisfiable assertions: some memory between [lo] and [hi] satisfies [P]. *)
Definition sat (P : hprop) (lo hi : Z) : Prop :=
  ∃ h, P h ∧ ∀ k, is_Some (h !! k) → (lo <= k < hi)%Z.

Lemma sat_sep P Q lo mid hi : (lo <= mid <= hi)%Z → sat P lo mid → sat Q mid hi → sat (P ∗ Q)%I lo hi.
Proof.
  intros Hm (h1 & H1 & D1) (h2 & H2 & D2). assert (h1 ##ₘ h2).
  { apply map_disjoint_spec. intros k x y Hx Hy.
    specialize (D1 k (mk_is_Some _ _ Hx)). specialize (D2 k (mk_is_Some _ _ Hy)). lia. }
  exists (h1 ∪ h2). split; [by exists h1, h2|]. intros k [x Hx]. apply lookup_union_Some in Hx as [Hx|Hx]; [| |done].
  - specialize (D1 k (mk_is_Some _ _ Hx)). lia.
  - specialize (D2 k (mk_is_Some _ _ Hx)). lia.
Qed.

Lemma sat_mono P Q lo hi : (P ⊢ Q) → sat P lo hi → sat Q lo hi.
Proof. intros HPQ (h & Hh & D). exists h. split; [by apply (entails_at HPQ)|done]. Qed.

Lemma sat_emp lo : sat emp%I lo lo.
Proof. exists ∅. split; [done|]. intros k [x Hx]. by rw lookup_empty in Hx. Qed.

Lemma sat_array a bs : sat (a ↦∗ bs)%I a (a + Z.of_nat (length bs))%Z.
Proof.
  revert a; induction bs as [|b bs IH]; intros a.
  - rw Z.add_0_r. apply (sat_mono emp%I); [by rw array_nil|apply sat_emp].
  - apply (sat_mono (a ↦ b ∗ (a + 1)%Z ↦∗ bs)%I); [by rw array_cons|].
    apply sat_sep with (a + 1)%Z; [simpl; lia| |].
    + exists {[a := b]}. split; [done|]. intros k [x Hx]. apply lookup_singleton_Some in Hx. lia.
    + replace (a + Z.of_nat (length (b :: bs)))%Z with (a + 1 + Z.of_nat (length bs))%Z by (simpl; lia).
      apply IH.
Qed.

(** Clients reason with the laws above only. *)
#[global] Opaque hprop_emp hprop_pure hprop_and hprop_or hprop_impl hprop_forall hprop_exist
  hprop_sep hprop_wand hprop_later hprop_persistently pt8 hwp.
