(* ===== verification/Params.v ===== *)
(** * Constants and address arithmetic

    kernel/param.h (as configured by conf/lab.mk, LAB=util), the page-table
    macros of kernel/riscv.h, kernel/memlayout.h and the layout constants of
    kernel/fs.h, with the arithmetic facts the proofs use. *)
From S2P Require Import Prelude.
#[local] Open Scope Z_scope.

(** ** kernel/param.h *)
Definition NPROC : nat := 64.
Definition NOFILE : nat := 16.
Definition NFILE : nat := 100.
Definition NINODE : nat := 50.
Definition NDEV : Z := 10.
Definition ROOTDEV : Z := 1.
Definition MAXARG : nat := 32.
Definition MAXOPBLOCKS : Z := 10.
Definition LOGBLOCKS : Z := MAXOPBLOCKS * 3.
Definition NBUF : nat := 30.
Definition FSSIZE : Z := 2000.
Definition MAXPATH : Z := 128.
Definition USERSTACK : Z := 2.

(** ** kernel/riscv.h: pages and page-table entries *)
Definition PGSIZE : Z := 4096.
Definition PGSIZEn : nat := Z.to_nat PGSIZE.
Definition PGSHIFT : Z := 12.
Definition PGROUNDUP (sz : Z) : Z := Z.land (u64 (sz + PGSIZE - 1)) (u64 (Z.lnot (PGSIZE - 1))).
Definition PGROUNDDOWN (a : Z) : Z := Z.land a (u64 (Z.lnot (PGSIZE - 1))).

Definition PTE_V : Z := Z.shiftl 1 0.
Definition PTE_R : Z := Z.shiftl 1 1.
Definition PTE_W : Z := Z.shiftl 1 2.
Definition PTE_X : Z := Z.shiftl 1 3.
Definition PTE_U : Z := Z.shiftl 1 4.

Definition PA2PTE (pa : Z) : Z := u64 (Z.shiftl (Z.shiftr pa 12) 10).
Definition PTE2PA (pte : Z) : Z := u64 (Z.shiftl (Z.shiftr pte 10) 12).
Definition PTE_FLAGS (pte : Z) : Z := Z.land pte 1023.

Definition PXMASK : Z := 511.
Definition PXSHIFT (level : Z) : Z := PGSHIFT + 9 * level.
Definition PX (level va : Z) : Z := Z.land (Z.shiftr va (PXSHIFT level)) PXMASK.
Definition MAXVA : Z := Z.shiftl 1 (9 + 9 + 9 + 12 - 1).

(** ** kernel/memlayout.h *)
Definition UART0 : Z := 268435456.
Definition VIRTIO0 : Z := 268439552.
Definition PLIC : Z := 201326592.
Definition KERNBASE : Z := 2147483648.
Definition PHYSTOP : Z := KERNBASE + 128 * 1024 * 1024.
Definition TRAMPOLINE : Z := MAXVA - PGSIZE.
Definition KSTACK (p : Z) : Z := TRAMPOLINE - (p + 1) * 2 * PGSIZE.
Definition TRAPFRAME : Z := TRAMPOLINE - PGSIZE.

(** ** kernel/fs.h *)
Definition ROOTINO : Z := 1.
Definition BSIZE : Z := 1024.
Definition FSMAGIC : Z := 270544960.
Definition NDIRECT : Z := 12.
Definition NINDIRECT : Z := BSIZE / 4.
Definition MAXFILE : Z := NDIRECT + NINDIRECT.
Definition IPB : Z := BSIZE / 64.
Definition BPB : Z := BSIZE * 8.
Definition DIRSIZ : Z := 14.

(** ** Linker symbols (kernel/kernel.ld)

    Their values are fixed by the link of the kernel image; what the code
    relies on is stated by [linker_ok]. *)
Class Linker := {
  end_sym : Z;        (* first address after the kernel *)
  etext_sym : Z;      (* end of kernel text *)
  trampoline_sym : Z  (* the trampoline page *)
}.

Definition page_aligned (a : Z) : Prop := a mod PGSIZE = 0.

Record linker_ok `{Linker} : Prop := {
  end_lo : KERNBASE <= etext_sym <= end_sym;
  end_hi : end_sym <= PHYSTOP;
  etext_aligned : page_aligned etext_sym;
  trampoline_aligned : page_aligned trampoline_sym;
  trampoline_range : KERNBASE <= trampoline_sym < etext_sym
}.

(** A link of the kernel image. *)
Definition link0 : Linker := {|
  end_sym := KERNBASE + 34 * PGSIZE;
  etext_sym := KERNBASE + 8 * PGSIZE;
  trampoline_sym := KERNBASE + 7 * PGSIZE
|}.

(** The [k]-th page of RAM. *)
Definition pg (k : Z) : Z := KERNBASE + k * PGSIZE.

Lemma link0_ok : @linker_ok link0.
Proof. by split. Qed.

(** ** Arithmetic of pages *)
Lemma PGSIZEn_Z : Z.of_nat PGSIZEn = PGSIZE.
Proof. unfold PGSIZEn. by rewrite Z2Nat.id. Qed.
#[global] Opaque PGSIZEn.

Lemma uN_small w x : 0 <= x < 2 ^ w → uN w x = x.
Proof. intros. unfold uN. by apply Z.mod_small. Qed.

Lemma sN_small w x : 0 < w → - 2 ^ (w - 1) <= x < 2 ^ (w - 1) → sN w x = x.
Proof.
  intros Hw Hx. unfold sN. assert (2 ^ w = 2 * 2 ^ (w - 1)).
  { rewrite <- Z.pow_succ_r by lia. f_equal. lia. }
  rewrite Z.mod_small; lia.
Qed.

Lemma uN_bound w x : 0 <= w → 0 <= uN w x < 2 ^ w.
Proof. intros. unfold uN. apply Z.mod_pos_bound. apply Z.pow_pos_nonneg; lia. Qed.

Lemma land_page_mask a :
  0 <= a < 2 ^ 64 → Z.land a (u64 (Z.lnot (PGSIZE - 1))) = a / PGSIZE * PGSIZE.
Proof.
  intros Ha. change (u64 (Z.lnot (PGSIZE - 1))) with (Z.shiftl (Z.ones 52) 12).
  change PGSIZE with (2 ^ 12) at 1 2.
  rewrite <-Z.shiftr_div_pow2, <-Z.shiftl_mul_pow2 by lia.
  apply Z.bits_inj'. intros n Hn. rewrite Z.land_spec.
  destruct (decide (n < 12)).
  - rewrite !Z.shiftl_spec_low by lia. by rewrite andb_false_r.
  - rewrite !Z.shiftl_spec, Z.shiftr_spec by lia.
    replace (n - 12 + 12) with n by lia.
    destruct (decide (n < 64)).
    + rewrite Z.ones_spec_low by lia. by rewrite andb_true_r.
    + rewrite Z.ones_spec_high by lia. rewrite andb_false_r. symmetry.
      destruct (decide (a = 0)) as [->|]; [apply Z.testbit_0_l|].
      apply Z.bits_above_log2; [lia|]. apply Z.log2_lt_pow2; [lia|].
      eapply Z.lt_le_trans; [apply Ha|]. apply Z.pow_le_mono_r; lia.
Qed.

Lemma PGROUNDDOWN_spec a : 0 <= a < 2 ^ 64 → PGROUNDDOWN a = a / PGSIZE * PGSIZE.
Proof. apply land_page_mask. Qed.

Lemma PGROUNDUP_spec a :
  0 <= a → a + PGSIZE - 1 < 2 ^ 64 →
  PGROUNDUP a = (a + PGSIZE - 1) / PGSIZE * PGSIZE.
Proof.
  intros. unfold PGROUNDUP. unfold PGSIZE in *.
  rewrite uN_small by lia. by apply land_page_mask; unfold PGSIZE; lia.
Qed.

(** Page-aligned quantities as multiples of the page size. *)
Lemma page_aligned_mul a : page_aligned a ↔ a = a / PGSIZE * PGSIZE.
Proof.
  unfold page_aligned. pose proof (Z.div_mod a PGSIZE ltac:(done)). lia.
Qed.

Lemma PX_spec level va :
  0 <= level → 0 <= va → PX level va = (va / 2 ^ PXSHIFT level) mod 512.
Proof.
  intros. unfold PX, PXMASK, PXSHIFT, PGSHIFT. change 511 with (Z.ones 9).
  rewrite Z.land_ones, Z.shiftr_div_pow2 by lia. done.
Qed.

(** ** Page-table entries

    [pte_of pa perm] is what walk and mappages store. *)
Lemma shiftr_flags f : 0 <= f < 1024 → Z.shiftr f 10 = 0.
Proof. intros. rewrite Z.shiftr_div_pow2 by lia. by apply Z.div_small. Qed.

Lemma PA2PTE_spec pa : 0 <= pa < 2 ^ 56 → PA2PTE pa = pa / PGSIZE * 1024.
Proof.
  intros Hpa. unfold PA2PTE, PGSIZE. rewrite Z.shiftl_mul_pow2, Z.shiftr_div_pow2 by lia.
  apply uN_small. change (2 ^ 12) with 4096. change (2 ^ 10) with 1024.
  pose proof (Z.div_lt_upper_bound pa 4096 (2 ^ 44)). 
  pose proof (Z.div_pos pa 4096). lia.
Qed.

Lemma PTE2PA_flags pa f :
  0 <= pa < 2 ^ 56 → page_aligned pa → 0 <= f < 1024 →
  PTE2PA (Z.lor (PA2PTE pa) f) = pa.
Proof.
  intros Hpa Ha Hf. unfold PTE2PA.
  rewrite PA2PTE_spec by done. change 1024 with (2 ^ 10).
  rewrite <-Z.shiftl_mul_pow2, Z.shiftr_lor, (shiftr_flags f), Z.lor_0_r by lia.
  rewrite Z.shiftr_shiftl_l by lia. change (10 - 10) with 0. rewrite Z.shiftl_0_r.
  rewrite Z.shiftl_mul_pow2 by lia. change (2 ^ 12) with PGSIZE.
  apply page_aligned_mul in Ha. rewrite <-Ha. apply uN_small. lia.
Qed.

Lemma PA2PTE_flags_bound pa f :
  0 <= pa < 2 ^ 56 → 0 <= f < 1024 → 0 <= Z.lor (PA2PTE pa) f < 2 ^ 54.
Proof.
  intros Hpa Hf. rewrite PA2PTE_spec by done.
  assert (0 <= pa / PGSIZE < 2 ^ 44).
  { unfold PGSIZE. split; [apply Z.div_pos; lia|]. apply Z.div_lt_upper_bound; lia. }
  split; [apply Z.lor_nonneg; lia|].
  destruct (decide (Z.lor (pa / PGSIZE * 1024) f = 0)) as [->|]; [done|].
  apply Z.log2_lt_pow2; [assert (0 <= Z.lor (pa / PGSIZE * 1024) f) by (apply Z.lor_nonneg; lia); lia|].
  rewrite Z.log2_lor by lia. apply Z.max_lub_lt.
  - destruct (decide (pa / PGSIZE = 0)) as [->|]; [done|]. apply Z.log2_lt_pow2; lia.
  - destruct (decide (f = 0)) as [->|]; [done|]. apply Z.log2_lt_pow2; lia.
Qed.

Lemma land_lor_flags x f m :
  x mod 1024 = 0 → 0 <= m < 1024 → Z.land (Z.lor x f) m = Z.land f m.
Proof.
  intros Hx Hm. rewrite Z.land_lor_distr_l.
  assert (Z.land x m = 0) as ->; [|by rewrite Z.lor_0_l].
  apply Z.bits_inj'. intros n Hn. rewrite Z.land_spec, Z.testbit_0_l.
  destruct (decide (n < 10)).
  - rewrite (Z.div_mod x 1024), Hx, Z.add_0_r, Z.mul_comm by done.
    change 1024 with (2 ^ 10). by rewrite Z.mul_pow2_bits_low.
  - destruct (decide (m = 0)) as [->|]; [by rewrite Z.testbit_0_l, andb_false_r|].
    rewrite (Z.bits_above_log2 m), andb_false_r; [done|lia|].
    apply Z.log2_lt_pow2; [lia|]. eapply Z.lt_le_trans; [apply Hm|].
    change 1024 with (2 ^ 10). apply Z.pow_le_mono_r; lia.
Qed.

Lemma PA2PTE_mod pa : 0 <= pa < 2 ^ 56 → PA2PTE pa mod 1024 = 0.
Proof. intros. rewrite PA2PTE_spec by done. apply Z.mod_mul. done. Qed.
