(* ===== verification/State.v ===== *)
(** * Kernel data structures and global variables

    The structs of kernel/*.h as records, pointers to a table entry as an index
    into that table, and all global variables of the kernel as one record
    [sys].  Together with physical memory ([Mem.st]) it is the state every
    kernel function of the model works on: [K A] is [M (st sys) A].

    Spin locks appear here through the interface that Spinlock.v establishes for
    kernel/spinlock.c: [held] is the list of spin locks this CPU holds (its
    length is [mycpu()->noff]), [acquire] panics when the lock is already held
    by this CPU and [release] when it is not. *)
From S2P Require Import Prelude.
From S2P Require Import Mem.
From S2P Require Import Params.

(** ** Locks and wait channels *)
Inductive lockid : Type :=
| Lkmem | Lpid | Lwait | Lbcache | Litable | Lftable | Llog | Lcons | Ltx | Lpr
| Lticks | Lvdisk
| Lproc (i : nat)           (* proc[i].lock *)
| Lpipe (pa : Z)            (* pi->lock of the pipe at address pa *)
| Lbuf (i : nat)            (* bcache.buf[i].lock.lk *)
| Linode (i : nat).         (* itable.inode[i].lock.lk *)
#[export] Instance lockid_eq_dec : EqDecision lockid.
Proof. solve_decision. Defined.

(** The addresses that [sleep] and [wakeup] take as [void *chan]. *)
Inductive channel : Type :=
| ChProc (i : nat)          (* &proc[i], used by kwait *)
| ChLog                     (* &log *)
| ChTicks                   (* &ticks *)
| ChConsR                   (* &cons.r *)
| ChTx                      (* &tx_chan *)
| ChDiskFree                (* &disk.free[0] *)
| ChBuf (i : nat)           (* b, in virtio_disk_rw *)
| ChPipeR (pa : Z)          (* &pi->nread *)
| ChPipeW (pa : Z)          (* &pi->nwrite *)
| ChSlBuf (i : nat)         (* &b->lock *)
| ChSlInode (i : nat).      (* &ip->lock *)
#[export] Instance channel_eq_dec : EqDecision channel.
Proof. solve_decision. Defined.

(** ** kernel/sleeplock.h *)
Record sleeplock : Type := SleepLock {
  sl_locked : bool;
  sl_pid : Z }.

#[export] Instance set_sl_locked : Setter sl_locked := λ g r,
  SleepLock
    (g (sl_locked r)) (sl_pid r).
#[export] Instance set_sl_pid : Setter sl_pid := λ g r,
  SleepLock
    (sl_locked r) (g (sl_pid r)).

(** ** kernel/proc.h *)
Inductive procstate : Type := UNUSED | USED | SLEEPING | RUNNABLE | RUNNING | ZOMBIE.
#[export] Instance procstate_eq_dec : EqDecision procstate.
Proof. solve_decision. Defined.

(** Saved registers for kernel context switches; [ctx_s] is s0 to s11. *)
Record context : Type := Context {
  ctx_ra : Z;
  ctx_sp : Z;
  ctx_s : list Z }.

#[export] Instance set_ctx_ra : Setter ctx_ra := λ g r,
  Context
    (g (ctx_ra r)) (ctx_sp r) (ctx_s r).
#[export] Instance set_ctx_sp : Setter ctx_sp := λ g r,
  Context
    (ctx_ra r) (g (ctx_sp r)) (ctx_s r).
#[export] Instance set_ctx_s : Setter ctx_s := λ g r,
  Context
    (ctx_ra r) (ctx_sp r) (g (ctx_s r)).

Record proc : Type := Proc {
  p_state : procstate;
  p_chan : option channel;
  p_killed : Z;
  p_xstate : Z;
  p_pid : Z;
  p_parent : option nat;
  p_kstack : Z;
  p_sz : Z;
  p_pagetable : Z;
  p_trapframe : Z;
  p_context : context;
  p_ofile : list (option nat);
  p_cwd : option nat;
  p_name : list Z }.

#[export] Instance set_p_state : Setter p_state := λ g r,
  Proc
    (g (p_state r)) (p_chan r) (p_killed r) (p_xstate r) (p_pid r)
    (p_parent r) (p_kstack r) (p_sz r) (p_pagetable r) (p_trapframe r)
    (p_context r) (p_ofile r) (p_cwd r) (p_name r).
#[export] Instance set_p_chan : Setter p_chan := λ g r,
  Proc
    (p_state r) (g (p_chan r)) (p_killed r) (p_xstate r) (p_pid r)
    (p_parent r) (p_kstack r) (p_sz r) (p_pagetable r) (p_trapframe r)
    (p_context r) (p_ofile r) (p_cwd r) (p_name r).
#[export] Instance set_p_killed : Setter p_killed := λ g r,
  Proc
    (p_state r) (p_chan r) (g (p_killed r)) (p_xstate r) (p_pid r)
    (p_parent r) (p_kstack r) (p_sz r) (p_pagetable r) (p_trapframe r)
    (p_context r) (p_ofile r) (p_cwd r) (p_name r).
#[export] Instance set_p_xstate : Setter p_xstate := λ g r,
  Proc
    (p_state r) (p_chan r) (p_killed r) (g (p_xstate r)) (p_pid r)
    (p_parent r) (p_kstack r) (p_sz r) (p_pagetable r) (p_trapframe r)
    (p_context r) (p_ofile r) (p_cwd r) (p_name r).
#[export] Instance set_p_pid : Setter p_pid := λ g r,
  Proc
    (p_state r) (p_chan r) (p_killed r) (p_xstate r) (g (p_pid r))
    (p_parent r) (p_kstack r) (p_sz r) (p_pagetable r) (p_trapframe r)
    (p_context r) (p_ofile r) (p_cwd r) (p_name r).
#[export] Instance set_p_parent : Setter p_parent := λ g r,
  Proc
    (p_state r) (p_chan r) (p_killed r) (p_xstate r) (p_pid r)
    (g (p_parent r)) (p_kstack r) (p_sz r) (p_pagetable r) (p_trapframe r)
    (p_context r) (p_ofile r) (p_cwd r) (p_name r).
#[export] Instance set_p_kstack : Setter p_kstack := λ g r,
  Proc
    (p_state r) (p_chan r) (p_killed r) (p_xstate r) (p_pid r) (p_parent r)
    (g (p_kstack r)) (p_sz r) (p_pagetable r) (p_trapframe r) (p_context r)
    (p_ofile r) (p_cwd r) (p_name r).
#[export] Instance set_p_sz : Setter p_sz := λ g r,
  Proc
    (p_state r) (p_chan r) (p_killed r) (p_xstate r) (p_pid r) (p_parent r)
    (p_kstack r) (g (p_sz r)) (p_pagetable r) (p_trapframe r) (p_context r)
    (p_ofile r) (p_cwd r) (p_name r).
#[export] Instance set_p_pagetable : Setter p_pagetable := λ g r,
  Proc
    (p_state r) (p_chan r) (p_killed r) (p_xstate r) (p_pid r) (p_parent r)
    (p_kstack r) (p_sz r) (g (p_pagetable r)) (p_trapframe r) (p_context r)
    (p_ofile r) (p_cwd r) (p_name r).
#[export] Instance set_p_trapframe : Setter p_trapframe := λ g r,
  Proc
    (p_state r) (p_chan r) (p_killed r) (p_xstate r) (p_pid r) (p_parent r)
    (p_kstack r) (p_sz r) (p_pagetable r) (g (p_trapframe r)) (p_context r)
    (p_ofile r) (p_cwd r) (p_name r).
#[export] Instance set_p_context : Setter p_context := λ g r,
  Proc
    (p_state r) (p_chan r) (p_killed r) (p_xstate r) (p_pid r) (p_parent r)
    (p_kstack r) (p_sz r) (p_pagetable r) (p_trapframe r) (g (p_context r))
    (p_ofile r) (p_cwd r) (p_name r).
#[export] Instance set_p_ofile : Setter p_ofile := λ g r,
  Proc
    (p_state r) (p_chan r) (p_killed r) (p_xstate r) (p_pid r) (p_parent r)
    (p_kstack r) (p_sz r) (p_pagetable r) (p_trapframe r) (p_context r)
    (g (p_ofile r)) (p_cwd r) (p_name r).
#[export] Instance set_p_cwd : Setter p_cwd := λ g r,
  Proc
    (p_state r) (p_chan r) (p_killed r) (p_xstate r) (p_pid r) (p_parent r)
    (p_kstack r) (p_sz r) (p_pagetable r) (p_trapframe r) (p_context r)
    (p_ofile r) (g (p_cwd r)) (p_name r).
#[export] Instance set_p_name : Setter p_name := λ g r,
  Proc
    (p_state r) (p_chan r) (p_killed r) (p_xstate r) (p_pid r) (p_parent r)
    (p_kstack r) (p_sz r) (p_pagetable r) (p_trapframe r) (p_context r)
    (p_ofile r) (p_cwd r) (g (p_name r)).

(** ** kernel/buf.h, kernel/bio.c

    Buffer [i < NBUF] is [bcache.buf[i]]; index [NBUF] is [bcache.head]. *)
Record buf : Type := Buf {
  b_valid : bool;
  b_disk : bool;
  b_dev : Z;
  b_blockno : Z;
  b_lock : sleeplock;
  b_refcnt : Z;
  b_prev : nat;
  b_next : nat;
  b_data : list Z }.

#[export] Instance set_b_valid : Setter b_valid := λ g r,
  Buf
    (g (b_valid r)) (b_disk r) (b_dev r) (b_blockno r) (b_lock r) (b_refcnt r)
    (b_prev r) (b_next r) (b_data r).
#[export] Instance set_b_disk : Setter b_disk := λ g r,
  Buf
    (b_valid r) (g (b_disk r)) (b_dev r) (b_blockno r) (b_lock r) (b_refcnt r)
    (b_prev r) (b_next r) (b_data r).
#[export] Instance set_b_dev : Setter b_dev := λ g r,
  Buf
    (b_valid r) (b_disk r) (g (b_dev r)) (b_blockno r) (b_lock r) (b_refcnt r)
    (b_prev r) (b_next r) (b_data r).
#[export] Instance set_b_blockno : Setter b_blockno := λ g r,
  Buf
    (b_valid r) (b_disk r) (b_dev r) (g (b_blockno r)) (b_lock r) (b_refcnt r)
    (b_prev r) (b_next r) (b_data r).
#[export] Instance set_b_lock : Setter b_lock := λ g r,
  Buf
    (b_valid r) (b_disk r) (b_dev r) (b_blockno r) (g (b_lock r)) (b_refcnt r)
    (b_prev r) (b_next r) (b_data r).
#[export] Instance set_b_refcnt : Setter b_refcnt := λ g r,
  Buf
    (b_valid r) (b_disk r) (b_dev r) (b_blockno r) (b_lock r) (g (b_refcnt r))
    (b_prev r) (b_next r) (b_data r).
#[export] Instance set_b_prev : Setter b_prev := λ g r,
  Buf
    (b_valid r) (b_disk r) (b_dev r) (b_blockno r) (b_lock r) (b_refcnt r)
    (g (b_prev r)) (b_next r) (b_data r).
#[export] Instance set_b_next : Setter b_next := λ g r,
  Buf
    (b_valid r) (b_disk r) (b_dev r) (b_blockno r) (b_lock r) (b_refcnt r)
    (b_prev r) (g (b_next r)) (b_data r).
#[export] Instance set_b_data : Setter b_data := λ g r,
  Buf
    (b_valid r) (b_disk r) (b_dev r) (b_blockno r) (b_lock r) (b_refcnt r)
    (b_prev r) (b_next r) (g (b_data r)).

(** ** kernel/fs.h: the superblock *)
Record superblock : Type := SuperBlock {
  sb_magic : Z;
  sb_size : Z;
  sb_nblocks : Z;
  sb_ninodes : Z;
  sb_nlog : Z;
  sb_logstart : Z;
  sb_inodestart : Z;
  sb_bmapstart : Z }.

#[export] Instance set_sb_magic : Setter sb_magic := λ g r,
  SuperBlock
    (g (sb_magic r)) (sb_size r) (sb_nblocks r) (sb_ninodes r) (sb_nlog r)
    (sb_logstart r) (sb_inodestart r) (sb_bmapstart r).
#[export] Instance set_sb_size : Setter sb_size := λ g r,
  SuperBlock
    (sb_magic r) (g (sb_size r)) (sb_nblocks r) (sb_ninodes r) (sb_nlog r)
    (sb_logstart r) (sb_inodestart r) (sb_bmapstart r).
#[export] Instance set_sb_nblocks : Setter sb_nblocks := λ g r,
  SuperBlock
    (sb_magic r) (sb_size r) (g (sb_nblocks r)) (sb_ninodes r) (sb_nlog r)
    (sb_logstart r) (sb_inodestart r) (sb_bmapstart r).
#[export] Instance set_sb_ninodes : Setter sb_ninodes := λ g r,
  SuperBlock
    (sb_magic r) (sb_size r) (sb_nblocks r) (g (sb_ninodes r)) (sb_nlog r)
    (sb_logstart r) (sb_inodestart r) (sb_bmapstart r).
#[export] Instance set_sb_nlog : Setter sb_nlog := λ g r,
  SuperBlock
    (sb_magic r) (sb_size r) (sb_nblocks r) (sb_ninodes r) (g (sb_nlog r))
    (sb_logstart r) (sb_inodestart r) (sb_bmapstart r).
#[export] Instance set_sb_logstart : Setter sb_logstart := λ g r,
  SuperBlock
    (sb_magic r) (sb_size r) (sb_nblocks r) (sb_ninodes r) (sb_nlog r)
    (g (sb_logstart r)) (sb_inodestart r) (sb_bmapstart r).
#[export] Instance set_sb_inodestart : Setter sb_inodestart := λ g r,
  SuperBlock
    (sb_magic r) (sb_size r) (sb_nblocks r) (sb_ninodes r) (sb_nlog r)
    (sb_logstart r) (g (sb_inodestart r)) (sb_bmapstart r).
#[export] Instance set_sb_bmapstart : Setter sb_bmapstart := λ g r,
  SuperBlock
    (sb_magic r) (sb_size r) (sb_nblocks r) (sb_ninodes r) (sb_nlog r)
    (sb_logstart r) (sb_inodestart r) (g (sb_bmapstart r)).

(** ** kernel/log.c: struct log; [lh_block] is the array of LOGBLOCKS ints *)
Record logst : Type := LogSt {
  lg_start : Z;
  lg_outstanding : Z;
  lg_committing : bool;
  lg_dev : Z;
  lh_n : Z;
  lh_block : list Z }.

#[export] Instance set_lg_start : Setter lg_start := λ g r,
  LogSt
    (g (lg_start r)) (lg_outstanding r) (lg_committing r) (lg_dev r) (lh_n r)
    (lh_block r).
#[export] Instance set_lg_outstanding : Setter lg_outstanding := λ g r,
  LogSt
    (lg_start r) (g (lg_outstanding r)) (lg_committing r) (lg_dev r) (lh_n r)
    (lh_block r).
#[export] Instance set_lg_committing : Setter lg_committing := λ g r,
  LogSt
    (lg_start r) (lg_outstanding r) (g (lg_committing r)) (lg_dev r) (lh_n r)
    (lh_block r).
#[export] Instance set_lg_dev : Setter lg_dev := λ g r,
  LogSt
    (lg_start r) (lg_outstanding r) (lg_committing r) (g (lg_dev r)) (lh_n r)
    (lh_block r).
#[export] Instance set_lh_n : Setter lh_n := λ g r,
  LogSt
    (lg_start r) (lg_outstanding r) (lg_committing r) (lg_dev r) (g (lh_n r))
    (lh_block r).
#[export] Instance set_lh_block : Setter lh_block := λ g r,
  LogSt
    (lg_start r) (lg_outstanding r) (lg_committing r) (lg_dev r) (lh_n r)
    (g (lh_block r)).

(** ** kernel/file.h *)
Inductive filetype : Type := FD_NONE | FD_PIPE | FD_INODE | FD_DEVICE.
#[export] Instance filetype_eq_dec : EqDecision filetype.
Proof. solve_decision. Defined.

Record file : Type := File {
  f_type : filetype;
  f_ref : Z;
  f_readable : bool;
  f_writable : bool;
  f_pipe : Z;
  f_ip : nat;
  f_off : Z;
  f_major : Z }.

#[export] Instance set_f_type : Setter f_type := λ g r,
  File
    (g (f_type r)) (f_ref r) (f_readable r) (f_writable r) (f_pipe r) (f_ip r)
    (f_off r) (f_major r).
#[export] Instance set_f_ref : Setter f_ref := λ g r,
  File
    (f_type r) (g (f_ref r)) (f_readable r) (f_writable r) (f_pipe r) (f_ip r)
    (f_off r) (f_major r).
#[export] Instance set_f_readable : Setter f_readable := λ g r,
  File
    (f_type r) (f_ref r) (g (f_readable r)) (f_writable r) (f_pipe r) (f_ip r)
    (f_off r) (f_major r).
#[export] Instance set_f_writable : Setter f_writable := λ g r,
  File
    (f_type r) (f_ref r) (f_readable r) (g (f_writable r)) (f_pipe r) (f_ip r)
    (f_off r) (f_major r).
#[export] Instance set_f_pipe : Setter f_pipe := λ g r,
  File
    (f_type r) (f_ref r) (f_readable r) (f_writable r) (g (f_pipe r)) (f_ip r)
    (f_off r) (f_major r).
#[export] Instance set_f_ip : Setter f_ip := λ g r,
  File
    (f_type r) (f_ref r) (f_readable r) (f_writable r) (f_pipe r) (g (f_ip r))
    (f_off r) (f_major r).
#[export] Instance set_f_off : Setter f_off := λ g r,
  File
    (f_type r) (f_ref r) (f_readable r) (f_writable r) (f_pipe r) (f_ip r)
    (g (f_off r)) (f_major r).
#[export] Instance set_f_major : Setter f_major := λ g r,
  File
    (f_type r) (f_ref r) (f_readable r) (f_writable r) (f_pipe r) (f_ip r)
    (f_off r) (g (f_major r)).

(** In-memory copy of an inode; [i_addrs] has NDIRECT+1 entries. *)
Record inode : Type := Inode {
  i_dev : Z;
  i_inum : Z;
  i_ref : Z;
  i_lock : sleeplock;
  i_valid : bool;
  i_type : Z;
  i_major : Z;
  i_minor : Z;
  i_nlink : Z;
  i_size : Z;
  i_addrs : list Z }.

#[export] Instance set_i_dev : Setter i_dev := λ g r,
  Inode
    (g (i_dev r)) (i_inum r) (i_ref r) (i_lock r) (i_valid r) (i_type r)
    (i_major r) (i_minor r) (i_nlink r) (i_size r) (i_addrs r).
#[export] Instance set_i_inum : Setter i_inum := λ g r,
  Inode
    (i_dev r) (g (i_inum r)) (i_ref r) (i_lock r) (i_valid r) (i_type r)
    (i_major r) (i_minor r) (i_nlink r) (i_size r) (i_addrs r).
#[export] Instance set_i_ref : Setter i_ref := λ g r,
  Inode
    (i_dev r) (i_inum r) (g (i_ref r)) (i_lock r) (i_valid r) (i_type r)
    (i_major r) (i_minor r) (i_nlink r) (i_size r) (i_addrs r).
#[export] Instance set_i_lock : Setter i_lock := λ g r,
  Inode
    (i_dev r) (i_inum r) (i_ref r) (g (i_lock r)) (i_valid r) (i_type r)
    (i_major r) (i_minor r) (i_nlink r) (i_size r) (i_addrs r).
#[export] Instance set_i_valid : Setter i_valid := λ g r,
  Inode
    (i_dev r) (i_inum r) (i_ref r) (i_lock r) (g (i_valid r)) (i_type r)
    (i_major r) (i_minor r) (i_nlink r) (i_size r) (i_addrs r).
#[export] Instance set_i_type : Setter i_type := λ g r,
  Inode
    (i_dev r) (i_inum r) (i_ref r) (i_lock r) (i_valid r) (g (i_type r))
    (i_major r) (i_minor r) (i_nlink r) (i_size r) (i_addrs r).
#[export] Instance set_i_major : Setter i_major := λ g r,
  Inode
    (i_dev r) (i_inum r) (i_ref r) (i_lock r) (i_valid r) (i_type r)
    (g (i_major r)) (i_minor r) (i_nlink r) (i_size r) (i_addrs r).
#[export] Instance set_i_minor : Setter i_minor := λ g r,
  Inode
    (i_dev r) (i_inum r) (i_ref r) (i_lock r) (i_valid r) (i_type r)
    (i_major r) (g (i_minor r)) (i_nlink r) (i_size r) (i_addrs r).
#[export] Instance set_i_nlink : Setter i_nlink := λ g r,
  Inode
    (i_dev r) (i_inum r) (i_ref r) (i_lock r) (i_valid r) (i_type r)
    (i_major r) (i_minor r) (g (i_nlink r)) (i_size r) (i_addrs r).
#[export] Instance set_i_size : Setter i_size := λ g r,
  Inode
    (i_dev r) (i_inum r) (i_ref r) (i_lock r) (i_valid r) (i_type r)
    (i_major r) (i_minor r) (i_nlink r) (g (i_size r)) (i_addrs r).
#[export] Instance set_i_addrs : Setter i_addrs := λ g r,
  Inode
    (i_dev r) (i_inum r) (i_ref r) (i_lock r) (i_valid r) (i_type r)
    (i_major r) (i_minor r) (i_nlink r) (i_size r) (g (i_addrs r)).

(** ** kernel/pipe.c *)
Record pipe : Type := Pipe {
  pi_data : list Z;
  pi_nread : Z;
  pi_nwrite : Z;
  pi_readopen : bool;
  pi_writeopen : bool }.

#[export] Instance set_pi_data : Setter pi_data := λ g r,
  Pipe
    (g (pi_data r)) (pi_nread r) (pi_nwrite r) (pi_readopen r)
    (pi_writeopen r).
#[export] Instance set_pi_nread : Setter pi_nread := λ g r,
  Pipe
    (pi_data r) (g (pi_nread r)) (pi_nwrite r) (pi_readopen r)
    (pi_writeopen r).
#[export] Instance set_pi_nwrite : Setter pi_nwrite := λ g r,
  Pipe
    (pi_data r) (pi_nread r) (g (pi_nwrite r)) (pi_readopen r)
    (pi_writeopen r).
#[export] Instance set_pi_readopen : Setter pi_readopen := λ g r,
  Pipe
    (pi_data r) (pi_nread r) (pi_nwrite r) (g (pi_readopen r))
    (pi_writeopen r).
#[export] Instance set_pi_writeopen : Setter pi_writeopen := λ g r,
  Pipe
    (pi_data r) (pi_nread r) (pi_nwrite r) (pi_readopen r)
    (g (pi_writeopen r)).

(** ** kernel/console.c *)
Record consst : Type := ConsSt {
  c_buf : list Z;
  c_r : Z;
  c_w : Z;
  c_e : Z }.

#[export] Instance set_c_buf : Setter c_buf := λ g r,
  ConsSt
    (g (c_buf r)) (c_r r) (c_w r) (c_e r).
#[export] Instance set_c_r : Setter c_r := λ g r,
  ConsSt
    (c_buf r) (g (c_r r)) (c_w r) (c_e r).
#[export] Instance set_c_w : Setter c_w := λ g r,
  ConsSt
    (c_buf r) (c_r r) (g (c_w r)) (c_e r).
#[export] Instance set_c_e : Setter c_e := λ g r,
  ConsSt
    (c_buf r) (c_r r) (c_w r) (g (c_e r)).

(** ** All global variables

    [cur] is [mycpu()->proc]; [nswtch] counts the context switches made so far;
    [disk] is the content of the disk and [dtrace] the block writes it has
    accepted, oldest first; [uart_out] is what the UART has sent. *)
(** ** kernel/virtio_disk.c, kernel/virtio.h

    Addresses the driver gives to the device: a request header, the data of a
    buffer, the status byte of a request. *)
Inductive dmaaddr : Type := ANone | AOps (i : Z) | AData (b : nat) | AStatus (i : Z).

Record vdesc : Type := VDesc {
  vd_addr : dmaaddr;
  vd_len : Z;
  vd_flags : Z;
  vd_next : Z }.

#[export] Instance set_vd_addr : Setter vd_addr := λ g r,
  VDesc
    (g (vd_addr r)) (vd_len r) (vd_flags r) (vd_next r).
#[export] Instance set_vd_len : Setter vd_len := λ g r,
  VDesc
    (vd_addr r) (g (vd_len r)) (vd_flags r) (vd_next r).
#[export] Instance set_vd_flags : Setter vd_flags := λ g r,
  VDesc
    (vd_addr r) (vd_len r) (g (vd_flags r)) (vd_next r).
#[export] Instance set_vd_next : Setter vd_next := λ g r,
  VDesc
    (vd_addr r) (vd_len r) (vd_flags r) (g (vd_next r)).
Record vdiskst : Type := VDisk {
  vq_free : list bool;
  vq_desc : list vdesc;
  vq_avail_idx : Z;
  vq_avail_ring : list Z;
  vq_hw_used : Z;
  vq_used_ring : list Z;
  vq_used_idx : Z;
  vq_info_b : list (option nat);
  vq_info_status : list Z;
  vq_ops : list (Z * Z) }.

#[export] Instance set_vq_free : Setter vq_free := λ g r,
  VDisk
    (g (vq_free r)) (vq_desc r) (vq_avail_idx r) (vq_avail_ring r)
    (vq_hw_used r) (vq_used_ring r) (vq_used_idx r) (vq_info_b r)
    (vq_info_status r) (vq_ops r).
#[export] Instance set_vq_desc : Setter vq_desc := λ g r,
  VDisk
    (vq_free r) (g (vq_desc r)) (vq_avail_idx r) (vq_avail_ring r)
    (vq_hw_used r) (vq_used_ring r) (vq_used_idx r) (vq_info_b r)
    (vq_info_status r) (vq_ops r).
#[export] Instance set_vq_avail_idx : Setter vq_avail_idx := λ g r,
  VDisk
    (vq_free r) (vq_desc r) (g (vq_avail_idx r)) (vq_avail_ring r)
    (vq_hw_used r) (vq_used_ring r) (vq_used_idx r) (vq_info_b r)
    (vq_info_status r) (vq_ops r).
#[export] Instance set_vq_avail_ring : Setter vq_avail_ring := λ g r,
  VDisk
    (vq_free r) (vq_desc r) (vq_avail_idx r) (g (vq_avail_ring r))
    (vq_hw_used r) (vq_used_ring r) (vq_used_idx r) (vq_info_b r)
    (vq_info_status r) (vq_ops r).
#[export] Instance set_vq_hw_used : Setter vq_hw_used := λ g r,
  VDisk
    (vq_free r) (vq_desc r) (vq_avail_idx r) (vq_avail_ring r)
    (g (vq_hw_used r)) (vq_used_ring r) (vq_used_idx r) (vq_info_b r)
    (vq_info_status r) (vq_ops r).
#[export] Instance set_vq_used_ring : Setter vq_used_ring := λ g r,
  VDisk
    (vq_free r) (vq_desc r) (vq_avail_idx r) (vq_avail_ring r) (vq_hw_used r)
    (g (vq_used_ring r)) (vq_used_idx r) (vq_info_b r) (vq_info_status r)
    (vq_ops r).
#[export] Instance set_vq_used_idx : Setter vq_used_idx := λ g r,
  VDisk
    (vq_free r) (vq_desc r) (vq_avail_idx r) (vq_avail_ring r) (vq_hw_used r)
    (vq_used_ring r) (g (vq_used_idx r)) (vq_info_b r) (vq_info_status r)
    (vq_ops r).
#[export] Instance set_vq_info_b : Setter vq_info_b := λ g r,
  VDisk
    (vq_free r) (vq_desc r) (vq_avail_idx r) (vq_avail_ring r) (vq_hw_used r)
    (vq_used_ring r) (vq_used_idx r) (g (vq_info_b r)) (vq_info_status r)
    (vq_ops r).
#[export] Instance set_vq_info_status : Setter vq_info_status := λ g r,
  VDisk
    (vq_free r) (vq_desc r) (vq_avail_idx r) (vq_avail_ring r) (vq_hw_used r)
    (vq_used_ring r) (vq_used_idx r) (vq_info_b r) (g (vq_info_status r))
    (vq_ops r).
#[export] Instance set_vq_ops : Setter vq_ops := λ g r,
  VDisk
    (vq_free r) (vq_desc r) (vq_avail_idx r) (vq_avail_ring r) (vq_hw_used r)
    (vq_used_ring r) (vq_used_idx r) (vq_info_b r) (vq_info_status r)
    (g (vq_ops r)).
Record sys : Type := Sys {
  held : list lockid;
  cur : option nat;
  nswtch : nat;
  freelist : Z;
  procs : list proc;
  nextpid : Z;
  initproc : option nat;
  ticks : Z;
  bufs : list buf;
  disk : gmap Z (list Z);
  dtrace : list (Z * list Z);
  lg : logst;
  sb : superblock;
  itable : list inode;
  ftable : list file;
  pipes : gmap Z pipe;
  cons : consst;
  tx_busy : bool;
  uart_out : list Z;
  uart_rx : list Z;
  uart_idle : bool;
  vdisk : vdiskst;
  forkret_first : bool }.

#[export] Instance set_held : Setter held := λ g r,
  Sys
    (g (held r)) (cur r) (nswtch r) (freelist r) (procs r) (nextpid r)
    (initproc r) (ticks r) (bufs r) (disk r) (dtrace r) (lg r) (sb r)
    (itable r) (ftable r) (pipes r) (cons r) (tx_busy r) (uart_out r)
    (uart_rx r) (uart_idle r) (vdisk r) (forkret_first r).
#[export] Instance set_cur : Setter cur := λ g r,
  Sys
    (held r) (g (cur r)) (nswtch r) (freelist r) (procs r) (nextpid r)
    (initproc r) (ticks r) (bufs r) (disk r) (dtrace r) (lg r) (sb r)
    (itable r) (ftable r) (pipes r) (cons r) (tx_busy r) (uart_out r)
    (uart_rx r) (uart_idle r) (vdisk r) (forkret_first r).
#[export] Instance set_nswtch : Setter nswtch := λ g r,
  Sys
    (held r) (cur r) (g (nswtch r)) (freelist r) (procs r) (nextpid r)
    (initproc r) (ticks r) (bufs r) (disk r) (dtrace r) (lg r) (sb r)
    (itable r) (ftable r) (pipes r) (cons r) (tx_busy r) (uart_out r)
    (uart_rx r) (uart_idle r) (vdisk r) (forkret_first r).
#[export] Instance set_freelist : Setter freelist := λ g r,
  Sys
    (held r) (cur r) (nswtch r) (g (freelist r)) (procs r) (nextpid r)
    (initproc r) (ticks r) (bufs r) (disk r) (dtrace r) (lg r) (sb r)
    (itable r) (ftable r) (pipes r) (cons r) (tx_busy r) (uart_out r)
    (uart_rx r) (uart_idle r) (vdisk r) (forkret_first r).
#[export] Instance set_procs : Setter procs := λ g r,
  Sys
    (held r) (cur r) (nswtch r) (freelist r) (g (procs r)) (nextpid r)
    (initproc r) (ticks r) (bufs r) (disk r) (dtrace r) (lg r) (sb r)
    (itable r) (ftable r) (pipes r) (cons r) (tx_busy r) (uart_out r)
    (uart_rx r) (uart_idle r) (vdisk r) (forkret_first r).
#[export] Instance set_nextpid : Setter nextpid := λ g r,
  Sys
    (held r) (cur r) (nswtch r) (freelist r) (procs r) (g (nextpid r))
    (initproc r) (ticks r) (bufs r) (disk r) (dtrace r) (lg r) (sb r)
    (itable r) (ftable r) (pipes r) (cons r) (tx_busy r) (uart_out r)
    (uart_rx r) (uart_idle r) (vdisk r) (forkret_first r).
#[export] Instance set_initproc : Setter initproc := λ g r,
  Sys
    (held r) (cur r) (nswtch r) (freelist r) (procs r) (nextpid r)
    (g (initproc r)) (ticks r) (bufs r) (disk r) (dtrace r) (lg r) (sb r)
    (itable r) (ftable r) (pipes r) (cons r) (tx_busy r) (uart_out r)
    (uart_rx r) (uart_idle r) (vdisk r) (forkret_first r).
#[export] Instance set_ticks : Setter ticks := λ g r,
  Sys
    (held r) (cur r) (nswtch r) (freelist r) (procs r) (nextpid r)
    (initproc r) (g (ticks r)) (bufs r) (disk r) (dtrace r) (lg r) (sb r)
    (itable r) (ftable r) (pipes r) (cons r) (tx_busy r) (uart_out r)
    (uart_rx r) (uart_idle r) (vdisk r) (forkret_first r).
#[export] Instance set_bufs : Setter bufs := λ g r,
  Sys
    (held r) (cur r) (nswtch r) (freelist r) (procs r) (nextpid r)
    (initproc r) (ticks r) (g (bufs r)) (disk r) (dtrace r) (lg r) (sb r)
    (itable r) (ftable r) (pipes r) (cons r) (tx_busy r) (uart_out r)
    (uart_rx r) (uart_idle r) (vdisk r) (forkret_first r).
#[export] Instance set_disk : Setter disk := λ g r,
  Sys
    (held r) (cur r) (nswtch r) (freelist r) (procs r) (nextpid r)
    (initproc r) (ticks r) (bufs r) (g (disk r)) (dtrace r) (lg r) (sb r)
    (itable r) (ftable r) (pipes r) (cons r) (tx_busy r) (uart_out r)
    (uart_rx r) (uart_idle r) (vdisk r) (forkret_first r).
#[export] Instance set_dtrace : Setter dtrace := λ g r,
  Sys
    (held r) (cur r) (nswtch r) (freelist r) (procs r) (nextpid r)
    (initproc r) (ticks r) (bufs r) (disk r) (g (dtrace r)) (lg r) (sb r)
    (itable r) (ftable r) (pipes r) (cons r) (tx_busy r) (uart_out r)
    (uart_rx r) (uart_idle r) (vdisk r) (forkret_first r).
#[export] Instance set_lg : Setter lg := λ g r,
  Sys
    (held r) (cur r) (nswtch r) (freelist r) (procs r) (nextpid r)
    (initproc r) (ticks r) (bufs r) (disk r) (dtrace r) (g (lg r)) (sb r)
    (itable r) (ftable r) (pipes r) (cons r) (tx_busy r) (uart_out r)
    (uart_rx r) (uart_idle r) (vdisk r) (forkret_first r).
#[export] Instance set_sb : Setter sb := λ g r,
  Sys
    (held r) (cur r) (nswtch r) (freelist r) (procs r) (nextpid r)
    (initproc r) (ticks r) (bufs r) (disk r) (dtrace r) (lg r) (g (sb r))
    (itable r) (ftable r) (pipes r) (cons r) (tx_busy r) (uart_out r)
    (uart_rx r) (uart_idle r) (vdisk r) (forkret_first r).
#[export] Instance set_itable : Setter itable := λ g r,
  Sys
    (held r) (cur r) (nswtch r) (freelist r) (procs r) (nextpid r)
    (initproc r) (ticks r) (bufs r) (disk r) (dtrace r) (lg r) (sb r)
    (g (itable r)) (ftable r) (pipes r) (cons r) (tx_busy r) (uart_out r)
    (uart_rx r) (uart_idle r) (vdisk r) (forkret_first r).
#[export] Instance set_ftable : Setter ftable := λ g r,
  Sys
    (held r) (cur r) (nswtch r) (freelist r) (procs r) (nextpid r)
    (initproc r) (ticks r) (bufs r) (disk r) (dtrace r) (lg r) (sb r)
    (itable r) (g (ftable r)) (pipes r) (cons r) (tx_busy r) (uart_out r)
    (uart_rx r) (uart_idle r) (vdisk r) (forkret_first r).
#[export] Instance set_pipes : Setter pipes := λ g r,
  Sys
    (held r) (cur r) (nswtch r) (freelist r) (procs r) (nextpid r)
    (initproc r) (ticks r) (bufs r) (disk r) (dtrace r) (lg r) (sb r)
    (itable r) (ftable r) (g (pipes r)) (cons r) (tx_busy r) (uart_out r)
    (uart_rx r) (uart_idle r) (vdisk r) (forkret_first r).
#[export] Instance set_cons : Setter cons := λ g r,
  Sys
    (held r) (cur r) (nswtch r) (freelist r) (procs r) (nextpid r)
    (initproc r) (ticks r) (bufs r) (disk r) (dtrace r) (lg r) (sb r)
    (itable r) (ftable r) (pipes r) (g (cons r)) (tx_busy r) (uart_out r)
    (uart_rx r) (uart_idle r) (vdisk r) (forkret_first r).
#[export] Instance set_tx_busy : Setter tx_busy := λ g r,
  Sys
    (held r) (cur r) (nswtch r) (freelist r) (procs r) (nextpid r)
    (initproc r) (ticks r) (bufs r) (disk r) (dtrace r) (lg r) (sb r)
    (itable r) (ftable r) (pipes r) (cons r) (g (tx_busy r)) (uart_out r)
    (uart_rx r) (uart_idle r) (vdisk r) (forkret_first r).
#[export] Instance set_uart_out : Setter uart_out := λ g r,
  Sys
    (held r) (cur r) (nswtch r) (freelist r) (procs r) (nextpid r)
    (initproc r) (ticks r) (bufs r) (disk r) (dtrace r) (lg r) (sb r)
    (itable r) (ftable r) (pipes r) (cons r) (tx_busy r) (g (uart_out r))
    (uart_rx r) (uart_idle r) (vdisk r) (forkret_first r).
#[export] Instance set_uart_rx : Setter uart_rx := λ g r,
  Sys
    (held r) (cur r) (nswtch r) (freelist r) (procs r) (nextpid r)
    (initproc r) (ticks r) (bufs r) (disk r) (dtrace r) (lg r) (sb r)
    (itable r) (ftable r) (pipes r) (cons r) (tx_busy r) (uart_out r)
    (g (uart_rx r)) (uart_idle r) (vdisk r) (forkret_first r).
#[export] Instance set_uart_idle : Setter uart_idle := λ g r,
  Sys
    (held r) (cur r) (nswtch r) (freelist r) (procs r) (nextpid r)
    (initproc r) (ticks r) (bufs r) (disk r) (dtrace r) (lg r) (sb r)
    (itable r) (ftable r) (pipes r) (cons r) (tx_busy r) (uart_out r)
    (uart_rx r) (g (uart_idle r)) (vdisk r) (forkret_first r).
#[export] Instance set_vdisk : Setter vdisk := λ g r,
  Sys
    (held r) (cur r) (nswtch r) (freelist r) (procs r) (nextpid r)
    (initproc r) (ticks r) (bufs r) (disk r) (dtrace r) (lg r) (sb r)
    (itable r) (ftable r) (pipes r) (cons r) (tx_busy r) (uart_out r)
    (uart_rx r) (uart_idle r) (g (vdisk r)) (forkret_first r).
#[export] Instance set_forkret_first : Setter forkret_first := λ g r,
  Sys
    (held r) (cur r) (nswtch r) (freelist r) (procs r) (nextpid r)
    (initproc r) (ticks r) (bufs r) (disk r) (dtrace r) (lg r) (sb r)
    (itable r) (ftable r) (pipes r) (cons r) (tx_busy r) (uart_out r)
    (uart_rx r) (uart_idle r) (vdisk r) (g (forkret_first r)).

Abbreviation K := (M (st sys)).

(** Reading and updating the globals. *)
Definition rd {A} (f : sys → A) : K A := λ s, Ok (f (rest s)) s.
Definition upd (g : sys → sys) : K unit := λ s, Ok tt (St (mem s) (g (rest s))).

(** ** The spin-lock interface (see Spinlock.v for kernel/spinlock.c) *)
Definition acquire (lk : lockid) : K unit :=
  h ← rd held;
  if decide (lk ∈ h) then panic "acquire" else upd (λ k, k <| held := lk :: h |>).

Fixpoint remove_lock (lk : lockid) (h : list lockid) : list lockid :=
  match h with
  | [] => []
  | l :: h' => if decide (l = lk) then h' else l :: remove_lock lk h'
  end.

Definition release (lk : lockid) : K unit :=
  h ← rd held;
  if decide (lk ∈ h) then upd (λ k, k <| held := remove_lock lk h |>) else panic "release".

Definition holding (lk : lockid) : K bool :=
  h ← rd held; mret (bool_decide (lk ∈ h)).

(** ** The process table

    [myproc] is [mycpu()->proc]; the push_off/pop_off around it leave no trace
    (Spinlock.v).  Dereferencing the null pointer or running off the table
    would be a memory fault. *)
Definition myproc : K (option nat) := rd cur.

Definition proc_get (i : nat) : K proc :=
  ps ← rd procs;
  match ps !! i with Some p => mret p | None => fault end.

Definition proc_upd (i : nat) (g : proc → proc) : K unit :=
  p ← proc_get i;
  upd (λ k, k <| procs := <[i := g p]> (procs k) |>).

Definition the_proc : K nat :=
  c ← myproc;
  match c with Some i => mret i | None => fault end.

(** ** The kernel's globals before it runs: zeroed memory *)
Definition sleeplock0 : sleeplock := SleepLock false 0.
Definition proc0 : proc :=
  Proc UNUSED None 0 0 0 None 0 0 0 0 (Context 0 0 (replicate 12 0%Z)) (replicate NOFILE None)
    None (replicate 16 0%Z).
Definition buf0 : buf := Buf false false 0 0 sleeplock0 0 0 0 (replicate (Z.to_nat BSIZE) 0%Z).
Definition inode0 : inode :=
  Inode 0 0 0 sleeplock0 false 0 0 0 0 0 (replicate (Z.to_nat (NDIRECT + 1)) 0%Z).
Definition file0 : file := File FD_NONE 0 false false 0 0 0 0.

(** virtio_disk_init has marked the NUM = 8 descriptors free. *)
Definition vdesc0 : vdesc := VDesc ANone 0 0 0.
Definition vdisk0 : vdiskst :=
  VDisk (replicate 8 true) (replicate 8 vdesc0) 0 (replicate 8 0%Z) 0 (replicate 8 0%Z) 0
    (replicate 8 None) (replicate 8 0%Z) (replicate 8 (0%Z, 0%Z)).

(** nextpid is the one initialised variable. *)
Definition sys0 (d : gmap Z (list Z)) : sys :=
  Sys [] None 0 0 (replicate NPROC proc0) 1 None 0 (replicate (S NBUF) buf0) d []
    (LogSt 0 0 false 0 0 (replicate (Z.to_nat LOGBLOCKS) 0%Z)) (SuperBlock 0 0 0 0 0 0 0 0)
    (replicate NINODE inode0) (replicate NFILE file0) ∅
    (ConsSt (replicate 128 0%Z) 0 0 0) false [] [] true vdisk0 true.
