(* ===== verification/Spinlock.v ===== *)
(** * kernel/spinlock.c: spin locks on several harts

    The state has, for each hart, struct cpu's noff and intena and the interrupt
    enable bit, and for each lock its locked and cpu fields.  A hart executes
    acquire and release in the atomic steps of the code: the bookkeeping of
    push_off, one atomic swap, the assignment to lk->cpu, and so on, interleaved
    with the other harts in any order.  [pc] says where in them the hart is, and
    [owns] lists the locks that it has acquired and not released.  Interrupts are
    taken whenever they are enabled. *)
From S2P Require Import Prelude.
From S2P Require Import State.
#[local] Open Scope Z_scope.

Record splock : Type := SpLock { locked : bool; lcpu : option nat }.

Definition initlock : splock := SpLock false None.

(** Outside of acquire and release; in acquire before and after the swap; in
    release before and after the lock is free. *)
Inductive place : Type := Run | Spin (lk : lockid) | Got (lk : lockid) | Rel (lk : lockid) | Pop (lk : lockid).

#[export] Instance place_eq_dec : EqDecision place.
Proof. solve_decision. Defined.

Record hart : Type := Hart {
  noff : Z;
  intena : bool;
  sie : bool;
  in_intr : bool;
  pc : place;
  owns : list lockid }.

Definition push_off (c : hart) : hart :=
  let old := sie c in
  let intena' := if bool_decide (noff c = 0) then old else intena c in
  Hart (noff c + 1) intena' false (in_intr c) (pc c) (owns c).

Definition pop_off (c : hart) : string + hart :=
  if sie c then inl "pop_off - interruptible"%string else
  if bool_decide (noff c < 1) then inl "pop_off"%string else
  let noff' := noff c - 1 in
  inr (Hart noff' (intena c) (if bool_decide (noff' = 0) && intena c then true else sie c)
         (in_intr c) (pc c) (owns c)).

Definition holding_lock (l : splock) (i : nat) : bool := locked l && bool_decide (lcpu l = Some i).

Definition at_place (c : hart) (p : place) : hart := Hart (noff c) (intena c) (sie c) (in_intr c) p (owns c).
Definition with_owns (c : hart) (o : list lockid) : hart := Hart (noff c) (intena c) (sie c) (in_intr c) (pc c) o.
Definition with_intr (c : hart) (e b : bool) : hart := Hart (noff c) (intena c) e b (pc c) (owns c).

Record spin : Type := SpinSt { harts : list hart; lks : lockid → splock }.

Definition set_lk (f : lockid → splock) (lk : lockid) (l : splock) : lockid → splock :=
  λ k, if decide (k = lk) then l else f k.

(** The steps of hart [i]. *)
Inductive spin_step (i : nat) : spin → spin → Prop :=
(** acquire: push_off, and the test of holding, which did not panic *)
| S_acquire H L c lk :
    H !! i = Some c → pc c = Run → holding_lock (L lk) i = false →
    spin_step i (SpinSt H L) (SpinSt (<[i := at_place (push_off c) (Spin lk)]> H) L)
(** a swap that finds the lock taken *)
| S_spin H L c lk :
    H !! i = Some c → pc c = Spin lk → locked (L lk) = true →
    spin_step i (SpinSt H L) (SpinSt H L)
(** a swap that takes the lock *)
| S_swap H L c lk :
    H !! i = Some c → pc c = Spin lk → locked (L lk) = false →
    spin_step i (SpinSt H L) (SpinSt (<[i := at_place c (Got lk)]> H) (set_lk L lk (SpLock true (lcpu (L lk)))))
(** [lk->cpu = mycpu()] *)
| S_setcpu H L c lk :
    H !! i = Some c → pc c = Got lk →
    spin_step i (SpinSt H L)
      (SpinSt (<[i := with_owns (at_place c Run) (lk :: owns c)]> H) (set_lk L lk (SpLock (locked (L lk)) (Some i))))
(** release: the test of holding, which did not panic, and [lk->cpu = 0] *)
| S_release H L c lk :
    H !! i = Some c → pc c = Run → holding_lock (L lk) i = true →
    spin_step i (SpinSt H L) (SpinSt (<[i := at_place c (Rel lk)]> H) (set_lk L lk (SpLock (locked (L lk)) None)))
(** __sync_lock_release *)
| S_unlock H L c lk :
    H !! i = Some c → pc c = Rel lk →
    spin_step i (SpinSt H L) (SpinSt (<[i := at_place c (Pop lk)]> H) (set_lk L lk (SpLock false (lcpu (L lk)))))
(** pop_off *)
| S_pop H L c c' lk :
    H !! i = Some c → pc c = Pop lk → pop_off c = inr c' →
    spin_step i (SpinSt H L)
      (SpinSt (<[i := with_owns (at_place c' Run) (remove_lock lk (owns c))]> H) L)
(** An interrupt is taken, which turns interrupts off until its handler returns. *)
| S_intr H L c :
    H !! i = Some c → sie c = true → in_intr c = false →
    spin_step i (SpinSt H L) (SpinSt (<[i := with_intr c false true]> H) L)
| S_sret H L c :
    H !! i = Some c → pc c = Run → noff c = 0 → in_intr c = true →
    spin_step i (SpinSt H L) (SpinSt (<[i := with_intr c true false]> H) L)
(** intr_on and intr_off, which the scheduler and usertrap call while noff is 0 *)
| S_intr_set H L c b :
    H !! i = Some c → pc c = Run → noff c = 0 → in_intr c = false →
    spin_step i (SpinSt H L) (SpinSt (<[i := with_intr c b false]> H) L).

Definition NCPU : nat := 8.

Definition spin_init (s : spin) : Prop :=
  s = SpinSt (replicate NCPU (Hart 0 false false false Run [])) (λ _, initlock).

Inductive spin_reachable : spin → Prop :=
| R_init s : spin_init s → spin_reachable s
| R_step s s' i : spin_reachable s → spin_step i s s' → spin_reachable s'.
