(* ===== verification/SpinThms.v ===== *)
(** * Spin locks: mutual exclusion, and the interface that the rest of the
    kernel's model uses *)
From S2P Require Import Prelude.
From S2P Require Import Mem.
From S2P Require Import State.
From S2P Require Import Spinlock.
#[local] Open Scope Z_scope.

(** The hart is between the swap that takes the lock and the store that frees it. *)
Definition grips (c : hart) (lk : lockid) : Prop := lk ∈ owns c ∧ pc c ≠ Pop lk ∨ pc c = Got lk.
(** The lock's cpu field names the hart. *)
Definition signs (c : hart) (lk : lockid) : Prop := lk ∈ owns c ∧ pc c ≠ Rel lk ∧ pc c ≠ Pop lk.

Definition pushed (p : place) : Z := match p with Spin _ | Got _ => 1 | _ => 0 end.

Record hart_ok (c : hart) : Prop := {
  ho_noff : noff c = Z.of_nat (length (owns c)) + pushed (pc c);
  ho_sie : sie c = true → noff c = 0;
  ho_nodup : NoDup (owns c);
  ho_place : match pc c with Spin lk | Got lk => lk ∉ owns c | Rel lk | Pop lk => lk ∈ owns c | Run => True end
}.

Record spin_inv (s : spin) : Prop := {
  si_hart : ∀ i c, harts s !! i = Some c → hart_ok c;
  si_excl : ∀ i j c d lk, harts s !! i = Some c → harts s !! j = Some d → grips c lk → grips d lk → i = j;
  si_locked : ∀ lk, locked (lks s lk) = true ↔ ∃ i c, harts s !! i = Some c ∧ grips c lk;
  si_cpu : ∀ lk i, lcpu (lks s lk) = Some i ↔ ∃ c, harts s !! i = Some c ∧ signs c lk
}.

Lemma signs_grips c lk : signs c lk → grips c lk.
Proof. intros (? & ? & ?). by left. Qed.

Lemma remove_lock_elem lk x hl : NoDup hl → x ∈ remove_lock lk hl ↔ x ∈ hl ∧ x ≠ lk.
Proof.
  induction 1 as [|l hl Hl Hnd IH]; simpl; [set_solver|]. case_decide as Hd; subst; set_solver.
Qed.

Lemma remove_lock_length lk hl : lk ∈ hl → S (length (remove_lock lk hl)) = length hl.
Proof.
  induction hl as [|l hl IH]; simpl; [set_solver|]. intros Hin. case_decide as Hd; [done|]. simpl. f_equal.
  apply IH. set_solver.
Qed.

Lemma remove_lock_nodup lk hl : NoDup hl → NoDup (remove_lock lk hl).
Proof.
  induction 1 as [|l hl Hl Hnd IH]; simpl; [constructor|]. case_decide; [done|]. constructor; [|done].
  rewrite remove_lock_elem by done. tauto.
Qed.

(** A step of hart [i] from [c] to [c'] that takes only free locks, and whose
    effect on the lock fields is what its new place says, keeps the invariant. *)
Lemma spin_inv_update H L L' i c c' :
  spin_inv (SpinSt H L) → H !! i = Some c → hart_ok c' →
  (∀ lk, grips c' lk → grips c lk ∨ locked (L lk) = false) →
  (∀ lk, locked (L' lk) = true ↔ grips c' lk ∨ locked (L lk) = true ∧ ¬ grips c lk) →
  (∀ lk j, lcpu (L' lk) = Some j ↔ j = i ∧ signs c' lk ∨ j ≠ i ∧ lcpu (L lk) = Some j) →
  spin_inv (SpinSt (<[i := c']> H) L').
Proof.
  intros [Hh Hx Hl Hc] Hi Hok Hg Hlk Hcp. simpl in *. pose proof (lookup_lt_Some _ _ _ Hi) as Hlt.
  assert (∀ j d lk, j ≠ i → H !! j = Some d → grips d lk → grips c' lk → False) as Hno.
  { intros j d lk Hj Hd Hgd Hgc. destruct (Hg lk Hgc) as [Hgc0|Hfree]; [by apply Hj, (Hx _ _ _ _ lk Hd Hi)|].
    assert (locked (L lk) = true) by (apply Hl; eauto). congruence. }
  split; simpl.
  - intros j d. destruct (decide (j = i)) as [->|Hj].
    + rewrite list_lookup_insert_eq by done. by intros [= <-].
    + rewrite list_lookup_insert_ne by done. apply Hh.
  - intros j k d e lk. destruct (decide (j = i)) as [->|Hj], (decide (k = i)) as [->|Hk]; try done;
      rewrite ?list_lookup_insert_eq, ?list_lookup_insert_ne by done; intros Hd He Hgd Hge; simplify_eq;
      try (by exfalso; eapply Hno). by eapply Hx.
  - intros lk. rewrite Hlk. split.
    + intros [Hgc|[Hl1 Hng]]; [exists i, c'; by rewrite list_lookup_insert_eq|].
      apply Hl in Hl1 as (j & d & Hd & Hgd). exists j, d. destruct (decide (j = i)) as [->|Hj]; [by simplify_eq|].
      by rewrite list_lookup_insert_ne.
    + intros (j & d & Hd & Hgd). destruct (decide (j = i)) as [->|Hj].
      { rewrite list_lookup_insert_eq in Hd by done. simplify_eq. by left. }
      rewrite list_lookup_insert_ne in Hd by done. right. split; [apply Hl; eauto|].
      intros Hgc. by apply Hj, (Hx _ _ _ _ lk Hd Hi).
  - intros lk j. rewrite Hcp. destruct (decide (j = i)) as [->|Hj].
    + rewrite list_lookup_insert_eq by done. naive_solver.
    + rewrite list_lookup_insert_ne by done. rewrite Hc. naive_solver.
Qed.

#[local] Instance grips_dec c lk : Decision (grips c lk).
Proof. unfold grips. apply _. Defined.

Lemma spin_inv_quiet H L i c c' :
  spin_inv (SpinSt H L) → H !! i = Some c → hart_ok c' →
  (∀ lk, grips c' lk ↔ grips c lk) → (∀ lk, signs c' lk ↔ signs c lk) →
  spin_inv (SpinSt (<[i := c']> H) L).
Proof.
  intros HI Hi Hok Hg Hs. apply (spin_inv_update H L L i c); try done.
  - intros lk. rewrite Hg. tauto.
  - intros lk. rewrite Hg. split.
    + intros Hl. destruct (decide (grips c lk)); auto.
    + intros [Hgc|[? _]]; [|done]. destruct HI as [_ _ Hl _]. apply Hl. eauto.
  - intros lk j. rewrite Hs. destruct HI as [_ _ _ Hc]. simpl in Hc. rewrite Hc.
    destruct (decide (j = i)) as [->|Hj]; split.
    + intros (d & Hd & Hsd). left. split; [done|]. congruence.
    + intros [[_ Hsc]|[? _]]; [|done]. eauto.
    + eauto.
    + intros [[? _]|[_ ?]]; done.
Qed.

(** Outside of acquire and release, holding says which locks the hart owns. *)
Lemma holding_owns s i c lk :
  spin_inv s → harts s !! i = Some c → pc c = Run → holding_lock (lks s lk) i = bool_decide (lk ∈ owns c).
Proof.
  intros [_ _ Hl Hc] Hi Hpc. unfold holding_lock. apply eq_true_iff_eq.
  rewrite andb_true_iff, !bool_decide_eq_true, Hl, Hc. split.
  - intros [_ (d & Hd & Hs)]. simplify_eq. apply Hs.
  - intros Hin. assert (signs c lk) as Hs by (unfold signs; rewrite Hpc; done).
    split; [exists i, c; split; [done|by apply signs_grips]|by exists c].
Qed.

Lemma set_lk_eq f lk l : set_lk f lk l lk = l.
Proof. unfold set_lk. by rewrite decide_True. Qed.
Lemma set_lk_ne f lk l k : k ≠ lk → set_lk f lk l k = f k.
Proof. intros. unfold set_lk. by rewrite decide_False. Qed.

(** The effect of a hart's step on one lock's fields, when what the step does to
    other locks is nothing. *)
Lemma spin_inv_lock H L i c c' lk l :
  spin_inv (SpinSt H L) → H !! i = Some c → hart_ok c' →
  (∀ k, k ≠ lk → grips c' k ↔ grips c k) → (∀ k, k ≠ lk → signs c' k ↔ signs c k) →
  (grips c' lk → grips c lk ∨ locked (L lk) = false) →
  (locked l = true ↔ grips c' lk ∨ locked (L lk) = true ∧ ¬ grips c lk) →
  (∀ j, lcpu l = Some j ↔ j = i ∧ signs c' lk ∨ j ≠ i ∧ lcpu (L lk) = Some j) →
  spin_inv (SpinSt (<[i := c']> H) (set_lk L lk l)).
Proof.
  intros HI Hi Hok Hg Hs H1 H2 H3. destruct (HI) as [_ _ Hl Hc]. simpl in Hl, Hc.
  apply (spin_inv_update H L _ i c); try done; intros k; (destruct (decide (k = lk)) as [->|Hk];
    [rewrite ?set_lk_eq; done|rewrite ?set_lk_ne by done]).
  - rewrite Hg by done. tauto.
  - rewrite Hg by done. split; [destruct (decide (grips c k)); auto|]. intros [?|[? _]]; [apply Hl; eauto|done].
  - intros j. rewrite Hs, Hc by done. destruct (decide (j = i)) as [->|Hj]; split; try naive_solver.
Qed.

Lemma step_acquire H L i c lk :
  spin_inv (SpinSt H L) → H !! i = Some c → pc c = Run → holding_lock (L lk) i = false →
  spin_inv (SpinSt (<[i := at_place (push_off c) (Spin lk)]> H) L).
Proof.
  intros HI Hi Hpc Hho. pose proof (si_hart _ HI _ _ Hi) as [Hn _ Hd _]. rewrite Hpc in Hn.
  change (L lk) with (lks (SpinSt H L) lk) in Hho.
  rewrite (holding_owns _ _ _ _ HI Hi Hpc) in Hho. apply bool_decide_eq_false in Hho.
  apply (spin_inv_quiet _ _ _ c); try done.
  - split; simpl in *; try done. lia.
  - intros k. unfold grips. simpl. rewrite Hpc. naive_solver.
  - intros k. unfold signs. simpl. rewrite Hpc. naive_solver.
Qed.

Lemma step_swap H L i c lk :
  spin_inv (SpinSt H L) → H !! i = Some c → pc c = Spin lk → locked (L lk) = false →
  spin_inv (SpinSt (<[i := at_place c (Got lk)]> H) (set_lk L lk (SpLock true (lcpu (L lk))))).
Proof.
  intros HI Hi Hpc Hfree. pose proof (si_hart _ HI _ _ Hi) as [Hn Hsi Hd Hp]. rewrite Hpc in Hn, Hp.
  apply (spin_inv_lock H L i c); try done.
  - intros k Hk. unfold grips. simpl. rewrite Hpc. naive_solver.
  - intros k Hk. unfold signs. simpl. rewrite Hpc. naive_solver.
  - intros _. by right.
  - simpl. split; [|done]. intros _. left. by right.
  - intros j. simpl. pose proof (si_cpu _ HI lk j) as Hc. simpl in Hc. split; [|].
    + intros Hj. destruct (proj1 Hc Hj) as (d & Hd' & Hs). right. split; [|done].
      intros ->. simplify_eq. apply Hp, Hs.
    + intros [[-> Hs]|[_ ?]]; [|done]. exfalso. apply Hp, Hs.
Qed.

Lemma step_setcpu H L i c lk :
  spin_inv (SpinSt H L) → H !! i = Some c → pc c = Got lk →
  spin_inv (SpinSt (<[i := with_owns (at_place c Run) (lk :: owns c)]> H) (set_lk L lk (SpLock (locked (L lk)) (Some i)))).
Proof.
  intros HI Hi Hpc. pose proof (si_hart _ HI _ _ Hi) as [Hn Hsi Hd Hp]. rewrite Hpc in Hn, Hp.
  assert (grips c lk) as Hgc by (by right).
  assert (locked (L lk) = true) as Hlk by (apply (si_locked _ HI lk); eauto).
  apply (spin_inv_lock H L i c); try done.
  - split; simpl in *; [lia|done|by constructor|done].
  - intros k Hk. unfold grips. simpl. rewrite Hpc. set_solver.
  - intros k Hk. unfold signs. simpl. rewrite Hpc. set_solver.
  - intros _. by left.
  - simpl. rewrite Hlk. split; [|done]. intros _. left. left. simpl. split; [set_solver|done].
  - intros j. simpl. split.
    + intros [= <-]. left. split; [done|]. unfold signs. simpl. set_solver.
    + intros [[-> _]|[Hj Hc]]; [done|]. apply (si_cpu _ HI lk j) in Hc as (d & Hd' & Hs).
      exfalso. apply Hj. eapply (si_excl _ HI); eauto using signs_grips.
Qed.

Lemma step_release H L i c lk :
  spin_inv (SpinSt H L) → H !! i = Some c → pc c = Run → holding_lock (L lk) i = true →
  spin_inv (SpinSt (<[i := at_place c (Rel lk)]> H) (set_lk L lk (SpLock (locked (L lk)) None))).
Proof.
  intros HI Hi Hpc Hho. pose proof (si_hart _ HI _ _ Hi) as [Hn Hsi Hd Hp]. rewrite Hpc in Hn.
  change (L lk) with (lks (SpinSt H L) lk) in Hho.
  rewrite (holding_owns _ _ _ _ HI Hi Hpc) in Hho. apply bool_decide_eq_true in Hho.
  assert (grips c lk) as Hgc by (left; rewrite Hpc; done).
  assert (locked (L lk) = true) as Hlk by (apply (si_locked _ HI lk); eauto).
  assert (grips (at_place c (Rel lk)) lk) as Hg' by (left; simpl; done).
  apply (spin_inv_lock H L i c).
  - done.
  - done.
  - split; simpl in *; done.
  - intros k Hk. unfold grips. simpl. rewrite Hpc. naive_solver.
  - intros k Hk. unfold signs. simpl. rewrite Hpc. naive_solver.
  - auto.
  - simpl. rewrite Hlk. tauto.
  - intros j. simpl. split; [done|]. intros [[-> (_ & Hs & _)]|[Hj Hc]]; [simpl in Hs; done|].
    apply (si_cpu _ HI lk j) in Hc as (d & Hd' & Hs).
    exfalso. apply Hj. eapply (si_excl _ HI); eauto using signs_grips.
Qed.

Lemma step_unlock H L i c lk :
  spin_inv (SpinSt H L) → H !! i = Some c → pc c = Rel lk →
  spin_inv (SpinSt (<[i := at_place c (Pop lk)]> H) (set_lk L lk (SpLock false (lcpu (L lk))))).
Proof.
  intros HI Hi Hpc. pose proof (si_hart _ HI _ _ Hi) as [Hn Hsi Hd Hp]. rewrite Hpc in Hn, Hp.
  assert (grips c lk) as Hgc by (left; rewrite Hpc; done).
  apply (spin_inv_lock H L i c).
  - done.
  - done.
  - split; simpl in *; done.
  - intros k Hk. unfold grips. simpl. rewrite Hpc. naive_solver.
  - intros k Hk. unfold signs. simpl. rewrite Hpc. naive_solver.
  - auto.
  - simpl. split; [done|]. intros [[[_ ?]|?]|[_ ?]]; simpl in *; done.
  - intros j. simpl. pose proof (si_cpu _ HI lk j) as Hc. simpl in Hc. split.
    + intros Hj. destruct (proj1 Hc Hj) as (d & Hd' & Hs). right. split; [|done].
      intros ->. simplify_eq. destruct Hs as (_ & ? & _). done.
    + intros [[-> (_ & _ & ?)]|[_ ?]]; simpl in *; done.
Qed.

Lemma step_pop H L i c c' lk :
  spin_inv (SpinSt H L) → H !! i = Some c → pc c = Pop lk → pop_off c = inr c' →
  spin_inv (SpinSt (<[i := with_owns (at_place c' Run) (remove_lock lk (owns c))]> H) L).
Proof.
  intros HI Hi Hpc Hpop. pose proof (si_hart _ HI _ _ Hi) as [Hn Hsi Hd Hp]. rewrite Hpc in Hn, Hp.
  pose proof (remove_lock_length _ _ Hp) as Hlen. unfold pop_off in Hpop.
  destruct (sie c); [done|]. case_bool_decide; [done|]. injection Hpop as <-.
  apply (spin_inv_quiet _ _ _ c); [done|done| | |].
  - split; simpl in *.
    + lia.
    + case_bool_decide; [done|]. done.
    + by apply remove_lock_nodup.
    + done.
  - intros k. unfold grips. simpl. rewrite remove_lock_elem, Hpc by done. naive_solver.
  - intros k. unfold signs. simpl. rewrite remove_lock_elem, Hpc by done. naive_solver.
Qed.

Lemma step_intr H L i c e b :
  spin_inv (SpinSt H L) → H !! i = Some c → (e = true → noff c = 0) →
  spin_inv (SpinSt (<[i := with_intr c e b]> H) L).
Proof.
  intros HI Hi He. pose proof (si_hart _ HI _ _ Hi) as [Hn Hsi Hd Hp].
  apply (spin_inv_quiet _ _ _ c); try done.
Qed.

Lemma spin_step_inv i s s' : spin_inv s → spin_step i s s' → spin_inv s'.
Proof.
  intros HI Hs. destruct Hs; eauto using step_acquire, step_swap, step_setcpu, step_release, step_unlock, step_pop.
  - by eapply step_intr.
  - by eapply step_intr.
  - by eapply step_intr.
Qed.

Lemma spin_init_inv s : spin_init s → spin_inv s.
Proof.
  intros ->. assert (∀ i c, replicate NCPU (Hart 0 false false false Run []) !! i = Some c →
    c = Hart 0 false false false Run []) as Hr by (intros i c [-> _]%lookup_replicate; done).
  assert (∀ lk, ¬ grips (Hart 0 false false false Run []) lk) as Hg by (intros lk [[?%not_elem_of_nil _]|?]; done).
  split; simpl.
  - intros i c ->%Hr. split; simpl; try done. constructor.
  - intros i j c d lk ->%Hr ->%Hr Hgl _. by apply Hg in Hgl.
  - intros lk. split; [done|]. intros (i & c & ->%Hr & Hgl). by apply Hg in Hgl.
  - intros lk i. split; [done|]. intros (c & ->%Hr & ?%signs_grips%Hg). done.
Qed.

Lemma spin_reachable_inv s : spin_reachable s → spin_inv s.
Proof. induction 1; eauto using spin_init_inv, spin_step_inv. Qed.

(** C28. Mutual exclusion: however the harts interleave their steps and take
    interrupts, at most one hart at a time owns a lock (from the swap that takes
    it to the store that frees it), and a hart that owns or waits for a lock has
    its interrupts off, so that no interrupt handler can wait for a lock that the
    code it interrupted holds. *)
Theorem spin_mutex (s : spin) (i j : nat) (c d : hart) (lk : lockid) :
  spin_reachable s → harts s !! i = Some c → harts s !! j = Some d →
  (grips c lk → grips d lk → i = j) ∧ (owns c ≠ [] ∨ pc c ≠ Run → sie c = false).
Proof.
  intros HR Hi Hj. pose proof (spin_reachable_inv _ HR) as HI. split.
  - by apply (si_excl _ HI).
  - pose proof (si_hart _ HI _ _ Hi) as [Hn Hs _ Hp]. intros Ho. destruct (sie c); [|done]. exfalso.
    specialize (Hs eq_refl). rewrite Hs in Hn. destruct (owns c) as [|x o]; [|simpl in Hn; destruct (pc c); simpl in Hn; lia].
    destruct Ho as [Ho|Ho]; [done|]. destruct (pc c); simpl in Hn; try done; try lia; by apply elem_of_nil in Hp.
Qed.

(** Hart 1 takes a lock while hart 0 waits for it. *)
Lemma spin_mutex_witness :
  ∃ s c d, spin_reachable s ∧ harts s !! 0%nat = Some c ∧ harts s !! 1%nat = Some d ∧
    pc c = Spin Lpid ∧ grips d Lpid ∧ sie c = false.
Proof.
  set (h0 := Hart 0 false false false Run []).
  set (s0 := SpinSt (replicate NCPU h0) (λ _, initlock)).
  assert (spin_reachable s0) as R0 by (by apply R_init).
  eassert (spin_reachable _) as R1 by (eapply R_step; [exact R0|eapply (S_acquire 1 _ _ h0 Lpid); reflexivity]).
  eassert (spin_reachable _) as R2 by (eapply R_step; [exact R1|eapply (S_swap 1 _ _ _ Lpid); reflexivity]).
  eassert (spin_reachable _) as R3 by (eapply R_step; [exact R2|eapply (S_acquire 0 _ _ h0 Lpid); reflexivity]).
  eexists _, _, _. split; [exact R3|]. split; [reflexivity|]. split; [reflexivity|]. split; [reflexivity|].
  split; [by right|].
  apply (spin_mutex _ 0 1 _ _ Lpid R3 eq_refl eq_refl). right. discriminate.
Defined.

Fixpoint pushes (n : nat) (c : hart) : hart := match n with O => c | S n' => push_off (pushes n' c) end.
Fixpoint pops (n : nat) (c : hart) : string + hart :=
  match n with
  | O => inr c
  | S n' => match pop_off c with inr c' => pops n' c' | inl e => inl e end
  end.

Lemma pushes_fields n c :
  noff (pushes n c) = noff c + Z.of_nat n ∧ in_intr (pushes n c) = in_intr c ∧ pc (pushes n c) = pc c ∧
  owns (pushes n c) = owns c ∧ (n ≠ O → sie (pushes n c) = false) ∧
  (0 <= noff c → n ≠ O → intena (pushes n c) = if decide (noff c = 0) then sie c else intena c).
Proof.
  induction n as [|n (Hn & Hi & Hp & Ho & Hs & He)]; simpl; [split_and!; try done; lia|].
  split_and!; try done; [rewrite Hn; lia|]. intros H0 _. case_bool_decide as Hz; case_decide as Hz'.
  - destruct n; [done|]. lia.
  - lia.
  - destruct n as [|n]; [simpl in Hz; lia|]. by rewrite He by lia.
  - destruct n as [|n]; [done|]. by rewrite He by lia.
Qed.

Lemma pops_fields n c :
  sie c = false → Z.of_nat n <= noff c → (0 < n)%nat →
  pops n c = inr (Hart (noff c - Z.of_nat n) (intena c)
    (if bool_decide (noff c - Z.of_nat n = 0) && intena c then true else false) (in_intr c) (pc c) (owns c)).
Proof.
  revert c; induction n as [|n IH]; intros c Hs Hn Hpos; [lia|]. cbn [pops]. unfold pop_off.
  rewrite Hs, bool_decide_eq_false_2 by lia. destruct n as [|n]; [done|].
  rewrite IH; simpl; [|by rewrite bool_decide_eq_false_2 by lia|lia|lia].
  do 2 f_equal; [lia|]. by replace (noff c - 1 - Z.of_nat (S n)) with (noff c - Z.of_nat (S (S n))) by lia.
Qed.

(** push_off and pop_off are matched: after any number of nested push_offs
    interrupts are off, and as many pop_offs do not panic and restore the nesting
    depth and the interrupt enable bit that the hart had at first. *)
Theorem push_pop_matched (n : nat) (c : hart) :
  0 <= noff c → (sie c = true → noff c = 0) → (0 < n)%nat →
  sie (pushes n c) = false ∧
  ∃ c', pops n (pushes n c) = inr c' ∧ noff c' = noff c ∧ (noff c = 0 → sie c' = sie c) ∧ (noff c ≠ 0 → sie c' = false).
Proof.
  intros H0 Hsi Hn. destruct (pushes_fields n c) as (Hno & Hi & Hp & Ho & Hs & He).
  split; [apply Hs; lia|]. eexists. split; [apply pops_fields; [apply Hs; lia|lia|done]|]. simpl.
  rewrite Hno, He by lia. replace (noff c + Z.of_nat n - Z.of_nat n) with (noff c) by lia. split; [done|].
  split; intros Hz; [rewrite bool_decide_eq_true_2, decide_True by done; by destruct (sie c)|].
  by rewrite bool_decide_eq_false_2.
Qed.

Lemma push_pop_matched_witness :
  ∃ c', pops 2 (pushes 2 (Hart 0 false true false Run [])) = inr c' ∧ sie c' = true.
Proof.
  destruct (push_pop_matched 2 (Hart 0 false true false Run [])) as (_ & c' & Hrun & _ & Hs & _).
  - simpl. lia.
  - reflexivity.
  - lia.
  - exists c'. split; [exact Hrun|]. rewrite Hs; reflexivity.
Defined.

Lemma rtc_once_eq {A} (R : relation A) x y z : R x y → y = z → rtc R x z.
Proof. intros HR <-. by apply rtc_once. Qed.

(** Hart [i] of [s] is outside of acquire and release, and owns the locks [hl]:
    the state [r] of the model with a list of held locks describes it. *)
Definition describes (i : nat) (s : spin) (r : sys) : Prop :=
  ∃ c, harts s !! i = Some c ∧ pc c = Run ∧ held r = owns c.

Lemma acquire_run s i lk h r :
  spin_inv s → describes i s r → lk ∉ held r → locked (lks s lk) = false →
  ∃ s' r', rtc (spin_step i) s s' ∧ acquire lk (St h r) = Ok tt (St h r') ∧ describes i s' r'.
Proof.
  intros HI (c & Hi & Hpc & Hh) Hn Hfree. pose proof (lookup_lt_Some _ _ _ Hi) as Hlt. destruct s as [H L]; simpl in *.
  exists (SpinSt (<[i := with_owns (at_place (push_off c) Run) (lk :: owns c)]> H)
    (set_lk (set_lk L lk (SpLock true (lcpu (L lk)))) lk (SpLock true (Some i)))), (r <| held := lk :: held r |>).
  split_and!.
  - eapply rtc_l; [apply (S_acquire i H L c lk Hi Hpc)|].
    { pose proof (holding_owns _ _ _ lk HI Hi Hpc) as Hho. simpl in Hho. rewrite Hho, <-Hh. by apply bool_decide_eq_false_2. }
    eapply rtc_l; [eapply (S_swap i); [by apply list_lookup_insert_eq|reflexivity|done]|]. rewrite list_insert_insert_eq.
    eapply rtc_once_eq; [eapply (S_setcpu i); [by apply list_lookup_insert_eq|reflexivity]|].
    rewrite list_insert_insert_eq, set_lk_eq. reflexivity.
  - unfold acquire, mbind, M_bind, rd, upd. simpl. by rewrite decide_False.
  - exists (with_owns (at_place (push_off c) Run) (lk :: owns c)). simpl. rewrite list_lookup_insert_eq by done.
    by rewrite Hh.
Qed.

Lemma release_run s i lk h r :
  spin_inv s → describes i s r → lk ∈ held r →
  ∃ s' r', rtc (spin_step i) s s' ∧ release lk (St h r) = Ok tt (St h r') ∧ describes i s' r'.
Proof.
  intros HI (c & Hi & Hpc & Hh) Hin. pose proof (lookup_lt_Some _ _ _ Hi) as Hlt. destruct s as [H L]; simpl in *.
  pose proof (si_hart _ HI _ _ Hi) as [Hn Hs Hd _]. rewrite Hpc in Hn. simpl in Hn. rewrite Hh in Hin.
  assert (0 < noff c) as Hpos by (destruct (owns c); [by apply elem_of_nil in Hin|simpl in Hn; lia]).
  set (c1 := at_place c (Pop lk)).
  assert (∃ c', pop_off c1 = inr c' ∧ owns c' = owns c) as (c' & Hpop & Ho).
  { unfold pop_off. subst c1. simpl. destruct (sie c); [specialize (Hs eq_refl); lia|].
    rewrite bool_decide_eq_false_2 by lia. by eexists. }
  eexists (SpinSt (<[i := with_owns (at_place c' Run) (remove_lock lk (owns c))]> H) _), (r <| held := remove_lock lk (held r) |>).
  split_and!.
  - eapply rtc_l; [apply (S_release i H L c lk Hi Hpc)|].
    { pose proof (holding_owns _ _ _ lk HI Hi Hpc) as Hho. simpl in Hho. rewrite Hho. by apply bool_decide_eq_true_2. }
    eapply rtc_l; [eapply (S_unlock i); [by apply list_lookup_insert_eq|reflexivity]|]. rewrite list_insert_insert_eq.
    eapply rtc_once_eq; [eapply (S_pop i); [by apply list_lookup_insert_eq|reflexivity|exact Hpop]|].
    rewrite list_insert_insert_eq. reflexivity.
  - unfold release, mbind, M_bind, rd, upd. simpl. rewrite decide_True by (by rewrite Hh). done.
  - exists (with_owns (at_place c' Run) (remove_lock lk (owns c))). simpl. rewrite list_lookup_insert_eq by done.
    by rewrite Hh.
Qed.

(** C29. The acquire and release that the rest of the model uses, which keep one
    list of held locks, are what spinlock.c's do: for a hart whose state the list
    describes, the tests of holding panic for the same locks; an acquire of a free
    lock, and every release of an owned one, complete without a panic of pop_off
    and leave a state that the new list describes; and noff, which sched tests,
    is the length of the list. *)
Theorem spin_refines_held (s : spin) (i : nat) (lk : lockid) (h : heap) (r : sys) :
  spin_reachable s → describes i s r →
  (holding_lock (lks s lk) i = true → acquire lk (St h r) = Panic "acquire") ∧
  (holding_lock (lks s lk) i = false → release lk (St h r) = Panic "release") ∧
  (holding_lock (lks s lk) i = false → locked (lks s lk) = false →
    ∃ s' r', rtc (spin_step i) s s' ∧ acquire lk (St h r) = Ok tt (St h r') ∧ describes i s' r') ∧
  (holding_lock (lks s lk) i = true →
    ∃ s' r', rtc (spin_step i) s s' ∧ release lk (St h r) = Ok tt (St h r') ∧ describes i s' r') ∧
  (∃ c, harts s !! i = Some c ∧ noff c = Z.of_nat (length (held r))).
Proof.
  intros HR Hd. pose proof (spin_reachable_inv _ HR) as HI. destruct (Hd) as (c & Hi & Hpc & Hh).
  rewrite (holding_owns _ _ _ lk HI Hi Hpc), <-Hh, bool_decide_eq_true, bool_decide_eq_false. split_and!.
  - intros Hin. unfold acquire, mbind, M_bind, rd. simpl. by rewrite decide_True.
  - intros Hn. unfold release, mbind, M_bind, rd. simpl. by rewrite decide_False.
  - by apply acquire_run.
  - by apply release_run.
  - exists c. split; [done|]. pose proof (si_hart _ HI _ _ Hi) as [Hn _ _ _]. rewrite Hpc in Hn. rewrite Hn, Hh. simpl. lia.
Qed.

Lemma spin_refines_held_witness :
  ∃ s' r', rtc (spin_step 0) (SpinSt (replicate NCPU (Hart 0 false false false Run [])) (λ _, initlock)) s' ∧
    acquire Lpid (St ∅ (sys0 ∅)) = Ok tt (St ∅ r') ∧ describes 0 s' r'.
Proof.
  apply (spin_refines_held (SpinSt (replicate NCPU (Hart 0 false false false Run [])) (λ _, initlock)) 0 Lpid ∅ (sys0 ∅)).
  - by apply R_init.
  - eexists. split_and!; reflexivity.
  - reflexivity.
  - reflexivity.
Defined.
