(* ===== verification/StateSpec.v ===== *)
(** * Separation-logic rules for the kernel globals and the lock interface *)
From S2P Require Import Prelude.
From S2P Require Import Mem.
From S2P Require Import Heap.
From S2P Require Import Params.
From S2P Require Import State.
From iris.proofmode Require Import proofmode.

Lemma hwp_rd {A} (f : sys → A) (Q : A → sys → hprop) r : Q (f r) r ⊢ hwp (rd f) Q r.
Proof. by apply hwp_rest. Qed.

Lemma hwp_upd (g : sys → sys) (Q : unit → sys → hprop) r : Q tt (g r) ⊢ hwp (upd g) Q r.
Proof. by apply hwp_rest. Qed.

Lemma hwp_acquire lk (Q : unit → sys → hprop) r :
  lk ∉ held r → Q tt (r <| held := lk :: held r |>) ⊢ hwp (acquire lk) Q r.
Proof.
  iIntros (Hh) "HQ". iApply hwp_bind. iApply hwp_rd.
  destruct (decide _); [done|]. by iApply hwp_upd.
Qed.

Lemma hwp_release lk h (Q : unit → sys → hprop) r :
  held r = lk :: h → Q tt (r <| held := h |>) ⊢ hwp (release lk) Q r.
Proof.
  iIntros (Hh) "HQ". iApply hwp_bind. iApply hwp_rd. rw Hh.
  destruct (decide _) as [_|Hn]; [|exfalso; apply Hn; by constructor].
  iApply hwp_upd. simpl. by destruct (decide (lk = lk)).
Qed.

(** A critical section leaves the list of held locks as it was. *)
Lemma held_restore r g :
  (∀ h r, g (r <| held := h |>) = (g r) <| held := h |>) → held (g r) = held r →
  ∀ lk, (g (r <| held := lk :: held r |>)) <| held := held r |> = g r.
Proof.
  intros Hg He lk. rw Hg -He. by destruct (g r).
Qed.

Lemma held_restore_id r lk : r <| held := lk :: held r |> <| held := held r |> = r.
Proof. by destruct r. Qed.
