(* ===== verification/KString.v ===== *)
(** * kernel/string.c

    The memory and string routines, on byte-addressed memory.  The routines that
    the rest of the kernel applies to its own buffers (struct fields, local
    arrays) also have a version on lists of bytes ([strncmp_l], [strncpy_l],
    [safestrcpy_l]); Kernel/string.c's loops are shown to compute them. *)
From S2P Require Import Prelude.
From S2P Require Import Mem.
#[local] Open Scope Z_scope.

Section string.
Context {R : Type}.
Implicit Types (n : nat) (dst src p q s t : Z).

(** [for(i = 0; i < n; i++) cdst[i] = c;] *)
Fixpoint memset_loop n dst (c : Z) : M (st R) unit :=
  match n with
  | O => mret tt
  | S n' => store8 dst c;; memset_loop n' (dst + 1) c
  end.

Definition memset dst (c : Z) n : M (st R) Z :=
  memset_loop n dst c;; mret dst.

(** [while(n-- > 0) { if( *s1 != *s2) return *s1 - *s2; s1++, s2++; }] *)
Fixpoint memcmp (s1 s2 : Z) n : M (st R) Z :=
  match n with
  | O => mret 0
  | S n' =>
      x ← load8 s1; y ← load8 s2;
      if bool_decide (x ≠ y) then mret (x - y) else memcmp (s1 + 1) (s2 + 1) n'
  end.

(** [while(n-- > 0) *--d = *--s;] *)
Fixpoint copy_backward n d s : M (st R) unit :=
  match n with
  | O => mret tt
  | S n' => x ← load8 (s - 1); store8 (d - 1) x;; copy_backward n' (d - 1) (s - 1)
  end.

(** [while(n-- > 0) *d++ = *s++;] *)
Fixpoint copy_forward n d s : M (st R) unit :=
  match n with
  | O => mret tt
  | S n' => x ← load8 s; store8 d x;; copy_forward n' (d + 1) (s + 1)
  end.

Definition memmove dst src n : M (st R) Z :=
  if bool_decide (n = O) then mret dst else
  (if bool_decide (src < dst ∧ dst < src + Z.of_nat n)
   then copy_backward n (dst + Z.of_nat n) (src + Z.of_nat n)
   else copy_forward n dst src);;
  mret dst.

Definition memcpy dst src n : M (st R) Z := memmove dst src n.

(** [while(n > 0 && *p && *p == *q) n--, p++, q++;
    if(n == 0) return 0; return ( uchar )*p - ( uchar )*q;] *)
Fixpoint strncmp p q n : M (st R) Z :=
  match n with
  | O => mret 0
  | S n' =>
      x ← load8 p;
      if bool_decide (x = 0) then y ← load8 q; mret (x - y) else
      y ← load8 q;
      if bool_decide (x = y) then strncmp (p + 1) (q + 1) n' else mret (x - y)
  end.

(** [while(n-- > 0) *s++ = 0;] *)
Fixpoint strncpy_pad s n : M (st R) unit :=
  match n with
  | O => mret tt
  | S n' => store8 s 0;; strncpy_pad (s + 1) n'
  end.

(** [while(n-- > 0 && ( *s++ = *t++) != 0) ;] and then the padding *)
Fixpoint strncpy_loop s t n : M (st R) unit :=
  match n with
  | O => mret tt
  | S n' =>
      x ← load8 t; store8 s x;;
      if bool_decide (x = 0) then strncpy_pad (s + 1) n' else strncpy_loop (s + 1) (t + 1) n'
  end.

Definition strncpy s t n : M (st R) Z := strncpy_loop s t n;; mret s.

(** [while(--n > 0 && ( *s++ = *t++) != 0) ; *s = 0;], entered with [n - 1] *)
Fixpoint safestrcpy_loop s t n : M (st R) unit :=
  match n with
  | O => store8 s 0
  | S n' =>
      x ← load8 t; store8 s x;;
      if bool_decide (x = 0) then store8 (s + 1) 0 else safestrcpy_loop (s + 1) (t + 1) n'
  end.

Definition safestrcpy s t (n : Z) : M (st R) Z :=
  if bool_decide (n <= 0) then mret s else
  safestrcpy_loop s t (Z.to_nat (n - 1));; mret s.

(** [for(n = 0; s[n]; n++) ;] with at most [fuel] iterations *)
Fixpoint strlen (fuel : nat) s : M (st R) Z :=
  match fuel with
  | O => stuck
  | S fuel' =>
      x ← load8 s;
      if bool_decide (x = 0) then mret 0 else n ← strlen fuel' (s + 1); mret (n + 1)
  end.
End string.

(** ** memmove is a correct copy, overlapping or not *)
Definition mapped (m : heap) (a : Z) (n : nat) : Prop :=
  ∀ i, 0 <= i < Z.of_nat n → ∃ b, m !! (a + i) = Some b ∧ is_byte b.

(** [m'] is [m] with the [n] bytes at [src] copied to [dst]. *)
Definition copied (m m' : heap) (dst src : Z) (n : nat) : Prop :=
  ∀ a, m' !! a =
    if bool_decide (dst <= a < dst + Z.of_nat n) then m !! (src + (a - dst)) else m !! a.

Lemma u8_byte b : is_byte b → u8 b = b.
Proof. intros. unfold uN, is_byte in *. by apply Z.mod_small. Qed.

Lemma load8_Ok {R} (m : heap) (r : R) a b :
  m !! a = Some b → load8 a (St m r) = Ok b (St m r).
Proof. intros H. unfold load8. simpl. by rewrite H. Qed.

Lemma store8_Ok {R} (m : heap) (r : R) a b v :
  m !! a = Some b → store8 a v (St m r) = Ok tt (St (<[a := u8 v]> m) r).
Proof. intros H. unfold store8. simpl. by rewrite H. Qed.

Lemma mapped_insert m a b x n :
  is_byte b → mapped m x n → mapped (<[a := b]> m) x n.
Proof.
  intros Hb Hm i Hi. destruct (decide (a = x + i)) as [->|].
  - exists b. by rewrite lookup_insert_eq.
  - rewrite lookup_insert_ne by done. by apply Hm.
Qed.

Lemma mapped_le m x n n' : (n' ≤ n)%nat → mapped m x n → mapped m x n'.
Proof. intros Hn Hm i Hi. apply Hm. lia. Qed.

Lemma mapped_succ m x n : mapped m x (S n) → mapped m (x + 1) n.
Proof.
  intros Hm i Hi. replace (x + 1 + i) with (x + (i + 1)) by lia. apply Hm. lia.
Qed.

Lemma copy_forward_ok {R} n : ∀ (m : heap) (r : R) d s,
  mapped m s n → mapped m d n → ¬ (s < d ∧ d < s + Z.of_nat n) →
  ∃ m', copy_forward n d s (St m r) = Ok tt (St m' r) ∧ copied m m' d s n.
Proof.
  induction n as [|n IH]; intros m r d s Hs Hd Hov.
  - exists m. split; [done|]. intros a. by rewrite bool_decide_eq_false_2 by lia.
  - destruct (Hs 0) as (x & Hx & Hxb); [lia|]. rewrite Z.add_0_r in Hx.
    destruct (Hd 0) as (y & Hy & _); [lia|]. rewrite Z.add_0_r in Hy.
    destruct (IH (<[d := x]> m) r (d + 1) (s + 1)) as (m' & Hrun & Hc).
    { by apply mapped_insert, mapped_succ. }
    { by apply mapped_insert, mapped_succ. }
    { lia. }
    exists m'. split.
    + simpl. unfold mbind, M_bind.
      by rewrite (load8_Ok _ _ _ _ Hx), (store8_Ok _ _ _ _ _ Hy), u8_byte.
    + intros a. rewrite Hc. repeat case_bool_decide; try lia.
      * rewrite lookup_insert_ne by lia. f_equal. lia.
      * replace a with d by lia. rewrite lookup_insert_eq, <-Hx. f_equal. lia.
      * by rewrite lookup_insert_ne by lia.
Qed.

Lemma copy_backward_ok {R} n : ∀ (m : heap) (r : R) d s,
  mapped m s n → mapped m d n → s <= d →
  ∃ m', copy_backward n (d + Z.of_nat n) (s + Z.of_nat n) (St m r) = Ok tt (St m' r) ∧
        copied m m' d s n.
Proof.
  induction n as [|n IH]; intros m r d s Hs Hd Hov.
  - exists m. split; [done|]. intros a. by rewrite bool_decide_eq_false_2 by lia.
  - destruct (Hs (Z.of_nat n)) as (x & Hx & Hxb); [lia|].
    destruct (Hd (Z.of_nat n)) as (y & Hy & _); [lia|].
    destruct (IH (<[d + Z.of_nat n := x]> m) r d s) as (m' & Hrun & Hc).
    { apply mapped_insert; [done|]. eapply mapped_le, Hs. lia. }
    { apply mapped_insert; [done|]. eapply mapped_le, Hd. lia. }
    { lia. }
    exists m'. split.
    + cbn [copy_backward]. unfold mbind, M_bind.
      replace (d + Z.of_nat (S n) - 1) with (d + Z.of_nat n) by lia.
      replace (s + Z.of_nat (S n) - 1) with (s + Z.of_nat n) by lia.
      by rewrite (load8_Ok _ _ _ _ Hx), (store8_Ok _ _ _ _ _ Hy), u8_byte.
    + intros a. rewrite Hc. repeat case_bool_decide; try lia.
      * by rewrite lookup_insert_ne by lia.
      * replace a with (d + Z.of_nat n) by lia. rewrite lookup_insert_eq, <-Hx. f_equal. lia.
      * by rewrite lookup_insert_ne by lia.
Qed.

Lemma memmove_ok {R} n (m : heap) (r : R) dst src :
  mapped m src n → mapped m dst n →
  ∃ m', memmove dst src n (St m r) = Ok dst (St m' r) ∧ copied m m' dst src n.
Proof.
  intros Hs Hd. unfold memmove. case_bool_decide as Hn.
  - subst n. exists m. split; [done|]. intros a. by rewrite bool_decide_eq_false_2 by lia.
  - case_bool_decide as Hov.
    + destruct (copy_backward_ok n m r dst src) as (m' & Hrun & Hc); [done|done|lia|].
      exists m'. split; [|done]. unfold mbind, M_bind. by rewrite Hrun.
    + destruct (copy_forward_ok n m r dst src) as (m' & Hrun & Hc); [done|done|lia|].
      exists m'. split; [|done]. unfold mbind, M_bind. by rewrite Hrun.
Qed.

(** ** The string routines on byte lists

    A [char *] into a kernel buffer is the list of bytes from there to the end
    of the buffer; [cstr] is the C string that starts there. *)
Fixpoint cstr (bs : list Z) : list Z :=
  match bs with
  | [] => []
  | b :: bs' => if bool_decide (b = 0) then [] else b :: cstr bs'
  end.

Fixpoint strncmp_l (p q : list Z) (n : nat) : Z :=
  match n with
  | O => 0
  | S n' =>
      let x := hd 0 p in
      let y := hd 0 q in
      if bool_decide (x = 0) then x - y
      else if bool_decide (x = y) then strncmp_l (tl p) (tl q) n' else x - y
  end.

(** [n] bytes: the string, truncated to [n], then NULs. *)
Definition strncpy_l (t : list Z) (n : nat) : list Z :=
  let c := take n (cstr t) in c ++ replicate (n - length c) 0.

(** What safestrcpy leaves in an [n]-byte destination that held [s]. *)
Definition safestrcpy_l (s t : list Z) (n : nat) : list Z :=
  let c := take (n - 1) (cstr t) in
  let w := c ++ (if bool_decide (length (cstr t) < n - 1)%nat then [0; 0] else [0]) in
  w ++ drop (length w) s.

Lemma cstr_nonzero bs : Forall (λ b, b ≠ 0) (cstr bs).
Proof. induction bs; simpl; [constructor|]. case_bool_decide; by constructor. Qed.

Lemma cstr_cons_hd bs :
  cstr bs = if bool_decide (hd 0 bs = 0) then [] else hd 0 bs :: cstr (tl bs).
Proof. destruct bs; simpl; [done|]. by case_bool_decide. Qed.

Lemma strncmp_l_0 n p q :
  strncmp_l p q n = 0 ↔ take n (cstr p) = take n (cstr q).
Proof.
  revert p q; induction n as [|n IH]; intros p q; [done|].
  cbn [strncmp_l]. rewrite (cstr_cons_hd p), (cstr_cons_hd q).
  case_bool_decide as H1.
  - rewrite H1. case_bool_decide as H2; simpl; split; intros; try done; lia.
  - case_bool_decide as H2.
    + rewrite H2 in H1 |- *. rewrite (bool_decide_eq_false_2 _ H1). simpl. rewrite IH.
      split; [by intros ->|]. by injection 1.
    + case_bool_decide as H3; simpl; split; intros Heq; try done; try lia.
      by injection Heq.
Qed.

Lemma length_strncpy_l t n : length (strncpy_l t n) = n.
Proof.
  unfold strncpy_l. rewrite length_app, length_replicate, length_take. lia.
Qed.

(** A copied name compares equal to the original. *)
Lemma cstr_app_0 c bs : Forall (λ b, b ≠ 0) c → cstr (c ++ 0 :: bs) = c.
Proof. induction 1; simpl; [done|]. rewrite bool_decide_eq_false_2 by done. by f_equal. Qed.

Lemma cstr_id c : Forall (λ b, b ≠ 0) c → cstr c = c.
Proof. induction 1; simpl; [done|]. rewrite bool_decide_eq_false_2 by done. by f_equal. Qed.

Lemma cstr_strncpy_l t n : cstr (strncpy_l t n) = take n (cstr t).
Proof.
  unfold strncpy_l. set (c := take n (cstr t)).
  assert (Forall (λ b, b ≠ 0) c) as Hc by apply Forall_take, cstr_nonzero.
  destruct (n - length c)%nat; simpl.
  - rewrite app_nil_r. by apply cstr_id.
  - by apply cstr_app_0.
Qed.

Lemma strncmp_strncpy_l t n : strncmp_l t (strncpy_l t n) n = 0.
Proof. apply strncmp_l_0. by rewrite cstr_strncpy_l, take_take, Nat.min_id. Qed.

Lemma cstr_safestrcpy_l s t n :
  (0 < n)%nat → cstr (safestrcpy_l s t n) = take (n - 1) (cstr t).
Proof.
  intros Hn. unfold safestrcpy_l.
  assert (Forall (λ b, b ≠ 0) (take (n - 1) (cstr t))) as Hc
    by apply Forall_take, cstr_nonzero.
  case_bool_decide; rewrite <-!app_assoc; simpl; by apply cstr_app_0.
Qed.

Lemma strncpy_l_cons b ts n :
  strncpy_l (b :: ts) (S n) =
  if bool_decide (b = 0) then 0 :: replicate n 0 else b :: strncpy_l ts n.
Proof. unfold strncpy_l. simpl. by case_bool_decide. Qed.

Lemma safestrcpy_l_cons x xs b ts n :
  safestrcpy_l (x :: xs) (b :: ts) (S (S n)) =
  if bool_decide (b = 0) then 0 :: 0 :: drop 1 xs else b :: safestrcpy_l xs ts (S n).
Proof.
  unfold safestrcpy_l. simpl. case_bool_decide; simpl; [done|].
  rewrite Nat.sub_0_r. repeat case_bool_decide; simpl in *; try done; lia.
Qed.
