(* ===== verification/KStringSpec.v ===== *)
(** * Separation-logic specifications of kernel/string.c *)
From S2P Require Import Prelude.
From S2P Require Import Mem.
From S2P Require Import Heap.
From S2P Require Import KString.
From iris.proofmode Require Import proofmode.

Section specs.
Context {R : Type}.
Implicit Types r : R.

Lemma hwp_load_bytes n a bs (Q : list Z → R → hprop) r :
  length bs = n →
  a ↦∗ bs ∗ (a ↦∗ bs -∗ Q bs r) ⊢ hwp (load_bytes n a) Q r.
Proof.
  revert a bs Q; induction n as [|n IH]; intros a bs Q Hl.
  - destruct bs; [|done]. iIntros "[H HQ]". iApply hwp_ret. by iApply "HQ".
  - destruct bs as [|b bs]; [done|]. injection Hl as Hl.
    rw /= array_cons. iIntros "[[Hb H] HQ]".
    iApply hwp_bind. iApply hwp_load8. iFrame. iIntros "Hb".
    iApply hwp_bind. iApply IH; [done|]. iFrame. iIntros "H".
    iApply hwp_ret. iApply "HQ". iFrame.
Qed.

Lemma hwp_store_bytes a bs bs' (Q : unit → R → hprop) r :
  length bs = length bs' → Forall is_byte bs' →
  a ↦∗ bs ∗ (a ↦∗ bs' -∗ Q tt r) ⊢ hwp (store_bytes a bs') Q r.
Proof.
  revert a bs Q; induction bs' as [|b' bs' IH]; intros a bs Q Hl Hb.
  - destruct bs; [|done]. iIntros "[H HQ]". iApply hwp_ret. by iApply "HQ".
  - destruct bs as [|b bs]; [done|]. injection Hl as Hl.
    apply Forall_cons in Hb as [Hb' Hbs].
    rw /= !array_cons. iIntros "[[Hb H] HQ]".
    iApply hwp_bind. iApply hwp_store8. iFrame. rw u8_byte //. iIntros "Hb".
    iApply IH; [done|done|]. iFrame. iIntros "H". iApply "HQ". iFrame.
Qed.

Lemma hwp_memset_loop dst c bs (Q : unit → R → hprop) r :
  dst ↦∗ bs ∗ (dst ↦∗ replicate (length bs) (u8 c) -∗ Q tt r)
  ⊢ hwp (memset_loop (length bs) dst c) Q r.
Proof.
  revert dst Q; induction bs as [|b bs IH]; intros dst Q.
  - iIntros "[H HQ]". iApply hwp_ret. by iApply "HQ".
  - rw /= !array_cons. iIntros "[[Hb H] HQ]".
    iApply hwp_bind. iApply hwp_store8. iFrame. iIntros "Hb".
    iApply IH. iFrame. iIntros "H". iApply "HQ". iFrame.
Qed.

Lemma hwp_memset dst c bs n (Q : Z → R → hprop) r :
  length bs = n →
  dst ↦∗ bs ∗ (dst ↦∗ replicate n (u8 c) -∗ Q dst r) ⊢ hwp (memset dst c n) Q r.
Proof.
  intros <-. iIntros "[H HQ]". iApply hwp_bind. iApply hwp_memset_loop. iFrame.
  iIntros "H". iApply hwp_ret. by iApply "HQ".
Qed.

Lemma array_overlap a1 a2 bs1 bs2 :
  (a1 ≤ a2 < a1 + length bs1)%Z → bs2 ≠ [] → a1 ↦∗ bs1 ∗ a2 ↦∗ bs2 ⊢ False.
Proof.
  intros Ha Hn. destruct bs2 as [|b2 bs2]; [done|].
  destruct (lookup_lt_is_Some_2 bs1 (Z.to_nat (a2 - a1))) as [b1 Hb1]; [lia|].
  rw array_cons (array_unfold a1) big_sepL_lookup_acc //.
  replace (a1 + Z.to_nat (a2 - a1))%Z with a2 by lia.
  iIntros "[[H1 _] [H2 _]]". iApply (pt8_excl with "[$H1 $H2]").
Qed.

Lemma hwp_copy_forward dst src xs ys (Q : unit → R → hprop) r :
  length ys = length xs → Forall is_byte xs →
  src ↦∗ xs ∗ dst ↦∗ ys ∗ (src ↦∗ xs -∗ dst ↦∗ xs -∗ Q tt r)
  ⊢ hwp (copy_forward (length xs) dst src) Q r.
Proof.
  revert src dst ys Q; induction xs as [|x xs IH]; intros src dst ys Q Hl Hb.
  - destruct ys; [|done]. iIntros "(H1 & H2 & HQ)". iApply hwp_ret.
    iApply ("HQ" with "H1 H2").
  - destruct ys as [|y ys]; [done|]. injection Hl as Hl.
    apply Forall_cons in Hb as [Hx Hxs]. rw /= !array_cons.
    iIntros "([Hx Hxs] & [Hy Hys] & HQ)".
    iApply hwp_bind. iApply hwp_load8. iFrame. iIntros "Hx".
    iApply hwp_bind. iApply hwp_store8. iFrame. rw u8_byte //. iIntros "Hy".
    iApply IH; [done|done|]. iFrame. iIntros "Hxs Hys".
    iApply ("HQ" with "[$Hx $Hxs] [$Hy $Hys]").
Qed.

(** memmove between disjoint buffers. *)
Lemma hwp_memmove dst src n xs ys (Q : Z → R → hprop) r :
  length xs = n → length ys = n → Forall is_byte xs →
  src ↦∗ xs ∗ dst ↦∗ ys ∗ (src ↦∗ xs -∗ dst ↦∗ xs -∗ Q dst r)
  ⊢ hwp (memmove dst src n) Q r.
Proof.
  intros <- Hl Hb. rw /memmove. case_bool_decide as Hn.
  - destruct xs, ys; try done. iIntros "(H1 & H2 & HQ)". iApply hwp_ret.
    iApply ("HQ" with "H1 H2").
  - case_bool_decide as Hov.
    + iIntros "(H1 & H2 & HQ)". iExFalso.
      iApply (array_overlap src dst xs ys with "[$H1 $H2]"); [lia|].
      by destruct ys, xs.
    + iIntros "(H1 & H2 & HQ)". iApply hwp_bind. iApply hwp_copy_forward; [done|done|].
      iFrame. iIntros "H1 H2". iApply hwp_ret. iApply ("HQ" with "H1 H2").
Qed.

(** [n] bytes of the string at [ts] can be read: it ends, or is long enough. *)
Definition readable (ts : list Z) (n : nat) : Prop :=
  (length (cstr ts) < length ts ∨ n ≤ length ts)%nat.

Lemma readable_tl b ts n : b ≠ 0%Z → readable (b :: ts) (S n) → readable ts n.
Proof.
  intros Hb. rw /readable /= bool_decide_eq_false_2 //=. lia.
Qed.

Lemma readable_nil n : readable [] (S n) → False.
Proof. rw /readable /=. lia. Qed.

Lemma hwp_strncpy_pad s xs (Q : unit → R → hprop) r :
  s ↦∗ xs ∗ (s ↦∗ replicate (length xs) 0%Z -∗ Q tt r)
  ⊢ hwp (strncpy_pad s (length xs)) Q r.
Proof.
  revert s Q; induction xs as [|x xs IH]; intros s Q.
  - iIntros "[H HQ]". iApply hwp_ret. by iApply "HQ".
  - rw /= !array_cons. iIntros "[[Hx H] HQ]".
    iApply hwp_bind. iApply hwp_store8. iFrame. iIntros "Hx".
    iApply IH. iFrame. iIntros "H". iApply "HQ". iFrame.
Qed.

Lemma hwp_strncpy_loop s t xs ts (Q : unit → R → hprop) r :
  readable ts (length xs) → Forall is_byte ts →
  s ↦∗ xs ∗ t ↦∗ ts ∗ (s ↦∗ strncpy_l ts (length xs) -∗ t ↦∗ ts -∗ Q tt r)
  ⊢ hwp (strncpy_loop s t (length xs)) Q r.
Proof.
  revert s t ts Q; induction xs as [|x xs IH]; intros s t ts Q Hr Hb.
  - iIntros "(H & Ht & HQ)". iApply hwp_ret. iApply ("HQ" with "H Ht").
  - destruct ts as [|b ts]; [by apply readable_nil in Hr|].
    apply Forall_cons in Hb as [Hb Hts]. rw /= !array_cons.
    iIntros "([Hx H] & [Hc Ht] & HQ)".
    iApply hwp_bind. iApply hwp_load8. iFrame. iIntros "Hc".
    iApply hwp_bind. iApply hwp_store8. iFrame. rw u8_byte //. iIntros "Hx".
    case_bool_decide as Hz.
    + subst b. iApply hwp_strncpy_pad. iFrame. iIntros "H".
      iApply ("HQ" with "[Hx H] [$Hc $Ht]"). rw strncpy_l_cons /= array_cons. iFrame.
    + iApply IH; [by eapply readable_tl|done|]. iFrame. iIntros "H Ht".
      iApply ("HQ" with "[Hx H] [$Hc $Ht]").
      rw strncpy_l_cons bool_decide_eq_false_2 // array_cons. iFrame.
Qed.

Lemma hwp_safestrcpy_loop n s t xs ts (Q : unit → R → hprop) r :
  length xs = S n → readable ts n → Forall is_byte ts →
  s ↦∗ xs ∗ t ↦∗ ts ∗ (s ↦∗ safestrcpy_l xs ts (S n) -∗ t ↦∗ ts -∗ Q tt r)
  ⊢ hwp (safestrcpy_loop s t n) Q r.
Proof.
  revert s t xs ts Q; induction n as [|n IH]; intros s t xs ts Q Hl Hr Hb.
  - destruct xs as [|x [|]]; try done. rw /= array_cons array_nil.
    iIntros "([Hx _] & Ht & HQ)". iApply hwp_store8. iFrame. iIntros "Hx".
    iApply ("HQ" with "[Hx] Ht"). rw /safestrcpy_l /= array_cons array_nil. by iFrame.
  - destruct ts as [|b ts]; [by apply readable_nil in Hr|].
    destruct xs as [|x xs]; [done|]. injection Hl as Hl.
    apply Forall_cons in Hb as [Hb Hts]. rw /= !array_cons.
    iIntros "([Hx H] & [Hc Ht] & HQ)".
    iApply hwp_bind. iApply hwp_load8. iFrame. iIntros "Hc".
    iApply hwp_bind. iApply hwp_store8. iFrame. rw u8_byte //. iIntros "Hx".
    case_bool_decide as Hz.
    + subst b. destruct xs as [|x' xs]; [done|]. rw array_cons.
      iDestruct "H" as "[Hx' H]". iApply hwp_store8. iFrame. iIntros "Hx'".
      iApply ("HQ" with "[Hx Hx' H] [$Hc $Ht]"). rw /safestrcpy_l /= !array_cons. iFrame.
    + iApply IH; [done|by eapply readable_tl|done|]. iFrame. iIntros "H Ht".
      iApply ("HQ" with "[Hx H] [$Hc $Ht]").
      rw safestrcpy_l_cons bool_decide_eq_false_2 // array_cons. iFrame.
Qed.

Lemma hwp_strncmp p q n ps qs (Q : Z → R → hprop) r :
  readable ps n → readable qs n →
  p ↦∗ ps ∗ q ↦∗ qs ∗ (p ↦∗ ps -∗ q ↦∗ qs -∗ Q (strncmp_l ps qs n) r)
  ⊢ hwp (strncmp p q n) Q r.
Proof.
  revert p q ps qs Q; induction n as [|n IH]; intros p q ps qs Q Hp Hq.
  - iIntros "(Hp & Hq & HQ)". iApply hwp_ret. iApply ("HQ" with "Hp Hq").
  - destruct ps as [|x ps]; [by apply readable_nil in Hp|].
    destruct qs as [|y qs]; [by apply readable_nil in Hq|].
    rw /= !array_cons. iIntros "([Hx Hp] & [Hy Hq] & HQ)".
    iApply hwp_bind. iApply hwp_load8. iFrame. iIntros "Hx".
    case_bool_decide as H0.
    + iApply hwp_bind. iApply hwp_load8. iFrame. iIntros "Hy". iApply hwp_ret.
      iApply ("HQ" with "[$Hx $Hp] [$Hy $Hq]").
    + iApply hwp_bind. iApply hwp_load8. iFrame. iIntros "Hy". case_bool_decide as Hxy.
      * subst y. iApply (IH _ _ ps qs); [by eapply readable_tl|by eapply readable_tl|].
        iFrame. iIntros "Hp Hq". iApply ("HQ" with "[$Hx $Hp] [$Hy $Hq]").
      * iApply hwp_ret. iApply ("HQ" with "[$Hx $Hp] [$Hy $Hq]").
Qed.

Lemma hwp_strlen fuel s ts (Q : Z → R → hprop) r :
  (length (cstr ts) < length ts)%nat → (length (cstr ts) < fuel)%nat →
  s ↦∗ ts ∗ (s ↦∗ ts -∗ Q (Z.of_nat (length (cstr ts))) r) ⊢ hwp (strlen fuel s) Q r.
Proof.
  revert s ts Q; induction fuel as [|fuel IH]; intros s ts Q Hn Hf; [lia|].
  destruct ts as [|b ts]; [simpl in Hn; lia|]. revert Hn Hf.
  rw /= array_cons. case_bool_decide as Hz; simpl; intros Hn Hf; iIntros "([Hb Ht] & HQ)".
  - iApply hwp_bind. iApply hwp_load8. iFrame. iIntros "Hb".
    rw bool_decide_eq_true_2 //. iApply hwp_ret. iApply ("HQ" with "[$Hb $Ht]").
  - iApply hwp_bind. iApply hwp_load8. iFrame. iIntros "Hb".
    rw bool_decide_eq_false_2 //. iApply hwp_bind. iApply (IH _ ts); [lia|lia|].
    iFrame. iIntros "Ht". iApply hwp_ret.
    replace (length (cstr ts) + 1)%Z with (Z.of_nat (S (length (cstr ts)))) by lia.
    iApply ("HQ" with "[$Hb $Ht]").
Qed.
End specs.
