(* ===== verification/Kalloc.v ===== *)
(** * kernel/kalloc.c: the physical page allocator

    The free list is threaded through the free pages themselves: [struct run]
    is the 8-byte [next] pointer at the start of each free page. *)
From S2P Require Import Prelude.
From S2P Require Import Mem.
From S2P Require Import Params.
From S2P Require Import State.
From S2P Require Import KString.
#[local] Open Scope Z_scope.

Section kalloc.
Context `{Linker}.

Definition kfree (pa : Z) : K unit :=
  if bool_decide (pa mod PGSIZE ≠ 0 ∨ pa < end_sym ∨ PHYSTOP <= pa) then panic "kfree" else
  (* Fill with junk to catch dangling refs. *)
  memset pa 1 PGSIZEn;;
  acquire Lkmem;;
  fl ← rd freelist;
  store64 pa fl;;                                  (* r->next = kmem.freelist *)
  upd (λ k, k <| freelist := pa |>);;
  release Lkmem.

Definition kalloc : K Z :=
  acquire Lkmem;;
  r ← rd freelist;
  when (bool_decide (r ≠ 0)) (next ← load64 r; upd (λ k, k <| freelist := next |>));;
  release Lkmem;;
  when (bool_decide (r ≠ 0)) (memset r 5 PGSIZEn;; mret tt);;   (* fill with junk *)
  mret r.

(** [for(; p + PGSIZE <= pa_end; p += PGSIZE) kfree(p);] *)
Fixpoint freerange_loop (fuel : nat) (p pa_end : Z) : K unit :=
  match fuel with
  | O => stuck
  | S fuel' =>
      if bool_decide (p + PGSIZE <= pa_end)
      then kfree p;; freerange_loop fuel' (p + PGSIZE) pa_end
      else mret tt
  end.

Definition freerange (pa_start pa_end : Z) : K unit :=
  let p := PGROUNDUP pa_start in
  freerange_loop (S (Z.to_nat ((pa_end - p) / PGSIZE))) p pa_end.

(** initlock(&kmem.lock) leaves the lock free, which is how [held] starts. *)
Definition kinit : K unit := freerange end_sym PHYSTOP.

Definition page_ok (p : Z) : Prop := p mod PGSIZE = 0 ∧ end_sym <= p < PHYSTOP.
End kalloc.
