(* ===== verification/KallocSpec.v ===== *)
(** * Specification of the page allocator

    [page p]: ownership of the 4096 bytes of a page.  [free_list hd ps]: the
    linked list of free pages that starts at [hd] is [ps].  Being a separating
    conjunction it makes the free pages distinct from each other and from every
    page in use. *)
From S2P Require Import Prelude.
From S2P Require Import Mem.
From S2P Require Import Heap.
From S2P Require Import Params.
From S2P Require Import State.
From S2P Require Import StateSpec.
From S2P Require Import KString.
From S2P Require Import KStringSpec.
From S2P Require Import Kalloc.
From iris.proofmode Require Import proofmode.

Definition is_page (bs : list Z) : Prop := length bs = PGSIZEn ∧ Forall is_byte bs.

Definition page (p : Z) : hprop := (∃ bs, ⟦is_page bs⟧ ∗ p ↦∗ bs)%I.

Lemma is_page_replicate v : is_byte v → is_page (replicate PGSIZEn v).
Proof. intros. split; [apply length_replicate|by apply Forall_replicate]. Qed.

Lemma is_page_app b1 b2 :
  length b1 = 8%nat → length b2 = (PGSIZEn - 8)%nat → Forall is_byte b1 → Forall is_byte b2 →
  is_page (b1 ++ b2).
Proof.
  intros H1 H2 F1 F2. split; [|by apply Forall_app].
  pose proof PGSIZEn_Z. rw length_app H1 H2. unfold PGSIZE in *. lia.
Qed.

Section spec.
Context `{Linker}.

Fixpoint free_list (hd : Z) (ps : list Z) : hprop :=
  match ps with
  | [] => ⟦hd = 0%Z⟧
  | p :: ps' =>
      ⟦hd = p ∧ page_ok p⟧ ∗
      ∃ next bs, ⟦length bs = (PGSIZEn - 8)%nat ∧ Forall is_byte bs⟧ ∗
        p ↦w next ∗ (p + 8)%Z ↦∗ bs ∗ free_list next ps'
  end%I.

(** A page splits into its link word and the rest, and back. *)
Lemma page_split bs p :
  is_page bs →
  p ↦∗ bs ⊢ ∃ next bs', ⟦length bs' = (PGSIZEn - 8)%nat ∧ Forall is_byte bs'⟧ ∗
              p ↦w next ∗ (p + 8)%Z ↦∗ bs'.
Proof.
  intros [Hl Hb]. pose proof PGSIZEn_Z as Hn. unfold PGSIZE in Hn.
  rw -{1}(take_drop 8 bs) array_app length_take_le; last lia.
  iIntros "[H1 H2]".
  iDestruct (bytes_pt64 with "H1") as "H1"; [rw length_take_le; lia|by apply Forall_take|].
  iExists _, (drop 8 bs). iFrame. iPureIntro. rw length_drop. split; [lia|by apply Forall_drop].
Qed.

Lemma page_join p next bs :
  length bs = (PGSIZEn - 8)%nat → Forall is_byte bs →
  p ↦w next ∗ (p + 8)%Z ↦∗ bs ⊢ page p.
Proof.
  iIntros (Hl Hb) "[H1 H2]".
  iDestruct (pt64_bytes with "H1") as (b1) "[[%Hl1 %Hb1] H1]".
  iExists (b1 ++ bs). rw array_app Hl1. iFrame. iPureIntro. by apply is_page_app.
Qed.

Lemma page_ok_pos p : linker_ok → page_ok p → (0 < p)%Z.
Proof. intros [] []. unfold KERNBASE in *. lia. Qed.

Lemma free_list_null_inv hd ps : linker_ok →
  free_list hd ps ⊢ ⌜(hd = 0)%Z ↔ ps = []⌝.
Proof.
  intros Hlk. destruct ps as [|p ps]; simpl.
  - iIntros "%Hh". by iPureIntro.
  - iIntros "[[-> %Hp] _]". iPureIntro. split; [|done].
    intros. pose proof (page_ok_pos p Hlk Hp). lia.
Qed.

Lemma free_list_range hd ps : linker_ok →
  free_list hd ps ⊢ ⌜u64 hd = hd⌝.
Proof.
  intros Hlk. destruct ps as [|p ps]; simpl.
  - by iIntros "->".
  - iIntros "[[-> %Hp] _]". iPureIntro. apply uN_small.
    pose proof (page_ok_pos p Hlk Hp). destruct Hp. unfold PHYSTOP, KERNBASE in *. lia.
Qed.

(** Freeing a page pushes it on the free list. *)
Lemma hwp_kfree pa ps (Q : unit → sys → hprop) r :
  linker_ok → page_ok pa → Lkmem ∉ held r →
  page pa ∗ free_list (freelist r) ps ∗
    (free_list pa (pa :: ps) -∗ Q tt (r <| freelist := pa |>))
  ⊢ hwp (kfree pa) Q r.
Proof.
  iIntros (Hlk Hpa Hh) "((%bs & %Hbs & Hp) & Hfl & HQ)". rw /kfree.
  rw bool_decide_eq_false_2; last by (destruct Hpa; lia).
  iApply hwp_bind. iApply hwp_memset; [apply Hbs|]. iFrame. iIntros "Hp".
  iApply hwp_bind. iApply hwp_acquire; [done|].
  iApply hwp_bind. iApply hwp_rd.
  iDestruct (page_split with "Hp") as (next bs') "([%Hl %Hb] & Hw & Hrest)".
  { by apply is_page_replicate. }
  iDestruct (free_list_range with "Hfl") as %Hfl; [done|].
  iApply hwp_bind. iApply hwp_store64. iFrame "Hw". iIntros "Hw".
  iApply hwp_bind. iApply hwp_upd.
  iApply (hwp_release _ (held r)); [done|].
  rw (held_restore r (λ k, k <| freelist := pa |>)); [|by intros h []|done].
  iApply "HQ". simpl. iSplitR; [done|]. iExists (freelist r), bs'.
  change (freelist (r <| held := Lkmem :: held r |>)) with (freelist r). rw Hfl. by iFrame.
Qed.

(** Allocation pops the free list; the page comes back filled with 5s.  With no
    free page it returns 0 and changes nothing. *)
Lemma hwp_kalloc ps (Q : Z → sys → hprop) r :
  linker_ok → Lkmem ∉ held r →
  free_list (freelist r) ps ∗
  match ps with
  | [] => free_list 0 [] -∗ Q 0%Z r
  | p :: ps' => ∀ next, ⟦page_ok p⟧ -∗ free_list next ps' -∗
      p ↦∗ replicate PGSIZEn 5%Z -∗ Q p (r <| freelist := next |>)
  end
  ⊢ hwp kalloc Q r.
Proof.
  iIntros (Hlk Hh) "[Hfl HQ]". rw /kalloc.
  iDestruct (free_list_null_inv with "Hfl") as %Hnull; [done|].
  iApply hwp_bind. iApply hwp_acquire; [done|].
  iApply hwp_bind. iApply hwp_rd. change (freelist (r <| held := Lkmem :: held r |>)) with (freelist r).
  destruct ps as [|p ps]; simpl.
  - assert (freelist r = 0%Z) as E by by apply Hnull.
    rw E bool_decide_eq_false_2; last by intros Hn; apply Hn.
    rw /when. iApply hwp_bind. iApply hwp_ret.
    iApply hwp_bind. iApply (hwp_release _ (held r)); [done|].
    rw held_restore_id.
    iApply hwp_bind. iApply hwp_ret. iApply hwp_ret. by iApply "HQ".
  - iDestruct "Hfl" as "[[%Hp %Hok] (%next & %bs & [%Hl %Hb] & Hw & Hr & Hfl)]".
    pose proof (page_ok_pos p Hlk Hok). rw Hp bool_decide_eq_true_2; last lia.
    rw /when. iApply hwp_bind. iApply hwp_bind. iApply hwp_load64. iFrame. iIntros "Hw".
    iApply hwp_upd. iApply hwp_bind. iApply (hwp_release _ (held r)); [done|].
    rw (held_restore r (λ k, k <| freelist := next |>)); [|by intros h []|done].
    iDestruct (page_join with "[$Hw $Hr]") as (bs') "[%Hbs' Hp]"; [done|done|].
    iApply hwp_bind. iApply hwp_bind. iApply hwp_memset; [apply Hbs'|]. iFrame "Hp".
    iIntros "Hp". iApply hwp_ret. iApply hwp_ret.
    by iApply ("HQ" with "[//] Hfl Hp").
Qed.

(** The [n] pages from [p] on. *)
Fixpoint page_range (p : Z) (n : nat) : list Z :=
  match n with
  | O => []
  | S n' => p :: page_range (p + PGSIZE)%Z n'
  end.

Lemma hwp_freerange_loop n p pa_end ps (Q : unit → sys → hprop) r :
  linker_ok → Lkmem ∉ held r →
  (n = Z.to_nat ((pa_end - p) / PGSIZE))%Z → page_aligned p →
  (end_sym ≤ p)%Z → (pa_end ≤ PHYSTOP)%Z →
  ([∗ list] q ∈ page_range p n, page q) ∗ free_list (freelist r) ps ∗
  (∀ hd, free_list hd (rev (page_range p n) ++ ps) -∗ Q tt (r <| freelist := hd |>))
  ⊢ hwp (freerange_loop (S n) p pa_end) Q r.
Proof.
  intros Hlk. revert p ps r; induction n as [|n IH]; intros p ps r Hh Hn Ha Hlo Hhi.
  - iIntros "(_ & Hfl & HQ)". unfold freerange_loop.
    rw bool_decide_eq_false_2; last first.
    { intros Hle. assert (1 <= (pa_end - p) / PGSIZE)%Z; [|lia].
      apply Z.div_le_lower_bound; unfold PGSIZE in *; lia. }
    iApply hwp_ret. iSpecialize ("HQ" with "Hfl").
    by replace (r <| freelist := freelist r |>) with r by by destruct r.
  - assert (p + PGSIZE ≤ pa_end)%Z as Hle.
    { assert (1 <= (pa_end - p) / PGSIZE)%Z by lia.
      pose proof (Z.mul_div_le (pa_end - p) PGSIZE). unfold PGSIZE in *. lia. }
    change (freerange_loop (S (S n)) p pa_end) with
      (if bool_decide (p + PGSIZE <= pa_end)%Z
       then kfree p;; freerange_loop (S n) (p + PGSIZE)%Z pa_end else mret tt).
    rw bool_decide_eq_true_2 //. simpl. iIntros "([Hp Hps] & Hfl & HQ)".
    iApply hwp_bind. iApply hwp_kfree; [done| |done|].
    { split; [done|]. unfold PGSIZE in *. lia. }
    iFrame. iIntros "Hfl". iApply (IH _ (p :: ps)); [done| | | |done|].
    + replace (pa_end - (p + PGSIZE))%Z with ((pa_end - p) + (-1) * PGSIZE)%Z by lia.
      rw Z.div_add; last done. lia.
    + unfold page_aligned in *. rw -{1}(Z.mul_1_l PGSIZE) Z.mod_add; done.
    + unfold PGSIZE in *. lia.
    + change (freelist (r <| freelist := p |>)) with p. iFrame.
      iIntros (hd) "Hfl". rw -app_assoc.
      iSpecialize ("HQ" with "Hfl"). by destruct r.
Qed.

(** Memory that holds a free list of [n] consecutive pages exists. *)
Lemma sat_free_list n p :
  linker_ok → page_aligned p → (end_sym ≤ p)%Z → (p + Z.of_nat n * PGSIZE ≤ PHYSTOP)%Z →
  sat (free_list (if n is O then 0%Z else p) (page_range p n)) p (p + Z.of_nat n * PGSIZE)%Z.
Proof.
  intros Hlk. revert p. induction n as [|n IH]; intros p Ha Hlo Hhi.
  - rw Z.add_0_r. apply (sat_mono emp%I); [by iIntros "_"|apply sat_emp].
  - set next := (if n is O then 0%Z else (p + PGSIZE)%Z).
    apply (sat_mono ((p ↦∗ (le_split 8 next ++ replicate (PGSIZEn - 8) 0%Z)) ∗
                     free_list next (page_range (p + PGSIZE) n))%I).
    { rw array_app length_le_split. iIntros "[[Hw Hr] Hfl]". iSplitR.
      { iPureIntro. split; [done|]. split; [done|]. unfold PGSIZE in *. lia. }
      iExists next, (replicate (PGSIZEn - 8) 0%Z). iFrame "Hfl Hr". iSplitR.
      - iPureIntro. split; [apply length_replicate|by apply Forall_replicate].
      - iFrame. iPureIntro. subst next. destruct Hlk. unfold PGSIZE, PHYSTOP, KERNBASE in *.
        destruct n; lia. }
    apply (sat_sep _ _ _ (p + PGSIZE)%Z); [unfold PGSIZE; lia| |].
    + replace (p + PGSIZE)%Z with (p + Z.of_nat (length (le_split 8 next ++ replicate (PGSIZEn - 8) 0%Z)))%Z.
      { apply sat_array. }
      rw length_app length_le_split length_replicate. pose proof PGSIZEn_Z. unfold PGSIZE in *. lia.
    + replace (p + Z.of_nat (S n) * PGSIZE)%Z with (p + PGSIZE + Z.of_nat n * PGSIZE)%Z by lia.
      apply IH; [|unfold PGSIZE in *; lia..].
      unfold page_aligned in *. rw -{1}(Z.mul_1_l PGSIZE) Z.mod_add; done.
Qed.

Lemma sat_pages n p :
  sat ([∗ list] q ∈ page_range p n, page q)%I p (p + Z.of_nat n * PGSIZE)%Z.
Proof.
  revert p; induction n as [|n IH]; intros p.
  - rw Z.add_0_r. apply sat_emp.
  - apply (sat_sep _ _ _ (p + PGSIZE)%Z); [unfold PGSIZE; lia| |].
    + apply (sat_mono (p ↦∗ replicate PGSIZEn 0%Z)).
      { iIntros "H". iExists _. iFrame. iPureIntro. by apply is_page_replicate. }
      rw -{1}PGSIZEn_Z -{1}(length_replicate PGSIZEn 0%Z). apply sat_array.
    + replace (p + Z.of_nat (S n) * PGSIZE)%Z with (p + PGSIZE + Z.of_nat n * PGSIZE)%Z by lia.
      apply IH.
Qed.

Definition ram_pages : list Z :=
  page_range (PGROUNDUP end_sym) (Z.to_nat ((PHYSTOP - PGROUNDUP end_sym) / PGSIZE)).
End spec.
