(* ===== verification/Vm.v ===== *)
(** * kernel/vm.c: virtual memory

    Page tables live in physical memory, three levels of 512 little-endian
    64-bit entries, and are read and written there.  A [pagetable_t] is the
    physical address of the root page and a [pte_t *] the physical address of
    an entry; 0 is the null pointer.  Kernel buffers that copyin and copyout
    transfer are lists of bytes. *)
From S2P Require Import Prelude.
From S2P Require Import Mem.
From S2P Require Import Params.
From S2P Require Import State.
From S2P Require Import KString.
From S2P Require Import Kalloc.
#[local] Open Scope Z_scope.

Section vm.
Context `{Linker}.
Implicit Types (pagetable va pa a sz : Z).

(** The body of walk's loop and its final [return &pagetable[PX(0, va)]]. *)
Fixpoint walk_loop (level : nat) pagetable va (alloc : bool) : K Z :=
  match level with
  | O => mret (pagetable + 8 * PX 0 va)
  | S level' =>
      let pte := pagetable + 8 * PX (Z.of_nat level) va in
      x ← load64 pte;
      if bool_decide (Z.land x PTE_V ≠ 0) then walk_loop level' (PTE2PA x) va alloc
      else if negb alloc then mret 0 else
        p ← kalloc;
        if bool_decide (p = 0) then mret 0 else
        memset p 0 PGSIZEn;;
        store64 pte (Z.lor (PA2PTE p) PTE_V);;
        walk_loop level' p va alloc
  end.

Definition walk pagetable va (alloc : bool) : K Z :=
  if bool_decide (MAXVA <= va) then panic "walk" else walk_loop 2 pagetable va alloc.

Definition walkaddr pagetable va : K Z :=
  if bool_decide (MAXVA <= va) then mret 0 else
  pte ← walk pagetable va false;
  if bool_decide (pte = 0) then mret 0 else
  x ← load64 pte;
  if bool_decide (Z.land x PTE_V = 0) then mret 0 else
  if bool_decide (Z.land x PTE_U = 0) then mret 0 else
  mret (PTE2PA x).

(** The [for(;;)] of mappages; it runs once per page. *)
Fixpoint mappages_loop (fuel : nat) pagetable a (last : Z) pa (perm : Z) : K Z :=
  match fuel with
  | O => stuck
  | S fuel' =>
      pte ← walk pagetable a true;
      if bool_decide (pte = 0) then mret (-1) else
      x ← load64 pte;
      if bool_decide (Z.land x PTE_V ≠ 0) then panic "mappages: remap" else
      store64 pte (Z.lor (Z.lor (PA2PTE pa) perm) PTE_V);;
      if bool_decide (a = last) then mret 0 else
      mappages_loop fuel' pagetable (u64 (a + PGSIZE)) last (u64 (pa + PGSIZE)) perm
  end.

Definition mappages pagetable va (size : Z) pa (perm : Z) : K Z :=
  if bool_decide (va mod PGSIZE ≠ 0) then panic "mappages: va not aligned" else
  if bool_decide (size mod PGSIZE ≠ 0) then panic "mappages: size not aligned" else
  if bool_decide (size = 0) then panic "mappages: size" else
  mappages_loop (Z.to_nat (size / PGSIZE)) pagetable va (u64 (va + size - PGSIZE)) pa perm.

Definition uvmcreate : K Z :=
  pagetable ← kalloc;
  if bool_decide (pagetable = 0) then mret 0 else
  memset pagetable 0 PGSIZEn;; mret pagetable.

(** [for(a = va; a < va + npages*PGSIZE; a += PGSIZE)] *)
Fixpoint uvmunmap_loop (fuel : nat) pagetable a (stop : Z) (do_free : bool) : K unit :=
  match fuel with
  | O => stuck
  | S fuel' =>
      if bool_decide (a < stop) then
        pte ← walk pagetable a false;
        (if bool_decide (pte = 0) then mret tt else      (* continue *)
         x ← load64 pte;
         if bool_decide (Z.land x PTE_V = 0) then mret tt else
         when do_free (kfree (PTE2PA x));;
         store64 pte 0);;
        uvmunmap_loop fuel' pagetable (u64 (a + PGSIZE)) stop do_free
      else mret tt
  end.

Definition uvmunmap pagetable va (npages : Z) (do_free : bool) : K unit :=
  if bool_decide (va mod PGSIZE ≠ 0) then panic "uvmunmap: not aligned" else
  uvmunmap_loop (S (Z.to_nat npages)) pagetable va (u64 (va + npages * PGSIZE)) do_free.

Definition uvmdealloc pagetable (oldsz newsz : Z) : K Z :=
  if bool_decide (oldsz <= newsz) then mret oldsz else
  when (bool_decide (PGROUNDUP newsz < PGROUNDUP oldsz))
    (let npages := s32 ((PGROUNDUP oldsz - PGROUNDUP newsz) / PGSIZE) in
     uvmunmap pagetable (PGROUNDUP newsz) (u64 npages) true);;
  mret newsz.

(** [for(a = oldsz; a < newsz; a += PGSIZE)], [oldsz] rounded up *)
Fixpoint uvmalloc_loop (fuel : nat) pagetable a (oldsz newsz xperm : Z) : K Z :=
  match fuel with
  | O => stuck
  | S fuel' =>
      if bool_decide (a < newsz) then
        m ← kalloc;
        if bool_decide (m = 0) then uvmdealloc pagetable a oldsz;; mret 0 else
        memset m 0 PGSIZEn;;
        rc ← mappages pagetable a PGSIZE m (Z.lor (Z.lor PTE_R PTE_U) xperm);
        if bool_decide (rc ≠ 0) then kfree m;; uvmdealloc pagetable a oldsz;; mret 0 else
        uvmalloc_loop fuel' pagetable (u64 (a + PGSIZE)) oldsz newsz xperm
      else mret newsz
  end.

Definition uvmalloc pagetable (oldsz newsz xperm : Z) : K Z :=
  if bool_decide (newsz < oldsz) then mret oldsz else
  let oldsz := PGROUNDUP oldsz in
  uvmalloc_loop (S (Z.to_nat ((newsz - oldsz + PGSIZE - 1) / PGSIZE))) pagetable oldsz oldsz newsz xperm.

(** [depth] bounds the recursion; the page tables have three levels. *)
Fixpoint freewalk (depth : nat) pagetable : K unit :=
  match depth with
  | O => stuck
  | S depth' =>
      for_each 512 0 (λ i,
        let slot := pagetable + 8 * Z.of_nat i in
        pte ← load64 slot;
        if bool_decide (Z.land pte PTE_V ≠ 0 ∧ Z.land pte (Z.lor (Z.lor PTE_R PTE_W) PTE_X) = 0)
        then freewalk depth' (PTE2PA pte);; store64 slot 0
        else if bool_decide (Z.land pte PTE_V ≠ 0) then panic "freewalk: leaf"
        else mret tt);;
      kfree pagetable
  end.

Definition uvmfree pagetable sz : K unit :=
  when (bool_decide (0 < sz)) (uvmunmap pagetable 0 (PGROUNDUP sz / PGSIZE) true);;
  freewalk 3 pagetable.

(** [for(i = 0; i < sz; i += PGSIZE)]; on an error it jumps to [err] *)
Fixpoint uvmcopy_loop (fuel : nat) (old new : Z) (i : Z) sz : K Z :=
  match fuel with
  | O => stuck
  | S fuel' =>
      if bool_decide (i < sz) then
        pte ← walk old i false;
        if bool_decide (pte = 0) then uvmcopy_loop fuel' old new (u64 (i + PGSIZE)) sz else
        x ← load64 pte;
        if bool_decide (Z.land x PTE_V = 0)
        then uvmcopy_loop fuel' old new (u64 (i + PGSIZE)) sz else
        let pa := PTE2PA x in
        let flags := PTE_FLAGS x in
        m ← kalloc;
        if bool_decide (m = 0) then uvmunmap new 0 (i / PGSIZE) true;; mret (-1) else
        memmove m pa PGSIZEn;;
        rc ← mappages new i PGSIZE m flags;
        if bool_decide (rc ≠ 0)
        then kfree m;; uvmunmap new 0 (i / PGSIZE) true;; mret (-1) else
        uvmcopy_loop fuel' old new (u64 (i + PGSIZE)) sz
      else mret 0
  end.

Definition uvmcopy (old new : Z) sz : K Z :=
  uvmcopy_loop (S (Z.to_nat ((sz + PGSIZE - 1) / PGSIZE))) old new 0 sz.

Definition uvmclear pagetable va : K unit :=
  pte ← walk pagetable va false;
  if bool_decide (pte = 0) then panic "uvmclear" else
  x ← load64 pte;
  store64 pte (Z.land x (Z.lnot PTE_U)).

Definition ismapped pagetable va : K bool :=
  pte ← walk pagetable va false;
  if bool_decide (pte = 0) then mret false else
  x ← load64 pte;
  mret (bool_decide (Z.land x PTE_V ≠ 0)).

Definition vmfault pagetable va (read : bool) : K Z :=
  i ← the_proc;
  p ← proc_get i;
  if bool_decide (p_sz p <= va) then mret 0 else
  let va := PGROUNDDOWN va in
  mapped ← ismapped pagetable va;
  if mapped : bool then mret 0 else
  m ← kalloc;
  if bool_decide (m = 0) then mret 0 else
  memset m 0 PGSIZEn;;
  rc ← mappages (p_pagetable p) va PGSIZE m (Z.lor (Z.lor PTE_W PTE_U) PTE_R);
  if bool_decide (rc ≠ 0) then kfree m;; mret 0 else mret m.

(** [while(len > 0)] of copyout; [src] holds the bytes still to be copied *)
Fixpoint copyout_loop (fuel : nat) pagetable (dstva : Z) (src : list Z) : K Z :=
  match fuel with
  | O => stuck
  | S fuel' =>
      if bool_decide (src = []) then mret 0 else
      let va0 := PGROUNDDOWN dstva in
      if bool_decide (MAXVA <= va0) then mret (-1) else
      pa0 ← walkaddr pagetable va0;
      pa0 ← (if bool_decide (pa0 = 0) then vmfault pagetable va0 false else mret pa0);
      if bool_decide (pa0 = 0) then mret (-1) else
      pte ← walk pagetable va0 false;
      x ← load64 pte;
      (* forbid copyout over read-only user text pages. *)
      if bool_decide (Z.land x PTE_W = 0) then mret (-1) else
      let n := Z.to_nat (Z.min (PGSIZE - (dstva - va0)) (Z.of_nat (length src))) in
      store_bytes (pa0 + (dstva - va0)) (take n src);;
      copyout_loop fuel' pagetable (u64 (va0 + PGSIZE)) (drop n src)
  end.

Definition copyout pagetable (dstva : Z) (src : list Z) : K Z :=
  copyout_loop (S (S (length src))) pagetable dstva src.

(** [while(len > 0)] of copyin; the result is the return value and the bytes
    stored at dst *)
Fixpoint copyin_loop (fuel : nat) pagetable (srcva : Z) (len : nat) : K (Z * list Z) :=
  match fuel with
  | O => stuck
  | S fuel' =>
      if bool_decide (len = O) then mret (0, []) else
      let va0 := PGROUNDDOWN srcva in
      pa0 ← walkaddr pagetable va0;
      pa0 ← (if bool_decide (pa0 = 0) then vmfault pagetable va0 false else mret pa0);
      if bool_decide (pa0 = 0) then mret (-1, []) else
      let n := Z.to_nat (Z.min (PGSIZE - (srcva - va0)) (Z.of_nat len)) in
      bs ← load_bytes n (pa0 + (srcva - va0));
      '(rc, rest) ← copyin_loop fuel' pagetable (u64 (va0 + PGSIZE)) (len - n);
      mret (rc, bs ++ rest)
  end.

Definition copyin pagetable (srcva : Z) (len : nat) : K (Z * list Z) :=
  copyin_loop (S (S len)) pagetable srcva len.

(** copyinstr's inner [while(n > 0)]: the bytes stored at dst and got_null *)
Fixpoint copyinstr_page (n : nat) (p : Z) : K (list Z * bool) :=
  match n with
  | O => mret ([], false)
  | S n' =>
      c ← load8 p;
      if bool_decide (c = 0) then mret ([0], true) else
      '(cs, got_null) ← copyinstr_page n' (p + 1);
      mret (c :: cs, got_null)
  end.

(** [while(got_null == 0 && max > 0)]; the return value and the bytes stored *)
Fixpoint copyinstr_loop (fuel : nat) pagetable (srcva : Z) (max : nat) : K (Z * list Z) :=
  match fuel with
  | O => stuck
  | S fuel' =>
      if bool_decide (max = O) then mret (-1, []) else
      let va0 := PGROUNDDOWN srcva in
      pa0 ← walkaddr pagetable va0;
      if bool_decide (pa0 = 0) then mret (-1, []) else
      let n := Z.to_nat (Z.min (PGSIZE - (srcva - va0)) (Z.of_nat max)) in
      '(cs, got_null) ← copyinstr_page n (pa0 + (srcva - va0));
      if got_null : bool then mret (0, cs) else
      '(rc, rest) ← copyinstr_loop fuel' pagetable (u64 (va0 + PGSIZE)) (max - n);
      mret (rc, cs ++ rest)
  end.

Definition copyinstr pagetable (srcva : Z) (max : nat) : K (Z * list Z) :=
  copyinstr_loop (S (S max)) pagetable srcva max.

(** ** The kernel page table *)
Definition kvmmap (kpgtbl va pa size perm : Z) : K unit :=
  rc ← mappages kpgtbl va size pa perm;
  if bool_decide (rc ≠ 0) then panic "kvmmap" else mret tt.

(** kernel/proc.c proc_mapstacks *)
Definition proc_mapstacks (kpgtbl : Z) : K unit :=
  for_each NPROC 0 (λ i,
    pa ← kalloc;
    if bool_decide (pa = 0) then panic "kalloc" else
    kvmmap kpgtbl (KSTACK (Z.of_nat i)) pa PGSIZE (Z.lor PTE_R PTE_W)).

Definition kvmmake : K Z :=
  kpgtbl ← kalloc;
  memset kpgtbl 0 PGSIZEn;;
  kvmmap kpgtbl UART0 UART0 PGSIZE (Z.lor PTE_R PTE_W);;
  kvmmap kpgtbl VIRTIO0 VIRTIO0 PGSIZE (Z.lor PTE_R PTE_W);;
  kvmmap kpgtbl PLIC PLIC 67108864 (Z.lor PTE_R PTE_W);;
  kvmmap kpgtbl KERNBASE KERNBASE (etext_sym - KERNBASE) (Z.lor PTE_R PTE_X);;
  kvmmap kpgtbl etext_sym etext_sym (PHYSTOP - etext_sym) (Z.lor PTE_R PTE_W);;
  kvmmap kpgtbl TRAMPOLINE trampoline_sym PGSIZE (Z.lor PTE_R PTE_X);;
  proc_mapstacks kpgtbl;;
  mret kpgtbl.
End vm.
