(* ===== verification/PageTable.v ===== *)
(** * Page tables as maps

    [ptable 2 root M 0] says that the page-table pages reachable from [root] in
    memory form a tree of three levels whose leaf entries are the map [M] from
    virtual page numbers to page-table entries.  The separating conjunctions
    make the table pages distinct from one another.  [M] holds valid entries
    only; entries that are not in [M] are zero in memory. *)
From S2P Require Import Prelude.
From S2P Require Import Mem.
From S2P Require Import Heap.
From S2P Require Import Params.
From S2P Require Import State.
From S2P Require Import Kalloc.
From S2P Require Import KallocSpec.
From iris.proofmode Require Import proofmode.
#[local] Open Scope Z_scope.

(** The 512 indices of a page-table page. *)
Definition ptidx : list Z := seqZ 0 512.

Lemma ptidx_lookup i : 0 <= i < 512 → ptidx !! Z.to_nat i = Some i.
Proof. intros. apply lookup_seqZ. lia. Qed.

Lemma ptidx_lookup_inv k i : ptidx !! k = Some i → i = Z.of_nat k ∧ 0 <= i < 512.
Proof. intros Hk. apply lookup_seqZ in Hk. lia. Qed.

Lemma ptidx_const (v : Z) : const v <$> ptidx = replicate 512 v.
Proof. by rw (const_fmap _ _ v). Qed.

Lemma ptidx_eq : ptidx = seqZ 0 (Z.of_nat 512).
Proof. done. Qed.
#[global] Opaque ptidx.

(** The entry of page [vpn] in memory: zero when it is not mapped. *)
Definition pte (M : gmap Z Z) (vpn : Z) : Z := default 0 (M !! vpn).

Definition setpte (M : gmap Z Z) (vpn v : Z) : gmap Z Z :=
  if bool_decide (v = 0) then delete vpn M else <[vpn := v]> M.

(** No page under entry [j] of a table whose children are at level [l]. *)
Definition vacant (l : nat) (M : gmap Z Z) (j : Z) : Prop :=
  ∀ vpn, vpn / 512 ^ Z.of_nat (S l) = j → M !! vpn = None.

Section ptable.
Context `{Linker}.

Fixpoint ptable_def (l : nat) (p : Z) (M : gmap Z Z) (b : Z) : hprop :=
  (⟦page_ok p⟧ ∗
   [∗ list] i ∈ ptidx,
     match l with
     | O => (p + 8 * i) ↦w pte M (b * 512 + i)
     | S l' =>
         ∃ w, (p + 8 * i) ↦w w ∗
           (⟦w = 0 ∧ vacant l' M (b * 512 + i)⟧ ∨
            ∃ c, ⟦w = Z.lor (PA2PTE c) PTE_V⟧ ∗ ptable_def l' c M (b * 512 + i))
     end)%I.

Definition ptable_aux : seal (@ptable_def). Proof. by eexists. Qed.
Definition ptable := ptable_aux.(unseal).

(** One entry, and the others. *)
Definition entry (l : nat) (p : Z) (M : gmap Z Z) (b i : Z) : hprop :=
  match l with
  | O => (p + 8 * i) ↦w pte M (b * 512 + i)
  | S l' =>
      ∃ w, (p + 8 * i) ↦w w ∗
        (⟦w = 0 ∧ vacant l' M (b * 512 + i)⟧ ∨
         ∃ c, ⟦w = Z.lor (PA2PTE c) PTE_V⟧ ∗ ptable l' c M (b * 512 + i))
  end%I.

Lemma ptable_unfold l p M b :
  ptable l p M b ⊣⊢ ⟦page_ok p⟧ ∗ [∗ list] i ∈ ptidx, entry l p M b i.
Proof. rw /ptable /entry /ptable ptable_aux.(seal_eq). by destruct l. Qed.

Lemma ptable_page_ok l p M b : ptable l p M b ⊢ ⌜page_ok p⌝.
Proof. rw ptable_unfold. by iIntros "[% _]". Qed.

(** Two maps agree on the pages whose number, without its [9 * n] low bits, is
    [j]: the pages below one entry of a table at level [n]. *)
Definition agree (n : nat) (M M' : gmap Z Z) (j : Z) : Prop :=
  ∀ vpn, vpn / 512 ^ Z.of_nat n = j → M !! vpn = M' !! vpn.

Lemma index_child n vpn b i :
  0 <= i < 512 → vpn / 512 ^ Z.of_nat n = b * 512 + i → vpn / 512 ^ Z.of_nat (S n) = b.
Proof.
  intros Hi Hv. rw Nat2Z.inj_succ Z.pow_succ_r; last lia.
  rw Z.mul_comm -Z.div_div; try lia. rw Hv.
  rw Z.add_comm Z.div_add; last done. rw Z.div_small //.
Qed.

Lemma agree_child n M M' b i :
  0 <= i < 512 → agree (S n) M M' b → agree n M M' (b * 512 + i).
Proof. intros Hi Hag vpn Hv. by eapply Hag, index_child. Qed.

Lemma entry_agree l p M M' b i :
  0 <= i < 512 → agree l M M' (b * 512 + i) → entry l p M b i ⊢ entry l p M' b i.
Proof.
  revert p b i; induction l as [|l IH]; intros p b i Hi Hag; simpl.
  - rw /pte (Hag (b * 512 + i)) //. by rw Z.pow_0_r Z.div_1_r.
  - apply bi.exist_mono=> w. apply bi.sep_mono_r, bi.or_mono.
    + iIntros "[% %Hv]". iPureIntro. split; [done|]. intros vpn Hvpn.
      rw -Hag //. by apply Hv.
    + apply bi.exist_mono=> c. apply bi.sep_mono_r. rw !ptable_unfold.
      apply bi.sep_mono_r, big_sepL_mono. intros k j Hk.
      apply ptidx_lookup_inv in Hk as [_ Hj]. apply IH; [done|by apply agree_child].
Qed.

Lemma ptable_agree l p M M' b :
  agree (S l) M M' b → ptable l p M b ⊢ ptable l p M' b.
Proof.
  intros Hag. rw !ptable_unfold. apply bi.sep_mono_r, big_sepL_mono. intros k j Hk.
  apply ptidx_lookup_inv in Hk as [_ Hj]. apply entry_agree; [done|by apply agree_child].
Qed.

Lemma setpte_ne M vpn v vpn' : vpn ≠ vpn' → setpte M vpn v !! vpn' = M !! vpn'.
Proof.
  intros. rw /setpte. case_bool_decide; [by apply lookup_delete_ne|by apply lookup_insert_ne].
Qed.

Lemma pte_setpte M vpn v : pte (setpte M vpn v) vpn = v.
Proof.
  rw /pte /setpte. case_bool_decide; [by rw lookup_delete_eq|by rw lookup_insert_eq].
Qed.

Lemma setpte_agree n M vpn v j :
  vpn / 512 ^ Z.of_nat n ≠ j → agree n M (setpte M vpn v) j.
Proof. intros Hne vpn' Hv. rw setpte_ne //. by intros ->. Qed.

(** The index computed by PX at each level. *)
Lemma PX_index l va b :
  0 <= va → va / PGSIZE / 512 ^ Z.of_nat (S l) = b →
  va / PGSIZE / 512 ^ Z.of_nat l = b * 512 + PX (Z.of_nat l) va ∧
  0 <= PX (Z.of_nat l) va < 512.
Proof.
  intros Hva Hb. rw PX_spec; [|lia|done].
  rw /PXSHIFT /PGSHIFT Z.pow_add_r; [|lia|lia]. rw Z.pow_mul_r; [|lia|lia].
  change (2 ^ 12) with PGSIZE. change (2 ^ 9) with 512.
  rw -Z.div_div; [|done|lia]. rw Nat2Z.inj_succ Z.pow_succ_r in Hb; last lia.
  rw (Z.mul_comm 512) -Z.div_div in Hb; [|lia|lia].
  set x := va / PGSIZE / _ in Hb |- *. split; [|by apply Z.mod_pos_bound].
  pose proof (Z.div_mod x 512 ltac:(done)). lia.
Qed.

(** A zeroed page is a table with no entry. *)
Lemma ptable_zero l p M b :
  page_ok p → (∀ vpn, vpn / 512 ^ Z.of_nat (S l) = b → M !! vpn = None) →
  p ↦∗ replicate PGSIZEn 0 ⊢ ptable l p M b.
Proof.
  intros Hp Hv. rw ptable_unfold.
  replace PGSIZEn with (8 * 512)%nat by (pose proof PGSIZEn_Z; unfold PGSIZE in *; lia).
  rw zero_words. iIntros "H". iSplitR; [done|]. rw /words.
  rw -(ptidx_const 0) big_sepL_fmap. iApply (big_sepL_mono with "H"). intros k i Hk.
  apply ptidx_lookup_inv in Hk as [-> Hi]. destruct l as [|l]; simpl.
  - rw /pte Hv //. by eapply index_child, Z.div_1_r.
  - iIntros "H". iExists 0. iFrame. iLeft. iPureIntro. split; [done|].
    intros vpn Hvpn. by eapply Hv, index_child.
Qed.

(** Taking the entry of index [i] out of a table page, and putting back one
    that describes a map changed only below [i]. *)
Lemma ptable_entry_acc l p M b i :
  0 <= i < 512 →
  ptable l p M b ⊢
    ⟦page_ok p⟧ ∗ entry l p M b i ∗
    ∀ M', ⟦∀ j, 0 <= j < 512 → j ≠ i →
             entry l p M b j ⊢ entry l p M' b j⟧ -∗
          entry l p M' b i -∗ ptable l p M' b.
Proof.
  intros Hi. rw ptable_unfold (big_sepL_delete _ _ (Z.to_nat i) i); last by apply ptidx_lookup.
  iIntros "(%Hp & $ & Hrest)". iSplitR; [done|].
  iIntros (M') "%Hoth He". rw ptable_unfold. iSplitR; [done|].
  rw (big_sepL_delete (λ _ j, entry l p M' b j) ptidx (Z.to_nat i) i); last by apply ptidx_lookup.
  iFrame "He". iApply (big_sepL_mono with "Hrest"). intros k j Hk. simpl.
  apply ptidx_lookup_inv in Hk as [-> Hj]. case_decide as Hd; [done|].
  apply Hoth; lia.
Qed.
End ptable.

