(* ===== verification/Walk.v ===== *)
(** * Specification of walk, mappages and uvmunmap

    Each is described by its effect on the map [M] of a page table (see
    PageTable.v) and on the free list. *)
From S2P Require Import Prelude.
From S2P Require Import Mem.
From S2P Require Import Heap.
From S2P Require Import Params.
From S2P Require Import State.
From S2P Require Import StateSpec.
From S2P Require Import KString.
From S2P Require Import KStringSpec.
From S2P Require Import Kalloc.
From S2P Require Import KallocSpec.
From S2P Require Import Vm.
From S2P Require Import PageTable.
From iris.proofmode Require Import proofmode.
#[local] Open Scope Z_scope.

Lemma freelist_id (r : sys) : r <| freelist := freelist r |> = r.
Proof. by destruct r. Qed.

Lemma freelist_twice (r : sys) a b : r <| freelist := a |> <| freelist := b |> = r <| freelist := b |>.
Proof. by destruct r. Qed.

Section walk.
Context `{Linker}.
Context (Hlk : linker_ok).

Lemma page_ok_range p : page_ok p → 0 < p < 2 ^ 56.
Proof.
  intros Hp. pose proof (page_ok_pos p Hlk Hp). destruct Hp. unfold PHYSTOP, KERNBASE in *. lia.
Qed.

(** A page address survives the round trip through an entry. *)
Lemma page_pte p f : page_ok p → 0 <= f < 1024 → PTE2PA (Z.lor (PA2PTE p) f) = p.
Proof.
  intros Hp Hf. apply PTE2PA_flags; [|apply Hp|done]. pose proof (page_ok_range p Hp). lia.
Qed.

Lemma page_pte_range p f : page_ok p → 0 <= f < 1024 → 0 <= Z.lor (PA2PTE p) f < 2 ^ 54.
Proof. intros Hp Hf. apply PA2PTE_flags_bound; [|done]. pose proof (page_ok_range p Hp). lia. Qed.

Lemma u64_pte p f :
  page_ok p → 0 <= f < 1024 → u64 (Z.lor (PA2PTE p) f) = Z.lor (PA2PTE p) f.
Proof. intros Hp Hf. apply uN_small. pose proof (page_pte_range p f Hp Hf). lia. Qed.

Lemma page_pte_flag p f m :
  page_ok p → 0 <= m < 1024 → Z.land (Z.lor (PA2PTE p) f) m = Z.land f m.
Proof.
  intros Hp Hm. apply land_lor_flags; [|done]. apply PA2PTE_mod.
  pose proof (page_ok_range p Hp). lia.
Qed.

(** What walk's caller gets: either the address of the entry, on loan from the
    table, or 0 because there is no entry (alloc = 0) or no memory (alloc = 1).
    Table pages come from the front of the free list. *)
Definition walk_post (l : nat) p M b vpn (alloc : bool) ps (Q : Z → sys → hprop) r : hprop :=
  ((∀ a hd used ps', ⟦a ≠ 0 ∧ ps = used ++ ps' ∧ (alloc = false → used = [] ∧ hd = freelist r)⟧ -∗
      free_list hd ps' -∗ a ↦w pte M vpn -∗
      (∀ v, a ↦w v -∗ ptable l p (setpte M vpn v) b) -∗
      Q a (r <| freelist := hd |>)) ∧
   (∀ hd, ⟦M !! vpn = None ∧ (alloc = false → hd = freelist r)⟧ -∗
      free_list hd (if alloc then [] else ps) -∗ ptable l p M b -∗
      Q 0 (r <| freelist := hd |>)))%I.

(** Descending into a child table. *)
Lemma walk_post_child l p c M b vpn alloc i ps (Q : Z → sys → hprop) r :
  0 <= i < 512 → vpn / 512 ^ Z.of_nat (S l) = b * 512 + i →
  (p + 8 * i) ↦w Z.lor (PA2PTE c) PTE_V -∗
  (∀ M', ⟦∀ j, 0 <= j < 512 → j ≠ i → entry (S l) p M b j ⊢ entry (S l) p M' b j⟧ -∗
     entry (S l) p M' b i -∗ ptable (S l) p M' b) -∗
  walk_post (S l) p M b vpn alloc ps Q r -∗
  walk_post l c M (b * 512 + i) vpn alloc ps Q r.
Proof.
  iIntros (Hi Hvpn) "Hw Hclose HQ". iSplit.
  - iDestruct "HQ" as "[HQ _]". iIntros (a hd used ps') "%Hpure Hfl Ha Hback".
    iApply ("HQ" with "[//] Hfl Ha"). iIntros (v) "Ha".
    iApply "Hclose"; last first.
    { iExists _. iFrame "Hw". iRight. iExists c. iSplitR; [done|]. by iApply "Hback". }
    iPureIntro. intros j Hj Hne. apply entry_agree; [done|]. apply setpte_agree. lia.
  - iDestruct "HQ" as "[_ HQ]". iIntros (hd) "%Hpure Hfl Hpt".
    iApply ("HQ" with "[//] Hfl"). iApply "Hclose"; [done|].
    iExists _. iFrame "Hw". iRight. iExists c. by iFrame.
Qed.

(** Skipping over the page a new table takes from the free list. *)
Lemma walk_post_alloc l p M b vpn q ps hd (Q : Z → sys → hprop) r :
  walk_post l p M b vpn true (q :: ps) Q r -∗
  walk_post l p M b vpn true ps Q (r <| freelist := hd |>).
Proof.
  iIntros "HQ". iSplit.
  - iDestruct "HQ" as "[HQ _]". iIntros (a hd' used ps') "(% & -> & _) Hfl Ha Hback".
    rw freelist_twice. iApply ("HQ" $! a hd' (q :: used) ps' with "[//] Hfl Ha Hback").
  - iDestruct "HQ" as "[_ HQ]". iIntros (hd') "[% _] Hfl Hpt".
    rw freelist_twice. by iApply ("HQ" $! hd' with "[//] Hfl").
Qed.

Lemma hwp_walk_loop l p M b va alloc ps (Q : Z → sys → hprop) r :
  Lkmem ∉ held r → 0 <= va → va / PGSIZE / 512 ^ Z.of_nat (S l) = b →
  ptable l p M b ∗ free_list (freelist r) ps ∗ walk_post l p M b (va / PGSIZE) alloc ps Q r
  ⊢ hwp (walk_loop l p va alloc) Q r.
Proof.
  revert p b ps r. induction l as [|l IH]; intros p b ps r Hh Hva Hb.
  - iIntros "(Hpt & Hfl & HQ)". destruct (PX_index 0 va b Hva Hb) as [Hix Hr].
    change (Z.of_nat 0) with 0 in *. rw Z.pow_0_r Z.div_1_r in Hix.
    iDestruct (ptable_entry_acc _ _ _ _ _ Hr with "Hpt") as "(%Hp & He & Hclose)".
    iApply hwp_ret. iDestruct "HQ" as "[HQ _]". iEval (rw -(freelist_id r)).
    iApply ("HQ" $! _ _ [] ps with "[] Hfl [He]").
    + iPureIntro. pose proof (page_ok_range p Hp). split; [lia|done].
    + simpl. by rw Hix.
    + iIntros (v) "Ha". iApply "Hclose"; [|by rw /= -Hix pte_setpte].
      iPureIntro. intros j Hj Hne. apply entry_agree; [done|]. apply setpte_agree.
      rw Z.pow_0_r Z.div_1_r. lia.
  - iIntros "(Hpt & Hfl & HQ)". destruct (PX_index (S l) va b Hva Hb) as [Hix Hr].
    iDestruct (ptable_entry_acc _ _ _ _ _ Hr with "Hpt") as "(%Hp & (%w & Hw & He) & Hclose)".
    iApply hwp_bind. iApply hwp_load64. iFrame "Hw". iIntros "Hw".
    iDestruct "He" as "[%He|(%c & -> & Hc)]".
    + destruct He as [-> Hv]. rw bool_decide_eq_false_2; last by intros Hn; apply Hn.
      destruct alloc; last first.
      { iApply hwp_ret. iDestruct "HQ" as "[_ HQ]". iEval (rw -(freelist_id r)).
        iApply ("HQ" with "[] Hfl"); [iPureIntro; split; [by apply Hv|done]|].
        iApply "Hclose"; [done|]. iExists 0. iFrame. by iLeft. }
      iDestruct (free_list_null_inv with "Hfl") as %Hnull; [done|].
      iApply hwp_bind. iApply hwp_kalloc; [done|done|]. iFrame "Hfl".
      destruct ps as [|q ps].
      { iIntros "Hfl". rw bool_decide_eq_true_2 //. iApply hwp_ret.
        iDestruct "HQ" as "[_ HQ]". iEval (rw -(freelist_id r) (proj2 Hnull eq_refl)).
        iApply ("HQ" with "[] Hfl"); [iPureIntro; split; [by apply Hv|done]|].
        iApply "Hclose"; [done|]. iExists 0. iFrame. by iLeft. }
      iIntros (next) "%Hq Hfl Hpg". pose proof (page_ok_range q Hq).
      rw bool_decide_eq_false_2; last lia.
      iApply hwp_bind. iApply hwp_memset; [apply length_replicate|]. iFrame "Hpg". iIntros "Hpg".
      iApply hwp_bind. iApply hwp_store64. iFrame "Hw". iIntros "Hw".
      rw u64_pte //.
      iApply (IH _ _ ps); [done..|]. iFrame "Hfl".
      iDestruct (ptable_zero l q M with "Hpg") as "$"; [done|done|].
      iApply (walk_post_child with "Hw Hclose"); [done|done|].
      by iApply walk_post_alloc.
    + iDestruct (ptable_page_ok with "Hc") as %Hc.
      rw bool_decide_eq_true_2; last by rw page_pte_flag.
      rw page_pte //. iApply (IH _ _ ps); [done..|]. iFrame "Hc Hfl".
      iApply (walk_post_child with "Hw Hclose HQ"); done.
Qed.

(** ** walk and walkaddr *)

(** Leaf entries are valid and lie in the 39-bit address space. *)
Definition wf (M : gmap Z Z) : Prop :=
  map_Forall (λ vpn e, 0 <= vpn < 512 ^ 3 ∧ Z.land e PTE_V ≠ 0) M.

Definition pagetable (root : Z) (M : gmap Z Z) : hprop := (⟦wf M⟧ ∗ ptable 2 root M 0)%I.

Definition vpn_ok (vpn : Z) : Prop := 0 <= vpn < MAXVA / PGSIZE.

Lemma vpn_ok_va va : 0 <= va < MAXVA → vpn_ok (va / PGSIZE).
Proof.
  intros [? Hva]. split; [by apply Z.div_pos|].
  apply Z.div_lt_upper_bound; [done|]. by change (PGSIZE * (MAXVA / PGSIZE)) with MAXVA.
Qed.

Lemma vpn_ok_range vpn : vpn_ok vpn → 0 <= vpn < 2 ^ 26.
Proof. done. Qed.

Lemma wf_insert M vpn e : wf M → vpn_ok vpn → Z.land e PTE_V ≠ 0 → wf (<[vpn := e]> M).
Proof.
  intros HM Hv%vpn_ok_range He. apply map_Forall_insert_2; [|done]. split; [lia|done].
Qed.

Lemma wf_delete M vpn : wf M → wf (delete vpn M).
Proof. apply map_Forall_delete. Qed.

Lemma wf_pte M vpn : wf M → Z.land (pte M vpn) PTE_V = 0 ↔ M !! vpn = None.
Proof.
  intros HM. rw /pte. destruct (M !! vpn) as [e|] eqn:E; simpl; [|done].
  split; [|done]. by intros ?%(HM _ _ E).
Qed.

Lemma setpte_id M vpn : wf M → setpte M vpn (pte M vpn) = M.
Proof.
  intros HM. rw /setpte /pte. destruct (M !! vpn) as [e|] eqn:E; simpl.
  - destruct (HM _ _ E) as [_ He]. rw bool_decide_eq_false_2; [by apply insert_id|by intros ->].
  - by apply delete_id.
Qed.

Lemma setpte_insert M vpn e : Z.land e PTE_V ≠ 0 → setpte M vpn e = <[vpn := e]> M.
Proof. intros. rw /setpte bool_decide_eq_false_2 //. by intros ->. Qed.

(** walk, for a caller that looks at the entry and maybe changes it. *)
Lemma hwp_walk root M va alloc ps (Q : Z → sys → hprop) r :
  Lkmem ∉ held r → 0 <= va < MAXVA →
  ptable 2 root M 0 ∗ free_list (freelist r) ps ∗
    walk_post 2 root M 0 (va / PGSIZE) alloc ps Q r
  ⊢ hwp (walk root va alloc) Q r.
Proof.
  intros Hh [Hva Hmax]. rw /walk bool_decide_eq_false_2; last lia.
  apply hwp_walk_loop; [done|done|].
  destruct (vpn_ok_va va) as [? Hv]; [lia|]. apply Z.div_small.
  assert (MAXVA / PGSIZE < 512 ^ Z.of_nat 3) by done. lia.
Qed.

(** walkaddr: the physical page of a valid user entry, 0 otherwise. *)
Definition user_pa (M : gmap Z Z) (vpn : Z) : Z :=
  if bool_decide (Z.land (pte M vpn) PTE_V = 0 ∨ Z.land (pte M vpn) PTE_U = 0) then 0
  else PTE2PA (pte M vpn).

Lemma hwp_walkaddr root M va ps (Q : Z → sys → hprop) r :
  Lkmem ∉ held r → 0 <= va →
  pagetable root M ∗ free_list (freelist r) ps ∗
  (pagetable root M -∗ free_list (freelist r) ps -∗
     Q (if bool_decide (va < MAXVA) then user_pa M (va / PGSIZE) else 0) r)
  ⊢ hwp (walkaddr root va) Q r.
Proof.
  iIntros (Hh Hva) "((%HM & Hpt) & Hfl & HQ)". rw /walkaddr.
  case_bool_decide as Hmax; last first.
  { rw bool_decide_eq_true_2; last lia. iApply hwp_ret. iApply ("HQ" with "[$Hpt //] Hfl"). }
  rw bool_decide_eq_false_2; last lia.
  iApply hwp_bind. iApply (hwp_walk _ _ _ _ ps); [done|lia|]. iFrame "Hpt Hfl". iSplit.
  - iIntros (a hd used ps') "%Hpure Hfl Ha Hback". destruct Hpure as (Ha & -> & Hu).
    destruct Hu as [-> ->]; [done|]. rw freelist_id /= bool_decide_eq_false_2 //.
    iApply hwp_bind. iApply hwp_load64. iFrame. iIntros "Ha".
    iDestruct ("Hback" with "Ha") as "Hpt". rw setpte_id //.
    iDestruct ("HQ" with "[$Hpt //] Hfl") as "HQ". rw /user_pa bool_decide_or.
    by do 2 (case_bool_decide; [by iApply hwp_ret|]); iApply hwp_ret.
  - iIntros (hd) "%Hpure Hfl Hpt". destruct Hpure as [Hn ->]; [|done].
    rw freelist_id bool_decide_eq_true_2 //. iApply hwp_ret.
    iDestruct ("HQ" with "[$Hpt //] Hfl") as "HQ".
    rw /user_pa bool_decide_eq_true_2 //. left. by apply wf_pte.
Qed.
End walk.
