(* ===== verification/MapSpec.v ===== *)
(** * Specification of mappages and uvmunmap

    mappages extends the map of a page table and uvmunmap removes from it;
    uvmunmap gives the pages back to the allocator when asked to. *)
From S2P Require Import Prelude.
From S2P Require Import Mem.
From S2P Require Import Heap.
From S2P Require Import Params.
From S2P Require Import State.
From S2P Require Import StateSpec.
From S2P Require Import Kalloc.
From S2P Require Import KallocSpec.
From S2P Require Import Vm.
From S2P Require Import PageTable.
From S2P Require Import Walk.
From iris.proofmode Require Import proofmode.
#[local] Open Scope Z_scope.

(** The entry mappages installs. *)
Definition leaf (pa perm : Z) : Z := Z.lor (Z.lor (PA2PTE pa) perm) PTE_V.

(** [M] with [n] pages from [vpn] on mapped to the physical range at [pa]. *)
Fixpoint map_pages (n : nat) (vpn pa perm : Z) (M : gmap Z Z) : gmap Z Z :=
  match n with
  | O => M
  | S n' => map_pages n' (vpn + 1) (pa + PGSIZE) perm (<[vpn := leaf pa perm]> M)
  end.

Definition unmap_pages (n : nat) (vpn : Z) (M : gmap Z Z) : gmap Z Z :=
  filter (λ '(k, _), ¬ (vpn <= k < vpn + Z.of_nat n)) M.

(** The pages a range maps, in the order uvmunmap visits them. *)
Definition mapped_pas (n : nat) (vpn : Z) (M : gmap Z Z) : list Z :=
  omap (λ k, PTE2PA <$> M !! k) (seqZ vpn (Z.of_nat n)).

Lemma map_pages_lookup n vpn pa perm M k :
  map_pages n vpn pa perm M !! k =
    if bool_decide (vpn <= k < vpn + Z.of_nat n) then Some (leaf (pa + (k - vpn) * PGSIZE) perm)
    else M !! k.
Proof.
  revert vpn pa M; induction n as [|n IH]; intros vpn pa M; simpl.
  - rw bool_decide_eq_false_2 //. lia.
  - rw IH. destruct (decide (k = vpn)) as [->|Hk].
    + rw bool_decide_eq_false_2; last lia. rw bool_decide_eq_true_2; last lia.
      rw lookup_insert_eq. by replace (pa + (vpn - vpn) * PGSIZE) with pa by lia.
    + rw lookup_insert_ne //. case_bool_decide.
      * rw bool_decide_eq_true_2; last lia. do 2 f_equal. lia.
      * rw bool_decide_eq_false_2 //. lia.
Qed.

Lemma unmap_pages_0 vpn M : unmap_pages 0 vpn M = M.
Proof. apply map_filter_id. intros k x _. simpl. lia. Qed.

Lemma unmap_pages_S n vpn M :
  unmap_pages (S n) vpn M = unmap_pages n (vpn + 1) (delete vpn M).
Proof.
  apply map_eq=> k. rw /unmap_pages. destruct (decide (k = vpn)) as [->|Hk].
  - rw (map_lookup_filter_None_2 _ M); last (right; intros; simpl; lia).
    symmetry. apply map_lookup_filter_None_2. left. apply lookup_delete_eq.
  - rw !map_lookup_filter lookup_delete_ne //. destruct (M !! k) as [e|]; simpl; [|done].
    f_equal. apply option_guard_iff. simpl. lia.
Qed.

(** Physical addresses an entry can hold, and permission bits. *)
Definition pa_ok (pa : Z) : Prop := 0 <= pa < 2 ^ 56 ∧ page_aligned pa.
Definition perm_ok (perm : Z) : Prop := 0 <= perm < 1024.

Lemma perm_ok_lor p q : perm_ok p → perm_ok q → perm_ok (Z.lor p q).
Proof.
  intros [Hp Hp'] [Hq Hq']. split; [by apply Z.lor_nonneg|].
  destruct (decide (Z.lor p q = 0)) as [->|Hn]; [done|].
  assert (0 < Z.lor p q) by (pose proof (proj2 (Z.lor_nonneg p q) (conj Hp Hq)); lia).
  change 1024 with (2 ^ 10). apply Z.log2_lt_pow2; [done|]. rw Z.log2_lor //.
  apply Z.max_lub_lt.
  - destruct (decide (p = 0)) as [->|]; [done|]. apply Z.log2_lt_pow2; [lia|done].
  - destruct (decide (q = 0)) as [->|]; [done|]. apply Z.log2_lt_pow2; [lia|done].
Qed.

Lemma leaf_flags pa perm m : pa_ok pa → perm_ok m → Z.land (leaf pa perm) m = Z.land (Z.lor perm PTE_V) m.
Proof. intros [Hpa _] Hm. rw /leaf -Z.lor_assoc land_lor_flags //. by apply PA2PTE_mod. Qed.

Lemma leaf_valid pa perm : pa_ok pa → Z.land (leaf pa perm) PTE_V ≠ 0.
Proof.
  intros Hpa. rw leaf_flags //. rw Z.land_lor_distr_l. intros [_ ?]%Z.lor_eq_0_iff. done.
Qed.

Lemma leaf_pa pa perm : pa_ok pa → perm_ok perm → PTE2PA (leaf pa perm) = pa.
Proof.
  intros [Hpa Ha] Hf. rw /leaf -Z.lor_assoc. apply PTE2PA_flags; [done|done|].
  by apply perm_ok_lor.
Qed.

Lemma leaf_u64 pa perm : pa_ok pa → perm_ok perm → u64 (leaf pa perm) = leaf pa perm.
Proof.
  intros [Hpa Ha] Hf. apply uN_small. rw /leaf -Z.lor_assoc.
  assert (0 <= Z.lor perm PTE_V < 1024) as Hf' by by apply perm_ok_lor.
  pose proof (PA2PTE_flags_bound pa _ Hpa Hf'). lia.
Qed.

Lemma page_ok_pa `{Linker} p : linker_ok → page_ok p → pa_ok p.
Proof. intros Hlk Hp. pose proof (page_ok_range Hlk p Hp). split; [lia|apply Hp]. Qed.

Lemma not_misaligned k : ¬ (k * PGSIZE mod PGSIZE ≠ 0).
Proof. rw Z.mod_mul //. auto. Qed.

Section map.
Context `{Linker}.
Context (Hlk : linker_ok).

Lemma vpn_va vpn : vpn_ok vpn → 0 <= vpn * PGSIZE < MAXVA ∧ vpn * PGSIZE / PGSIZE = vpn.
Proof.
  intros Hv%vpn_ok_range. split; [|by apply Z.div_mul].
  change MAXVA with (2 ^ 26 * PGSIZE). unfold PGSIZE. lia.
Qed.

(** One round of mappages' loop, before the test for the last page. *)
Lemma hwp_map_step root M vpn pa perm ps (k : K Z) (Q : Z → sys → hprop) r :
  Lkmem ∉ held r → perm_ok perm → pa_ok pa → vpn_ok vpn → M !! vpn = None →
  pagetable root M ∗ free_list (freelist r) ps ∗
  ((∀ hd used ps', ⟦ps = used ++ ps'⟧ -∗ free_list hd ps' -∗
      pagetable root (<[vpn := leaf pa perm]> M) -∗ hwp k Q (r <| freelist := hd |>)) ∧
   (∀ hd, free_list hd [] -∗ pagetable root M -∗ Q (-1) (r <| freelist := hd |>)))
  ⊢ hwp (pte ← walk root (vpn * PGSIZE) true;
         if bool_decide (pte = 0) then mret (-1) else
         x ← load64 pte;
         if bool_decide (Z.land x PTE_V ≠ 0) then panic "mappages: remap" else
         store64 pte (Z.lor (Z.lor (PA2PTE pa) perm) PTE_V);; k) Q r.
Proof.
  iIntros (Hh Hperm Hpa Hvpn Hnone) "((%HM & Hpt) & Hfl & HQ)".
  destruct (vpn_va vpn Hvpn) as [Hva Hdiv].
  iApply hwp_bind. iApply (hwp_walk Hlk _ M _ _ ps); [done|done|]. iFrame "Hpt Hfl".
  rw Hdiv. iSplit.
  - iDestruct "HQ" as "[HQ _]".
    iIntros (a hd used ps') "%Hpure Hfl Ha Hback". destruct Hpure as (Ha & -> & _).
    rw bool_decide_eq_false_2 //.
    iApply hwp_bind. iApply hwp_load64. iFrame "Ha". iIntros "Ha".
    rw bool_decide_eq_false_2; last by intros Hn; apply Hn, wf_pte.
    iApply hwp_bind. iApply hwp_store64. iFrame "Ha". iIntros "Ha".
    fold (leaf pa perm). rw leaf_u64 //.
    iDestruct ("Hback" with "Ha") as "Hpt". rw setpte_insert; last by apply leaf_valid.
    iApply ("HQ" with "[//] Hfl"). iFrame "Hpt". iPureIntro.
    by apply wf_insert, leaf_valid.
  - iDestruct "HQ" as "[_ HQ]". iIntros (hd) "_ Hfl Hpt". rw bool_decide_eq_true_2 //.
    iApply hwp_ret. iApply ("HQ" with "Hfl"). by iFrame.
Qed.

(** The loop of mappages: [n] pages from [vpn] on, none of them mapped.  If
    memory for a table page runs out it stops with the first [k] mapped. *)
Lemma hwp_mappages_loop n root M vpn pa perm ps (Q : Z → sys → hprop) r :
  Lkmem ∉ held r → perm_ok perm → pa_ok pa → pa + Z.of_nat (S n) * PGSIZE <= 2 ^ 56 →
  vpn_ok vpn → vpn + Z.of_nat n < MAXVA / PGSIZE →
  (∀ k, vpn <= k <= vpn + Z.of_nat n → M !! k = None) →
  pagetable root M ∗ free_list (freelist r) ps ∗
  (∀ rc hd used ps' k,
     ⟦ps = used ++ ps' ∧ (rc = 0 ∧ k = S n ∨ rc = -1 ∧ (k <= n)%nat ∧ ps' = [])⟧ -∗
     free_list hd ps' -∗ pagetable root (map_pages k vpn pa perm M) -∗
     Q rc (r <| freelist := hd |>))
  ⊢ hwp (mappages_loop (S n) root (vpn * PGSIZE) ((vpn + Z.of_nat n) * PGSIZE) pa perm) Q r.
Proof.
  revert M vpn pa ps r. induction n as [|n IH]; intros M vpn pa ps r Hh Hperm Hpa Hpal Hvpn Hmax Hfree;
    iIntros "(Hpt & Hfl & HQ)"; iApply (hwp_map_step _ M vpn pa perm ps); try done;
    try (apply Hfree; lia); iFrame "Hpt Hfl"; iSplit.
  - iIntros (hd used ps') "-> Hfl Hpt". rw bool_decide_eq_true_2; last (f_equal; lia).
    iApply hwp_ret. iApply ("HQ" $! _ _ used ps' 1%nat with "[] Hfl Hpt"). iPureIntro. auto.
  - iIntros (hd) "Hfl Hpt". iApply ("HQ" $! _ _ ps [] 0%nat with "[] Hfl Hpt").
    iPureIntro. rw app_nil_r. auto with lia.
  - iIntros (hd used ps') "-> Hfl Hpt". rw bool_decide_eq_false_2; last (unfold PGSIZE; lia).
    replace (u64 (vpn * PGSIZE + PGSIZE)) with ((vpn + 1) * PGSIZE); last first.
    { apply vpn_ok_range in Hvpn. rw uN_small; unfold PGSIZE; lia. }
    replace (u64 (pa + PGSIZE)) with (pa + PGSIZE); last first.
    { destruct Hpa. rw uN_small //; unfold PGSIZE in *; lia. }
    replace ((vpn + Z.of_nat (S n)) * PGSIZE) with ((vpn + 1 + Z.of_nat n) * PGSIZE) by lia.
    iApply (IH (<[vpn := leaf pa perm]> M) _ _ ps'); [done|done| |lia| |lia| |].
    + destruct Hpa as [? Ha]. split; [unfold PGSIZE in *; lia|].
      unfold page_aligned in *. rw -{1}(Z.mul_1_l PGSIZE) Z.mod_add; done.
    + unfold vpn_ok in *. lia.
    + intros k Hk. rw lookup_insert_ne; [apply Hfree|]; lia.
    + iFrame "Hfl Hpt". iIntros (rc hd' used' ps'' k) "%Hpure Hfl Hpt". rw freelist_twice.
      destruct Hpure as [-> Hrc].
      iApply ("HQ" $! rc hd' (used ++ used') ps'' (S k) with "[] Hfl Hpt").
      iPureIntro. rw app_assoc. split; [done|].
      destruct Hrc as [[-> ->]|(-> & ? & ->)]; [by left|right; split_and!; [done|lia|done]].
  - iIntros (hd) "Hfl Hpt". iApply ("HQ" $! _ _ ps [] 0%nat with "[] Hfl Hpt").
    iPureIntro. rw app_nil_r. auto with lia.
Qed.

Lemma hwp_mappages n root M vpn pa perm ps (Q : Z → sys → hprop) r :
  Lkmem ∉ held r → perm_ok perm → pa_ok pa → pa + Z.of_nat (S n) * PGSIZE <= 2 ^ 56 →
  vpn_ok vpn → vpn + Z.of_nat n < MAXVA / PGSIZE →
  (∀ k, vpn <= k <= vpn + Z.of_nat n → M !! k = None) →
  pagetable root M ∗ free_list (freelist r) ps ∗
  (∀ rc hd used ps' k,
     ⟦ps = used ++ ps' ∧ (rc = 0 ∧ k = S n ∨ rc = -1 ∧ (k <= n)%nat ∧ ps' = [])⟧ -∗
     free_list hd ps' -∗ pagetable root (map_pages k vpn pa perm M) -∗
     Q rc (r <| freelist := hd |>))
  ⊢ hwp (mappages root (vpn * PGSIZE) (Z.of_nat (S n) * PGSIZE) pa perm) Q r.
Proof.
  intros Hh Hperm Hpa Hpal Hvpn Hmax Hfree. rw /mappages.
  rw bool_decide_eq_false_2; last apply not_misaligned.
  rw bool_decide_eq_false_2; last apply not_misaligned.
  rw bool_decide_eq_false_2; last (unfold PGSIZE; lia).
  rw Z.div_mul // Nat2Z.id.
  replace (u64 (vpn * PGSIZE + Z.of_nat (S n) * PGSIZE - PGSIZE)) with ((vpn + Z.of_nat n) * PGSIZE).
  { by apply hwp_mappages_loop. }
  symmetry. rw uN_small; [lia|]. apply vpn_ok_range in Hvpn.
  change (MAXVA / PGSIZE) with (2 ^ 26) in Hmax. unfold PGSIZE. lia.
Qed.

(** ** uvmunmap *)
Definition owned (pas : list Z) : hprop := ([∗ list] pa ∈ pas, ⟦page_ok pa⟧ ∗ page pa)%I.

Lemma mapped_pas_S n vpn M :
  mapped_pas (S n) vpn M = option_list (PTE2PA <$> M !! vpn) ++ mapped_pas n (vpn + 1) (delete vpn M).
Proof.
  rw /mapped_pas Nat2Z.inj_succ seqZ_cons; last lia. rw /= Z.pred_succ.
  assert (omap (λ k, PTE2PA <$> delete vpn M !! k) (seqZ (Z.succ vpn) (Z.of_nat n)) =
          omap (λ k, PTE2PA <$> M !! k) (seqZ (Z.succ vpn) (Z.of_nat n))) as E.
  { apply list_omap_ext, Forall_Forall2_diag, Forall_forall. intros k Hk%elem_of_seqZ.
    rw lookup_delete_ne //. lia. }
  change (vpn + 1) with (Z.succ vpn). rw E. by destruct (M !! vpn).
Qed.

Definition freed (do_free : bool) (pas : list Z) : list Z := if do_free then pas else [].

(** One round of uvmunmap's loop. *)
Lemma hwp_unmap_step root M vpn (do_free : bool) ps (k : K unit) (Q : unit → sys → hprop) r :
  Lkmem ∉ held r → vpn_ok vpn →
  pagetable root M ∗ free_list (freelist r) ps ∗
  owned (freed do_free (option_list (PTE2PA <$> M !! vpn))) ∗
  (∀ hd, free_list hd (freed do_free (option_list (PTE2PA <$> M !! vpn)) ++ ps) -∗
     pagetable root (delete vpn M) -∗ hwp k Q (r <| freelist := hd |>))
  ⊢ hwp (pte ← walk root (vpn * PGSIZE) false;
         (if bool_decide (pte = 0) then mret tt else
          x ← load64 pte;
          if bool_decide (Z.land x PTE_V = 0) then mret tt else
          when do_free (kfree (PTE2PA x));;
          store64 pte 0);; k) Q r.
Proof.
  iIntros (Hh Hvpn) "((%HM & Hpt) & Hfl & Hown & HQ)".
  destruct (vpn_va vpn Hvpn) as [Hva Hdiv].
  iApply hwp_bind. iApply (hwp_walk Hlk _ M _ _ ps); [done|done|]. iFrame "Hpt Hfl".
  rw Hdiv. iSplit.
  - iIntros (a hd used ps') "%Hpure Hfl Ha Hback". destruct Hpure as (Ha & -> & Hu).
    destruct Hu as [-> ->]; [done|]. rw freelist_id bool_decide_eq_false_2 //. rw app_nil_l.
    iApply hwp_bind. iApply hwp_bind. iApply hwp_load64. iFrame "Ha". iIntros "Ha".
    destruct (M !! vpn) as [e|] eqn:He; last first.
    { rw bool_decide_eq_true_2; last by apply wf_pte.
      iDestruct ("Hback" with "Ha") as "Hpt". rw setpte_id //.
      iApply hwp_ret. iEval (rw -(freelist_id r)).
      destruct do_free; iApply ("HQ" with "Hfl"); rw delete_id //; by iFrame. }
    rw bool_decide_eq_false_2; last by rw wf_pte // He. rw /pte He /=.
    iApply hwp_bind.
    iAssert (∀ (Q' : unit → sys → hprop), (∀ hd, free_list hd (freed do_free [PTE2PA e] ++ ps') -∗
       Q' tt (r <| freelist := hd |>)) -∗ hwp (when do_free (kfree (PTE2PA e))) Q' r)%I
      with "[Hfl Hown]" as "Hfree".
    { iIntros (Q') "HQ'". destruct do_free; simpl.
      - iDestruct "Hown" as "[[% Hown] _]". iApply (hwp_kfree _ ps'); [done|done|done|].
        iFrame "Hown Hfl". iIntros "Hfl". by iApply "HQ'".
      - iApply hwp_ret. iEval (rw -(freelist_id r)). by iApply "HQ'". }
    iApply "Hfree". iIntros (hd) "Hfl".
    iApply hwp_store64. iFrame "Ha". iIntros "Ha". change (u64 0) with 0.
    iDestruct ("Hback" with "Ha") as "Hpt". rw /setpte bool_decide_eq_true_2 //.
    iApply ("HQ" with "Hfl"). iFrame. iPureIntro. by apply wf_delete.
  - iIntros (hd) "%Hpure Hfl Hpt". destruct Hpure as [Hn ->]; [|done].
    rw freelist_id bool_decide_eq_true_2 // Hn /=. iApply hwp_bind. iApply hwp_ret.
    iEval (rw -(freelist_id r)). rw delete_id //.
    destruct do_free; iApply ("HQ" with "Hfl"); by iFrame.
Qed.

Lemma uvmunmap_loop_S n p a stop do_free :
  uvmunmap_loop (S n) p a stop do_free =
    (if bool_decide (a < stop) then
       pte ← walk p a false;
       (if bool_decide (pte = 0) then mret tt else
        x ← load64 pte;
        if bool_decide (Z.land x PTE_V = 0) then mret tt else
        when do_free (kfree (PTE2PA x));;
        store64 pte 0);;
       uvmunmap_loop n p (u64 (a + PGSIZE)) stop do_free
     else mret tt).
Proof. done. Qed.

(** The loop of uvmunmap over [n] pages from [vpn] on. *)
Lemma hwp_uvmunmap_loop n root M vpn (do_free : bool) ps (Q : unit → sys → hprop) r :
  Lkmem ∉ held r → 0 <= vpn → vpn + Z.of_nat n <= MAXVA / PGSIZE →
  pagetable root M ∗ free_list (freelist r) ps ∗ owned (freed do_free (mapped_pas n vpn M)) ∗
  (∀ hd, free_list hd (rev (freed do_free (mapped_pas n vpn M)) ++ ps) -∗
     pagetable root (unmap_pages n vpn M) -∗ Q tt (r <| freelist := hd |>))
  ⊢ hwp (uvmunmap_loop (S n) root (vpn * PGSIZE) ((vpn + Z.of_nat n) * PGSIZE) do_free) Q r.
Proof.
  revert M vpn ps r. induction n as [|n IH]; intros M vpn ps r Hh Hvpn Hmax;
    iIntros "(Hpt & Hfl & Hown & HQ)".
  - rw /= bool_decide_eq_false_2; last lia. iApply hwp_ret. iEval (rw -(freelist_id r)).
    rw unmap_pages_0. destruct do_free; iApply ("HQ" with "Hfl Hpt").
  - assert (freed do_free (mapped_pas (S n) vpn M) =
      freed do_free (option_list (PTE2PA <$> M !! vpn)) ++
      freed do_free (mapped_pas n (vpn + 1) (delete vpn M))) as ->.
    { rw mapped_pas_S. by destruct do_free. }
    iDestruct (big_sepL_app with "Hown") as "[Hown1 Hown2]".
    rw uvmunmap_loop_S bool_decide_eq_true_2; last (unfold PGSIZE; lia).
    iApply (hwp_unmap_step _ M vpn _ ps); [done|unfold vpn_ok; lia|].
    iFrame "Hpt Hfl Hown1". iIntros (hd) "Hfl Hpt".
    replace (u64 (vpn * PGSIZE + PGSIZE)) with ((vpn + 1) * PGSIZE); last first.
    { change (MAXVA / PGSIZE) with (2 ^ 26) in Hmax. rw uN_small; unfold PGSIZE; lia. }
    replace ((vpn + Z.of_nat (S n)) * PGSIZE) with ((vpn + 1 + Z.of_nat n) * PGSIZE) by lia.
    iApply (IH (delete vpn M)); [done|lia|lia|]. iFrame "Hpt Hfl Hown2".
    iIntros (hd') "Hfl Hpt". rw unmap_pages_S freelist_twice.
    iApply ("HQ" with "[Hfl] Hpt"). rw rev_app_distr -app_assoc.
    by destruct do_free, (M !! vpn).
Qed.

Lemma hwp_uvmunmap n root M vpn (do_free : bool) ps (Q : unit → sys → hprop) r :
  Lkmem ∉ held r → 0 <= vpn → vpn + Z.of_nat n <= MAXVA / PGSIZE →
  pagetable root M ∗ free_list (freelist r) ps ∗ owned (freed do_free (mapped_pas n vpn M)) ∗
  (∀ hd, free_list hd (rev (freed do_free (mapped_pas n vpn M)) ++ ps) -∗
     pagetable root (unmap_pages n vpn M) -∗ Q tt (r <| freelist := hd |>))
  ⊢ hwp (uvmunmap root (vpn * PGSIZE) (Z.of_nat n) do_free) Q r.
Proof.
  intros Hh Hvpn Hmax. rw /uvmunmap bool_decide_eq_false_2; last apply not_misaligned.
  rw Nat2Z.id -Z.mul_add_distr_r uN_small; [by apply hwp_uvmunmap_loop|].
  change (MAXVA / PGSIZE) with (2 ^ 26) in Hmax. unfold PGSIZE. lia.
Qed.
End map.
