(* ===== verification/UvmSpec.v ===== *)
(** * Specification of the user address space operations

    Growing and shrinking a process, creating and freeing a page table.
    The free list is tracked up to permutation where the order does not matter,
    so every page is accounted for: it is free, in a table, or mapped. *)
From S2P Require Import Prelude.
From S2P Require Import Mem.
From S2P Require Import Heap.
From S2P Require Import Params.
From S2P Require Import State.
From S2P Require Import StateSpec.
From S2P Require Import KString.
From S2P Require Import KStringSpec.
From S2P Require Import Kalloc.
From S2P Require Import KallocSpec.
From S2P Require Import Vm.
From S2P Require Import PageTable.
From S2P Require Import Walk.
From S2P Require Import MapSpec.
From iris.proofmode Require Import proofmode.
#[local] Open Scope Z_scope.

(** Number of pages that [sz] bytes take. *)
Definition pgs (sz : Z) : Z := (sz + PGSIZE - 1) / PGSIZE.

(** [M] with the pages from [vpn] on mapped to the pages [ms]. *)
Fixpoint map_list (vpn : Z) (ms : list Z) (perm : Z) (M : gmap Z Z) : gmap Z Z :=
  match ms with
  | [] => M
  | m :: ms' => map_list (vpn + 1) ms' perm (<[vpn := leaf m perm]> M)
  end.

(** A fresh page of user memory. *)
Definition zeroed `{Linker} (ms : list Z) : hprop :=
  ([∗ list] m ∈ ms, ⟦page_ok m⟧ ∗ m ↦∗ replicate PGSIZEn 0)%I.

Lemma pgs_0 : pgs 0 = 0.
Proof. done. Qed.

Lemma pgs_mono a b : a <= b → pgs a <= pgs b.
Proof. intros. apply Z.div_le_mono; [done|lia]. Qed.

Lemma pgs_range sz : 0 <= sz <= MAXVA → 0 <= pgs sz <= MAXVA / PGSIZE.
Proof.
  intros [H0 H1]. split; [apply (pgs_mono 0 sz H0)|]. apply (pgs_mono sz MAXVA H1).
Qed.

Lemma pgs_aligned k : pgs (k * PGSIZE) = k.
Proof.
  rw /pgs. replace (k * PGSIZE + PGSIZE - 1) with (PGSIZE - 1 + k * PGSIZE) by lia.
  rw Z.div_add //.
Qed.

Lemma pgs_roundup sz : 0 <= sz <= MAXVA → PGROUNDUP sz = pgs sz * PGSIZE.
Proof. intros [H0 H1]. apply PGROUNDUP_spec; [done|]. change MAXVA with (2 ^ 38) in H1. unfold PGSIZE. lia. Qed.

(** [a < newsz] holds for exactly the first [pgs newsz] page addresses. *)
Lemma pgs_lt k sz : k * PGSIZE < sz ↔ k < pgs sz.
Proof.
  rw /pgs. split; intros Hk.
  - apply Z.lt_le_trans with (k + 1); [lia|].
    apply Z.div_le_lower_bound; unfold PGSIZE in *; lia.
  - pose proof (Z.mul_div_le (sz + PGSIZE - 1) PGSIZE ltac:(done)). unfold PGSIZE in *. lia.
Qed.

Lemma map_list_lookup vpn ms perm M k :
  map_list vpn ms perm M !! k =
    if bool_decide (vpn <= k < vpn + Z.of_nat (length ms))
    then (λ m, leaf m perm) <$> ms !! Z.to_nat (k - vpn) else M !! k.
Proof.
  revert vpn M; induction ms as [|m ms IH]; intros vpn M; simpl.
  - rw bool_decide_eq_false_2 //. lia.
  - rw IH. destruct (decide (k = vpn)) as [->|Hk].
    + rw bool_decide_eq_false_2; last lia. rw bool_decide_eq_true_2; last lia.
      by rw lookup_insert_eq Z.sub_diag.
    + rw lookup_insert_ne //. case_bool_decide.
      * rw bool_decide_eq_true_2; last lia.
        by replace (Z.to_nat (k - vpn)) with (S (Z.to_nat (k - (vpn + 1)))) by lia.
      * rw bool_decide_eq_false_2 //. lia.
Qed.

Lemma map_list_snoc vpn ms m perm M :
  <[vpn + Z.of_nat (length ms) := leaf m perm]> (map_list vpn ms perm M) =
  map_list vpn (ms ++ [m]) perm M.
Proof.
  revert vpn M; induction ms as [|m' ms IH]; intros vpn M; simpl.
  - by rw Z.add_0_r.
  - rw -IH. f_equal. lia.
Qed.

(** Undoing [map_list]. *)
Lemma unmap_map_list vpn ms perm M :
  (∀ k, vpn <= k < vpn + Z.of_nat (length ms) → M !! k = None) →
  unmap_pages (length ms) vpn (map_list vpn ms perm M) = M.
Proof.
  intros Hn. apply map_eq=> k. rw /unmap_pages map_lookup_filter map_list_lookup.
  case_bool_decide as Hk.
  - rw Hn //. destruct (_ <$> _); simpl; [|done]. by rw option_guard_False; [|intros []].
  - destruct (M !! k); simpl; [|done]. by rw option_guard_True.
Qed.

Lemma mapped_map_list vpn ms perm M :
  perm_ok perm → Forall pa_ok ms → mapped_pas (length ms) vpn (map_list vpn ms perm M) = ms.
Proof.
  intros Hperm. revert vpn M; induction ms as [|m ms IH]; intros vpn M Hms; [done|].
  inversion Hms as [|?? Hm Hms']; subst. rw mapped_pas_S.
  rw map_list_lookup bool_decide_eq_true_2; last (simpl; lia). rw Z.sub_diag /= leaf_pa //.
  f_equal. rw -{3}(IH (vpn + 1) (<[vpn := leaf m perm]> M) Hms'). rw /mapped_pas.
  apply list_omap_ext, Forall_Forall2_diag, Forall_forall. intros k Hk%elem_of_seqZ.
  rw lookup_delete_ne //. lia.
Qed.

Section uvm.
Context `{Linker}.
Context (Hlk : linker_ok).

Lemma hwp_uvmcreate ps (Q : Z → sys → hprop) r :
  Lkmem ∉ held r →
  free_list (freelist r) ps ∗
  match ps with
  | [] => free_list 0 [] -∗ Q 0 r
  | p :: ps' => ∀ hd, free_list hd ps' -∗ pagetable p ∅ -∗ Q p (r <| freelist := hd |>)
  end
  ⊢ hwp uvmcreate Q r.
Proof.
  iIntros (Hh) "[Hfl HQ]". iApply hwp_bind. iApply (hwp_kalloc ps); [done|done|]. iFrame "Hfl".
  destruct ps as [|p ps].
  - iIntros "Hfl". rw bool_decide_eq_true_2 //. iApply hwp_ret. by iApply "HQ".
  - iIntros (hd) "%Hp Hfl Hpg". pose proof (page_ok_pos p Hlk Hp).
    rw bool_decide_eq_false_2; last lia.
    iApply hwp_bind. iApply hwp_memset; [apply length_replicate|]. iFrame "Hpg". iIntros "Hpg".
    iApply hwp_ret. iApply ("HQ" with "Hfl").
    iDestruct (ptable_zero 2 p ∅ 0 with "Hpg") as "$"; [done|done|]. iPureIntro. done.
Qed.

Lemma hwp_uvmdealloc root M oldsz newsz ps (Q : Z → sys → hprop) r :
  Lkmem ∉ held r → 0 <= newsz <= MAXVA → 0 <= oldsz <= MAXVA →
  let n := Z.to_nat (pgs oldsz - pgs newsz) in
  pagetable root M ∗ free_list (freelist r) ps ∗ owned (mapped_pas n (pgs newsz) M) ∗
  (∀ hd, free_list hd (rev (mapped_pas n (pgs newsz) M) ++ ps) -∗
     pagetable root (unmap_pages n (pgs newsz) M) -∗
     Q (Z.min oldsz newsz) (r <| freelist := hd |>))
  ⊢ hwp (uvmdealloc root oldsz newsz) Q r.
Proof.
  intros Hh Hnew Hold n. iIntros "(Hpt & Hfl & Hown & HQ)". rw /uvmdealloc.
  assert (∀ s, n = 0%nat → (∀ hd, free_list hd (rev (mapped_pas n (pgs newsz) M) ++ ps) -∗
     pagetable root (unmap_pages n (pgs newsz) M) -∗ Q s (r <| freelist := hd |>)) -∗
     free_list (freelist r) ps -∗ pagetable root M -∗ owned (mapped_pas n (pgs newsz) M) -∗
     Q s r) as Hsame.
  { intros s ->. iIntros "HQ Hfl Hpt _". iEval (rw -(freelist_id r)).
    rw unmap_pages_0. iApply ("HQ" with "Hfl Hpt"). }
  case_bool_decide as Hle.
  { iApply hwp_ret. rw Z.min_l //. pose proof (pgs_mono _ _ Hle).
    iApply (Hsame with "HQ Hfl Hpt Hown"). subst n. lia. }
  pose proof (pgs_range _ Hold). pose proof (pgs_range _ Hnew).
  rw !pgs_roundup // Z.min_r; last lia. iApply hwp_bind. case_bool_decide as Hlt; simpl.
  - rw -Z.mul_sub_distr_r Z.div_mul // sN_small; last first; [|done|].
    { change (MAXVA / PGSIZE) with (2 ^ 26) in *. unfold PGSIZE in *. lia. }
    rw uN_small; last first.
    { change (MAXVA / PGSIZE) with (2 ^ 26) in *. unfold PGSIZE in *. lia. }
    replace (pgs oldsz - pgs newsz) with (Z.of_nat n) by (subst n; unfold PGSIZE in *; lia).
    iApply (hwp_uvmunmap Hlk _ _ M _ true ps); [done|lia|subst n; lia|]. iFrame "Hpt Hfl Hown".
    iIntros (hd) "Hfl Hpt". iApply hwp_ret. iApply ("HQ" with "Hfl Hpt").
  - iApply hwp_ret. iApply hwp_ret. iApply (Hsame with "HQ Hfl Hpt Hown").
    subst n. unfold PGSIZE in *. lia.
Qed.

(** ** uvmalloc *)
Lemma zeroed_ok ms : zeroed ms ⊢ ⌜Forall page_ok ms⌝.
Proof.
  induction ms as [|m ms IH]; simpl; [iIntros "_"; by iPureIntro|].
  iIntros "[[%Hm _] Hms]". iDestruct (IH with "Hms") as %Hms. iPureIntro. by constructor.
Qed.

Lemma zeroed_owned ms : zeroed ms ⊢ owned ms.
Proof.
  apply big_sepL_mono. intros k m _. iIntros "[$ Hm]". iExists _. iFrame. iPureIntro.
  by apply is_page_replicate.
Qed.

Lemma page_ok_pas ms : Forall page_ok ms → Forall pa_ok ms.
Proof. intros Hms. eapply Forall_impl; [done|]. intros m. by apply page_ok_pa. Qed.

(** The error path: everything mapped so far is unmapped and freed. *)
Lemma hwp_uvmalloc_undo root M vpn ms perm ps (Q : Z → sys → hprop) r :
  Lkmem ∉ held r → perm_ok perm → 0 <= vpn → vpn + Z.of_nat (length ms) <= MAXVA / PGSIZE →
  (∀ k, vpn <= k < vpn + Z.of_nat (length ms) → M !! k = None) →
  pagetable root (map_list vpn ms perm M) ∗ free_list (freelist r) ps ∗ zeroed ms ∗
  (∀ hd, free_list hd (rev ms ++ ps) -∗ pagetable root M -∗ Q 0 (r <| freelist := hd |>))
  ⊢ hwp (uvmdealloc root ((vpn + Z.of_nat (length ms)) * PGSIZE) (vpn * PGSIZE);; mret 0) Q r.
Proof.
  iIntros (Hh Hperm Hvpn Hmax Hnone) "(Hpt & Hfl & Hms & HQ)".
  iDestruct (zeroed_ok with "Hms") as %Hok. iDestruct (zeroed_owned with "Hms") as "Hms".
  iApply hwp_bind.
  iApply (hwp_uvmdealloc _ (map_list vpn ms perm M) _ _ ps); [done|change MAXVA with (MAXVA / PGSIZE * PGSIZE); unfold PGSIZE in *; lia..|].
  rw !pgs_aligned. replace (Z.to_nat (vpn + Z.of_nat (length ms) - vpn)) with (length ms) by lia.
  rw mapped_map_list //; last by apply page_ok_pas.
  iFrame "Hpt Hfl Hms". rw unmap_map_list //. iIntros (hd) "Hfl Hpt".
  iApply hwp_ret. iApply ("HQ" with "Hfl Hpt").
Qed.

Lemma uvmalloc_loop_S n p a oldsz newsz xperm :
  uvmalloc_loop (S n) p a oldsz newsz xperm =
    (if bool_decide (a < newsz) then
       m ← kalloc;
       if bool_decide (m = 0) then uvmdealloc p a oldsz;; mret 0 else
       memset m 0 PGSIZEn;;
       rc ← mappages p a PGSIZE m (Z.lor (Z.lor PTE_R PTE_U) xperm);
       if bool_decide (rc ≠ 0) then kfree m;; uvmdealloc p a oldsz;; mret 0 else
       uvmalloc_loop n p (u64 (a + PGSIZE)) oldsz newsz xperm
     else mret newsz).
Proof. done. Qed.

(** mappages of one page. *)
Lemma hwp_mappages_1 root M vpn pa perm ps (Q : Z → sys → hprop) r :
  Lkmem ∉ held r → perm_ok perm → page_ok pa → vpn_ok vpn → M !! vpn = None →
  pagetable root M ∗ free_list (freelist r) ps ∗
  ((∀ hd used ps', ⟦ps = used ++ ps'⟧ -∗ free_list hd ps' -∗
     pagetable root (<[vpn := leaf pa perm]> M) -∗ Q 0 (r <| freelist := hd |>)) ∧
   (∀ hd, free_list hd [] -∗ pagetable root M -∗ Q (-1) (r <| freelist := hd |>)))
  ⊢ hwp (mappages root (vpn * PGSIZE) PGSIZE pa perm) Q r.
Proof.
  iIntros (Hh Hperm Hpa Hvpn Hnone) "(Hpt & Hfl & HQ)".
  pose proof (page_ok_range Hlk pa Hpa). destruct Hpa as [Hal [Hpl Hph]].
  iApply (hwp_mappages Hlk 0 _ M _ pa _ ps); [done|done| | |done| | |].
  - split; [lia|done].
  - unfold PGSIZE, PHYSTOP, KERNBASE in *. lia.
  - unfold vpn_ok in *. lia.
  - intros k Hk. by replace k with vpn by lia.
  - iFrame "Hpt Hfl". iIntros (rc hd used ps' k) "%Hpure Hfl Hpt".
    destruct Hpure as [-> [[-> ->]|(-> & Hk & ->)]].
    + iDestruct "HQ" as "[HQ _]". iApply ("HQ" with "[//] Hfl Hpt").
    + iDestruct "HQ" as "[_ HQ]". replace k with 0%nat by lia. iApply ("HQ" with "Hfl Hpt").
Qed.

Definition uperm (xperm : Z) : Z := Z.lor (Z.lor PTE_R PTE_U) xperm.

Lemma vpn_next vpn : vpn_ok vpn → u64 (vpn * PGSIZE + PGSIZE) = (vpn + 1) * PGSIZE.
Proof. intros Hv%vpn_ok_range. rw uN_small; unfold PGSIZE; lia. Qed.

(** The loop, with the pages [ms] already mapped and [n] to go. *)
Lemma hwp_uvmalloc_loop n root M vpn ms xperm newsz ps (Q : Z → sys → hprop) r :
  Lkmem ∉ held r → perm_ok xperm → 0 <= vpn →
  pgs newsz = vpn + Z.of_nat (length ms + n) → pgs newsz <= MAXVA / PGSIZE →
  (∀ k, vpn <= k < vpn + Z.of_nat (length ms + n) → M !! k = None) →
  pagetable root (map_list vpn ms (uperm xperm) M) ∗ free_list (freelist r) ps ∗ zeroed ms ∗
  ((∀ hd ms' used ps', ⟦length ms' = n ∧ ps ≡ₚ ms' ++ used ++ ps'⟧ -∗ free_list hd ps' -∗
      zeroed (ms ++ ms') -∗ pagetable root (map_list vpn (ms ++ ms') (uperm xperm) M) -∗
      Q newsz (r <| freelist := hd |>)) ∧
   (∀ hd used ps', ⟦ms ++ ps ≡ₚ used ++ ps' ∧ (length ps' <= length ms + n)%nat⟧ -∗
      free_list hd ps' -∗ pagetable root M -∗
      Q 0 (r <| freelist := hd |>)))
  ⊢ hwp (uvmalloc_loop (S n) root ((vpn + Z.of_nat (length ms)) * PGSIZE) (vpn * PGSIZE)
           newsz xperm) Q r.
Proof.
  revert ms ps r. induction n as [|n IH]; intros ms ps r Hh Hx Hvpn Hsz Hmax Hnone;
    iIntros "(Hpt & Hfl & Hms & HQ)"; rw uvmalloc_loop_S.
  { rw bool_decide_eq_false_2; last (rw pgs_lt; lia). iApply hwp_ret. iDestruct "HQ" as "[HQ _]".
    iEval (rw -(freelist_id r)). iApply ("HQ" $! _ [] [] ps with "[//] Hfl [Hms]"); by rw app_nil_r. }
  rw bool_decide_eq_true_2; last (rw pgs_lt; lia).
  assert (perm_ok (uperm xperm)) as Hperm by by apply perm_ok_lor.
  assert (vpn_ok (vpn + Z.of_nat (length ms))) as Hv by (unfold vpn_ok; lia).
  iDestruct (free_list_null_inv with "Hfl") as %Hnull; [done|].
  iApply hwp_bind. iApply (hwp_kalloc ps); [done|done|]. iFrame "Hfl". destruct ps as [|m ps].
  { iIntros "Hfl". rw bool_decide_eq_true_2 //. iDestruct "HQ" as "[_ HQ]".
    iApply (hwp_uvmalloc_undo _ M _ ms (uperm xperm) []); [done|done|done|lia| |].
    { intros k Hk. apply Hnone. lia. }
    rw (proj2 Hnull eq_refl). iFrame "Hpt Hfl Hms". iIntros (hd) "Hfl Hpt".
    iApply ("HQ" $! hd [] (rev ms ++ []) with "[] Hfl Hpt").
    iPureIntro. split; [by rw !app_nil_r -Permutation_rev|rw app_nil_r length_rev; lia]. }
  iIntros (hd) "%Hm Hfl Hpg". pose proof (page_ok_pos m Hlk Hm).
  rw bool_decide_eq_false_2; last lia.
  iApply hwp_bind. iApply hwp_memset; [apply length_replicate|]. iFrame "Hpg". iIntros "Hpg".
  iApply hwp_bind. iApply (hwp_mappages_1 _ (map_list vpn ms (uperm xperm) M) _ m _ ps); try done.
  { rw map_list_lookup bool_decide_eq_false_2; [|lia]. apply Hnone. lia. }
  iFrame "Hpt Hfl". iSplit.
  - iIntros (hd' used ps') "-> Hfl Hpt". rw map_list_snoc vpn_next //.
    replace (vpn + Z.of_nat (length ms) + 1) with (vpn + Z.of_nat (length (ms ++ [m])))
      by (rw length_app /=; lia).
    iApply (IH (ms ++ [m]) ps'); [done|done|done|rw length_app /=; lia|lia| |].
    { intros k. rw length_app /=. intros. apply Hnone. lia. }
    iFrame "Hpt Hfl". iSplitL "Hms Hpg".
    { rw /zeroed big_sepL_app /=. iFrame. by iPureIntro. }
    iSplit.
    + iDestruct "HQ" as "[HQ _]". iIntros (hd2 ms' used' ps'') "[%Hl %Hp] Hfl Hms Hpt".
      rw freelist_twice. rw -!app_assoc /=.
      iApply ("HQ" $! hd2 (m :: ms') (used ++ used') ps'' with "[] Hfl Hms Hpt").
      iPureIntro. split; [by rw /= Hl|]. rw Hp /=. apply perm_skip. solve_Permutation.
    + iDestruct "HQ" as "[_ HQ]". iIntros (hd2 used' ps'') "[%Hp %Hl] Hfl Hpt".
      rw freelist_twice. iApply ("HQ" $! hd2 (used ++ used') ps'' with "[] Hfl Hpt").
      iPureIntro. rw length_app /= in Hl. split; [|lia]. rw -app_assoc -Hp. solve_Permutation.
  - iIntros (hd') "Hfl Hpt". rw bool_decide_eq_true_2 //.
    iApply hwp_bind. iApply (hwp_kfree m []); [done|done|done|]. iFrame "Hfl".
    iSplitL "Hpg". { iExists _. iFrame. iPureIntro. by apply is_page_replicate. }
    iIntros "Hfl". rw !freelist_twice. iDestruct "HQ" as "[_ HQ]".
    iApply (hwp_uvmalloc_undo _ M _ ms (uperm xperm) [m]); [done|done|done|lia| |].
    { intros k Hk. apply Hnone. lia. }
    iFrame "Hpt Hfl Hms". iIntros (hd2) "Hfl Hpt". rw freelist_twice.
    iApply ("HQ" $! hd2 ps (rev ms ++ [m]) with "[] Hfl Hpt").
    iPureIntro. rw length_app length_rev /=. split; [|lia].
    rw -Permutation_rev. solve_Permutation.
Qed.

Lemma hwp_uvmalloc root M oldsz newsz xperm ps (Q : Z → sys → hprop) r :
  Lkmem ∉ held r → perm_ok xperm → 0 <= oldsz → oldsz <= newsz <= MAXVA →
  (∀ k, pgs oldsz <= k < pgs newsz → M !! k = None) →
  pagetable root M ∗ free_list (freelist r) ps ∗
  ((∀ hd ms used ps', ⟦Z.of_nat (length ms) = pgs newsz - pgs oldsz ∧ ps ≡ₚ ms ++ used ++ ps'⟧ -∗
      free_list hd ps' -∗ zeroed ms -∗
      pagetable root (map_list (pgs oldsz) ms (uperm xperm) M) -∗
      Q newsz (r <| freelist := hd |>)) ∧
   (∀ hd used ps', ⟦ps ≡ₚ used ++ ps' ∧ Z.of_nat (length ps') <= pgs newsz - pgs oldsz⟧ -∗
      free_list hd ps' -∗ pagetable root M -∗ Q 0 (r <| freelist := hd |>)))
  ⊢ hwp (uvmalloc root oldsz newsz xperm) Q r.
Proof.
  iIntros (Hh Hx Hold Hnew Hnone) "(Hpt & Hfl & HQ)". rw /uvmalloc.
  rw bool_decide_eq_false_2; last lia. rw pgs_roundup; last lia.
  assert (0 <= pgs oldsz <= pgs newsz) by (pose proof (pgs_range oldsz); pose proof (pgs_mono oldsz newsz); lia).
  assert (pgs newsz <= MAXVA / PGSIZE) by (apply pgs_range; lia).
  set n := Z.to_nat _. assert (Z.of_nat n = pgs newsz - pgs oldsz) as Hn.
  { subst n. replace (newsz - pgs oldsz * PGSIZE + PGSIZE - 1)
      with (newsz + PGSIZE - 1 + (- pgs oldsz) * PGSIZE) by lia.
    rw Z.div_add //. fold (pgs newsz). lia. }
  iPoseProof (hwp_uvmalloc_loop n root M (pgs oldsz) [] xperm newsz ps Q r) as "Hloop".
  { done. } { done. } { lia. } { simpl. lia. } { done. } { intros k Hk. apply Hnone. simpl in *. lia. }
  rw /= Z.add_0_r. iApply "Hloop". iFrame "Hpt Hfl". iSplitR; [by rw /zeroed|]. iSplit.
  - iDestruct "HQ" as "[HQ _]". iIntros (hd ms used ps') "[%Hl %Hp] Hfl Hms Hpt".
    iApply ("HQ" with "[] Hfl Hms Hpt"). iPureIntro. split; [lia|done].
  - iDestruct "HQ" as "[_ HQ]". iIntros (hd used ps') "[%Hp %Hl] Hfl Hpt".
    iApply ("HQ" with "[] Hfl Hpt"). iPureIntro. split; [done|lia].
Qed.

(** ** freewalk and uvmfree *)

(** The words of a page, whatever they are, make a page. *)
Lemma some_words p s n :
  ([∗ list] i ∈ seqZ s (Z.of_nat n), ∃ w, (p + 8 * i) ↦w w) ⊢
  ∃ ws, ⟦length ws = n⟧ ∗ words (p + 8 * s) ws.
Proof.
  revert s; induction n as [|n IH]; intros s.
  - iIntros "_". iExists []. rw /words. iSplit; done.
  - rw Nat2Z.inj_succ seqZ_cons; last lia. rw Z.pred_succ /= IH.
    iIntros "[[%w Hw] (%ws & %Hl & Hws)]". iExists (w :: ws). rw words_cons.
    replace (p + 8 * Z.succ s) with (p + 8 * s + 8) by lia. iFrame. iPureIntro. by rw /= Hl.
Qed.

Lemma words_page p : ([∗ list] i ∈ ptidx, ∃ w, (p + 8 * i) ↦w w) ⊢ page p.
Proof.
  rw ptidx_eq some_words. replace (p + 8 * 0) with p by lia.
  iIntros "(%ws & %Hl & Hws)". iDestruct (words_bytes with "Hws") as (bs) "[[%Hlb %Hb] H]".
  iExists bs. iFrame. iPureIntro. split; [|done]. rw Hlb Hl. pose proof PGSIZEn_Z.
  unfold PGSIZE in *. lia.
Qed.

(** What freewalk does with entry [i]. *)
Definition freewalk_entry (depth : nat) (p : Z) (i : nat) : K unit :=
  let slot := p + 8 * Z.of_nat i in
  pte ← load64 slot;
  if bool_decide (Z.land pte PTE_V ≠ 0 ∧ Z.land pte (Z.lor (Z.lor PTE_R PTE_W) PTE_X) = 0)
  then freewalk depth (PTE2PA pte);; store64 slot 0
  else if bool_decide (Z.land pte PTE_V ≠ 0) then panic "freewalk: leaf"
  else mret tt.

Lemma freewalk_S depth p :
  freewalk (S depth) p = (for_each 512 0 (freewalk_entry depth p);; kfree p).
Proof. done. Qed.

(** freewalk of a table without leaves frees its pages. *)
Definition freewalk_spec (l : nat) : Prop :=
  ∀ c b ps r (Q : unit → sys → hprop), Lkmem ∉ held r →
    ptable l c ∅ b ∗ free_list (freelist r) ps ∗
    (∀ hd pages, ⟦c ∈ pages⟧ -∗ free_list hd (pages ++ ps) -∗ Q tt (r <| freelist := hd |>))
    ⊢ hwp (freewalk (S l) c) Q r.

Lemma hwp_freewalk_entry l p b i ps r (Q : unit → sys → hprop) :
  Lkmem ∉ held r → match l with O => True | S l' => freewalk_spec l' end →
  entry l p ∅ b (Z.of_nat i) ∗ free_list (freelist r) ps ∗
  (∀ hd pages, free_list hd (pages ++ ps) -∗ (∃ w, (p + 8 * Z.of_nat i) ↦w w) -∗
     Q tt (r <| freelist := hd |>))
  ⊢ hwp (freewalk_entry l p i) Q r.
Proof.
  intros Hh Hspec.
  assert ((p + 8 * Z.of_nat i) ↦w 0 ∗ free_list (freelist r) ps ∗
    (∀ hd pages, free_list hd (pages ++ ps) -∗ (∃ w, (p + 8 * Z.of_nat i) ↦w w) -∗
       Q tt (r <| freelist := hd |>)) ⊢ hwp (freewalk_entry l p i) Q r) as Hzero.
  { iIntros "(Hw & Hfl & HQ)". iApply hwp_bind. iApply hwp_load64. iFrame "Hw". iIntros "Hw".
    rw bool_decide_eq_false_2; last by intros [Hn _]; apply Hn.
    rw bool_decide_eq_false_2; last by intros Hn; apply Hn. iApply hwp_ret.
    iEval (rw -(freelist_id r)). iApply ("HQ" $! _ [] with "Hfl"). by iExists _. }
  destruct l as [|l]; [exact Hzero|]. iIntros "((%w & Hw & He) & Hfl & HQ)".
  iDestruct "He" as "[%He|(%c & -> & Hc)]".
  { destruct He as [-> _]. iApply Hzero. iFrame. }
  iDestruct (ptable_page_ok with "Hc") as %Hc.
  iApply hwp_bind. iApply hwp_load64. iFrame "Hw". iIntros "Hw".
  rw bool_decide_eq_true_2; last (split; by rw page_pte_flag).
  rw page_pte //. iApply hwp_bind. iApply Hspec; [done|]. iFrame "Hc Hfl".
  iIntros (hd pages) "_ Hfl". iApply hwp_store64. iFrame "Hw". iIntros "Hw".
  iApply ("HQ" with "Hfl"). by iExists _.
Qed.

Lemma hwp_freewalk_loop l p b n i ps r (Q : unit → sys → hprop) :
  Lkmem ∉ held r → match l with O => True | S l' => freewalk_spec l' end →
  ([∗ list] k ∈ seqZ (Z.of_nat i) (Z.of_nat n), entry l p ∅ b k) ∗ free_list (freelist r) ps ∗
  (∀ hd pages, free_list hd (pages ++ ps) -∗
     ([∗ list] k ∈ seqZ (Z.of_nat i) (Z.of_nat n), ∃ w, (p + 8 * k) ↦w w) -∗
     Q tt (r <| freelist := hd |>))
  ⊢ hwp (for_each n i (freewalk_entry l p)) Q r.
Proof.
  intros Hh Hspec. revert i ps r Hh. induction n as [|n IH]; intros i ps r Hh.
  - iIntros "(_ & Hfl & HQ)". iApply hwp_ret. iEval (rw -(freelist_id r)).
    by iApply ("HQ" $! _ [] with "Hfl").
  - rw Nat2Z.inj_succ seqZ_cons; last lia. rw Z.pred_succ /=. iIntros "([He Hes] & Hfl & HQ)".
    iApply hwp_bind. iApply hwp_freewalk_entry; [done|done|]. iFrame "He Hfl".
    iIntros (hd pages) "Hfl Hw". rw -Nat2Z.inj_succ. iApply (IH _ (pages ++ ps)); [done|].
    iFrame "Hes Hfl". iIntros (hd' pages') "Hfl Hws". rw freelist_twice app_assoc.
    iApply ("HQ" with "Hfl"). iFrame.
Qed.

Lemma hwp_freewalk l : freewalk_spec l.
Proof.
  induction l as [|l IH]; intros c b ps r Q Hh; rw freewalk_S;
    iIntros "(Hpt & Hfl & HQ)"; rw ptable_unfold ptidx_eq; iDestruct "Hpt" as "[%Hc Hpt]";
    iApply hwp_bind; iApply (hwp_freewalk_loop _ c b _ 0 ps); try done; iFrame "Hpt Hfl";
    iIntros (hd pages) "Hfl Hws"; iDestruct (words_page with "[Hws]") as "Hpg";
    try (by rw ptidx_eq); iApply (hwp_kfree _ (pages ++ ps)); try done; iFrame "Hpg Hfl";
    iIntros "Hfl"; rw freelist_twice; iApply ("HQ" $! c (c :: pages) with "[] Hfl");
    iPureIntro; by constructor.
Qed.
End uvm.

(** Memory that holds an empty page table exists. *)
Lemma sat_pagetable `{Linker} p : page_ok p → sat (pagetable p ∅) p (p + PGSIZE).
Proof.
  intros Hp. apply (sat_mono (p ↦∗ replicate PGSIZEn 0)).
  - iIntros "Hpg". iDestruct (ptable_zero 2 p ∅ 0 with "Hpg") as "$"; [done|done|]. iPureIntro. done.
  - rw -{1}PGSIZEn_Z -{1}(length_replicate PGSIZEn 0). apply sat_array.
Qed.
