(* ===== verification/UvmCopySpec.v ===== *)
(** * Specification of uvmfree and uvmcopy

    [umem M C lo n]: the user pages with numbers [lo] to [lo + n - 1] that [M]
    maps are owned, and page [vpn] holds the bytes [C vpn]. *)
From S2P Require Import Prelude.
From S2P Require Import Mem.
From S2P Require Import Heap.
From S2P Require Import Params.
From S2P Require Import State.
From S2P Require Import StateSpec.
From S2P Require Import KString.
From S2P Require Import KStringSpec.
From S2P Require Import Kalloc.
From S2P Require Import KallocSpec.
From S2P Require Import Vm.
From S2P Require Import PageTable.
From S2P Require Import Walk.
From S2P Require Import MapSpec.
From S2P Require Import UvmSpec.
From iris.proofmode Require Import proofmode.
#[local] Open Scope Z_scope.

Section uvmcopy.
Context `{Linker}.
Context (Hlk : linker_ok).

Definition upage (M : gmap Z Z) (C : Z → list Z) (vpn : Z) : hprop :=
  match M !! vpn with
  | Some e => ⟦page_ok (PTE2PA e) ∧ is_page (C vpn)⟧ ∗ PTE2PA e ↦∗ C vpn
  | None => emp
  end%I.

Definition umem (M : gmap Z Z) (C : Z → list Z) (lo : Z) (n : nat) : hprop :=
  ([∗ list] vpn ∈ seqZ lo (Z.of_nat n), upage M C vpn)%I.

Lemma umem_S M C lo n : umem M C lo (S n) ⊣⊢ umem M C lo n ∗ upage M C (lo + Z.of_nat n).
Proof. rw /umem seqZ_S big_sepL_app /=. by rw (right_id emp%I). Qed.

Lemma umem_acc M C lo n vpn :
  lo <= vpn < lo + Z.of_nat n →
  umem M C lo n ⊢ upage M C vpn ∗ (upage M C vpn -∗ umem M C lo n).
Proof.
  intros Hv. apply (big_sepL_lookup_acc (λ _ v, upage M C v) _ (Z.to_nat (vpn - lo)) vpn).
  apply lookup_seqZ. lia.
Qed.

(** Forgetting the contents. *)
Lemma umem_owned M C lo n : umem M C lo n ⊢ owned (mapped_pas n lo M).
Proof.
  rw /umem /owned /mapped_pas. induction (seqZ lo (Z.of_nat n)) as [|vpn vs IH]; [done|].
  rw /= /upage IH. destruct (M !! vpn) as [e|]; simpl; [|by rw (left_id emp%I)].
  apply bi.sep_mono_l. iIntros "[[%Hp %Hc] Hpg]". iSplitR; [done|].
  iExists (C vpn). by iFrame.
Qed.

(** The address space of [sz] bytes is everything [M] maps. *)
Definition within (M : gmap Z Z) (n : Z) : Prop := ∀ vpn e, M !! vpn = Some e → 0 <= vpn < n.

Lemma unmap_within M n : within M (Z.of_nat n) → unmap_pages n 0 M = ∅.
Proof.
  intros Hw. apply map_empty=> k. rw /unmap_pages. apply map_lookup_filter_None_2.
  destruct (M !! k) as [e|] eqn:Hk; [right|by left].
  intros e' _ Hn. apply Hn. pose proof (Hw _ _ Hk). lia.
Qed.

(** uvmfree gives back every user page and every table page. *)
Lemma hwp_uvmfree root M sz ps (Q : unit → sys → hprop) r :
  Lkmem ∉ held r → 0 <= sz <= MAXVA → within M (pgs sz) →
  let n := Z.to_nat (pgs sz) in
  pagetable root M ∗ free_list (freelist r) ps ∗ owned (mapped_pas n 0 M) ∗
  (∀ hd pages, ⟦root ∈ pages⟧ -∗ free_list hd (pages ++ rev (mapped_pas n 0 M) ++ ps) -∗
     Q tt (r <| freelist := hd |>))
  ⊢ hwp (uvmfree root sz) Q r.
Proof.
  intros Hh Hsz Hin n. iIntros "(Hpt & Hfl & Hown & HQ)".
  pose proof (pgs_range _ Hsz). assert (Z.of_nat n = pgs sz) as Hn by (subst n; lia).
  iApply hwp_bind.
  iAssert (∀ Q' : unit → sys → hprop, (∀ hd, free_list hd (rev (mapped_pas n 0 M) ++ ps) -∗
     pagetable root ∅ -∗ Q' tt (r <| freelist := hd |>)) -∗
     hwp (when (bool_decide (0 < sz)) (uvmunmap root 0 (PGROUNDUP sz / PGSIZE) true)) Q' r)%I
    with "[Hpt Hfl Hown]" as "Hun".
  { iIntros (Q') "HQ". case_bool_decide as Hpos; simpl.
    - rw pgs_roundup // Z.div_mul // -Hn. change (uvmunmap root 0) with (uvmunmap root (0 * PGSIZE)).
      iApply (hwp_uvmunmap Hlk n _ M _ true ps); [done|done|lia|].
      iFrame "Hpt Hfl Hown". rw unmap_within; [|by rw Hn]. done.
    - assert (n = 0%nat) as Hz by (assert (sz = 0) as -> by lia; done).
      iApply hwp_ret. iEval (rw -(freelist_id r)). iApply ("HQ" with "[Hfl Hown]").
      + rw Hz. by iFrame.
      + rw -(unmap_within M n); [|by rw Hn]. by rw Hz unmap_pages_0. }
  iApply "Hun". iIntros (hd) "Hfl [_ Hpt]". iApply (hwp_freewalk Hlk 2); [done|].
  iFrame "Hpt Hfl". iIntros (hd' pages) "Hin Hfl". rw freelist_twice.
  iApply ("HQ" with "Hin Hfl").
Qed.

(** ** uvmcopy *)

(** [N] maps what [M] maps among the first [k] pages, with the same flags. *)
Definition copy_of (M N : gmap Z Z) (k : Z) : Prop :=
  ∀ vpn, match M !! vpn with
         | Some e =>
             if bool_decide (0 <= vpn < k)
             then ∃ pa, page_ok pa ∧ N !! vpn = Some (leaf pa (PTE_FLAGS e))
             else N !! vpn = None
         | None => N !! vpn = None
         end.

Lemma copy_of_within M N k : copy_of M N k → within N k.
Proof.
  intros Hc vpn e He. specialize (Hc vpn). rw He in Hc.
  destruct (M !! vpn); [|done]. by case_bool_decide.
Qed.

Lemma copy_of_skip M N k : copy_of M N k → M !! k = None → copy_of M N (k + 1).
Proof.
  intros Hc Hk vpn. specialize (Hc vpn). destruct (M !! vpn) as [e|] eqn:E; [|done].
  assert (vpn ≠ k) by by intros ->; rw Hk in E. revert Hc. do 2 case_bool_decide; (done || lia).
Qed.

Lemma copy_of_insert M N k e pa :
  0 <= k → copy_of M N k → M !! k = Some e → page_ok pa →
  copy_of M (<[k := leaf pa (PTE_FLAGS e)]> N) (k + 1).
Proof.
  intros Hpos Hc Hk Hpa vpn. specialize (Hc vpn). destruct (decide (vpn = k)) as [->|Hne].
  - rw Hk bool_decide_eq_true_2; last lia. exists pa. by rw lookup_insert_eq.
  - rw lookup_insert_ne //. destruct (M !! vpn) as [e'|]; [|done].
    revert Hc. do 2 case_bool_decide; (done || lia).
Qed.

Lemma copy_of_fresh M N k : copy_of M N k → N !! k = None.
Proof. intros Hc. destruct (N !! k) eqn:E; [|done]. apply (copy_of_within _ _ _ Hc) in E. lia. Qed.

Lemma flags_perm_ok e : perm_ok (PTE_FLAGS e).
Proof. rw /perm_ok /PTE_FLAGS. change 1023 with (Z.ones 10). rw Z.land_ones //. by apply Z.mod_pos_bound. Qed.

Lemma umem_insert N C lo n vpn e :
  ¬ (lo <= vpn < lo + Z.of_nat n) → umem N C lo n ⊣⊢ umem (<[vpn := e]> N) C lo n.
Proof.
  intros Hn. apply big_sepL_proper. intros k v Hk. rw /upage lookup_insert_ne //.
  apply lookup_seqZ in Hk. lia.
Qed.

(** The error path. *)
Lemma hwp_uvmcopy_undo new M N C k ps (Q : Z → sys → hprop) r :
  Lkmem ∉ held r → copy_of M N (Z.of_nat k) → Z.of_nat k <= MAXVA / PGSIZE →
  pagetable new N ∗ umem N C 0 k ∗ free_list (freelist r) ps ∗
  (∀ hd, free_list hd (rev (mapped_pas k 0 N) ++ ps) -∗ pagetable new ∅ -∗
     Q (-1) (r <| freelist := hd |>))
  ⊢ hwp (uvmunmap new 0 (Z.of_nat k * PGSIZE / PGSIZE) true;; mret (-1)) Q r.
Proof.
  iIntros (Hh Hc Hk) "(Hpt & Hm & Hfl & HQ)". rw Z.div_mul //. iApply hwp_bind.
  change (uvmunmap new 0) with (uvmunmap new (0 * PGSIZE)).
  iApply (hwp_uvmunmap Hlk k _ N _ true ps); [done|done|lia|]. rw umem_owned.
  iFrame "Hpt Hfl Hm". rw unmap_within; last by eapply copy_of_within.
  iIntros (hd) "Hfl Hpt". iApply hwp_ret. iApply ("HQ" with "Hfl Hpt").
Qed.

Lemma uvmcopy_loop_S n old new i sz :
  uvmcopy_loop (S n) old new i sz =
    (if bool_decide (i < sz) then
       pte ← walk old i false;
       if bool_decide (pte = 0) then uvmcopy_loop n old new (u64 (i + PGSIZE)) sz else
       x ← load64 pte;
       if bool_decide (Z.land x PTE_V = 0)
       then uvmcopy_loop n old new (u64 (i + PGSIZE)) sz else
       m ← kalloc;
       if bool_decide (m = 0) then uvmunmap new 0 (i / PGSIZE) true;; mret (-1) else
       memmove m (PTE2PA x) PGSIZEn;;
       rc ← mappages new i PGSIZE m (PTE_FLAGS x);
       if bool_decide (rc ≠ 0)
       then kfree m;; uvmunmap new 0 (i / PGSIZE) true;; mret (-1) else
       uvmcopy_loop n old new (u64 (i + PGSIZE)) sz
     else mret 0).
Proof. done. Qed.

(** Reading the entry of a page. *)
Lemma hwp_walk_load {A} root M vpn ps (k0 : K A) (k : Z → K A) (Q : A → sys → hprop) r :
  Lkmem ∉ held r → vpn_ok vpn →
  pagetable root M ∗ free_list (freelist r) ps ∗
  (pagetable root M -∗ free_list (freelist r) ps -∗
     hwp (match M !! vpn with Some e => k e | None => k0 end) Q r)
  ⊢ hwp (pte ← walk root (vpn * PGSIZE) false;
         if bool_decide (pte = 0) then k0 else
         x ← load64 pte; if bool_decide (Z.land x PTE_V = 0) then k0 else k x) Q r.
Proof.
  iIntros (Hh Hv) "([%HM Hpt] & Hfl & HQ)". destruct (vpn_va vpn Hv) as [Hva Hdiv].
  iApply hwp_bind. iApply (hwp_walk Hlk _ M _ _ ps); [done|done|]. iFrame "Hpt Hfl".
  rw Hdiv. iSplit.
  - iIntros (a hd used ps') "%Hpure Hfl Ha Hback". destruct Hpure as (Ha & -> & Hu).
    destruct Hu as [-> ->]; [done|]. rw freelist_id bool_decide_eq_false_2 // app_nil_l.
    iApply hwp_bind. iApply hwp_load64. iFrame "Ha". iIntros "Ha".
    iDestruct ("Hback" with "Ha") as "Hpt". rw setpte_id //.
    iSpecialize ("HQ" with "[$Hpt //] Hfl").
    case_bool_decide as Hb; rw wf_pte // in Hb; [by rw Hb|].
    rw /pte. by destruct (M !! vpn).
  - iIntros (hd) "%Hpure Hfl Hpt". destruct Hpure as [Hn ->]; [|done].
    rw freelist_id bool_decide_eq_true_2 // Hn. iApply ("HQ" with "[$Hpt //] Hfl").
Qed.

Lemma mapped_pas_snoc n vpn M :
  mapped_pas (S n) vpn M = mapped_pas n vpn M ++ option_list (PTE2PA <$> M !! (vpn + Z.of_nat n)).
Proof. rw /mapped_pas seqZ_S omap_app /=. by destruct (M !! _). Qed.

Lemma mapped_pas_insert n vpn M k e :
  ¬ (vpn <= k < vpn + Z.of_nat n) → mapped_pas n vpn (<[k := e]> M) = mapped_pas n vpn M.
Proof.
  intros Hk. apply list_omap_ext, Forall_Forall2_diag, Forall_forall. intros v Hv%elem_of_seqZ.
  rw lookup_insert_ne //. lia.
Qed.

(** Copying one page. *)
Lemma hwp_uvmcopy_page {A} new N i e bs ps (kfail k : K A) (Q : A → sys → hprop) r :
  Lkmem ∉ held r → vpn_ok i → N !! i = None → is_page bs →
  pagetable new N ∗ free_list (freelist r) ps ∗ PTE2PA e ↦∗ bs ∗
  ((∀ hd m used ps', ⟦page_ok m ∧ ps = m :: used ++ ps'⟧ -∗ free_list hd ps' -∗
      pagetable new (<[i := leaf m (PTE_FLAGS e)]> N) -∗ PTE2PA e ↦∗ bs -∗ m ↦∗ bs -∗
      hwp k Q (r <| freelist := hd |>)) ∧
   (∀ hd used ps', ⟦ps ≡ₚ used ++ ps' ∧ (length ps' <= 1)%nat⟧ -∗ free_list hd ps' -∗
      pagetable new N -∗ PTE2PA e ↦∗ bs -∗ hwp kfail Q (r <| freelist := hd |>)))
  ⊢ hwp (m ← kalloc;
         if bool_decide (m = 0) then kfail else
         memmove m (PTE2PA e) PGSIZEn;;
         rc ← mappages new (i * PGSIZE) PGSIZE m (PTE_FLAGS e);
         if bool_decide (rc ≠ 0) then kfree m;; kfail else k) Q r.
Proof.
  iIntros (Hh Hv Hi [Hlen Hbytes]) "(Hn & Hfl & Hpg & HQ)".
  iDestruct (free_list_null_inv with "Hfl") as %Hnull; [done|].
  iApply hwp_bind. iApply (hwp_kalloc ps); [done|done|]. iFrame "Hfl". destruct ps as [|m ps].
  { iIntros "Hfl". rw bool_decide_eq_true_2 //. iDestruct "HQ" as "[_ HQ]".
    iEval (rw -(freelist_id r) (proj2 Hnull eq_refl)).
    iApply ("HQ" $! 0 [] [] with "[] Hfl Hn Hpg"). iPureIntro. split; [done|simpl; lia]. }
  iIntros (hd) "%Hm Hfl Hnew". pose proof (page_ok_pos m Hlk Hm).
  rw bool_decide_eq_false_2; last lia.
  iApply hwp_bind. iApply (hwp_memmove _ _ _ bs); [done|apply length_replicate|done|].
  iFrame "Hpg Hnew". iIntros "Hpg Hnew".
  iApply hwp_bind. iApply (hwp_mappages_1 Hlk _ N _ m _ ps); [done|apply flags_perm_ok|done..|].
  iFrame "Hn Hfl". iSplit.
  - iDestruct "HQ" as "[HQ _]". iIntros (hd' used ps') "-> Hfl Hn". rw freelist_twice.
    by iApply ("HQ" with "[//] Hfl Hn Hpg Hnew").
  - iDestruct "HQ" as "[_ HQ]". iIntros (hd') "Hfl Hn". rw bool_decide_eq_true_2 //.
    iApply hwp_bind. iApply (hwp_kfree m []); [done|done|done|]. iFrame "Hfl".
    iSplitL "Hnew". { iExists bs. by iFrame. }
    iIntros "Hfl". rw !freelist_twice. iApply ("HQ" $! m ps [m] with "[] Hfl Hn Hpg").
    iPureIntro. split; [by rw Permutation_app_comm|done].
Qed.

Lemma length_mapped_pas n vpn M : (length (mapped_pas n vpn M) <= n)%nat.
Proof.
  induction n as [|n IH]; [done|]. rw mapped_pas_snoc length_app. destruct (M !! _); simpl; lia.
Qed.

(** The loop, with [i] pages done and [n] to go. *)
Lemma hwp_uvmcopy_loop n i old new M N C sz ps (Q : Z → sys → hprop) r :
  Lkmem ∉ held r → pgs sz = Z.of_nat (i + n) → pgs sz <= MAXVA / PGSIZE →
  copy_of M N (Z.of_nat i) →
  pagetable old M ∗ umem M C 0 (i + n) ∗ pagetable new N ∗ umem N C 0 i ∗
  free_list (freelist r) ps ∗
  ((∀ hd N' used ps', ⟦copy_of M N' (pgs sz) ∧ ps ≡ₚ used ++ ps'⟧ -∗
      pagetable old M -∗ umem M C 0 (i + n) -∗ pagetable new N' -∗ umem N' C 0 (i + n) -∗
      free_list hd ps' -∗ Q 0 (r <| freelist := hd |>)) ∧
   (∀ hd used ps', ⟦mapped_pas i 0 N ++ ps ≡ₚ used ++ ps' ∧ (length ps' <= i + n)%nat⟧ -∗
      pagetable old M -∗ umem M C 0 (i + n) -∗ pagetable new ∅ -∗ free_list hd ps' -∗
      Q (-1) (r <| freelist := hd |>)))
  ⊢ hwp (uvmcopy_loop (S n) old new (Z.of_nat i * PGSIZE) sz) Q r.
Proof.
  revert i N ps r. induction n as [|n IH]; intros i N ps r Hh Hsz Hmax Hc;
    iIntros "(Ho & Hm & Hn & Hc & Hfl & HQ)"; rw uvmcopy_loop_S.
  { rw bool_decide_eq_false_2; last (rw pgs_lt; lia). iApply hwp_ret.
    iDestruct "HQ" as "[HQ _]". iEval (rw -(freelist_id r)). rw !Nat.add_0_r in Hsz |- *.
    iApply ("HQ" $! _ N [] ps with "[] Ho Hm Hn Hc Hfl"). iPureIntro. by rw Hsz. }
  rw bool_decide_eq_true_2; last (rw pgs_lt; lia).
  assert (vpn_ok (Z.of_nat i)) as Hv by (unfold vpn_ok; lia).
  iApply (hwp_walk_load _ M _ ps); [done|done|]. iFrame "Ho Hfl". iIntros "Ho Hfl".
  destruct (M !! Z.of_nat i) as [e|] eqn:He; last first.
  { rw vpn_next //. replace (Z.of_nat i + 1) with (Z.of_nat (S i)) by lia.
    iApply (IH (S i) N ps); [done|lia|done| |].
    { replace (Z.of_nat (S i)) with (Z.of_nat i + 1) by lia. by apply copy_of_skip. }
    replace (S i + n)%nat with (i + S n)%nat by lia. iFrame "Ho Hm Hn Hfl".
    rw umem_S /upage (copy_of_fresh M N (Z.of_nat i)) //. iFrame "Hc".
    rw mapped_pas_snoc (copy_of_fresh M N (Z.of_nat i)) // app_nil_r. by iFrame. }
  iDestruct (umem_acc _ _ _ _ (Z.of_nat i) with "Hm") as "[Hpg Hm]"; [lia|].
  rw {1}/upage He. iDestruct "Hpg" as "[[%Hpa %Hpg] Hpg]".
  iApply (hwp_uvmcopy_page new N _ e _ ps); [done|done|by eapply copy_of_fresh|done|].
  iFrame "Hn Hfl Hpg". iSplit.
  - iIntros (hd m used ps') "[%Hm ->] Hfl Hn Hpg Hnew".
    iDestruct ("Hm" with "[Hpg]") as "Hm"; [rw /upage He; by iFrame|].
    rw vpn_next //. replace (Z.of_nat i + 1) with (Z.of_nat (S i)) by lia.
    set N' := <[Z.of_nat i := leaf m (PTE_FLAGS e)]> N.
    assert (PTE2PA (leaf m (PTE_FLAGS e)) = m) as Hlm.
    { apply leaf_pa; [by apply page_ok_pa|apply flags_perm_ok]. }
    iApply (IH (S i) N' ps'); [done|lia|done| |].
    { replace (Z.of_nat (S i)) with (Z.of_nat i + 1) by lia. apply copy_of_insert; (done || lia). }
    replace (S i + n)%nat with (i + S n)%nat by lia. iFrame "Ho Hm Hn Hfl". iSplitL "Hc Hnew".
    { rw umem_S -umem_insert; [|lia]. iFrame "Hc". rw /upage /= lookup_insert_eq Hlm.
      by iFrame. }
    assert (mapped_pas (S i) 0 N' = mapped_pas i 0 N ++ [m]) as ->.
    { rw mapped_pas_snoc mapped_pas_insert; [|lia]. by rw /= lookup_insert_eq /= Hlm. }
    iSplit.
    + iDestruct "HQ" as "[HQ _]". iIntros (hd2 N2 used2 ps2) "[%Hc2 %Hp] Ho Hm Hn Hc Hfl".
      rw freelist_twice. iApply ("HQ" $! hd2 N2 (m :: used ++ used2) ps2 with "[] Ho Hm Hn Hc Hfl").
      iPureIntro. split; [done|]. by rw Hp /= app_assoc.
    + iDestruct "HQ" as "[_ HQ]". iIntros (hd2 used2 ps2) "[%Hp %Hl] Ho Hm Hn Hfl".
      rw freelist_twice. iApply ("HQ" $! hd2 (used ++ used2) ps2 with "[] Ho Hm Hn Hfl").
      iPureIntro. split; [|done]. rw -app_assoc -Hp. solve_Permutation.
  - iDestruct "HQ" as "[_ HQ]". iIntros (hd used ps') "[%Hp %Hl] Hfl Hn Hpg".
    iDestruct ("Hm" with "[Hpg]") as "Hm"; [rw /upage He; by iFrame|].
    iApply (hwp_uvmcopy_undo _ M N C _ ps'); [done|done|lia|]. iFrame "Hn Hc Hfl".
    iIntros (hd2) "Hfl Hn". rw freelist_twice.
    iApply ("HQ" $! hd2 used (rev (mapped_pas i 0 N) ++ ps') with "[] Ho Hm Hn Hfl").
    iPureIntro. pose proof (length_mapped_pas i 0 N). rw length_app length_rev. split; [|lia].
    rw Hp -Permutation_rev. solve_Permutation.
Qed.

Lemma hwp_uvmcopy old new M C sz ps (Q : Z → sys → hprop) r :
  Lkmem ∉ held r → 0 <= sz <= MAXVA →
  let n := Z.to_nat (pgs sz) in
  pagetable old M ∗ umem M C 0 n ∗ pagetable new ∅ ∗ free_list (freelist r) ps ∗
  ((∀ hd N used ps', ⟦copy_of M N (pgs sz) ∧ ps ≡ₚ used ++ ps'⟧ -∗
      pagetable old M -∗ umem M C 0 n -∗ pagetable new N -∗ umem N C 0 n -∗
      free_list hd ps' -∗ Q 0 (r <| freelist := hd |>)) ∧
   (∀ hd used ps', ⟦ps ≡ₚ used ++ ps' ∧ (length ps' <= n)%nat⟧ -∗
      pagetable old M -∗ umem M C 0 n -∗ pagetable new ∅ -∗ free_list hd ps' -∗
      Q (-1) (r <| freelist := hd |>)))
  ⊢ hwp (uvmcopy old new sz) Q r.
Proof.
  intros Hh Hsz n. pose proof (pgs_range _ Hsz). rw /uvmcopy. fold (pgs sz) n.
  iIntros "(Ho & Hm & Hn & Hfl & HQ)".
  iApply (hwp_uvmcopy_loop n 0 _ _ M ∅ C sz ps); [done|subst n; lia|lia| |].
  { intros vpn. destruct (M !! vpn); [|done]. rw bool_decide_eq_false_2 //. lia. }
  iFrame "Ho Hm Hn Hfl HQ". by rw /umem.
Qed.
End uvmcopy.
