(* ===== verification/CopySpec.v ===== *)
(** * Specification of vmfault, copyout, copyin and copyinstr

    User memory is a function [V] from virtual addresses to bytes.  [uspace]
    says that the page table and the pages it maps realise [V] on the first [n]
    pages, where a page that is not mapped yet reads as zeros: mapping it
    lazily, which is what vmfault does, leaves [V] as it is. *)
From S2P Require Import Prelude.
From S2P Require Import Mem.
From S2P Require Import Heap.
From S2P Require Import Params.
From S2P Require Import State.
From S2P Require Import StateSpec.
From S2P Require Import KString.
From S2P Require Import KStringSpec.
From S2P Require Import Kalloc.
From S2P Require Import KallocSpec.
From S2P Require Import Vm.
From S2P Require Import PageTable.
From S2P Require Import Walk.
From S2P Require Import MapSpec.
From S2P Require Import UvmSpec.
From S2P Require Import UvmCopySpec.
From iris.proofmode Require Import proofmode.
#[local] Open Scope Z_scope.

(** [len] bytes of user memory from [va] on. *)
Definition vread (V : Z → Z) (va : Z) (len : nat) : list Z := V <$> seqZ va (Z.of_nat len).

(** User memory after [bs] is written at [va]. *)
Definition vwrite (V : Z → Z) (va : Z) (bs : list Z) : Z → Z := λ a,
  if bool_decide (va <= a < va + Z.of_nat (length bs)) then bs !!! Z.to_nat (a - va) else V a.

Definition pagebytes (V : Z → Z) (vpn : Z) : list Z := vread V (vpn * PGSIZE) PGSIZEn.

Lemma length_vread V va n : length (vread V va n) = n.
Proof. rw /vread length_fmap length_seqZ. lia. Qed.

Lemma vread_app V va n1 n2 : vread V va (n1 + n2) = vread V va n1 ++ vread V (va + Z.of_nat n1) n2.
Proof. rw /vread Nat2Z.inj_add seqZ_app; [|lia|lia]. apply fmap_app. Qed.

Lemma vread_ext V V' va n :
  (∀ a, va <= a < va + Z.of_nat n → V a = V' a) → vread V va n = vread V' va n.
Proof.
  intros Hv. apply list_fmap_ext. intros i a Ha%lookup_seqZ. apply Hv. lia.
Qed.

Lemma vread_lookup V va n i : (i < n)%nat → vread V va n !! i = Some (V (va + Z.of_nat i)).
Proof. intros Hi. rw /vread list_lookup_fmap. by rw lookup_seqZ_lt; [|lia]. Qed.

Lemma vread_bytes V va n : (∀ a, is_byte (V a)) → Forall is_byte (vread V va n).
Proof. intros Hb. by apply Forall_fmap, Forall_true. Qed.

Lemma vread_vwrite V va bs : vread (vwrite V va bs) va (length bs) = bs.
Proof.
  apply list_eq_same_length with (length bs); [done|apply length_vread|].
  intros i x y Hi. rw vread_lookup //. intros [= <-] Hy. rw /vwrite bool_decide_eq_true_2; last lia.
  apply list_lookup_total_correct. by replace (Z.to_nat _) with i by lia.
Qed.

Lemma vread_vwrite_ne V va bs va' n :
  (va' + Z.of_nat n <= va ∨ va + Z.of_nat (length bs) <= va') →
  vread (vwrite V va bs) va' n = vread V va' n.
Proof. intros Hd. apply vread_ext. intros a Ha. rw /vwrite bool_decide_eq_false_2 //. lia. Qed.

Lemma vwrite_app V va bs1 bs2 a :
  vwrite (vwrite V va bs1) (va + Z.of_nat (length bs1)) bs2 a = vwrite V va (bs1 ++ bs2) a.
Proof.
  rw /vwrite length_app. repeat case_bool_decide; try lia; try done.
  - rw lookup_total_app_r; [|lia]. f_equal. lia.
  - rw lookup_total_app_l //. lia.
Qed.

Lemma vwrite_byte V va bs : (∀ a, is_byte (V a)) → Forall is_byte bs → ∀ a, is_byte (vwrite V va bs a).
Proof.
  intros HV Hb a. rw /vwrite. case_bool_decide; [|done].
  eapply Forall_lookup_total_1; [done|lia].
Qed.

(** A byte string up to and including its first NUL, and whether it has one. *)
Fixpoint upto (bs : list Z) : list Z * bool :=
  match bs with
  | [] => ([], false)
  | c :: cs => if bool_decide (c = 0) then ([0], true) else (c :: (upto cs).1, (upto cs).2)
  end.

Lemma upto_app b1 b2 :
  upto (b1 ++ b2) = if (upto b1).2 then upto b1 else (b1 ++ (upto b2).1, (upto b2).2).
Proof.
  induction b1 as [|c cs IH]; simpl; [by destruct (upto b2)|]. case_bool_decide; [done|].
  rw IH. by destruct (upto cs) as [? []].
Qed.

Lemma upto_none bs : (upto bs).2 = false → (upto bs).1 = bs.
Proof. induction bs as [|c cs IH]; simpl; [done|]. case_bool_decide; [done|]. intros. by rw /= IH. Qed.

(** The string copyinstr returns ends in its only NUL. *)
Lemma upto_spec bs :
  (upto bs).2 = true → ∃ s, (upto bs).1 = s ++ [0] ∧ (0 ∉ s) ∧ (s ++ [0]) `prefix_of` bs.
Proof.
  induction bs as [|c cs IH]; simpl; [done|]. case_bool_decide as Hc; simpl.
  - intros _. exists []. split; [done|]. split; [apply not_elem_of_nil|]. subst. by apply prefix_cons, prefix_nil.
  - intros (s & -> & Hs & Hp)%IH. exists (c :: s). split; [done|].
    split; [by apply not_elem_of_cons|].
    by apply prefix_cons.
Qed.

Section copy.
Context `{Linker}.
Context (Hlk : linker_ok).

(** The user part of a page table: entries with PTE_U lie below page [n];
    pages that are not mapped read as zeros. *)
Record user_ok (M : gmap Z Z) (V : Z → Z) (n : nat) : Prop := {
  user_low : ∀ vpn e, M !! vpn = Some e → Z.land e PTE_U ≠ 0 → 0 <= vpn < Z.of_nat n;
  user_lazy : ∀ vpn, 0 <= vpn < Z.of_nat n → M !! vpn = None →
                pagebytes V vpn = replicate PGSIZEn 0;
  user_byte : ∀ a, is_byte (V a)
}.

Definition uspace (root : Z) (M : gmap Z Z) (V : Z → Z) (n : nat) : hprop :=
  (⟦user_ok M V n⟧ ∗ pagetable root M ∗ umem M (pagebytes V) 0 n)%I.

Lemma pagebytes_page V vpn : (∀ a, is_byte (V a)) → is_page (pagebytes V vpn).
Proof. intros Hb. split; [apply length_vread|by apply vread_bytes]. Qed.

(** The process on whose behalf the kernel runs. *)
Record running (r : sys) (root sz : Z) : Prop := {
  run_proc : ∃ i p, cur r = Some i ∧ procs r !! i = Some p ∧ p_pagetable p = root ∧ p_sz p = sz;
  run_kmem : Lkmem ∉ held r
}.

Lemma running_freelist r root sz hd : running r root sz → running (r <| freelist := hd |>) root sz.
Proof. intros [(i & p & ?) ?]. split; [by exists i, p|done]. Qed.

Lemma umem_ext M C C' lo n :
  (∀ vpn, lo <= vpn < lo + Z.of_nat n → C vpn = C' vpn) → umem M C lo n ⊢ umem M C' lo n.
Proof.
  intros HC. apply big_sepL_mono. intros k v Hk%lookup_seqZ. rw /upage HC //. lia.
Qed.

(** Replacing one page of an address space. *)
Lemma umem_upd_acc M C lo n vpn :
  lo <= vpn < lo + Z.of_nat n →
  umem M C lo n ⊢ upage M C vpn ∗
    ∀ M' C', ⟦∀ v, v ≠ vpn → lo <= v < lo + Z.of_nat n → M' !! v = M !! v ∧ C' v = C v⟧ -∗
      upage M' C' vpn -∗ umem M' C' lo n.
Proof.
  intros Hv. assert (seqZ lo (Z.of_nat n) !! Z.to_nat (vpn - lo) = Some vpn) as Hk.
  { apply lookup_seqZ. lia. }
  rw {1}/umem (big_sepL_delete _ _ _ _ Hk). iIntros "[$ Hrest]" (M' C') "%Hsame Hu".
  rw /umem (big_sepL_delete (λ _ v, upage M' C' v) _ _ _ Hk). iFrame "Hu".
  iApply (big_sepL_mono with "Hrest"). intros k v Hkv%lookup_seqZ. simpl.
  case_decide; [done|]. destruct (Hsame v) as [E1 E2]; [lia|lia|]. by rw /upage E1 E2.
Qed.

Definition fault_perm : Z := Z.lor (Z.lor PTE_W PTE_U) PTE_R.

Lemma user_ok_fault M V n vpn m :
  user_ok M V n → page_ok m → 0 <= vpn < Z.of_nat n →
  user_ok (<[vpn := leaf m fault_perm]> M) V n.
Proof.
  intros [H1 H2 H3] Hm Hv. split; [| |done].
  - intros v e. rw lookup_insert_Some. intros [[<- _]|[_ Hv']]; [done|by eapply H1].
  - intros v Hv' [Hne Hn]%lookup_insert_None. by apply H2.
Qed.

Lemma hwp_the_proc {A} r root sz (k : proc → K A) (Q : A → sys → hprop) :
  running r root sz →
  (∀ p, ⟦p_pagetable p = root ∧ p_sz p = sz⟧ -∗ hwp (k p) Q r)
  ⊢ hwp (i ← the_proc; p ← proc_get i; k p) Q r.
Proof.
  intros [(i & p & Hc & Hp & Hr & Hs) _]. iIntros "HQ".
  iApply hwp_bind. iApply hwp_bind. iApply hwp_rd. rw Hc. iApply hwp_ret.
  iApply hwp_bind. iApply hwp_bind. iApply hwp_rd. rw Hp. iApply hwp_ret. by iApply "HQ".
Qed.

Lemma hwp_ismapped root M vpn ps (Q : bool → sys → hprop) r :
  Lkmem ∉ held r → vpn_ok vpn →
  pagetable root M ∗ free_list (freelist r) ps ∗
  (pagetable root M -∗ free_list (freelist r) ps -∗ Q (bool_decide (M !! vpn ≠ None)) r)
  ⊢ hwp (ismapped root (vpn * PGSIZE)) Q r.
Proof.
  iIntros (Hh Hv) "([%HM Hpt] & Hfl & HQ)". destruct (vpn_va vpn Hv) as [Hva Hdiv].
  iApply hwp_bind. iApply (hwp_walk Hlk _ M _ _ ps); [done|done|]. iFrame "Hpt Hfl".
  rw Hdiv. iSplit.
  - iIntros (a hd used ps') "%Hpure Hfl Ha Hback". destruct Hpure as (Ha & -> & Hu).
    destruct Hu as [-> ->]; [done|]. rw freelist_id (bool_decide_eq_false_2 (a = 0)) // app_nil_l.
    iApply hwp_bind. iApply hwp_load64. iFrame "Ha". iIntros "Ha".
    iDestruct ("Hback" with "Ha") as "Hpt". rw setpte_id //. iApply hwp_ret.
    iSpecialize ("HQ" with "[$Hpt //] Hfl").
    rw (bool_decide_ext (Z.land (pte M vpn) PTE_V ≠ 0) (M !! vpn ≠ None)) //.
    by rw wf_pte.
  - iIntros (hd) "%Hpure Hfl Hpt". destruct Hpure as [Hn ->]; [|done].
    rw freelist_id (bool_decide_eq_true_2 (0 = 0)) //. iApply hwp_ret.
    iSpecialize ("HQ" with "[$Hpt //] Hfl"). by rw (bool_decide_eq_false_2 (M !! vpn ≠ None)); [|auto].
Qed.

(** vmfault maps a fresh zeroed page below [sz] that was not mapped, which
    changes nothing of what the user sees; otherwise it returns 0. *)
Lemma hwp_vmfault root sz M V n vpn rd ps (Q : Z → sys → hprop) r :
  running r root sz → 0 <= sz <= MAXVA → Z.of_nat n = pgs sz → 0 <= vpn < 2 ^ 52 →
  uspace root M V n ∗ free_list (freelist r) ps ∗
  ((∀ hd m used ps', ⟦page_ok m ∧ M !! vpn = None ∧ vpn < Z.of_nat n ∧ ps = m :: used ++ ps'⟧ -∗
      free_list hd ps' -∗ uspace root (<[vpn := leaf m fault_perm]> M) V n -∗
      Q m (r <| freelist := hd |>)) ∧
   (∀ hd used ps', ⟦ps ≡ₚ used ++ ps'⟧ -∗ free_list hd ps' -∗ uspace root M V n -∗
      Q 0 (r <| freelist := hd |>)))
  ⊢ hwp (vmfault root (vpn * PGSIZE) rd) Q r.
Proof.
  iIntros (Hrun Hsz Hn Hvpn) "((%HU & Hpt & Hm) & Hfl & HQ)".
  pose proof (run_kmem _ _ _ Hrun) as Hh. pose proof (pgs_range _ Hsz).
  iApply (hwp_the_proc _ root sz); [done|]. iIntros (p) "[%Hroot %Hps]". rw Hroot Hps.
  case_bool_decide as Hlt.
  { iApply hwp_ret. iDestruct "HQ" as "[_ HQ]". iEval (rw -(freelist_id r)).
    iApply ("HQ" $! _ [] ps with "[//] Hfl"). by iFrame. }
  rw PGROUNDDOWN_spec; last (unfold PGSIZE; lia). rw Z.div_mul //.
  assert (vpn < pgs sz) by (apply pgs_lt; lia).
  assert (vpn_ok vpn) as Hv by (unfold vpn_ok; lia).
  iApply hwp_bind. iApply (hwp_ismapped _ M _ ps); [done|done|]. iFrame "Hpt Hfl".
  iIntros "Hpt Hfl". case_bool_decide as Hmap.
  { iApply hwp_ret. iDestruct "HQ" as "[_ HQ]". iEval (rw -(freelist_id r)).
    iApply ("HQ" $! _ [] ps with "[//] Hfl"). by iFrame. }
  assert (M !! vpn = None) as Hnone by by destruct (M !! vpn); [destruct Hmap|].
  iDestruct (free_list_null_inv with "Hfl") as %Hnull; [done|].
  iApply hwp_bind. iApply (hwp_kalloc ps); [done|done|]. iFrame "Hfl". destruct ps as [|m ps].
  { iIntros "Hfl". rw bool_decide_eq_true_2 //. iApply hwp_ret. iDestruct "HQ" as "[_ HQ]".
    iEval (rw -(freelist_id r) (proj2 Hnull eq_refl)).
    iApply ("HQ" $! 0 [] [] with "[//] Hfl"). by iFrame. }
  iIntros (hd) "%Hm Hfl Hpg". pose proof (page_ok_pos m Hlk Hm).
  rw bool_decide_eq_false_2; last lia.
  iApply hwp_bind. iApply hwp_memset; [apply length_replicate|]. iFrame "Hpg". iIntros "Hpg".
  iApply hwp_bind. iApply (hwp_mappages_1 Hlk _ M _ m _ ps); [done..|]. iFrame "Hpt Hfl". iSplit.
  - iDestruct "HQ" as "[HQ _]". iIntros (hd' used ps') "-> Hfl Hpt". iApply hwp_ret.
    rw freelist_twice. iApply ("HQ" with "[] Hfl"); [iPureIntro; split_and!; (done || lia)|].
    iDestruct (umem_upd_acc _ _ _ _ vpn with "Hm") as "[Hu Hm]"; [lia|].
    rw {1}/upage Hnone. iClear "Hu". iFrame "Hpt". iSplitR; [iPureIntro; apply user_ok_fault; (done || lia)|].
    iApply "Hm".
    + iPureIntro. intros v Hne _. by rw lookup_insert_ne.
    + rw /upage lookup_insert_eq leaf_pa //; [|by apply page_ok_pa].
      rw (user_lazy _ _ _ HU) //; [|lia]. iFrame. iPureIntro. split; [done|].
      by apply is_page_replicate.
  - iDestruct "HQ" as "[_ HQ]". iIntros (hd') "Hfl Hpt". rw bool_decide_eq_true_2 //.
    iApply hwp_bind. iApply (hwp_kfree m []); [done|done|done|]. iFrame "Hfl".
    iSplitL "Hpg". { iExists _. iFrame. iPureIntro. by apply is_page_replicate. }
    iIntros "Hfl". iApply hwp_ret. rw !freelist_twice.
    iApply ("HQ" $! m ps [m] with "[] Hfl"); [iPureIntro; by rw Permutation_app_comm|].
    by iFrame.
Qed.

Lemma uspace_page root M V n vpn e :
  M !! vpn = Some e → 0 <= vpn < Z.of_nat n → uspace root M V n ⊢ ⌜page_ok (PTE2PA e)⌝.
Proof.
  iIntros (He Hv) "(_ & _ & Hm)".
  iDestruct (umem_acc _ _ _ _ vpn with "Hm") as "[Hu _]"; [lia|].
  rw /upage He. by iDestruct "Hu" as "[[% _] _]".
Qed.

Lemma uspace_byte root M V n : uspace root M V n ⊢ ⌜∀ a, is_byte (V a)⌝.
Proof. iIntros "(%HU & _)". iPureIntro. apply HU. Qed.

Lemma user_pa_found M V n vpn :
  user_ok M V n →
  let pa := if bool_decide (vpn * PGSIZE < MAXVA) then user_pa M vpn else 0 in
  pa ≠ 0 → ∃ e, M !! vpn = Some e ∧ pa = PTE2PA e ∧ 0 <= vpn < Z.of_nat n.
Proof.
  intros HU pa. subst pa. case_bool_decide; [|done]. rw /user_pa.
  case_bool_decide as Hb; [done|]. intros _. apply Decidable.not_or in Hb as [HV Hu].
  destruct (M !! vpn) as [e|] eqn:He; last by rw /pte He in HV.
  exists e. rw /pte He /= in Hu |- *. split_and!; [done|done|..]; by eapply user_low.
Qed.

(** Pages the user can read, and write. *)
Definition user_r (M : gmap Z Z) (vpn : Z) : Prop := ∃ e, M !! vpn = Some e ∧ Z.land e PTE_U ≠ 0.
Definition user_w (M : gmap Z Z) (vpn : Z) : Prop :=
  ∃ e, M !! vpn = Some e ∧ Z.land e PTE_U ≠ 0 ∧ Z.land e PTE_W ≠ 0.

Lemma user_r_found root M V n vpn :
  user_r M vpn → Z.of_nat n <= MAXVA / PGSIZE →
  uspace root M V n ⊢ ⌜(if bool_decide (vpn * PGSIZE < MAXVA) then user_pa M vpn else 0) ≠ 0⌝.
Proof.
  iIntros ((e & He & Hu) Hn) "(%HU & [%Hwf Hpt] & Hm)". pose proof (user_low _ _ _ HU _ _ He Hu) as Hv.
  iAssert (uspace root M V n) with "[$Hpt $Hm //]" as "Hs".
  iDestruct (uspace_page _ _ _ _ _ _ He Hv with "Hs") as %Hp%(page_ok_pos _ Hlk). iPureIntro.
  destruct (Hwf _ _ He) as [_ HV]. change (MAXVA / PGSIZE) with (2 ^ 26) in Hn.
  rw bool_decide_eq_true_2; last (change MAXVA with (2 ^ 26 * PGSIZE); unfold PGSIZE; lia).
  rw /user_pa /pte He /= bool_decide_eq_false_2; [lia|by intros [?|?]].
Qed.

(** Finding, or making, the physical page of a user address. *)
Lemma hwp_resolve {A} root sz M V n vpn ps (k : Z → K A) (Q : A → sys → hprop) r :
  running r root sz → 0 <= sz <= MAXVA → Z.of_nat n = pgs sz → 0 <= vpn < 2 ^ 52 →
  uspace root M V n ∗ free_list (freelist r) ps ∗
  ((∀ hd e M' used ps', ⟦M' !! vpn = Some e ∧ M ⊆ M' ∧ 0 <= vpn < Z.of_nat n ∧
       (user_w M vpn → Z.land e PTE_W ≠ 0) ∧ ps ≡ₚ used ++ ps'⟧ -∗ free_list hd ps' -∗ uspace root M' V n -∗
      hwp (k (PTE2PA e)) Q (r <| freelist := hd |>)) ∧
   (∀ hd used ps', ⟦¬ user_r M vpn ∧ ps ≡ₚ used ++ ps'⟧ -∗ free_list hd ps' -∗
      uspace root M V n -∗ hwp (k 0) Q (r <| freelist := hd |>)))
  ⊢ hwp (pa0 ← walkaddr root (vpn * PGSIZE);
         pa0 ← (if bool_decide (pa0 = 0) then vmfault root (vpn * PGSIZE) false else mret pa0);
         k pa0) Q r.
Proof.
  iIntros (Hrun Hsz Hn Hvpn) "((%HU & Hpt & Hm) & Hfl & HQ)".
  pose proof (run_kmem _ _ _ Hrun) as Hh.
  iApply hwp_bind. iApply (hwp_walkaddr Hlk _ M _ ps); [done|unfold PGSIZE; lia|].
  iFrame "Hpt Hfl". iIntros "Hpt Hfl". rw Z.div_mul //. 
  set pa := (if bool_decide (vpn * PGSIZE < MAXVA) then user_pa M vpn else 0).
  iAssert (uspace root M V n) with "[$Hpt $Hm //]" as "Hu".
  destruct (decide (pa = 0)) as [Hpa|Hpa].
  - rw (bool_decide_eq_true_2 (pa = 0)) //. iApply hwp_bind.
    iAssert (⌜¬ user_r M vpn⌝)%I as %Hno.
    { rw /not. iIntros (Hr). pose proof (pgs_range _ Hsz).
      by iDestruct (user_r_found _ _ _ _ _ Hr with "Hu") as %?; [lia|]. }
    iApply (hwp_vmfault _ sz M V n _ _ ps); [done..|]. iFrame "Hu Hfl". iSplit.
    + iDestruct "HQ" as "[HQ _]". iIntros (hd m used ps') "%Hpure Hfl Hu".
      destruct Hpure as (Hm & Hnone & Hlt & ->).
      iEval (rw -(leaf_pa m fault_perm (page_ok_pa m Hlk Hm) ltac:(done))).
      iApply ("HQ" $! hd (leaf m fault_perm) _ (m :: used) ps' with "[] Hfl Hu").
      iPureIntro. rw lookup_insert_eq. split_and!; [done|by apply insert_subseteq|lia|lia| |done].
      by intros (e & He & _); rw Hnone in He.
    + iDestruct "HQ" as "[_ HQ]". iIntros (hd used ps') "%Hp". by iApply "HQ".
  - rw (bool_decide_eq_false_2 (pa = 0)) //. iApply hwp_bind. iApply hwp_ret.
    iDestruct "HQ" as "[HQ _]". destruct (user_pa_found M V n vpn HU Hpa) as (e & He & Epa & Hv).
    change (pa = PTE2PA e) in Epa. rw Epa.
    iEval (rw -(freelist_id r)). iApply ("HQ" $! _ e M [] ps with "[] Hfl Hu").
    iPureIntro. split_and!; [done|done|lia|lia| |done]. intros (e' & He' & _ & HW). by simplify_eq.
Qed.

Lemma uspace_ext root M V V' n : (∀ a, V a = V' a) → uspace root M V n ⊢ uspace root M V' n.
Proof.
  intros HV. assert (∀ vpn, pagebytes V vpn = pagebytes V' vpn) as HP.
  { intros vpn. by apply vread_ext. }
  iIntros "(%HU & $ & Hm)". destruct HU as [H1 H2 H3]. iSplitR.
  - iPureIntro. split; [done| |by intros a; rw -HV]. intros vpn Hv Hn. rw -HP. by apply H2.
  - by iApply (umem_ext with "Hm").
Qed.

Lemma vwrite_vread V va n a : vwrite V va (vread V va n) a = V a.
Proof.
  rw /vwrite length_vread. case_bool_decide; [|done]. apply list_lookup_total_correct.
  rw vread_lookup; [|lia]. do 2 f_equal. lia.
Qed.

Lemma pagebytes_seg V vpn (off nn : nat) :
  (off + nn <= PGSIZEn)%nat →
  pagebytes V vpn = vread V (vpn * PGSIZE) off ++ vread V (vpn * PGSIZE + Z.of_nat off) nn ++
    vread V (vpn * PGSIZE + Z.of_nat off + Z.of_nat nn) (PGSIZEn - off - nn).
Proof.
  intros Hle. rw /pagebytes -vread_app -vread_app. f_equal. lia.
Qed.

Lemma pagebytes_vwrite_ne V vpn (off : nat) bs v :
  v ≠ vpn → (off + length bs <= PGSIZEn)%nat →
  pagebytes (vwrite V (vpn * PGSIZE + Z.of_nat off) bs) v = pagebytes V v.
Proof.
  intros Hne Hle. apply vread_vwrite_ne. pose proof PGSIZEn_Z. unfold PGSIZE in *. lia.
Qed.

(** The part of a user page that a copy touches. *)
Lemma uspace_seg root M V n vpn e (off nn : nat) :
  M !! vpn = Some e → 0 <= vpn < Z.of_nat n → (off + nn <= PGSIZEn)%nat →
  uspace root M V n ⊢
    (PTE2PA e + Z.of_nat off) ↦∗ vread V (vpn * PGSIZE + Z.of_nat off) nn ∗
    ∀ bs, ⟦length bs = nn ∧ Forall is_byte bs⟧ -∗ (PTE2PA e + Z.of_nat off) ↦∗ bs -∗
      uspace root M (vwrite V (vpn * PGSIZE + Z.of_nat off) bs) n.
Proof.
  iIntros (He Hv Hle) "(%HU & Hpt & Hm)". destruct HU as [H1 H2 H3].
  iDestruct (umem_upd_acc _ _ _ _ vpn with "Hm") as "[Hu Hm]"; [lia|].
  rw {1}/upage He (pagebytes_seg V vpn off nn Hle) !array_app !length_vread.
  iDestruct "Hu" as "([%Hp _] & Hu1 & $ & Hu3)". iIntros (bs) "[%Hl %Hb] Hu2".
  assert (∀ a, is_byte (vwrite V (vpn * PGSIZE + Z.of_nat off) bs a)) by by apply vwrite_byte.
  iFrame "Hpt". iSplitR.
  { iPureIntro. split; [done| |done]. intros v Hv' Hn.
    rw pagebytes_vwrite_ne; [by apply H2|by intros ->; rw He in Hn|by rw Hl]. }
  iApply "Hm".
  - iPureIntro. intros v Hne _. split; [done|]. apply pagebytes_vwrite_ne; [done|by rw Hl].
  - rw /upage He. iSplitR; [iPureIntro; split; [done|by apply pagebytes_page]|].
    rw (pagebytes_seg _ vpn off nn Hle). rw -{4}Hl vread_vwrite !array_app length_vread Hl.
    rw !vread_vwrite_ne; [|lia|lia]. iFrame.
Qed.

(** The page, offset and length of one round of a copy loop. *)
Lemma copy_step va (len : nat) :
  0 <= va < 2 ^ 64 → (0 < len)%nat →
  ∃ vpn (off nn : nat),
    PGROUNDDOWN va = vpn * PGSIZE ∧ va = vpn * PGSIZE + Z.of_nat off ∧ 0 <= vpn < 2 ^ 52 ∧
    Z.to_nat (Z.min (PGSIZE - (va - PGROUNDDOWN va)) (Z.of_nat len)) = nn ∧
    (off + nn <= PGSIZEn)%nat ∧ (0 < nn <= len)%nat ∧
    ((nn < len)%nat → (vpn + 1) * PGSIZE = va + Z.of_nat nn).
Proof.
  intros Hva Hlen. rw PGROUNDDOWN_spec //.
  pose proof (Z.div_mod va PGSIZE ltac:(done)). pose proof (Z.mod_pos_bound va PGSIZE ltac:(done)).
  exists (va / PGSIZE), (Z.to_nat (va mod PGSIZE)), (Z.to_nat (Z.min (PGSIZE - va mod PGSIZE) (Z.of_nat len))).
  pose proof PGSIZEn_Z. assert (va / PGSIZE < 2 ^ 52) by (apply Z.div_lt_upper_bound; unfold PGSIZE; lia).
  pose proof (Z.div_pos va PGSIZE). unfold PGSIZE in *.
  split_and!; lia.
Qed.

Lemma page_next vpn : 0 <= vpn < 2 ^ 26 → u64 (vpn * PGSIZE + PGSIZE) = (vpn + 1) * PGSIZE.
Proof. intros. rw uN_small; unfold PGSIZE; lia. Qed.

Lemma copyin_loop_S fuel root va len :
  (0 < len)%nat →
  copyin_loop (S fuel) root va len =
    (let va0 := PGROUNDDOWN va in
     pa0 ← walkaddr root va0;
     pa0 ← (if bool_decide (pa0 = 0) then vmfault root va0 false else mret pa0);
     if bool_decide (pa0 = 0) then mret (-1, []) else
     let n := Z.to_nat (Z.min (PGSIZE - (va - va0)) (Z.of_nat len)) in
     bs ← load_bytes n (pa0 + (va - va0));
     '(rc, rest) ← copyin_loop fuel root (u64 (va0 + PGSIZE)) (len - n);
     mret (rc, bs ++ rest)).
Proof. intros. simpl. rw bool_decide_eq_false_2 //. lia. Qed.

(** Outcome of a copy of [len] bytes at [va]: all of them, or a prefix because
    the user has no [access] to some page of the range. *)
Definition copy_res (access : gmap Z Z → Z → Prop) (M : gmap Z Z) (va : Z) (len : nat) (rc : Z) (k : nat) : Prop :=
  rc = 0 ∧ k = len ∨
  rc = -1 ∧ (k < len)%nat ∧ ∃ a, va <= a < va + Z.of_nat len ∧ ¬ access M (a / PGSIZE).

Lemma copy_res_fail (access : gmap Z Z → Z → Prop) M va (len : nat) vpn (off : nat) :
  (0 < len)%nat → va = vpn * PGSIZE + Z.of_nat off → (off < PGSIZEn)%nat → ¬ access M vpn →
  copy_res access M va len (-1) 0.
Proof.
  intros Hl Hva Hoff Hacc. right. split_and!; [done|done|]. exists va. split; [lia|].
  replace (va / PGSIZE) with vpn; [done|]. subst va. pose proof PGSIZEn_Z.
  rw Z.div_add_l // Z.div_small; lia.
Qed.

Lemma copy_res_next (access : gmap Z Z → Z → Prop) M M' va va' (len nn : nat) rc k :
  (∀ vpn, access M vpn → access M' vpn) → (nn <= len)%nat →
  ((nn < len)%nat → va' = va + Z.of_nat nn) →
  copy_res access M' va' (len - nn) rc k → copy_res access M va len rc (nn + k).
Proof.
  intros Hmono Hle Hnext [[-> ->]|(-> & Hk & a & Ha & Hacc)]; [left; lia|right].
  rw Hnext in Ha; last lia. split_and!; [done|lia|]. exists a. split; [lia|]. by intros ?%Hmono.
Qed.

Lemma user_r_mono M M' vpn : M ⊆ M' → user_r M vpn → user_r M' vpn.
Proof. intros Hsub (e & He & Hu). exists e. split; [by eapply lookup_weaken|done]. Qed.

Lemma user_w_mono M M' vpn : M ⊆ M' → user_w M vpn → user_w M' vpn.
Proof. intros Hsub (e & He & Hu). exists e. split; [by eapply lookup_weaken|done]. Qed.

Lemma user_w_r M vpn : user_w M vpn → user_r M vpn.
Proof. intros (e & He & Hu & _). by exists e. Qed.

(** copyin reads what the user sees; if it fails it has read a prefix. *)
Lemma hwp_copyin_loop fuel root sz M V n va len ps (Q : Z * list Z → sys → hprop) r :
  running r root sz → 0 <= sz <= MAXVA → Z.of_nat n = pgs sz → 0 <= va < 2 ^ 64 → (len < fuel)%nat →
  uspace root M V n ∗ free_list (freelist r) ps ∗
  (∀ rc k M' hd used ps', ⟦copy_res user_r M va len rc k ∧ M ⊆ M' ∧ ps ≡ₚ used ++ ps'⟧ -∗
     free_list hd ps' -∗ uspace root M' V n -∗ Q (rc, vread V va k) (r <| freelist := hd |>))
  ⊢ hwp (copyin_loop fuel root va len) Q r.
Proof.
  revert M va len ps r Q. induction fuel as [|fuel IH]; intros M va len ps r Q Hrun Hsz Hn Hva Hf; [lia|].
  iIntros "(Hu & Hfl & HQ)". destruct (decide (len = 0%nat)) as [->|Hlen].
  { simpl. iApply hwp_ret. iEval (rw -(freelist_id r)).
    iApply ("HQ" $! 0 0%nat M _ [] ps with "[] Hfl Hu"). iPureIntro. split; [by left|done]. }
  rw copyin_loop_S; last lia. cbv zeta.
  destruct (copy_step va len) as (vpn & off & nn & Hrd & Hoff & Hv & Hnn & Hle & Hpos & Hnext); [done|lia|].
  rw Hnn Hrd. replace (va - vpn * PGSIZE) with (Z.of_nat off) by lia.
  iApply (hwp_resolve _ sz M V n _ ps); [done..|]. iFrame "Hu Hfl". iSplit; last first.
  { iIntros (hd used ps') "[%Hno %Hp] Hfl Hu". rw bool_decide_eq_true_2 //. iApply hwp_ret.
    iApply ("HQ" $! (-1) 0%nat M _ used ps' with "[] Hfl Hu"). iPureIntro.
    split_and!; [|done|done]. eapply copy_res_fail; [lia|done|lia|done]. }
  iIntros (hd e M' used ps') "%Hpure Hfl Hu". destruct Hpure as (He & Hsub & Hvn & _ & Hp).
  iDestruct (uspace_byte with "Hu") as %Hbyte.
  iDestruct (uspace_page _ _ _ _ _ _ He Hvn with "Hu") as %Hpg.
  rw bool_decide_eq_false_2; last by (pose proof (page_ok_pos _ Hlk Hpg); lia).
  iDestruct (uspace_seg _ _ _ _ _ _ off nn He Hvn Hle with "Hu") as "[Hseg Hu]". rw -Hoff.
  iApply hwp_bind. iApply hwp_load_bytes; [apply length_vread|]. iFrame "Hseg". iIntros "Hseg".
  iDestruct ("Hu" with "[] Hseg") as "Hu".
  { iPureIntro. split; [apply length_vread|by apply vread_bytes]. }
  iDestruct (uspace_ext with "Hu") as "Hu"; [apply vwrite_vread|].
  pose proof (pgs_range _ Hsz). change (MAXVA / PGSIZE) with (2 ^ 26) in *.
  rw page_next; last lia. iApply hwp_bind.
  iApply (IH M' _ _ ps'); [by apply running_freelist|done|done|unfold PGSIZE; lia|lia|].
  iFrame "Hu Hfl". iIntros (rc k M2 hd2 used2 ps2) "%Hpure Hfl Hu". destruct Hpure as (Hk & Hsub2 & Hp2).
  iApply hwp_ret. rw freelist_twice.
  assert (vread V va nn ++ vread V ((vpn + 1) * PGSIZE) k = vread V va (nn + k)) as E.
  { destruct (decide (nn = len)) as [->|]; [|rw Hnext; [by rw vread_app|lia]].
    assert (k = 0%nat) as -> by (destruct Hk as [|[]]; lia). by rw Nat.add_0_r app_nil_r. }
  rw E. iApply ("HQ" $! rc (nn + k)%nat M2 hd2 (used ++ used2) ps2 with "[] Hfl Hu").
  iPureIntro. split_and!; [|by etrans|by rw Hp Hp2 app_assoc].
  eapply copy_res_next; [intros v; by apply user_r_mono|lia|exact Hnext|done].
Qed.

(** Loading the entry of a page that is mapped. *)
Lemma hwp_load_entry {A} root M V n vpn e ps (k : Z → K A) (Q : A → sys → hprop) r :
  Lkmem ∉ held r → vpn_ok vpn → M !! vpn = Some e →
  uspace root M V n ∗ free_list (freelist r) ps ∗
  (uspace root M V n -∗ free_list (freelist r) ps -∗ hwp (k e) Q r)
  ⊢ hwp (pte ← walk root (vpn * PGSIZE) false; x ← load64 pte; k x) Q r.
Proof.
  iIntros (Hh Hv He) "((%HU & [%HM Hpt] & Hm) & Hfl & HQ)". destruct (vpn_va vpn Hv) as [Hva Hdiv].
  iApply hwp_bind. iApply (hwp_walk Hlk _ M _ _ ps); [done|done|]. iFrame "Hpt Hfl".
  rw Hdiv. iSplit.
  - iIntros (a hd used ps') "%Hpure Hfl Ha Hback". destruct Hpure as (Ha & -> & Hu).
    destruct Hu as [-> ->]; [done|]. rw freelist_id app_nil_l.
    iApply hwp_bind. iApply hwp_load64. iFrame "Ha". iIntros "Ha".
    iDestruct ("Hback" with "Ha") as "Hpt". rw setpte_id //. rw /pte He.
    iApply ("HQ" with "[$Hpt $Hm //] Hfl").
  - iIntros (hd) "%Hpure Hfl Hpt". destruct Hpure as [Hn _]. by rw He in Hn.
Qed.

Lemma copyout_loop_S fuel root va src :
  src ≠ [] →
  copyout_loop (S fuel) root va src =
    (let va0 := PGROUNDDOWN va in
     if bool_decide (MAXVA <= va0) then mret (-1) else
     pa0 ← walkaddr root va0;
     pa0 ← (if bool_decide (pa0 = 0) then vmfault root va0 false else mret pa0);
     if bool_decide (pa0 = 0) then mret (-1) else
     pte ← walk root va0 false;
     x ← load64 pte;
     if bool_decide (Z.land x PTE_W = 0) then mret (-1) else
     let n := Z.to_nat (Z.min (PGSIZE - (va - va0)) (Z.of_nat (length src))) in
     store_bytes (pa0 + (va - va0)) (take n src);;
     copyout_loop fuel root (u64 (va0 + PGSIZE)) (drop n src)).
Proof. intros. simpl. by rw bool_decide_eq_false_2. Qed.

(** copyout writes what the user sees next; if it fails it has written a
    prefix, and nothing else. *)
Definition copyout_post root M V n va src ps (Q : Z → sys → hprop) r : hprop :=
  (∀ rc k M' hd used ps',
     ⟦copy_res user_w M va (length src) rc k ∧ M ⊆ M' ∧ ps ≡ₚ used ++ ps'⟧ -∗
     free_list hd ps' -∗ uspace root M' (vwrite V va (take k src)) n -∗
     Q rc (r <| freelist := hd |>))%I.

Lemma vwrite_nil V va a : vwrite V va [] a = V a.
Proof. rw /vwrite bool_decide_eq_false_2 //=. lia. Qed.

Lemma copyout_fail root M V n va src ps (Q : Z → sys → hprop) r M' hd used ps' :
  copy_res user_w M va (length src) (-1) 0 → M ⊆ M' → ps ≡ₚ used ++ ps' →
  copyout_post root M V n va src ps Q r -∗ free_list hd ps' -∗ uspace root M' V n -∗
  Q (-1) (r <| freelist := hd |>).
Proof.
  iIntros (Hres Hsub Hp) "HQ Hfl Hu".
  iApply ("HQ" $! (-1) 0%nat M' _ used ps' with "[] Hfl [Hu]").
  - iPureIntro. done.
  - iApply (uspace_ext with "Hu"). intros a. by rw vwrite_nil.
Qed.

Lemma hwp_copyout_loop fuel root sz M V n va src ps (Q : Z → sys → hprop) r :
  running r root sz → 0 <= sz <= MAXVA → Z.of_nat n = pgs sz → 0 <= va < 2 ^ 64 →
  Forall is_byte src → (length src < fuel)%nat →
  uspace root M V n ∗ free_list (freelist r) ps ∗ copyout_post root M V n va src ps Q r
  ⊢ hwp (copyout_loop fuel root va src) Q r.
Proof.
  revert M V va src ps r. induction fuel as [|fuel IH];
    intros M V va src ps r Hrun Hsz Hn Hva Hb Hf; [lia|].
  iIntros "(Hu & Hfl & HQ)". destruct (decide (src = [])) as [->|Hne].
  { simpl. iApply hwp_ret. iEval (rw -(freelist_id r)).
    iApply ("HQ" $! 0 0%nat M _ [] ps with "[] Hfl [Hu]"); [iPureIntro; split; [by left|done]|].
    iApply (uspace_ext with "Hu"). intros a. by rw vwrite_nil. }
  assert (0 < length src)%nat by by destruct src; [|simpl; lia].
  rw copyout_loop_S //. cbv zeta.
  destruct (copy_step va (length src)) as (vpn & off & nn & Hrd & Hoff & Hv & Hnn & Hle & Hpos & Hnext); [done..|].
  rw Hnn Hrd. replace (va - vpn * PGSIZE) with (Z.of_nat off) by lia. 
  assert (¬ user_w M vpn → copy_res user_w M va (length src) (-1) 0) as Hres.
  { intros Hno. eapply copy_res_fail; [done|done|lia|done]. }
  pose proof (pgs_range _ Hsz). iDestruct "Hu" as "(%HU & Hpt & Hm)".
  iAssert (uspace root M V n) with "[$Hpt $Hm //]" as "Hu". case_bool_decide as Hmax.
  { iApply hwp_ret. iEval (rw -(freelist_id r)).
    iApply (copyout_fail _ M _ _ _ _ ps _ _ M _ [] with "HQ Hfl Hu"); [|done|done].
    apply Hres. intros (e & He & Hu & _). pose proof (user_low _ _ _ HU _ _ He Hu).
    change MAXVA with (MAXVA / PGSIZE * PGSIZE) in Hmax. unfold PGSIZE in *. lia. }
  iApply (hwp_resolve _ sz M V n _ ps); [done..|]. iFrame "Hu Hfl". iSplit; last first.
  { iIntros (hd used ps') "[%Hno %Hp] Hfl Hu". rw bool_decide_eq_true_2 //. iApply hwp_ret.
    iApply (copyout_fail with "HQ Hfl Hu"); [|done|done]. apply Hres. by intros ?%user_w_r. }
  iIntros (hd e M' used ps') "%Hpure Hfl Hu". destruct Hpure as (He & Hsub & Hvn & HW & Hp).
  iDestruct (uspace_byte with "Hu") as %Hbyte.
  iDestruct (uspace_page _ _ _ _ _ _ He Hvn with "Hu") as %Hpg.
  rw bool_decide_eq_false_2; last by (pose proof (page_ok_pos _ Hlk Hpg); lia).
  pose proof (run_kmem _ _ _ Hrun).
  iApply (hwp_load_entry root M' V n vpn e ps'); [done|unfold vpn_ok; lia|done|].
  iFrame "Hu Hfl". iIntros "Hu Hfl". case_bool_decide.
  { iApply hwp_ret. iApply (copyout_fail with "HQ Hfl Hu"); [|done|done].
    apply Hres. by intros ?%HW. }
  iDestruct (uspace_seg _ _ _ _ _ _ off nn He Hvn Hle with "Hu") as "[Hseg Hu]". rw -Hoff.
  assert (length (take nn src) = nn) as Htk by (rw length_take; lia).
  iApply hwp_bind. iApply (hwp_store_bytes _ (vread V va nn)); [by rw length_vread|by apply Forall_take|].
  iFrame "Hseg". iIntros "Hseg".
  iDestruct ("Hu" with "[] Hseg") as "Hu"; [iPureIntro; split; [done|by apply Forall_take]|].
  change (MAXVA / PGSIZE) with (2 ^ 26) in *. rw page_next; last lia.
  iApply (IH M' _ _ _ ps'); [by apply running_freelist|done|done|unfold PGSIZE; lia|
    by apply Forall_drop|rw length_drop; lia|].
  iFrame "Hu Hfl". iIntros (rc k M2 hd2 used2 ps2) "%Hpure Hfl Hu".
  rw length_drop in Hpure. destruct Hpure as (Hk & Hsub2 & Hp2). rw freelist_twice.
  iApply ("HQ" $! rc (nn + k)%nat M2 hd2 (used ++ used2) ps2 with "[] Hfl [Hu]").
  - iPureIntro. split_and!; [|by etrans|by rw Hp Hp2 app_assoc].
    eapply copy_res_next; [intros v; by apply user_w_mono|lia|exact Hnext|done].
  - iApply (uspace_ext with "Hu"). intros a.
    destruct (decide (nn = length src)) as [->|].
    + assert (k = 0%nat) as -> by (destruct Hk as [|[]]; lia). by rw vwrite_nil Nat.add_0_r.
    + rw Hnext; last lia. rw -{2}Htk vwrite_app. f_equal. rw -(take_drop nn (take (nn + k) src)).
      rw take_take Nat.min_l; last lia. f_equal. by rw -take_drop_commute.
Qed.

(** ** copyinstr *)
Lemma hwp_copyinstr_page n p bs (Q : list Z * bool → sys → hprop) r :
  length bs = n → p ↦∗ bs ∗ (p ↦∗ bs -∗ Q (upto bs) r) ⊢ hwp (copyinstr_page n p) Q r.
Proof.
  revert p bs Q; induction n as [|n IH]; intros p bs Q Hl.
  - destruct bs; [|done]. iIntros "[H HQ]". iApply hwp_ret. by iApply "HQ".
  - destruct bs as [|c cs]; [done|]. rw array_cons /=. iIntros "[[Hc Hcs] HQ]".
    iApply hwp_bind. iApply hwp_load8. iFrame "Hc". iIntros "Hc". case_bool_decide.
    { iApply hwp_ret. iApply "HQ". iFrame. }
    iApply hwp_bind. iApply (IH _ cs); [by injection Hl|]. iFrame "Hcs". iIntros "Hcs".
    destruct (upto cs) as [s g]. iApply hwp_ret. iApply "HQ". iFrame.
Qed.

Lemma copyinstr_loop_S fuel root va max :
  (0 < max)%nat →
  copyinstr_loop (S fuel) root va max =
    (let va0 := PGROUNDDOWN va in
     pa0 ← walkaddr root va0;
     if bool_decide (pa0 = 0) then mret (-1, []) else
     let n := Z.to_nat (Z.min (PGSIZE - (va - va0)) (Z.of_nat max)) in
     '(cs, got_null) ← copyinstr_page n (pa0 + (va - va0));
     if got_null : bool then mret (0, cs) else
     '(rc, rest) ← copyinstr_loop fuel root (u64 (va0 + PGSIZE)) (max - n);
     mret (rc, cs ++ rest)).
Proof. intros. simpl. rw bool_decide_eq_false_2 //. lia. Qed.

(** What copyinstr returns: the string with its NUL, or -1 after the bytes of a
    string that is too long or leaves the mapped pages. *)
Definition copyinstr_res (M : gmap Z Z) (V : Z → Z) (va : Z) (max : nat) (rc : Z) (bs : list Z) : Prop :=
  rc = 0 ∧ upto (vread V va max) = (bs, true) ∨
  rc = -1 ∧ ∃ k, (k <= max)%nat ∧ bs = vread V va k ∧ (upto bs).2 = false ∧
    (k = max ∨ ¬ user_r M ((va + Z.of_nat k) / PGSIZE)).

Lemma copyinstr_res_app M V va va' nn max rc bs :
  (nn <= max)%nat → ((nn < max)%nat → va' = va + Z.of_nat nn) → (upto (vread V va nn)).2 = false →
  copyinstr_res M V va' (max - nn) rc bs → copyinstr_res M V va max rc (vread V va nn ++ bs).
Proof.
  intros Hle Hnext Hno. destruct (decide (nn = max)) as [->|Hne].
  { rw Nat.sub_diag. intros [[_ ?]|(-> & k & Hk & -> & _ & _)]; [done|]. right. split; [done|].
    exists max. assert (k = 0%nat) as -> by lia. rw app_nil_r. auto. }
  rw Hnext; last lia. intros [[-> Hu]|(-> & k & Hk & -> & Hu & Hend)]; [left|right]; (split; [done|]).
  - replace max with (nn + (max - nn))%nat at 1 by lia. by rw vread_app upto_app Hno Hu.
  - exists (nn + k)%nat. rw vread_app upto_app Hno. split_and!; [lia|done|done|].
    destruct Hend as [->|Hend]; [left; lia|right]. by replace (va + Z.of_nat (nn + k)) with (va + Z.of_nat nn + Z.of_nat k) by lia.
Qed.

Lemma hwp_copyinstr_loop fuel root M V n va max ps (Q : Z * list Z → sys → hprop) r :
  Lkmem ∉ held r → 0 <= va < 2 ^ 64 → Z.of_nat n <= MAXVA / PGSIZE → (max < fuel)%nat →
  uspace root M V n ∗ free_list (freelist r) ps ∗
  (∀ rc bs, ⟦copyinstr_res M V va max rc bs⟧ -∗ uspace root M V n -∗ free_list (freelist r) ps -∗
     Q (rc, bs) r)
  ⊢ hwp (copyinstr_loop fuel root va max) Q r.
Proof.
  revert va max Q. induction fuel as [|fuel IH]; intros va max Q Hh Hva Hn Hf; [lia|].
  iIntros "(Hu & Hfl & HQ)".
  destruct (decide (max = 0%nat)) as [->|Hmax].
  { simpl. iApply hwp_ret. iApply ("HQ" with "[] Hu Hfl"). iPureIntro. right. split; [done|].
    exists 0%nat. auto. }
  rw copyinstr_loop_S; last lia. cbv zeta.
  destruct (copy_step va max) as (vpn & off & nn & Hrd & Hoff & Hv & Hnn & Hle & Hpos & Hnext); [done|lia|].
  rw Hnn Hrd. replace (va - vpn * PGSIZE) with (Z.of_nat off) by lia.
  iDestruct "Hu" as "(%HU & Hpt & Hm)".
  iApply hwp_bind. iApply (hwp_walkaddr Hlk _ M _ ps); [done|unfold PGSIZE; lia|].
  iFrame "Hpt Hfl". iIntros "Hpt Hfl". rw Z.div_mul //.
  iAssert (uspace root M V n) with "[$Hpt $Hm //]" as "Hu".
  set pa := (if bool_decide (vpn * PGSIZE < MAXVA) then user_pa M vpn else 0).
  destruct (decide (pa = 0)) as [Hpa|Hpa].
  { rw (bool_decide_eq_true_2 (pa = 0)) //. iApply hwp_ret.
    iAssert (⌜¬ user_r M vpn⌝)%I as %Hno.
    { rw /not. iIntros (Hr). by iDestruct (user_r_found _ _ _ _ _ Hr with "Hu") as %?. }
    iApply ("HQ" with "[] Hu Hfl"). iPureIntro. right. split; [done|]. exists 0%nat.
    split_and!; [lia|done|done|right]. pose proof PGSIZEn_Z. replace ((va + Z.of_nat 0) / PGSIZE) with vpn; [done|].
    rw Z.add_0_r Hoff Z.div_add_l // Z.div_small; lia. }
  rw (bool_decide_eq_false_2 (pa = 0)) //.
  destruct (user_pa_found M V n vpn HU Hpa) as (e & He & Epa & Hvn).
  change (pa = PTE2PA e) in Epa. rw Epa.
  iDestruct (uspace_byte with "Hu") as %Hbyte.
  iDestruct (uspace_seg _ _ _ _ _ _ off nn He Hvn Hle with "Hu") as "[Hseg Hu]". rw -Hoff.
  iApply hwp_bind. iApply hwp_copyinstr_page; [apply length_vread|]. iFrame "Hseg". iIntros "Hseg".
  iDestruct ("Hu" with "[] Hseg") as "Hu".
  { iPureIntro. split; [apply length_vread|by apply vread_bytes]. }
  iDestruct (uspace_ext with "Hu") as "Hu"; [apply vwrite_vread|].
  destruct (upto (vread V va nn)) as [cs g] eqn:Hup. destruct g.
  { iApply hwp_ret. iApply ("HQ" with "[] Hu Hfl"). iPureIntro. left. split; [done|].
    replace max with (nn + (max - nn))%nat by lia. by rw vread_app upto_app Hup. }
  change (MAXVA / PGSIZE) with (2 ^ 26) in *. rw page_next; last lia. iApply hwp_bind.
  iApply IH; [done|unfold PGSIZE; lia|done|lia|]. iFrame "Hu Hfl". iIntros (rc bs) "%Hres Hu Hfl".
  iApply hwp_ret. iApply ("HQ" with "[] Hu Hfl"). iPureIntro.
  assert (cs = vread V va nn) as -> by (symmetry; change cs with (cs, false).1; rw -Hup; symmetry; apply upto_none; by rw Hup).
  eapply copyinstr_res_app; [lia|exact Hnext|by rw Hup|done].
Qed.
End copy.
