(* ===== verification/MemThms.v ===== *)
(** * Correctness of the string routines and of the page allocator

    The theorems of kernel/string.c and kernel/kalloc.c, with instances on
    concrete inputs. *)
From S2P Require Import Prelude.
From S2P Require Import Mem.
From S2P Require Import Heap.
From S2P Require Import Params.
From S2P Require Import State.
From S2P Require Import StateSpec.
From S2P Require Import KString.
From S2P Require Import KStringSpec.
From S2P Require Import Kalloc.
From S2P Require Import KallocSpec.
From iris.proofmode Require Import proofmode.
#[local] Open Scope Z_scope.

(** memmove copies [n] bytes also when source and destination overlap: it
    terminates without a fault, every byte of the destination is then what the
    source held before the call, and no other byte changes. *)
Theorem memmove_correct {R} n (m : heap) (r : R) dst src :
  mapped m src n → mapped m dst n →
  ∃ m', memmove dst src n (St m r) = Ok dst (St m' r) ∧
    ∀ a, m' !! a = if bool_decide (dst <= a < dst + Z.of_nat n) then m !! (src + (a - dst)) else m !! a.
Proof.
  intros Hs Hd. destruct (memmove_ok n m r dst src Hs Hd) as (m' & Hm & Hc). exists m'.
  split; [done|]. intros a. rw (Hc a). repeat case_bool_decide; try lia; done.
Qed.

Definition bytes5 : heap := list_to_map [(10, 1); (11, 2); (12, 3); (13, 4); (14, 5)].

Lemma memmove_correct_witness :
  mapped bytes5 10 4 ∧ mapped bytes5 11 4 ∧
  ∃ m', memmove 11 10 4 (St bytes5 tt) = Ok 11 (St m' tt) ∧ m' !! 14 = Some 4.
Proof.
  assert (∀ a, 10 <= a < 15 → ∃ b, bytes5 !! a = Some b ∧ is_byte b) as Hb.
  { intros a Ha. exists (a - 9). split; [|unfold is_byte; lia].
    assert (a = 10 ∨ a = 11 ∨ a = 12 ∨ a = 13 ∨ a = 14) as Hc by lia.
    destruct Hc as [->|[->|[->|[->| ->]]]]; vm_compute; reflexivity. }
  assert (mapped bytes5 10 4) as H1 by (intros i Hi; apply Hb; lia).
  assert (mapped bytes5 11 4) as H2 by (intros i Hi; apply Hb; lia).
  split; [exact H1|]. split; [exact H2|].
  destruct (memmove_correct 4 bytes5 tt 11 10 H1 H2) as (m' & Hm & Hc).
  exists m'. split; [exact Hm|]. rw (Hc 14). vm_compute. reflexivity.
Defined.

(** safestrcpy always leaves a NUL-terminated string in its [n] bytes: the
    first [n - 1] bytes of the source string, or all of it. *)
Theorem safestrcpy_correct {R} n s t xs ts (r : R) :
  (0 < n)%nat → length xs = n → readable ts (n - 1) → Forall is_byte ts →
  ⦃ s ↦∗ xs ∗ t ↦∗ ts ⦄ safestrcpy s t (Z.of_nat n) @ r
  ⟪ v r', ∃ ys, ⟦v = s ∧ r' = r ∧ cstr ys = take (n - 1) (cstr ts)⟧ ∗ s ↦∗ ys ∗ t ↦∗ ts ⟫.
Proof.
  intros Hn Hl Hr Hb. apply hwp_triple. iIntros "[Hs Ht]". rw /safestrcpy.
  rw bool_decide_eq_false_2; last lia. replace (Z.to_nat (Z.of_nat n - 1)) with (n - 1)%nat by lia.
  iApply hwp_bind. iApply (hwp_safestrcpy_loop (n - 1) s t xs ts); [lia|done|done|].
  iFrame. iIntros "Hs Ht". iApply hwp_ret. iExists _. iFrame. iPureIntro. split_and!; [done|done|].
  replace (S (n - 1)) with n by lia. by apply cstr_safestrcpy_l.
Qed.

Lemma safestrcpy_correct_witness :
  ∃ h, (100 ↦∗ [1; 1; 1] ∗ 103 ↦∗ [104; 105; 106; 0])%I h ∧
  ∃ v r' h', safestrcpy 100 103 3 (St h tt) = Ok v (St h' r') ∧
    (∃ ys, ⟦v = 100 ∧ r' = tt ∧ cstr ys = [104; 105]⟧ ∗ 100 ↦∗ ys ∗ 103 ↦∗ [104; 105; 106; 0])%I h'.
Proof.
  destruct (sat_sep (100 ↦∗ [1; 1; 1])%I (103 ↦∗ [104; 105; 106; 0])%I 100 103 107) as (h & Hh & _).
  { lia. } { apply (sat_array 100 [1; 1; 1]). } { apply (sat_array 103 [104; 105; 106; 0]). }
  exists h. split; [exact Hh|].
  refine (triple_run _ _ _ _ _ (safestrcpy_correct 3 100 103 [1; 1; 1] [104; 105; 106; 0] tt _ _ _ _) Hh).
  - lia.
  - reflexivity.
  - vm_compute. lia.
  - repeat constructor; unfold is_byte; lia.
Defined.

(** ** kernel/kalloc.c *)
Section kalloc_thms.
Context `{Linker}.

(** kinit hands every whole page between the end of the kernel and PHYSTOP
    to the allocator, each exactly once, and needs no other memory. *)
Theorem kinit_correct (r : sys) :
  linker_ok → Lkmem ∉ held r → freelist r = 0 →
  ⦃ [∗ list] p ∈ ram_pages, page p ⦄ kinit @ r
  ⟪ _u r', ∃ hd, ⟦r' = r <| freelist := hd |>⟧ ∗ free_list hd (rev ram_pages) ⟫.
Proof.
  intros Hlk Hh Hz. apply hwp_triple. iIntros "Hpgs". rw /kinit /freerange.
  destruct Hlk as [[Hlo Hlo'] Hhi Hea Hta Htr] eqn:E. clear E.
  pose proof (Build_linker_ok _ (conj Hlo Hlo') Hhi Hea Hta Htr) as Hlk'.
  assert (PGROUNDUP end_sym = (end_sym + PGSIZE - 1) / PGSIZE * PGSIZE) as Hup.
  { apply PGROUNDUP_spec; unfold PGSIZE, PHYSTOP, KERNBASE in *; lia. }
  pose proof (Z.div_mod (end_sym + PGSIZE - 1) PGSIZE ltac:(done)).
  pose proof (Z.mod_pos_bound (end_sym + PGSIZE - 1) PGSIZE ltac:(done)).
  iApply (hwp_freerange_loop _ _ _ []); [done|done|done| | |done|].
  - rw Hup. apply Z.mod_mul. done.
  - rw Hup. unfold PGSIZE in *. lia.
  - rw Hz. iFrame "Hpgs". iSplitR; [done|]. iIntros (hd) "Hfl". iExists hd. rw app_nil_r.
    by iFrame.
Qed.

(** kalloc takes the first page off the free list and returns it filled
    with junk (the byte 5); with an empty list it returns 0 and changes
    nothing. *)
Theorem kalloc_correct ps (r : sys) :
  linker_ok → Lkmem ∉ held r →
  ⦃ free_list (freelist r) ps ⦄ kalloc @ r
  ⟪ p r', match ps with
          | [] => ⟦p = 0 ∧ r' = r⟧ ∗ free_list (freelist r) []
          | q :: ps' => ∃ hd, ⟦p = q ∧ page_ok q ∧ r' = r <| freelist := hd |>⟧ ∗
              free_list hd ps' ∗ q ↦∗ replicate PGSIZEn 5
          end ⟫.
Proof.
  intros Hlk Hh. apply hwp_triple. iIntros "Hfl".
  iDestruct (free_list_null_inv with "Hfl") as %Hnull; [done|].
  iApply (hwp_kalloc ps); [done|done|]. iFrame "Hfl". destruct ps as [|q ps].
  - iIntros "Hfl". rw (proj2 Hnull eq_refl). by iFrame.
  - iIntros (next) "%Hq Hfl Hpg". iExists next. by iFrame.
Qed.

(** kfree puts a page back at the front of the free list.  It panics on an
    address that is not page-aligned or not in the allocator's range. *)
Theorem kfree_correct pa ps (r : sys) :
  linker_ok → Lkmem ∉ held r →
  (page_ok pa →
   ⦃ page pa ∗ free_list (freelist r) ps ⦄ kfree pa @ r
   ⟪ _u r', ⟦r' = r <| freelist := pa |>⟧ ∗ free_list pa (pa :: ps) ⟫) ∧
  (¬ page_ok pa → ∀ h, kfree pa (St h r) = Panic "kfree").
Proof.
  intros Hlk Hh. split.
  - intros Hpa. apply hwp_triple. iIntros "[Hpg Hfl]". iApply (hwp_kfree pa ps); [done|done|done|].
    iFrame "Hpg Hfl". iIntros "Hfl". by iFrame.
  - intros Hbad h. rw /kfree bool_decide_eq_true_2 //. apply dec_stable. intros Hn.
    apply Hbad. unfold page_ok. lia.
Qed.
End kalloc_thms.

Lemma kinit_correct_witness :
  ∃ h _u r' h', @kinit link0 (St h (sys0 ∅)) = Ok _u (St h' r') ∧
    (∃ hd, ⟦r' = (sys0 ∅) <| freelist := hd |>⟧ ∗ @free_list link0 hd (rev (@ram_pages link0)))%I h'.
Proof.
  destruct (sat_pages (Z.to_nat ((PHYSTOP - PGROUNDUP (@end_sym link0)) / PGSIZE)) (PGROUNDUP (@end_sym link0)))
    as (h & Hh & _).
  exists h. refine (triple_run _ _ _ _ _ (@kinit_correct link0 (sys0 ∅) link0_ok _ _) Hh).
  - apply not_elem_of_nil.
  - reflexivity.
Defined.

Definition two_pages : list Z := [pg 40; pg 41].
Definition sys_two : sys := (sys0 ∅) <| freelist := pg 40 |>.

Lemma kalloc_correct_witness :
  ∃ h p r' h', kalloc (St h sys_two) = Ok p (St h' r') ∧
    (∃ hd, ⟦p = pg 40 ∧ @page_ok link0 (pg 40) ∧
            r' = sys_two <| freelist := hd |>⟧ ∗
       @free_list link0 hd [pg 41] ∗
       (pg 40) ↦∗ replicate PGSIZEn 5)%I h'.
Proof.
  destruct (@sat_free_list link0 2 (pg 40) link0_ok) as (h & Hh & _);
    [reflexivity|vm_compute; discriminate|vm_compute; discriminate|].
  exists h. refine (triple_run _ _ _ _ _ (@kalloc_correct link0 two_pages sys_two link0_ok _) Hh).
  apply not_elem_of_nil.
Defined.

Lemma kfree_correct_witness :
  (∃ h _u r' h', @kfree link0 (pg 39) (St h sys_two) = Ok _u (St h' r') ∧
    (⟦r' = sys_two <| freelist := pg 39 |>⟧ ∗
     @free_list link0 (pg 39) (pg 39 :: two_pages))%I h') ∧
  @kfree link0 (KERNBASE + 1) (St ∅ sys_two) = Panic "kfree".
Proof.
  destruct (@kfree_correct link0 (pg 39) two_pages sys_two link0_ok) as [H1 _];
    [apply not_elem_of_nil|].
  destruct (@kfree_correct link0 (KERNBASE + 1) two_pages sys_two link0_ok) as [_ H2];
    [apply not_elem_of_nil|].
  split.
  - destruct (sat_sep (page (pg 39))
      (@free_list link0 (pg 40) two_pages) (pg 39)
      (pg 40) (pg 42)) as (h & Hh & _).
    + vm_compute. split; discriminate.
    + refine (sat_mono _ _ _ _ _ (sat_pages 1 (pg 39))).
      iIntros "[$ _]".
    + apply (@sat_free_list link0 2 (pg 40) link0_ok);
        [reflexivity|vm_compute; discriminate|vm_compute; discriminate].
    + exists h. refine (triple_run _ _ _ _ _ (H1 _) Hh).
      split; [reflexivity|vm_compute; split; [discriminate|reflexivity]].
  - apply H2. intros [Hm _]. vm_compute in Hm. discriminate.
Defined.
