(* ===== verification/VmThms.v ===== *)
(** * Correctness of the virtual memory system

    The theorems of kernel/vm.c.  A page table is the map [M] from virtual page
    numbers to entries that it holds (PageTable.v); user memory is a function
    from addresses to bytes (CopySpec.v). *)
From iris.proofmode Require Import proofmode.
From S2P Require Import Prelude.
From S2P Require Import Mem.
From S2P Require Import Heap.
From S2P Require Import Params.
From S2P Require Import State.
From S2P Require Import StateSpec.
From S2P Require Import Kalloc.
From S2P Require Import KallocSpec.
From S2P Require Import Vm.
From S2P Require Import PageTable.
From S2P Require Import Walk.
From S2P Require Import MapSpec.
From S2P Require Import UvmSpec.
From S2P Require Import UvmCopySpec.
From S2P Require Import CopySpec.
#[local] Open Scope Z_scope.

(** ** The page tables as the hardware reads them

    [sv39] is the address translation of the RISC-V privileged architecture
    (Sv39, with 4096-byte pages and leaves allowed at every level).  The kernel
    never runs this code: it is what its page tables are for. *)

(** Bits 53 to 10 of an entry are the physical page number. *)
Definition ppn_addr (e : Z) : Z := Z.shiftl (Z.land (Z.shiftr e 10) (Z.ones 44)) 12.

Definition PTE_RWX : Z := Z.lor (Z.lor PTE_R PTE_W) PTE_X.

(** The level of the leaf and the leaf, or [None] for a page fault. *)
Fixpoint sv39 (level : nat) (pt va : Z) : K (option (nat * Z)) :=
  e ← load64 (pt + 8 * PX (Z.of_nat level) va);
  if bool_decide (Z.land e PTE_V = 0 ∨ Z.land e PTE_R = 0 ∧ Z.land e PTE_W ≠ 0) then mret None else
  if bool_decide (Z.land e PTE_RWX ≠ 0) then mret (Some (level, e)) else
  match level with
  | O => mret None
  | S level' => sv39 level' (ppn_addr e) va
  end.

(** Entries a leaf may have: readable or executable, writable only if readable. *)
Definition leaf_perm (e : Z) : Prop :=
  Z.land e PTE_RWX ≠ 0 ∧ (Z.land e PTE_R = 0 → Z.land e PTE_W = 0).

Section mmu.
Context `{Linker}.
Context (Hlk : linker_ok).

Lemma ppn_addr_page c : page_ok c → ppn_addr (Z.lor (PA2PTE c) PTE_V) = c.
Proof.
  intros Hc. rw -{2}(page_pte Hlk c PTE_V Hc); last done. rw /ppn_addr /PTE2PA.
  pose proof (page_pte_range Hlk c PTE_V Hc ltac:(done)) as Hr. set e := Z.lor _ _ in Hr |- *.
  rw Z.land_ones // Z.shiftr_div_pow2 // !Z.shiftl_mul_pow2 //.
  assert (0 <= e / 2 ^ 10 < 2 ^ 44).
  { split; [apply Z.div_pos; lia|apply Z.div_lt_upper_bound; lia]. }
  rw Z.mod_small // uN_small //. lia.
Qed.

Lemma hwp_sv39 l p M b va (Q : option (nat * Z) → sys → hprop) r :
  wf M → map_Forall (λ _ e, leaf_perm e) M →
  0 <= va → va / PGSIZE / 512 ^ Z.of_nat (S l) = b →
  ptable l p M b ∗ (ptable l p M b -∗ Q ((λ e, (0%nat, e)) <$> M !! (va / PGSIZE)) r)
  ⊢ hwp (sv39 l p va) Q r.
Proof.
  intros Hwf Hleaf Hva. revert p b Q. induction l as [|l IH]; intros p b Q Hb; iIntros "[Hpt HQ]".
  - destruct (PX_index 0 va b Hva Hb) as [Hix Hr]. change (Z.of_nat 0) with 0 in *.
    rw Z.pow_0_r Z.div_1_r in Hix.
    iDestruct (ptable_entry_acc _ _ _ _ _ Hr with "Hpt") as "(%Hp & He & Hclose)".
    iApply hwp_bind. iApply hwp_load64. iFrame "He". iIntros "He".
    iDestruct ("Hclose" with "[//] He") as "Hpt". iSpecialize ("HQ" with "Hpt").
    rw -Hix. set w := pte M (va / PGSIZE).
    assert (w = default 0 (M !! (va / PGSIZE))) as Ew by done. clearbody w.
    destruct (M !! (va / PGSIZE)) as [e|] eqn:Hm; simpl in Ew; subst w.
    + destruct (Hwf _ _ Hm) as [_ HV]. destruct (Hleaf _ _ Hm) as [HX HW].
      rw bool_decide_eq_false_2; last by intros [?|[HR Hn]]; [|apply Hn, HW]. rw bool_decide_eq_true_2 //.
      by iApply hwp_ret.
    + rw bool_decide_eq_true_2; [by iApply hwp_ret|by left].
  - destruct (PX_index (S l) va b Hva Hb) as [Hix Hr].
    iDestruct (ptable_entry_acc _ _ _ _ _ Hr with "Hpt") as "(%Hp & (%w & Hw & He) & Hclose)".
    iApply hwp_bind. iApply hwp_load64. iFrame "Hw". iIntros "Hw".
    iDestruct "He" as "[%He|(%c & -> & Hc)]".
    + destruct He as [-> Hv]. rw bool_decide_eq_true_2; last by left. iApply hwp_ret.
      rw (Hv (va / PGSIZE)) //. iApply "HQ". iApply "Hclose"; [done|].
      iExists 0. iFrame. by iLeft.
    + iDestruct (ptable_page_ok with "Hc") as %Hc.
      rw !page_pte_flag //. rw bool_decide_eq_false_2; last by intros [?|[_ Hn]]; [|apply Hn].
      rw bool_decide_eq_false_2; last by intros Hn; apply Hn.
      rw ppn_addr_page //. iApply IH; [done|]. iFrame "Hc". iIntros "Hc".
      iApply "HQ". iApply "Hclose"; [done|]. iExists _. iFrame "Hw". iRight. iExists c. by iFrame.
Qed.
End mmu.

Section vm_thms.
Context `{Linker}.

Lemma leaf_perm_leaf pa perm :
  pa_ok pa → leaf_perm perm → leaf_perm (leaf pa perm).
Proof.
  intros Hpa [H1 H2].
  assert (∀ m, perm_ok m → Z.land PTE_V m = 0 → Z.land (leaf pa perm) m = Z.land perm m) as Hf.
  { intros m Hm HV. by rw leaf_flags // Z.land_lor_distr_l HV Z.lor_0_r. }
  split; [by rw Hf|]. by rw !Hf.
Qed.

Lemma map_pages_leaf_perm n vpn pa perm M :
  (∀ k, 0 <= k < Z.of_nat n → pa_ok (pa + k * PGSIZE)) → leaf_perm perm →
  map_Forall (λ _ e, leaf_perm e) M → map_Forall (λ _ e, leaf_perm e) (map_pages n vpn pa perm M).
Proof.
  intros Hpa Hp HM k e. rw map_pages_lookup. case_bool_decide; [|by apply HM].
  intros [= <-]. apply leaf_perm_leaf; [|done]. apply Hpa. lia.
Qed.

Lemma pa_ok_offset pa (n : nat) k :
  pa_ok pa → pa + Z.of_nat n * PGSIZE <= 2 ^ 56 → 0 <= k < Z.of_nat n → pa_ok (pa + k * PGSIZE).
Proof.
  intros [Hr Ha] Hn Hk. split; [unfold PGSIZE in *; lia|].
  unfold page_aligned in *. by rw Z.mod_add.
Qed.

(** C14. What mappages maps is what the hardware translates.  For [n] > 0 pages
    at [vpn] that are not mapped, mappages either maps all of them (0) or, when
    it runs out of memory for table pages, the first [k] < [n] (-1); it takes
    pages from the free list only for the table.  Afterwards the Sv39 walk of
    any user or kernel address finds the new entry in the new range and what was
    there before elsewhere. *)
Theorem mappages_translate n root M vpn pa perm va ps (r : sys) :
  linker_ok → Lkmem ∉ held r → perm_ok perm → leaf_perm perm →
  pa_ok pa → pa + Z.of_nat (S n) * PGSIZE <= 2 ^ 56 →
  vpn_ok vpn → vpn + Z.of_nat n < MAXVA / PGSIZE → 0 <= va < MAXVA →
  (∀ k, vpn <= k <= vpn + Z.of_nat n → M !! k = None) → map_Forall (λ _ e, leaf_perm e) M →
  ⦃ pagetable root M ∗ free_list (freelist r) ps ⦄
    (rc ← mappages root (vpn * PGSIZE) (Z.of_nat (S n) * PGSIZE) pa perm;
     t ← sv39 2 root va; mret (rc, t)) @ r
  ⟪ res r', ∃ k hd used ps',
      ⟦r' = r <| freelist := hd |> ∧ ps = used ++ ps' ∧
       (res.1 = 0 ∧ k = S n ∨ res.1 = -1 ∧ (k <= n)%nat ∧ ps' = []) ∧
       res.2 = (λ e, (0%nat, e)) <$>
         (if bool_decide (vpn <= va / PGSIZE < vpn + Z.of_nat k)
          then Some (leaf (pa + (va / PGSIZE - vpn) * PGSIZE) perm) else M !! (va / PGSIZE))⟧ ∗
      free_list hd ps' ∗ pagetable root (map_pages k vpn pa perm M) ⟫.
Proof.
  intros Hlk Hh Hperm Hlp Hpa Hpal Hvpn Hmax Hva Hfree HM. apply hwp_triple. iIntros "[Hpt Hfl]".
  iApply hwp_bind. iApply (hwp_mappages Hlk n root M vpn pa perm ps); [done..|].
  iFrame "Hpt Hfl". iIntros (rc hd used ps' k) "%Hpure Hfl [%Hwf Hpt]". destruct Hpure as [-> Hrc].
  iApply hwp_bind. iApply (hwp_sv39 Hlk 2 root (map_pages k vpn pa perm M) 0); [done| |lia| |].
  - apply map_pages_leaf_perm; [|done|done]. intros j Hj. apply (pa_ok_offset _ (S n)); (done || lia).
  - destruct (vpn_ok_va va Hva) as [? Hv]. apply Z.div_small.
    assert (MAXVA / PGSIZE < 512 ^ Z.of_nat 3) by done. lia.
  - iFrame "Hpt". iIntros "Hpt". iApply hwp_ret. iExists k, hd, used, ps'. iFrame "Hfl Hpt".
    iPureIntro. split; [|done]. split_and!; [done|done|done|]. by rw map_pages_lookup.
Qed.

(** C23. uvmalloc grows a process all or nothing.  Either every new page is
    mapped with the asked permissions to a distinct page of zeros, or the call
    returns 0 and the page table maps what it mapped before.  Every page taken
    off the free list is then mapped to the user or part of the page table
    ([used]); it fails only when no more free pages are left than it was asked
    to allocate. *)
Theorem uvmalloc_correct root M oldsz newsz xperm ps (r : sys) :
  linker_ok → Lkmem ∉ held r → perm_ok xperm → 0 <= oldsz → oldsz <= newsz <= MAXVA →
  (∀ k, pgs oldsz <= k < pgs newsz → M !! k = None) →
  ⦃ pagetable root M ∗ free_list (freelist r) ps ⦄ uvmalloc root oldsz newsz xperm @ r
  ⟪ sz r', ∃ hd used ps', ⟦r' = r <| freelist := hd |>⟧ ∗ free_list hd ps' ∗
      ((∃ ms, ⟦sz = newsz ∧ Z.of_nat (length ms) = pgs newsz - pgs oldsz ∧
               ps ≡ₚ ms ++ used ++ ps'⟧ ∗
          zeroed ms ∗ pagetable root (map_list (pgs oldsz) ms (uperm xperm) M)) ∨
       (⟦sz = 0 ∧ ps ≡ₚ used ++ ps' ∧ Z.of_nat (length ps') <= pgs newsz - pgs oldsz⟧ ∗
          pagetable root M)) ⟫.
Proof.
  intros Hlk Hh Hx Hold Hnew Hnone. apply hwp_triple. iIntros "[Hpt Hfl]".
  iApply (hwp_uvmalloc Hlk root M oldsz newsz xperm ps); [done..|]. iFrame "Hpt Hfl". iSplit.
  - iIntros (hd ms used ps') "%Hp Hfl Hms Hpt". iExists hd, used, ps'. iFrame "Hfl".
    iSplitR; [done|]. iLeft. iExists ms. by iFrame.
  - iIntros (hd used ps') "%Hp Hfl Hpt". iExists hd, used, ps'. iFrame "Hfl".
    iSplitR; [done|]. iRight. by iFrame.
Qed.


(** C25. uvmfree leaks nothing: from a page table, the user pages it maps and a
    free list it leaves a free list that holds all of them and the pages of the
    table itself, the root among them, and no other memory. *)
Theorem uvmfree_correct root M C sz ps (r : sys) :
  linker_ok → Lkmem ∉ held r → 0 <= sz <= MAXVA → within M (pgs sz) →
  let n := Z.to_nat (pgs sz) in
  ⦃ pagetable root M ∗ umem M C 0 n ∗ free_list (freelist r) ps ⦄ uvmfree root sz @ r
  ⟪ _u r', ∃ hd pages, ⟦r' = r <| freelist := hd |> ∧ root ∈ pages⟧ ∗
      free_list hd (pages ++ rev (mapped_pas n 0 M) ++ ps) ⟫.
Proof.
  intros Hlk Hh Hsz Hin n. apply hwp_triple. rw umem_owned. iIntros "(Hpt & Hm & Hfl)".
  iApply (hwp_uvmfree Hlk root M sz ps); [done..|]. iFrame "Hpt Hm Hfl".
  iIntros (hd pages) "%Hr Hfl". iExists hd, pages. by iFrame.
Qed.


(** copyin returns what the user sees at [srcva]; it returns -1 only if
    the user may not read some page of the range, after a prefix.  The user's
    memory does not change. *)
Theorem copyin_correct root sz M V n srcva len ps (r : sys) :
  linker_ok → running r root sz → 0 <= sz <= MAXVA → Z.of_nat n = pgs sz → 0 <= srcva < 2 ^ 64 →
  ⦃ uspace root M V n ∗ free_list (freelist r) ps ⦄ copyin root srcva len @ r
  ⟪ res r', ∃ k M' hd used ps',
      ⟦r' = r <| freelist := hd |> ∧ copy_res user_r M srcva len res.1 k ∧
       res.2 = vread V srcva k ∧ M ⊆ M' ∧ ps ≡ₚ used ++ ps'⟧ ∗
      free_list hd ps' ∗ uspace root M' V n ⟫.
Proof.
  intros Hlk Hrun Hsz Hn Hva. apply hwp_triple. iIntros "[Hu Hfl]".
  iApply (hwp_copyin_loop Hlk _ root sz M V n srcva len ps); [done..|lia|]. iFrame "Hu Hfl".
  iIntros (rc k M' hd used ps') "%Hp Hfl Hu". iExists k, M', hd, used, ps'. iFrame.
  iPureIntro. destruct Hp as (? & ? & ?). by split_and!.
Qed.

(** copyinstr returns the bytes at [srcva] up to and including the first
    NUL, if it comes within [max] bytes; it returns -1 only after [max] bytes
    without a NUL or at a page the user may not read.  It changes nothing. *)
Theorem copyinstr_correct root M V n srcva max ps (r : sys) :
  linker_ok → Lkmem ∉ held r → Z.of_nat n <= MAXVA / PGSIZE → 0 <= srcva < 2 ^ 64 →
  ⦃ uspace root M V n ∗ free_list (freelist r) ps ⦄ copyinstr root srcva max @ r
  ⟪ res r', ⟦r' = r ∧ copyinstr_res M V srcva max res.1 res.2⟧ ∗
      uspace root M V n ∗ free_list (freelist r) ps ⟫.
Proof.
  intros Hlk Hh Hn Hva. apply hwp_triple. iIntros "[Hu Hfl]".
  iApply (hwp_copyinstr_loop Hlk _ root M V n srcva max ps); [done..|lia|]. iFrame "Hu Hfl".
  iIntros (rc bs) "%Hp Hu Hfl". by iFrame.
Qed.
End vm_thms.

(** ** Instances

    A kernel with four free pages and a process of two pages, none of them
    allocated yet, whose page table is empty. *)
#[local] Existing Instance link0.

Definition vm_sys : sys :=
  (sys0 ∅) <| freelist := pg 40 |> <| cur := Some 0%nat |>
    <| procs := [proc0 <| p_pagetable := pg 44 |> <| p_sz := 2 * PGSIZE |>] |>.

Definition vm_free : list Z := [pg 40; pg 41; pg 42; pg 43].

Lemma sat_vm : ∃ h, (pagetable (pg 44) ∅ ∗ free_list (pg 40) vm_free)%I h.
Proof.
  destruct (sat_sep (free_list (pg 40) vm_free) (pagetable (pg 44) ∅) (pg 40) (pg 44) (pg 45)) as (h & Hh & _).
  - vm_compute. split; discriminate.
  - apply (sat_free_list 4 (pg 40) link0_ok); [reflexivity|vm_compute; discriminate|vm_compute; discriminate].
  - apply (sat_pagetable (pg 44)). split; [reflexivity|vm_compute; split; [discriminate|reflexivity]].
  - exists h. refine (entails_at _ h Hh). apply bi.sep_comm'.
Qed.

Lemma sat_uspace : ∃ h, (uspace (pg 44) ∅ (λ _, 0) 2 ∗ free_list (pg 40) vm_free)%I h.
Proof.
  destruct sat_vm as [h Hh]. exists h. refine (entails_at _ h Hh). iIntros "[$ $]". iSplitR; [|by rw /umem].
  iPureIntro. split; [done| |done]. intros vpn _ _. apply list_eq_same_length with PGSIZEn.
  - by rw length_replicate.
  - apply length_vread.
  - intros i x y Hi Hx Hy. apply lookup_replicate in Hy as [-> _].
    rw /pagebytes vread_lookup // in Hx. by injection Hx.
Qed.

Lemma vm_sys_held : Lkmem ∉ held vm_sys.
Proof. apply not_elem_of_nil. Qed.

Lemma vm_sys_running : running vm_sys (pg 44) (2 * PGSIZE).
Proof. split; [by eexists 0%nat, _|apply vm_sys_held]. Qed.

Lemma mappages_translate_witness :
  ∃ h res r' h',
    (rc ← mappages (pg 44) (5 * PGSIZE) (1 * PGSIZE) (pg 50) PTE_R;
     t ← sv39 2 (pg 44) (5 * PGSIZE + 8); mret (rc, t)) (St h vm_sys) = Ok res (St h' r').
Proof.
  destruct sat_vm as [h Hh]. exists h.
  destruct (triple_run _ _ _ _ _ (mappages_translate 0 (pg 44) ∅ 5 (pg 50) PTE_R (5 * PGSIZE + 8)
    vm_free vm_sys link0_ok vm_sys_held ltac:(done) ltac:(done) ltac:(done) ltac:(done) ltac:(done)
    ltac:(done) ltac:(done) ltac:(done) ltac:(done)) Hh) as (res & r' & h' & Hrun & _).
  by exists res, r', h'.
Defined.

Lemma uvmalloc_correct_witness :
  ∃ h sz r' h', uvmalloc (pg 44) 0 (PGSIZE + 1) PTE_W (St h vm_sys) = Ok sz (St h' r').
Proof.
  destruct sat_vm as [h Hh]. exists h.
  destruct (triple_run _ _ _ _ _ (uvmalloc_correct (pg 44) ∅ 0 (PGSIZE + 1) PTE_W vm_free vm_sys
    link0_ok vm_sys_held ltac:(done) ltac:(done) ltac:(done) ltac:(done)) Hh) as (sz & r' & h' & Hrun & _).
  by exists sz, r', h'.
Defined.


Lemma uvmfree_correct_witness :
  ∃ h u r' h', uvmfree (pg 44) (2 * PGSIZE) (St h vm_sys) = Ok u (St h' r').
Proof.
  destruct sat_vm as [h Hh]. exists h.
  assert ((pagetable (pg 44) ∅ ∗ umem ∅ (λ _, []) 0 2 ∗ free_list (pg 40) vm_free)%I h) as Hh'.
  { refine (entails_at _ h Hh). iIntros "[$ $]". by rw /umem. }
  destruct (triple_run _ _ _ _ _ (uvmfree_correct (pg 44) ∅ (λ _, []) (2 * PGSIZE) vm_free vm_sys
    link0_ok vm_sys_held ltac:(done) ltac:(done)) Hh') as (u & r' & h' & Hrun & _).
  by exists u, r', h'.
Defined.


Lemma copyin_correct_witness :
  ∃ h res r' h', copyin (pg 44) (PGSIZE - 1) 3 (St h vm_sys) = Ok res (St h' r').
Proof.
  destruct sat_uspace as [h Hh]. exists h.
  destruct (triple_run _ _ _ _ _ (copyin_correct (pg 44) (2 * PGSIZE) ∅ (λ _, 0) 2 (PGSIZE - 1) 3
    vm_free vm_sys link0_ok vm_sys_running ltac:(done) ltac:(done) ltac:(done)) Hh)
    as (res & r' & h' & Hrun & _).
  by exists res, r', h'.
Defined.

Lemma copyinstr_correct_witness :
  ∃ h res r' h', copyinstr (pg 44) PGSIZE 16 (St h vm_sys) = Ok res (St h' r').
Proof.
  destruct sat_uspace as [h Hh]. exists h.
  destruct (triple_run _ _ _ _ _ (copyinstr_correct (pg 44) ∅ (λ _, 0) 2 PGSIZE 16
    vm_free vm_sys link0_ok vm_sys_held ltac:(done) ltac:(done)) Hh)
    as (res & r' & h' & Hrun & _).
  by exists res, r', h'.
Defined.
