(* ===== verification/Sched.v ===== *)
(** * kernel/proc.c: sleeping, waking and switching

    The code runs as one kernel thread, that of process [cur].  When it calls
    swtch the rest of the system runs until the scheduler picks it again.  What
    the rest does is a parameter: [sched_steps n] is the change of state during
    the [n]-th time this thread is switched out.  A loop that waits for a
    condition may sleep [sched_bound] times; if the condition does not hold then
    the thread makes no progress.  Theorems about code that sleeps quantify over
    both. *)
From S2P Require Import Prelude.
From S2P Require Import Mem.
From S2P Require Import Params.
From S2P Require Import State.
From S2P Require Import KString.
From S2P Require Import Kalloc.
From S2P Require Import Vm.
#[local] Open Scope Z_scope.

Class Sched := {
  sched_steps : nat → st sys → st sys;
  sched_bound : nat
}.

(** Where either_copyout puts bytes: at a user address, at a kernel address in
    [mem], or in a local variable of the caller (the bytes are then part of what
    the calling function returns).  Likewise for either_copyin. *)
Inductive dstbuf : Type := DUser (va : Z) | DPhys (pa : Z) | DLocal.
Inductive srcbuf : Type := SUser (va : Z) | SPhys (pa : Z) | SLocal (bs : list Z).

Definition dst_add (d : dstbuf) (n : Z) : dstbuf :=
  match d with
  | DUser va => DUser (u64 (va + n))
  | DPhys pa => DPhys (pa + n)
  | DLocal => DLocal
  end.

Definition src_add (d : srcbuf) (n : Z) : srcbuf :=
  match d with
  | SUser va => SUser (u64 (va + n))
  | SPhys pa => SPhys (pa + n)
  | SLocal bs => SLocal (drop (Z.to_nat n) bs)
  end.

Section sched.
Context `{Linker} `{Sched}.

(** swtch(&p->context, &mycpu()->context) of process [i] until scheduler()
    switches back to it: scheduler() picks a RUNNABLE process, sets p->state to
    RUNNING and c->proc to p while it holds p->lock, the only lock that is then
    held. *)
Definition swtch (i : nat) : K unit := λ s,
  let s' := sched_steps (nswtch (rest s)) s in
  match procs (rest s') !! i with
  | None => Fault
  | Some p =>
      if bool_decide (p_state p = RUNNABLE) then
        Ok tt (St (mem s') ((rest s')
          <| procs := <[i := p <| p_state := RUNNING |>]> (procs (rest s')) |>
          <| cur := Some i |> <| held := [Lproc i] |>
          <| nswtch := S (nswtch (rest s)) |>))
      else Stuck
  end.

(** The last test, intr_get(), cannot fail while a lock is held: push_off has
    turned interrupts off (Spinlock.v). *)
Definition sched : K unit :=
  i ← the_proc;
  h ← holding (Lproc i);
  if negb h then panic "sched p->lock" else
  locks ← rd held;
  if bool_decide (length locks ≠ 1%nat) then panic "sched locks" else
  p ← proc_get i;
  if bool_decide (p_state p = RUNNING) then panic "sched RUNNING" else
  swtch i.

Definition yield : K unit :=
  i ← the_proc;
  acquire (Lproc i);;
  proc_upd i (λ p, p <| p_state := RUNNABLE |>);;
  sched;;
  release (Lproc i).

Definition sleep (chan : channel) (lk : lockid) : K unit :=
  i ← the_proc;
  acquire (Lproc i);;
  release lk;;
  proc_upd i (λ p, p <| p_chan := Some chan |> <| p_state := SLEEPING |>);;
  sched;;
  proc_upd i (λ p, p <| p_chan := None |>);;
  release (Lproc i);;
  acquire lk.

Definition wakeup (chan : channel) : K unit :=
  for_each NPROC 0 (λ i,
    c ← myproc;
    if bool_decide (c = Some i) then mret tt else
    acquire (Lproc i);;
    p ← proc_get i;
    when (bool_decide (p_state p = SLEEPING ∧ p_chan p = Some chan))
      (proc_upd i (λ p, p <| p_state := RUNNABLE |>));;
    release (Lproc i)).

Definition kkill (pid : Z) : K Z :=
  r ← for_ NPROC 0 (λ i,
    acquire (Lproc i);;
    p ← proc_get i;
    if bool_decide (p_pid p = pid) then
      proc_upd i (λ p, p <| p_killed := 1 |>);;
      when (bool_decide (p_state p = SLEEPING)) (proc_upd i (λ p, p <| p_state := RUNNABLE |>));;
      release (Lproc i);; mret (Some 0)
    else release (Lproc i);; mret None);
  mret (default (-1) r).

Definition setkilled (i : nat) : K unit :=
  acquire (Lproc i);;
  proc_upd i (λ p, p <| p_killed := 1 |>);;
  release (Lproc i).

Definition killed (i : nat) : K Z :=
  acquire (Lproc i);;
  p ← proc_get i;
  release (Lproc i);;
  mret (p_killed p).

Definition either_copyout (dst : dstbuf) (src : list Z) : K Z :=
  match dst with
  | DUser va => i ← the_proc; p ← proc_get i; copyout (p_pagetable p) va src
  | DPhys pa => store_bytes pa src;; mret 0
  | DLocal => mret 0
  end.

(** The return value and the bytes stored at dst. *)
Definition either_copyin (src : srcbuf) (len : nat) : K (Z * list Z) :=
  match src with
  | SUser va => i ← the_proc; p ← proc_get i; copyin (p_pagetable p) va len
  | SPhys pa => bs ← load_bytes len pa; mret (0, bs)
  | SLocal bs => mret (0, take len bs)
  end.
End sched.
