(* ===== verification/Console.v ===== *)
(** * kernel/uart.c, kernel/printf.c, kernel/console.c

    The UART is a device: [uart_out] is the sequence of bytes written to its
    transmit register, [uart_rx] the input bytes waiting in it and [uart_idle]
    the LSR_TX_IDLE bit it reports to the interrupt handler.  Busy-waiting for
    the transmitter ends, as the device drains it. *)
From S2P Require Import Prelude.
From S2P Require Import Mem.
From S2P Require Import Params.
From S2P Require Import State.
From S2P Require Import KString.
From S2P Require Import Vm.
From S2P Require Import Sched.
#[local] Open Scope Z_scope.

Definition BACKSPACE : Z := 256.
Definition Ctrl (x : Z) : Z := x - 64.
Definition INPUT_BUF_SIZE : Z := 128.

(** Arguments of printf; [AStr None] is a null pointer. *)
Inductive arg : Type := AInt (v : Z) | AStr (s : option (list Z)).

Definition digits : list Z := str "0123456789abcdef".

Section console.
Context `{Linker} `{Sched}.

(** push_off and pop_off leave no trace; nothing here runs after a panic. *)
Definition uartputc_sync (c : Z) : K unit :=
  upd (λ k, k <| uart_out ::= λ o, o ++ [u8 c] |>).

Definition consputc (c : Z) : K unit :=
  if bool_decide (c = BACKSPACE)
  then uartputc_sync 8;; uartputc_sync 32;; uartputc_sync 8
  else uartputc_sync c.

(** [for(; *s; s++) consputc( *s)] *)
Fixpoint cputs (s : list Z) : K unit :=
  match s with
  | [] => mret tt
  | c :: s' => consputc c;; cputs s'
  end.

(** The digits of [x], least significant first; 64-bit numbers have at most 64. *)
Fixpoint printint_digits (fuel : nat) (x base : Z) : list Z :=
  match fuel with
  | O => []
  | S fuel' =>
      let d := digits !!! Z.to_nat (x mod base) in
      if bool_decide (x / base = 0) then [d] else d :: printint_digits fuel' (x / base) base
  end.

(** Writing past the end of [char buf[20]] is a fault. *)
Definition printint (xx base : Z) (sign : bool) : K unit :=
  let neg := sign && bool_decide (xx < 0) in
  let x := u64 (if neg then - xx else xx) in
  let buf := printint_digits 64 x base ++ (if neg then [45] else []) in
  if bool_decide (length buf <= 20)%nat then cputs (rev buf) else fault.

(** [for(i = 0; i < 16; i++, x <<= 4)] *)
Fixpoint printptr_loop (n : nat) (x : Z) : K unit :=
  match n with
  | O => mret tt
  | S n' => consputc (digits !!! Z.to_nat (Z.shiftr x 60));; printptr_loop n' (u64 (Z.shiftl x 4))
  end.

Definition printptr (x : Z) : K unit := consputc 48;; consputc 120;; printptr_loop 16 x.

(** va_arg; a missing argument or one of the wrong type is a fault. *)
Definition va_int (args : list arg) : K (Z * list arg) :=
  match args with AInt v :: rest => mret (v, rest) | _ => fault end.
Definition va_str (args : list arg) : K (option (list Z) * list arg) :=
  match args with AStr s :: rest => mret (s, rest) | _ => fault end.

(** A character of a string, or the NUL after it. *)
Definition char_at (s : list Z) (i : nat) : Z := default 0 (s !! i).

(** The loop over fmt: [fmt] is what is left of it. *)
Fixpoint printf_loop (fuel : nat) (fmt : list Z) (args : list arg) : K unit :=
  match fuel with
  | O => stuck
  | S fuel' =>
      match fmt with
      | [] => mret tt
      | cx :: fmt =>
          if bool_decide (cx ≠ 37) then consputc cx;; printf_loop fuel' fmt args else
          let c0 := char_at fmt 0 in
          let c1 := if bool_decide (c0 ≠ 0) then char_at fmt 1 else 0 in
          let c2 := if bool_decide (c1 ≠ 0) then char_at fmt 2 else 0 in
          let number (conv : Z → Z) base sign n :=
            ('(v, args) ← va_int args; printint (conv v) base sign;;
             printf_loop fuel' (drop n fmt) args) in
          if bool_decide (c0 = 100) then number s32 10 true 1%nat
          else if bool_decide (c0 = 108 ∧ c1 = 100) then number s64 10 true 2%nat
          else if bool_decide (c0 = 108 ∧ c1 = 108 ∧ c2 = 100) then number s64 10 true 3%nat
          else if bool_decide (c0 = 117) then number u32 10 false 1%nat
          else if bool_decide (c0 = 108 ∧ c1 = 117) then number s64 10 false 2%nat
          else if bool_decide (c0 = 108 ∧ c1 = 108 ∧ c2 = 117) then number s64 10 false 3%nat
          else if bool_decide (c0 = 120) then number u32 16 false 1%nat
          else if bool_decide (c0 = 108 ∧ c1 = 120) then number s64 16 false 2%nat
          else if bool_decide (c0 = 108 ∧ c1 = 108 ∧ c2 = 120) then number s64 16 false 3%nat
          else if bool_decide (c0 = 112) then
            '(v, args) ← va_int args; printptr (u64 v);; printf_loop fuel' (drop 1 fmt) args
          else if bool_decide (c0 = 99) then
            '(v, args) ← va_int args; consputc (s32 v);; printf_loop fuel' (drop 1 fmt) args
          else if bool_decide (c0 = 115) then
            '(s, args) ← va_str args;
            cputs (default (str "(null)") s);; printf_loop fuel' (drop 1 fmt) args
          else if bool_decide (c0 = 37) then consputc 37;; printf_loop fuel' (drop 1 fmt) args
          else if bool_decide (c0 = 0) then mret tt
          else consputc 37;; consputc c0;; printf_loop fuel' (drop 1 fmt) args
      end
  end.

Definition printf (fmt : list Z) (args : list arg) : K Z :=
  acquire Lpr;;
  printf_loop (S (length fmt)) fmt args;;
  release Lpr;;
  mret 0.

Definition state_name (st : procstate) : list Z :=
  str match st with
      | UNUSED => "unused" | USED => "used" | SLEEPING => "sleep " | RUNNABLE => "runble"
      | RUNNING => "run   " | ZOMBIE => "zombie"
      end.

(** kernel/proc.c procdump *)
Definition procdump : K unit :=
  printf [10] [];;
  for_each NPROC 0 (λ i,
    p ← proc_get i;
    if bool_decide (p_state p = UNUSED) then mret tt else
    printf (str "%d %s %s")
      [AInt (p_pid p); AStr (Some (state_name (p_state p))); AStr (Some (cstr (p_name p)))];;
    printf [10] [];; mret tt).

(** ** kernel/uart.c *)

(** [while(tx_busy != 0) sleep(&tx_chan, &tx_lock)] *)
Fixpoint uart_wait (fuel : nat) : K unit :=
  match fuel with
  | O => stuck
  | S fuel' =>
      b ← rd tx_busy;
      if b : bool then sleep ChTx Ltx;; uart_wait fuel' else mret tt
  end.

Fixpoint uartwrite_loop (buf : list Z) : K unit :=
  match buf with
  | [] => mret tt
  | c :: buf' =>
      uart_wait (S sched_bound);;
      upd (λ k, k <| uart_out ::= λ o, o ++ [c] |> <| tx_busy := true |>);;
      uartwrite_loop buf'
  end.

Definition uartwrite (buf : list Z) : K unit :=
  acquire Ltx;; uartwrite_loop buf;; release Ltx.

Definition uartgetc : K Z :=
  rx ← rd uart_rx;
  match rx with
  | [] => mret (-1)
  | c :: rx' => upd (λ k, k <| uart_rx := rx' |>);; mret c
  end.

(** ** kernel/console.c *)

(** [while(i < n)] of consolewrite; the result is i *)
Fixpoint consolewrite_loop (fuel : nat) (src : srcbuf) (n i : Z) : K Z :=
  match fuel with
  | O => stuck
  | S fuel' =>
      if bool_decide (i < n) then
        let nn := Z.min 32 (n - i) in
        '(rc, buf) ← either_copyin (src_add src i) (Z.to_nat nn);
        if bool_decide (rc = -1) then mret i else
        uartwrite buf;; consolewrite_loop fuel' src n (i + nn)
      else mret i
  end.

Definition consolewrite (src : srcbuf) (n : Z) : K Z :=
  consolewrite_loop (S (Z.to_nat n)) src n 0.

(** [while(cons.r == cons.w)] of consoleread; true if the process was killed *)
Fixpoint cons_wait (fuel : nat) : K bool :=
  match fuel with
  | O => stuck
  | S fuel' =>
      c ← rd cons;
      if bool_decide (c_r c = c_w c) then
        i ← the_proc;
        k ← killed i;
        if bool_decide (k ≠ 0) then mret true else
        sleep ChConsR Lcons;; cons_wait fuel'
      else mret false
  end.

(** [while(n > 0)] of consoleread: the value of n on leaving it, or [None] when
    the process was killed.  [n < target] holds after the first byte. *)
Fixpoint consoleread_loop (fuel : nat) (dst : dstbuf) (target n : Z) : K (option Z) :=
  match fuel with
  | O => stuck
  | S fuel' =>
      if bool_decide (0 < n) then
        dead ← cons_wait (S sched_bound);
        if dead : bool then mret None else
        cs ← rd cons;
        let c := c_buf cs !!! Z.to_nat (c_r cs mod INPUT_BUF_SIZE) in
        upd (λ k, k <| cons ::= λ cs, cs <| c_r := u32 (c_r cs + 1) |> |>);;
        if bool_decide (c = Ctrl 68) then
          when (bool_decide (n < target))
            (upd (λ k, k <| cons ::= λ cs, cs <| c_r := u32 (c_r cs - 1) |> |>));;
          mret (Some n)
        else
          rc ← either_copyout dst [c];
          if bool_decide (rc = -1) then mret (Some n) else
          if bool_decide (c = 10) then mret (Some (n - 1))
          else consoleread_loop fuel' (dst_add dst 1) target (n - 1)
      else mret (Some n)
  end.

(** [target] is unsigned: [n < target] compares n, positive here, with u32 n. *)
Definition consoleread (dst : dstbuf) (n : Z) : K Z :=
  let target := u32 n in
  acquire Lcons;;
  r ← consoleread_loop (S (Z.to_nat n)) dst target n;
  release Lcons;;
  mret (match r with Some n' => s32 (target - n') | None => -1 end).

(** [while(cons.e != cons.w && ...)] of control-U *)
Fixpoint kill_line (fuel : nat) : K unit :=
  match fuel with
  | O => stuck
  | S fuel' =>
      cs ← rd cons;
      if bool_decide (c_e cs ≠ c_w cs ∧
           c_buf cs !!! Z.to_nat (u32 (c_e cs - 1) mod INPUT_BUF_SIZE) ≠ 10) then
        upd (λ k, k <| cons ::= λ cs, cs <| c_e := u32 (c_e cs - 1) |> |>);;
        consputc BACKSPACE;; kill_line fuel'
      else mret tt
  end.

(** The switch of consoleintr *)
Definition keystroke (c : Z) : K unit :=
  cs ← rd cons;
  if bool_decide (c = Ctrl 80) then procdump
   else if bool_decide (c = Ctrl 85) then kill_line (S (Z.to_nat (u32 (c_e cs - c_w cs))))
   else if bool_decide (c = Ctrl 72 ∨ c = 127) then
     when (bool_decide (c_e cs ≠ c_w cs))
       (upd (λ k, k <| cons ::= λ cs, cs <| c_e := u32 (c_e cs - 1) |> |>);; consputc BACKSPACE)
   else if bool_decide (c ≠ 0 ∧ u32 (c_e cs - c_r cs) < INPUT_BUF_SIZE) then
     let c := if bool_decide (c = 13) then 10 else c in
     consputc c;;
     upd (λ k, k <| cons ::= λ cs,
       cs <| c_buf := <[Z.to_nat (c_e cs mod INPUT_BUF_SIZE) := u8 c]> (c_buf cs) |>
          <| c_e := u32 (c_e cs + 1) |> |>);;
     cs ← rd cons;
     when (bool_decide (c = 10 ∨ c = Ctrl 68 ∨ u32 (c_e cs - c_r cs) = INPUT_BUF_SIZE))
       (upd (λ k, k <| cons ::= λ cs, cs <| c_w := c_e cs |> |>);; wakeup ChConsR)
   else mret tt.

Definition consoleintr (c : Z) : K unit :=
  acquire Lcons;;
  keystroke c;;
  release Lcons.

(** [while(1)] of uartintr, over the input that is waiting *)
Fixpoint uartintr_loop (fuel : nat) : K unit :=
  match fuel with
  | O => stuck
  | S fuel' =>
      c ← uartgetc;
      if bool_decide (c = -1) then mret tt else consoleintr c;; uartintr_loop fuel'
  end.

Definition uartintr : K unit :=
  acquire Ltx;;
  idle ← rd uart_idle;
  when idle (upd (λ k, k <| tx_busy := false |>);; wakeup ChTx);;
  release Ltx;;
  rx ← rd uart_rx;
  uartintr_loop (S (length rx)).
End console.
