(* ===== verification/Bio.v ===== *)
(** * kernel/sleeplock.c and kernel/bio.c: sleep locks and the buffer cache

    [bufs] holds bcache.buf and, at index [NBUF], bcache.head; [b_prev] and
    [b_next] are indices into it.  The disk driver is used through [BlockDev]. *)
From S2P Require Import Prelude.
From S2P Require Import Mem.
From S2P Require Import Params.
From S2P Require Import State.
From S2P Require Import KString.
From S2P Require Import Vm.
From S2P Require Import Sched.
#[local] Open Scope Z_scope.

(** virtio_disk_rw(b, write) *)
Class BlockDev := virtio_disk_rw : nat → bool → K unit.

Definition buf_get (i : nat) : K buf :=
  bs ← rd bufs;
  match bs !! i with Some b => mret b | None => fault end.

Definition buf_upd (i : nat) (g : buf → buf) : K unit :=
  b ← buf_get i;
  upd (λ k, k <| bufs := <[i := g b]> (bufs k) |>).

(** The address of a sleep lock: in a buffer or in an inode. *)
Inductive slid : Type := SlBuf (i : nat) | SlInode (i : nat).

Definition sl_lk (l : slid) : lockid := match l with SlBuf i => Lbuf i | SlInode i => Linode i end.
Definition sl_chan (l : slid) : channel :=
  match l with SlBuf i => ChSlBuf i | SlInode i => ChSlInode i end.

Definition sl_get (l : slid) : K sleeplock :=
  match l with
  | SlBuf i => b ← buf_get i; mret (b_lock b)
  | SlInode i =>
      t ← rd itable;
      match t !! i with Some ip => mret (i_lock ip) | None => fault end
  end.

Definition sl_set (l : slid) (v : sleeplock) : K unit :=
  match l with
  | SlBuf i => buf_upd i (λ b, b <| b_lock := v |>)
  | SlInode i =>
      t ← rd itable;
      match t !! i with
      | Some ip => upd (λ k, k <| itable := <[i := ip <| i_lock := v |>]> (itable k) |>)
      | None => fault
      end
  end.

Section bio.
Context `{Linker} `{Sched} `{BlockDev}.

(** ** kernel/sleeplock.c *)

(** [while (lk->locked) sleep(lk, &lk->lk)] *)
Fixpoint acquiresleep_loop (fuel : nat) (l : slid) : K unit :=
  match fuel with
  | O => stuck
  | S fuel' =>
      s ← sl_get l;
      if sl_locked s then sleep (sl_chan l) (sl_lk l);; acquiresleep_loop fuel' l else mret tt
  end.

Definition acquiresleep (l : slid) : K unit :=
  acquire (sl_lk l);;
  acquiresleep_loop (S sched_bound) l;;
  i ← the_proc; p ← proc_get i;
  sl_set l (SleepLock true (p_pid p));;
  release (sl_lk l).

Definition releasesleep (l : slid) : K unit :=
  acquire (sl_lk l);;
  sl_set l (SleepLock false 0);;
  wakeup (sl_chan l);;
  release (sl_lk l).

Definition holdingsleep (l : slid) : K bool :=
  acquire (sl_lk l);;
  s ← sl_get l;
  i ← the_proc; p ← proc_get i;
  release (sl_lk l);;
  mret (sl_locked s && bool_decide (sl_pid s = p_pid p)).

(** ** kernel/bio.c *)
Definition HEAD : nat := NBUF.

(** The body of binit's loop. *)
Definition binit_buf (i : nat) : K unit :=
  hd ← buf_get HEAD;
  buf_upd i (λ b, b <| b_next := b_next hd |> <| b_prev := HEAD |> <| b_lock := SleepLock false 0 |>);;
  hd ← buf_get HEAD;
  buf_upd (b_next hd) (λ b, b <| b_prev := i |>);;
  buf_upd HEAD (λ b, b <| b_next := i |>).

Definition binit : K unit :=
  buf_upd HEAD (λ b, b <| b_prev := HEAD |> <| b_next := HEAD |>);;
  for_each NBUF 0 binit_buf.

(** [for(b = bcache.head.next; b != &bcache.head; b = b->next)]: the cached
    buffer, if there is one *)
Fixpoint bget_cached (fuel : nat) (i : nat) (dev blockno : Z) : K (option nat) :=
  match fuel with
  | O => stuck
  | S fuel' =>
      if bool_decide (i = HEAD) then mret None else
      b ← buf_get i;
      if bool_decide (b_dev b = dev ∧ b_blockno b = blockno) then mret (Some i)
      else bget_cached fuel' (b_next b) dev blockno
  end.

(** [for(b = bcache.head.prev; b != &bcache.head; b = b->prev)]: the least
    recently used buffer with no reference *)
Fixpoint bget_lru (fuel : nat) (i : nat) : K (option nat) :=
  match fuel with
  | O => stuck
  | S fuel' =>
      if bool_decide (i = HEAD) then mret None else
      b ← buf_get i;
      if bool_decide (b_refcnt b = 0) then mret (Some i) else bget_lru fuel' (b_prev b)
  end.

Definition bget (dev blockno : Z) : K nat :=
  acquire Lbcache;;
  hd ← buf_get HEAD;
  c ← bget_cached (S NBUF) (b_next hd) dev blockno;
  match c with
  | Some i =>
      buf_upd i (λ b, b <| b_refcnt := u32 (b_refcnt b + 1) |>);;
      release Lbcache;;
      acquiresleep (SlBuf i);; mret i
  | None =>
      u ← bget_lru (S NBUF) (b_prev hd);
      match u with
      | Some i =>
          buf_upd i (λ b, b <| b_dev := dev |> <| b_blockno := blockno |> <| b_valid := false |>
                            <| b_refcnt := 1 |>);;
          release Lbcache;;
          acquiresleep (SlBuf i);; mret i
      | None => panic "bget: no buffers"
      end
  end.

Definition bread (dev blockno : Z) : K nat :=
  i ← bget dev blockno;
  b ← buf_get i;
  when (negb (b_valid b))
    (virtio_disk_rw i false;; buf_upd i (λ b, b <| b_valid := true |>));;
  mret i.

Definition bwrite (i : nat) : K unit :=
  h ← holdingsleep (SlBuf i);
  if negb h then panic "bwrite" else virtio_disk_rw i true.

(** Move buffer [i] to the head of the most-recently-used list. *)
Definition move_to_head (i : nat) : K unit :=
  b ← buf_get i;
  buf_upd (b_next b) (λ n, n <| b_prev := b_prev b |>);;
  buf_upd (b_prev b) (λ p, p <| b_next := b_next b |>);;
  hd ← buf_get HEAD;
  buf_upd i (λ b, b <| b_next := b_next hd |> <| b_prev := HEAD |>);;
  hd ← buf_get HEAD;
  buf_upd (b_next hd) (λ n, n <| b_prev := i |>);;
  buf_upd HEAD (λ hd, hd <| b_next := i |>).

Definition brelse (i : nat) : K unit :=
  h ← holdingsleep (SlBuf i);
  if negb h then panic "brelse" else
  releasesleep (SlBuf i);;
  acquire Lbcache;;
  buf_upd i (λ b, b <| b_refcnt := u32 (b_refcnt b - 1) |>);;
  b ← buf_get i;
  when (bool_decide (b_refcnt b = 0)) (move_to_head i);;
  release Lbcache.

Definition bpin (i : nat) : K unit :=
  acquire Lbcache;;
  buf_upd i (λ b, b <| b_refcnt := u32 (b_refcnt b + 1) |>);;
  release Lbcache.

Definition bunpin (i : nat) : K unit :=
  acquire Lbcache;;
  buf_upd i (λ b, b <| b_refcnt := u32 (b_refcnt b - 1) |>);;
  release Lbcache.
End bio.
