(* ===== verification/Log.v ===== *)
(** * kernel/log.c: the write-ahead log

    The log header is the first 124 bytes of its block: the 32-bit [n] and the
    block numbers. *)
From S2P Require Import Prelude.
From S2P Require Import Mem.
From S2P Require Import Params.
From S2P Require Import State.
From S2P Require Import KString.
From S2P Require Import Vm.
From S2P Require Import Sched.
From S2P Require Import Console.
From S2P Require Import Bio.
#[local] Open Scope Z_scope.

(** ** Integers in the data of a block *)
Definition get_le (n : nat) (data : list Z) (off : nat) : Z := le_combine (take n (drop off data)).
Definition put_le (n : nat) (data : list Z) (off : nat) (v : Z) : list Z :=
  take off data ++ le_split n v ++ drop (off + n) data.

Abbreviation get32 := (get_le 4).
Abbreviation get16 := (get_le 2).
Abbreviation put32 := (put_le 4).
Abbreviation put16 := (put_le 2).

(** struct logheader in a block: lh->n and lh->block[i] *)
Definition lh_get_n (data : list Z) : Z := s32 (get32 data 0).
Definition lh_get_block (data : list Z) (i : nat) : Z := s32 (get32 data (4 + 4 * i)).
Definition lh_put_n (data : list Z) (v : Z) : list Z := put32 data 0 v.
Definition lh_put_block (data : list Z) (i : nat) (v : Z) : list Z := put32 data (4 + 4 * i) v.

Section log.
Context `{Linker} `{Sched} `{BlockDev}.

(** log.lh.block[i], out of bounds being a fault *)
Definition lh_block_get (i : nat) : K Z :=
  l ← rd lg;
  match lh_block l !! i with Some b => mret b | None => fault end.

Definition lh_block_set (i : nat) (v : Z) : K unit :=
  l ← rd lg;
  if decide (i < length (lh_block l))%nat
  then upd (λ k, k <| lg ::= λ l, l <| lh_block ::= <[i := v]> |> |>) else fault.

(** One round of install_trans. *)
Definition install_block (recovering : bool) (tail : nat) : K unit :=
  dst ← lh_block_get tail;
  when recovering
    (printf (str "recovering tail %d dst %d" ++ [10]) [AInt (Z.of_nat tail); AInt dst];; mret tt);;
  l ← rd lg;
  lbuf ← bread (lg_dev l) (u32 (lg_start l + Z.of_nat tail + 1));
  dst ← lh_block_get tail;
  dbuf ← bread (lg_dev l) (u32 dst);
  lb ← buf_get lbuf;
  buf_upd dbuf (λ b, b <| b_data := b_data lb |>);;
  bwrite dbuf;;
  when (negb recovering) (bunpin dbuf);;
  brelse lbuf;;
  brelse dbuf.

Definition install_trans (recovering : bool) : K unit :=
  l ← rd lg;
  for_each (Z.to_nat (lh_n l)) 0 (install_block recovering).

Definition read_head : K unit :=
  l ← rd lg;
  b ← bread (lg_dev l) (u32 (lg_start l));
  d ← buf_get b;
  let n := lh_get_n (b_data d) in
  upd (λ k, k <| lg ::= λ l, l <| lh_n := n |> |>);;
  for_each (Z.to_nat n) 0 (λ i, lh_block_set i (lh_get_block (b_data d) i));;
  brelse b.

Definition write_head : K unit :=
  l ← rd lg;
  b ← bread (lg_dev l) (u32 (lg_start l));
  buf_upd b (λ d, d <| b_data := lh_put_n (b_data d) (lh_n l) |>);;
  for_each (Z.to_nat (lh_n l)) 0 (λ i,
    v ← lh_block_get i;
    buf_upd b (λ d, d <| b_data := lh_put_block (b_data d) i v |>));;
  bwrite b;;
  brelse b.

Definition recover_from_log : K unit :=
  read_head;;
  install_trans true;;
  upd (λ k, k <| lg ::= λ l, l <| lh_n := 0 |> |>);;
  write_head.

(** The size check of initlog compares two constants, 124 and 1024. *)
Definition initlog (dev : Z) : K unit :=
  upd (λ k, k <| lg ::= λ l, l <| lg_start := s32 (sb_logstart (sb k)) |> <| lg_dev := dev |> |>);;
  recover_from_log.

(** [while(1)] of begin_op *)
Fixpoint begin_op_loop (fuel : nat) : K unit :=
  match fuel with
  | O => stuck
  | S fuel' =>
      l ← rd lg;
      if lg_committing l then sleep ChLog Llog;; begin_op_loop fuel'
      else if bool_decide (LOGBLOCKS < lh_n l + (lg_outstanding l + 1) * MAXOPBLOCKS)
      then sleep ChLog Llog;; begin_op_loop fuel'
      else upd (λ k, k <| lg ::= λ l, l <| lg_outstanding := lg_outstanding l + 1 |> |>);;
           release Llog
  end.

Definition begin_op : K unit :=
  acquire Llog;;
  begin_op_loop (S sched_bound).

(** One round of write_log. *)
Definition log_block (tail : nat) : K unit :=
  l ← rd lg;
  to ← bread (lg_dev l) (u32 (lg_start l + Z.of_nat tail + 1));
  src ← lh_block_get tail;
  from ← bread (lg_dev l) (u32 src);
  fb ← buf_get from;
  buf_upd to (λ b, b <| b_data := b_data fb |>);;
  bwrite to;;
  brelse from;;
  brelse to.

Definition write_log : K unit :=
  l ← rd lg;
  for_each (Z.to_nat (lh_n l)) 0 log_block.

Definition commit : K unit :=
  l ← rd lg;
  when (bool_decide (0 < lh_n l))
    (write_log;;
     write_head;;
     install_trans false;;
     upd (λ k, k <| lg ::= λ l, l <| lh_n := 0 |> |>);;
     write_head).

Definition end_op : K unit :=
  acquire Llog;;
  upd (λ k, k <| lg ::= λ l, l <| lg_outstanding := lg_outstanding l - 1 |> |>);;
  l ← rd lg;
  if lg_committing l then panic "log.committing" else
  let do_commit := bool_decide (lg_outstanding l = 0) in
  (if do_commit then upd (λ k, k <| lg ::= λ l, l <| lg_committing := true |> |>)
   else wakeup ChLog);;
  release Llog;;
  when do_commit
    (commit;;
     acquire Llog;;
     upd (λ k, k <| lg ::= λ l, l <| lg_committing := false |> |>);;
     wakeup ChLog;;
     release Llog).

(** log_write's search: the first index below n whose block is [bno], or n *)
Fixpoint log_find (bs : list Z) (bno : Z) : nat :=
  match bs with
  | [] => O
  | b :: bs' => if bool_decide (b = bno) then O else S (log_find bs' bno)
  end.

Definition log_write (i : nat) : K unit :=
  acquire Llog;;
  l ← rd lg;
  if bool_decide (LOGBLOCKS <= lh_n l) then panic "too big a transaction" else
  if bool_decide (lg_outstanding l < 1) then panic "log_write outside of trans" else
  b ← buf_get i;
  let j := log_find (take (Z.to_nat (lh_n l)) (lh_block l)) (s32 (b_blockno b)) in
  lh_block_set j (s32 (b_blockno b));;
  when (bool_decide (Z.of_nat j = lh_n l))
    (bpin i;; upd (λ k, k <| lg ::= λ l, l <| lh_n := lh_n l + 1 |> |>));;
  release Llog.
End log.
