(* ===== verification/Virtio.v ===== *)
(** * kernel/virtio_disk.c: the disk driver

    The driver's variables and the queue it shares with the device are [vdisk].
    The device itself is not part of the source: [device_step] is what a virtio
    block device does with the next available request, and [disk_irq] is what
    happens while the driver sleeps: the device serves all requests and then
    interrupts. *)
From S2P Require Import Prelude.
From S2P Require Import Mem.
From S2P Require Import Params.
From S2P Require Import State.
From S2P Require Import Sched.
From S2P Require Import Bio.
#[local] Open Scope Z_scope.

(** ** kernel/virtio.h *)
Definition NUM : nat := 8.
Definition VRING_DESC_F_NEXT : Z := 1.
Definition VRING_DESC_F_WRITE : Z := 2.
Definition VIRTIO_BLK_T_IN : Z := 0.
Definition VIRTIO_BLK_T_OUT : Z := 1.
Definition blk_req_size : Z := 16.

Definition vd_upd (g : vdiskst → vdiskst) : K unit := upd (λ k, k <| vdisk ::= g |>).

Fixpoint first_free (free : list bool) (i : nat) : option nat :=
  match free with
  | [] => None
  | true :: _ => Some i
  | false :: free' => first_free free' (S i)
  end.

Section driver.
Context `{Linker} `{Sched}.

Definition alloc_desc : K Z :=
  v ← rd vdisk;
  match first_free (vq_free v) 0 with
  | Some i => vd_upd (λ v, v <| vq_free := <[i := false]> (vq_free v) |>);; mret (Z.of_nat i)
  | None => mret (-1)
  end.

Definition free_desc (i : Z) : K unit :=
  if bool_decide (Z.of_nat NUM <= i) then panic "free_desc 1" else
  v ← rd vdisk;
  if bool_decide (vq_free v !! Z.to_nat i = Some true) then panic "free_desc 2" else
  vd_upd (λ v, v <| vq_desc := <[Z.to_nat i := VDesc ANone 0 0 0]> (vq_desc v) |>
                 <| vq_free := <[Z.to_nat i := true]> (vq_free v) |>);;
  wakeup ChDiskFree.

(** [while(1)] of free_chain *)
Fixpoint free_chain (fuel : nat) (i : Z) : K unit :=
  match fuel with
  | O => stuck
  | S fuel' =>
      v ← rd vdisk;
      match vq_desc v !! Z.to_nat i with
      | None => fault
      | Some d =>
          free_desc i;;
          if bool_decide (Z.land (vd_flags d) VRING_DESC_F_NEXT ≠ 0) then free_chain fuel' (vd_next d) else mret tt
      end
  end.

Fixpoint free_descs (idx : list Z) : K unit :=
  match idx with [] => mret tt | i :: idx' => free_desc i;; free_descs idx' end.

(** [for(int i = 0; i < 3; i++)]: the descriptors so far are [idx] *)
Fixpoint alloc3_loop (n : nat) (idx : list Z) : K (option (list Z)) :=
  match n with
  | O => mret (Some idx)
  | S n' =>
      i ← alloc_desc;
      if bool_decide (i < 0) then free_descs idx;; mret None else alloc3_loop n' (idx ++ [i])
  end.

Definition alloc3_desc : K (option (list Z)) := alloc3_loop 3 [].

(** The first [while(1)] of virtio_disk_rw *)
Fixpoint alloc3_wait (fuel : nat) : K (list Z) :=
  match fuel with
  | O => stuck
  | S fuel' =>
      r ← alloc3_desc;
      match r with
      | Some idx => mret idx
      | None => sleep ChDiskFree Lvdisk;; alloc3_wait fuel'
      end
  end.

(** [while(b->disk == 1)] *)
Fixpoint disk_wait (fuel : nat) (i : nat) : K unit :=
  match fuel with
  | O => stuck
  | S fuel' =>
      b ← buf_get i;
      if b_disk b then sleep (ChBuf i) Lvdisk;; disk_wait fuel' i else mret tt
  end.

(** Formatting the three descriptors of a request for buffer [i]. *)
Definition format_request (i0 i1 i2 : Z) (i : nat) (write : bool) (sector : Z) : K unit :=
  vd_upd (λ v, v <| vq_ops := <[Z.to_nat i0 := (if write then VIRTIO_BLK_T_OUT else VIRTIO_BLK_T_IN, sector)]> (vq_ops v) |>);;
  vd_upd (λ v, v <| vq_desc := <[Z.to_nat i0 := VDesc (AOps i0) blk_req_size VRING_DESC_F_NEXT i1]> (vq_desc v) |>);;
  vd_upd (λ v, v <| vq_desc := <[Z.to_nat i1 := VDesc (AData i) BSIZE
    (Z.lor (if write then 0 else VRING_DESC_F_WRITE) VRING_DESC_F_NEXT) i2]> (vq_desc v) |>);;
  vd_upd (λ v, v <| vq_info_status := <[Z.to_nat i0 := 255]> (vq_info_status v) |>);;
  vd_upd (λ v, v <| vq_desc := <[Z.to_nat i2 := VDesc (AStatus i0) 1 VRING_DESC_F_WRITE 0]> (vq_desc v) |>).

(** The head of the chain enters the available ring; then the index is
    advanced. *)
Definition submit (i0 : Z) : K unit :=
  vd_upd (λ v, v <| vq_avail_ring := <[Z.to_nat (vq_avail_idx v mod Z.of_nat NUM) := i0]> (vq_avail_ring v) |>);;
  vd_upd (λ v, v <| vq_avail_idx := u16 (vq_avail_idx v + 1) |>).

Definition disk_rw (i : nat) (write : bool) : K unit :=
  b ← buf_get i;
  let sector := u32 (b_blockno b * (BSIZE / 512)) in
  acquire Lvdisk;;
  idx ← alloc3_wait (S sched_bound);
  match idx with
  | [i0; i1; i2] =>
      format_request i0 i1 i2 i write sector;;
      buf_upd i (λ b, b <| b_disk := true |>);;
      vd_upd (λ v, v <| vq_info_b := <[Z.to_nat i0 := Some i]> (vq_info_b v) |>);;
      submit i0;;
      disk_wait (S sched_bound) i;;
      vd_upd (λ v, v <| vq_info_b := <[Z.to_nat i0 := None]> (vq_info_b v) |>);;
      free_chain NUM i0;;
      release Lvdisk
  | _ => fault
  end.

(** [while(disk.used_idx != disk.used->idx)] of virtio_disk_intr *)
Fixpoint intr_loop (fuel : nat) : K unit :=
  match fuel with
  | O => stuck
  | S fuel' =>
      v ← rd vdisk;
      if bool_decide (vq_used_idx v ≠ vq_hw_used v) then
        let id := Z.to_nat (vq_used_ring v !!! Z.to_nat (vq_used_idx v mod Z.of_nat NUM)) in
        if bool_decide (vq_info_status v !! id ≠ Some 0) then panic "virtio_disk_intr status" else
        match vq_info_b v !! id with
        | None | Some None => fault
        | Some (Some i) =>
            buf_upd i (λ b, b <| b_disk := false |>);;
            wakeup (ChBuf i);;
            vd_upd (λ v, v <| vq_used_idx := u16 (vq_used_idx v + 1) |>);;
            intr_loop fuel'
        end
      else mret tt
  end.

Definition virtio_disk_intr : K unit :=
  acquire Lvdisk;;
  v ← rd vdisk;
  intr_loop (S (Z.to_nat (u16 (vq_hw_used v - vq_used_idx v))));;
  release Lvdisk.
End driver.

(** ** The device *)

(** The next available request: the device follows the chain from its head,
    transfers the block and reports the head in the used ring. *)
Definition device_step (r : sys) : sys :=
  let v := vdisk r in
  if bool_decide (vq_avail_idx v = vq_hw_used v) then r else
  let head := vq_avail_ring v !!! Z.to_nat (vq_hw_used v mod Z.of_nat NUM) in
  let desc j := default vdesc0 (vq_desc v !! Z.to_nat j) in
  let d0 := desc head in
  let d1 := desc (vd_next d0) in
  let d2 := desc (vd_next d1) in
  match vd_addr d0, vd_addr d1, vd_addr d2 with
  | AOps k, AData i, AStatus j =>
      let '(type, sector) := default (0, 0) (vq_ops v !! Z.to_nat k) in
      let blk := sector / 2 in
      match bufs r !! i, disk r !! blk with
      | Some b, Some d =>
          let r := r <| vdisk := v <| vq_info_status := <[Z.to_nat j := 0]> (vq_info_status v) |>
                                   <| vq_used_ring := <[Z.to_nat (vq_hw_used v mod Z.of_nat NUM) := head]> (vq_used_ring v) |>
                                   <| vq_hw_used := u16 (vq_hw_used v + 1) |> |> in
          if bool_decide (type = VIRTIO_BLK_T_OUT)
          then r <| disk := <[blk := b_data b]> (disk r) |> <| dtrace := dtrace r ++ [(blk, b_data b)] |>
          else r <| bufs := <[i := b <| b_data := d |>]> (bufs r) |>
      | _, _ => r
      end
  | _, _, _ => r
  end.

(** All pending requests; no more than NUM fit the queue. *)
Fixpoint device_run (n : nat) (r : sys) : sys :=
  match n with O => r | S n' => device_run n' (device_step r) end.

(** While the driver's process is switched out the scheduler holds no lock and
    runs no process; the device completes and its interrupt is handled. *)
Definition disk_irq (s : st sys) : st sys :=
  let r := (device_run NUM (rest s)) <| held := [] |> <| cur := None |> in
  match virtio_disk_intr (St (mem s) r) with Ok _ s' => s' | _ => s end.
