(* ===== verification/Fs.v ===== *)
(** * kernel/fs.c: blocks, inodes, directories and path names

    An inode pointer is an index into [itable].  Path names and path elements are
    byte lists (arrays on the kernel stack); [b_data] of a buffer is the block.  A
    dinode takes 64 bytes of its block, a dirent 16 bytes. *)
From S2P Require Import Prelude.
From S2P Require Import Mem.
From S2P Require Import Params.
From S2P Require Import State.
From S2P Require Import KString.
From S2P Require Import Vm.
From S2P Require Import Sched.
From S2P Require Import Console.
From S2P Require Import Bio.
From S2P Require Import Log.
#[local] Open Scope Z_scope.

(** kernel/stat.h *)
Definition T_DIR : Z := 1.
Definition T_FILE : Z := 2.
Definition T_DEVICE : Z := 3.

(** struct stat, filled in by stati *)
Record stat : Type := Stat { st_dev : Z; st_ino : Z; st_type : Z; st_nlink : Z; st_size : Z }.

Definition IBLOCK (i : Z) (s : superblock) : Z := u32 (i / IPB + sb_inodestart s).
Definition BBLOCK (b : Z) (s : superblock) : Z := u32 (b / BPB + sb_bmapstart s).

Definition dinode_size : Z := 64.
Definition dirent_size : Z := 16.

(** Where inode [inum] starts in its block. *)
Definition dip (inum : Z) : nat := Z.to_nat (inum mod IPB * dinode_size).

(** The fields of struct dinode at offset [o] of a block. *)
Definition di_type (d : list Z) (o : nat) : Z := s16 (get16 d o).
Definition di_major (d : list Z) (o : nat) : Z := s16 (get16 d (o + 2)).
Definition di_minor (d : list Z) (o : nat) : Z := s16 (get16 d (o + 4)).
Definition di_nlink (d : list Z) (o : nat) : Z := s16 (get16 d (o + 6)).
Definition di_size (d : list Z) (o : nat) : Z := get32 d (o + 8).
Definition di_addrs (d : list Z) (o : nat) : list Z :=
  (λ k, get32 d (o + 12 + 4 * k)) <$> seq 0 13.

(** [memmove(dip->addrs, ip->addrs, sizeof(ip->addrs))] *)
Fixpoint put_addrs (d : list Z) (o : nat) (addrs : list Z) : list Z :=
  match addrs with
  | [] => d
  | a :: addrs' => put_addrs (put32 d o a) (o + 4) addrs'
  end.

(** The assignments of iupdate. *)
Definition put_dinode (d : list Z) (o : nat) (ip : inode) : list Z :=
  let d := put16 d o (i_type ip) in
  let d := put16 d (o + 2) (i_major ip) in
  let d := put16 d (o + 4) (i_minor ip) in
  let d := put16 d (o + 6) (i_nlink ip) in
  let d := put32 d (o + 8) (i_size ip) in
  put_addrs d (o + 12) (i_addrs ip).

(** A bit of the free map. *)
Definition bit_mask (bi : Z) : Z := Z.shiftl 1 (bi mod 8).
Definition bit_byte (d : list Z) (bi : Z) : Z := d !!! Z.to_nat (bi / 8).
Definition bit_set (d : list Z) (bi : Z) : list Z :=
  <[Z.to_nat (bi / 8) := u8 (Z.lor (bit_byte d bi) (bit_mask bi))]> d.
Definition bit_clear (d : list Z) (bi : Z) : list Z :=
  <[Z.to_nat (bi / 8) := u8 (Z.land (bit_byte d bi) (Z.lnot (bit_mask bi)))]> d.

Definition ip_get (i : nat) : K inode :=
  t ← rd itable;
  match t !! i with Some ip => mret ip | None => fault end.

Definition ip_upd (i : nat) (g : inode → inode) : K unit :=
  ip ← ip_get i;
  upd (λ k, k <| itable := <[i := g ip]> (itable k) |>).

(** struct superblock at the start of block 1 *)
Definition sb_of (d : list Z) : superblock :=
  SuperBlock (get32 d 0) (get32 d 4) (get32 d 8) (get32 d 12) (get32 d 16) (get32 d 20) (get32 d 24) (get32 d 28).

Section fs.
Context `{Linker} `{Sched} `{BlockDev}.

Definition readsb (dev : Z) : K unit :=
  bp ← bread dev 1;
  b ← buf_get bp;
  upd (λ k, k <| sb := sb_of (b_data b) |>);;
  brelse bp.

Definition bzero (dev bno : Z) : K unit :=
  bp ← bread dev (u32 bno);
  buf_upd bp (λ b, b <| b_data := replicate (Z.to_nat BSIZE) 0 |>);;
  log_write bp;;
  brelse bp.

(** [for(bi = 0; bi < BPB && b + bi < sb.size; bi++)]: the first free bit *)
Fixpoint balloc_scan (fuel : nat) (d : list Z) (b bi size : Z) : option Z :=
  match fuel with
  | O => None
  | S fuel' =>
      if bool_decide (bi < BPB ∧ b + bi < size) then
        if bool_decide (Z.land (bit_byte d bi) (bit_mask bi) = 0) then Some bi
        else balloc_scan fuel' d b (bi + 1) size
      else None
  end.

(** [for(b = 0; b < sb.size; b += BPB)] *)
Fixpoint balloc_loop (fuel : nat) (dev b : Z) : K Z :=
  match fuel with
  | O => stuck
  | S fuel' =>
      s ← rd sb;
      if bool_decide (b < sb_size s) then
        bp ← bread dev (BBLOCK b s);
        d ← buf_get bp;
        match balloc_scan (Z.to_nat BPB) (b_data d) b 0 (sb_size s) with
        | Some bi =>
            buf_upd bp (λ x, x <| b_data := bit_set (b_data x) bi |>);;
            log_write bp;;
            brelse bp;;
            bzero dev (b + bi);;
            mret (b + bi)
        | None => brelse bp;; balloc_loop fuel' dev (b + BPB)
        end
      else printf (str "balloc: out of blocks" ++ [10]) [];; mret 0
  end.

Definition balloc (dev : Z) : K Z :=
  s ← rd sb;
  balloc_loop (S (S (Z.to_nat (sb_size s / BPB)))) dev 0.

Definition bfree (dev b : Z) : K unit :=
  s ← rd sb;
  bp ← bread dev (BBLOCK b s);
  let bi := b mod BPB in
  d ← buf_get bp;
  if bool_decide (Z.land (bit_byte (b_data d) bi) (bit_mask bi) = 0) then panic "freeing free block" else
  buf_upd bp (λ x, x <| b_data := bit_clear (b_data x) bi |>);;
  log_write bp;;
  brelse bp.

(** ** Inodes *)

(** iget's scan of the table: the entry that is found, and the first empty one *)
Fixpoint iget_scan (t : list inode) (i : nat) (dev inum : Z) (empty : option nat) : option nat * option nat :=
  match t with
  | [] => (None, empty)
  | ip :: t' =>
      if bool_decide (0 < i_ref ip ∧ i_dev ip = dev ∧ i_inum ip = inum) then (Some i, empty)
      else iget_scan t' (S i) dev inum
             (if bool_decide (empty = None ∧ i_ref ip = 0) then Some i else empty)
  end.

Definition iget (dev inum : Z) : K nat :=
  acquire Litable;;
  t ← rd itable;
  match iget_scan t 0 dev inum None with
  | (Some i, _) =>
      ip_upd i (λ ip, ip <| i_ref := i_ref ip + 1 |>);;
      release Litable;; mret i
  | (None, Some i) =>
      ip_upd i (λ ip, ip <| i_dev := dev |> <| i_inum := inum |> <| i_ref := 1 |> <| i_valid := false |>);;
      release Litable;; mret i
  | (None, None) => panic "iget: no inodes"
  end.

(** [for(inum = 1; inum < sb.ninodes; inum++)] *)
Fixpoint ialloc_loop (fuel : nat) (dev type inum : Z) : K (option nat) :=
  match fuel with
  | O => stuck
  | S fuel' =>
      s ← rd sb;
      if bool_decide (inum < sb_ninodes s) then
        bp ← bread dev (IBLOCK inum s);
        b ← buf_get bp;
        let o := dip inum in
        if bool_decide (di_type (b_data b) o = 0) then
          (* memset(dip, 0, sizeof( *dip)); dip->type = type; *)
          buf_upd bp (λ b, b <| b_data := put16 (take o (b_data b) ++ replicate 64 0 ++ drop (o + 64) (b_data b)) o type |>);;
          log_write bp;;
          brelse bp;;
          i ← iget dev inum; mret (Some i)
        else brelse bp;; ialloc_loop fuel' dev type (inum + 1)
      else printf (str "ialloc: no inodes" ++ [10]) [];; mret None
  end.

Definition ialloc (dev type : Z) : K (option nat) :=
  s ← rd sb;
  ialloc_loop (S (Z.to_nat (sb_ninodes s))) dev type 1.

Definition iupdate (i : nat) : K unit :=
  ip ← ip_get i;
  s ← rd sb;
  bp ← bread (i_dev ip) (IBLOCK (i_inum ip) s);
  buf_upd bp (λ b, b <| b_data := put_dinode (b_data b) (dip (i_inum ip)) ip |>);;
  log_write bp;;
  brelse bp.

Definition idup (i : nat) : K nat :=
  acquire Litable;;
  ip_upd i (λ ip, ip <| i_ref := i_ref ip + 1 |>);;
  release Litable;;
  mret i.

(** A null inode pointer ([ip == 0]) does not occur here: indices are not null. *)
Definition ilock (i : nat) : K unit :=
  ip ← ip_get i;
  if bool_decide (i_ref ip < 1) then panic "ilock" else
  acquiresleep (SlInode i);;
  ip ← ip_get i;
  if i_valid ip then mret tt else
  s ← rd sb;
  bp ← bread (i_dev ip) (IBLOCK (i_inum ip) s);
  b ← buf_get bp;
  let d := b_data b in let o := dip (i_inum ip) in
  ip_upd i (λ ip, ip <| i_type := di_type d o |> <| i_major := di_major d o |> <| i_minor := di_minor d o |>
                     <| i_nlink := di_nlink d o |> <| i_size := di_size d o |> <| i_addrs := di_addrs d o |>);;
  brelse bp;;
  ip_upd i (λ ip, ip <| i_valid := true |>);;
  ip ← ip_get i;
  if bool_decide (i_type ip = 0) then panic "ilock: no type" else mret tt.

Definition iunlock (i : nat) : K unit :=
  h ← holdingsleep (SlInode i);
  ip ← ip_get i;
  if negb h || bool_decide (i_ref ip < 1) then panic "iunlock" else
  releasesleep (SlInode i).

(** ** Inode content *)

(** The case of a direct block, and of the indirect block itself: allocate the
    block of slot [k] of ip->addrs if it has none. *)
Definition bmap_slot (i : nat) (k : nat) : K Z :=
  ip ← ip_get i;
  let addr := i_addrs ip !!! k in
  if bool_decide (addr = 0) then
    addr ← balloc (i_dev ip);
    if bool_decide (addr = 0) then mret 0 else
    ip_upd i (λ ip, ip <| i_addrs := <[k := addr]> (i_addrs ip) |>);;
    mret addr
  else mret addr.

Definition bmap (i : nat) (bn : Z) : K Z :=
  if bool_decide (bn < NDIRECT) then bmap_slot i (Z.to_nat bn) else
  let bn := u32 (bn - NDIRECT) in
  if bool_decide (bn < NINDIRECT) then
    addr ← bmap_slot i (Z.to_nat NDIRECT);
    if bool_decide (addr = 0) then mret 0 else
    ip ← ip_get i;
    bp ← bread (i_dev ip) addr;
    b ← buf_get bp;
    let addr := get32 (b_data b) (Z.to_nat (4 * bn)) in
    addr ← (if bool_decide (addr = 0) then
              addr ← balloc (i_dev ip);
              when (bool_decide (addr ≠ 0))
                (buf_upd bp (λ b, b <| b_data := put32 (b_data b) (Z.to_nat (4 * bn)) addr |>);;
                 log_write bp);;
              mret addr
            else mret addr);
    brelse bp;;
    mret addr
  else panic "bmap: out of range".

Definition itrunc (i : nat) : K unit :=
  for_each (Z.to_nat NDIRECT) 0 (λ k,
    ip ← ip_get i;
    let a := i_addrs ip !!! k in
    when (bool_decide (a ≠ 0))
      (bfree (i_dev ip) a;; ip_upd i (λ ip, ip <| i_addrs := <[k := 0]> (i_addrs ip) |>)));;
  ip ← ip_get i;
  let ind := i_addrs ip !!! Z.to_nat NDIRECT in
  when (bool_decide (ind ≠ 0))
    (bp ← bread (i_dev ip) ind;
     for_each (Z.to_nat NINDIRECT) 0 (λ j,
       b ← buf_get bp;
       let a := get32 (b_data b) (4 * j) in
       when (bool_decide (a ≠ 0)) (bfree (i_dev ip) a));;
     brelse bp;;
     bfree (i_dev ip) ind;;
     ip_upd i (λ ip, ip <| i_addrs := <[Z.to_nat NDIRECT := 0]> (i_addrs ip) |>));;
  ip_upd i (λ ip, ip <| i_size := 0 |>);;
  iupdate i.

Definition iput (i : nat) : K unit :=
  acquire Litable;;
  ip ← ip_get i;
  when (bool_decide (i_ref ip = 1) && i_valid ip && bool_decide (i_nlink ip = 0))
    (acquiresleep (SlInode i);;
     release Litable;;
     itrunc i;;
     ip_upd i (λ ip, ip <| i_type := 0 |>);;
     iupdate i;;
     ip_upd i (λ ip, ip <| i_valid := false |>);;
     releasesleep (SlInode i);;
     acquire Litable);;
  ip_upd i (λ ip, ip <| i_ref := i_ref ip - 1 |>);;
  release Litable.

Definition iunlockput (i : nat) : K unit := iunlock i;; iput i.

(** [for (int inum = 1; inum < sb.ninodes; inum++)] *)
Fixpoint ireclaim_loop (fuel : nat) (dev inum : Z) : K unit :=
  match fuel with
  | O => stuck
  | S fuel' =>
      s ← rd sb;
      if bool_decide (inum < sb_ninodes s) then
        bp ← bread dev (IBLOCK inum s);
        b ← buf_get bp;
        let o := dip inum in
        ip ← (if bool_decide (di_type (b_data b) o ≠ 0 ∧ di_nlink (b_data b) o = 0) then
                printf (str "ireclaim: orphaned inode %d" ++ [10]) [AInt inum];;
                i ← iget dev inum; mret (Some i)
              else mret None);
        brelse bp;;
        match ip with
        | Some i => begin_op;; ilock i;; iunlock i;; iput i;; end_op
        | None => mret tt
        end;;
        ireclaim_loop fuel' dev (inum + 1)
      else mret tt
  end.

Definition ireclaim (dev : Z) : K unit :=
  s ← rd sb;
  ireclaim_loop (S (Z.to_nat (sb_ninodes s))) dev 1.

Definition fsinit (dev : Z) : K unit :=
  readsb dev;;
  s ← rd sb;
  if bool_decide (sb_magic s ≠ FSMAGIC) then panic "invalid file system" else
  initlog dev;;
  ireclaim dev.

Definition stati (i : nat) : K stat :=
  ip ← ip_get i;
  mret (Stat (s32 (i_dev ip)) (i_inum ip) (i_type ip) (i_nlink ip) (i_size ip)).

(** The number of rounds of the loops of readi and writei: after the first round
    the offset is a multiple of BSIZE. *)
Definition rw_rounds (n : Z) : nat := Z.to_nat (n / BSIZE + 3).

(** [for(tot=0; tot<n; tot+=m, off+=m, dst+=m)]: tot and the bytes copied *)
Fixpoint readi_loop (fuel : nat) (i : nat) (dst : dstbuf) (off n tot : Z) (acc : list Z) : K (Z * list Z) :=
  match fuel with
  | O => stuck
  | S fuel' =>
      if bool_decide (tot < n) then
        addr ← bmap i (off / BSIZE);
        if bool_decide (addr = 0) then mret (tot, acc) else
        ip ← ip_get i;
        bp ← bread (i_dev ip) addr;
        let m := Z.min (n - tot) (BSIZE - off mod BSIZE) in
        b ← buf_get bp;
        let bs := take (Z.to_nat m) (drop (Z.to_nat (off mod BSIZE)) (b_data b)) in
        rc ← either_copyout dst bs;
        if bool_decide (rc = -1) then brelse bp;; mret (-1, acc) else
        brelse bp;;
        readi_loop fuel' i (dst_add dst m) (u32 (off + m)) n (tot + m) (acc ++ bs)
      else mret (tot, acc)
  end.

(** The return value and, for a local destination, its contents. *)
Definition readi (i : nat) (dst : dstbuf) (off n : Z) : K (Z * list Z) :=
  ip ← ip_get i;
  if bool_decide (i_size ip < off ∨ u32 (off + n) < off) then mret (0, []) else
  let n := if bool_decide (i_size ip < u32 (off + n)) then u32 (i_size ip - off) else n in
  '(tot, bs) ← readi_loop (rw_rounds n) i dst off n 0 [];
  mret (s32 tot, bs).

(** [bs] stored into [d] at [o]. *)
Definition splice (d : list Z) (o : nat) (bs : list Z) : list Z := take o d ++ bs ++ drop (o + length bs) d.

(** tot and off at the end of the loop.  When the copy fails what it has stored so
    far stays in the buffer. *)
Fixpoint writei_loop (fuel : nat) (i : nat) (src : srcbuf) (off n tot : Z) : K (Z * Z) :=
  match fuel with
  | O => stuck
  | S fuel' =>
      if bool_decide (tot < n) then
        addr ← bmap i (off / BSIZE);
        if bool_decide (addr = 0) then mret (tot, off) else
        ip ← ip_get i;
        bp ← bread (i_dev ip) addr;
        let m := Z.min (n - tot) (BSIZE - off mod BSIZE) in
        '(rc, bs) ← either_copyin src (Z.to_nat m);
        buf_upd bp (λ b, b <| b_data := splice (b_data b) (Z.to_nat (off mod BSIZE)) bs |>);;
        if bool_decide (rc = -1) then brelse bp;; mret (tot, off) else
        log_write bp;;
        brelse bp;;
        writei_loop fuel' i (src_add src m) (u32 (off + m)) n (tot + m)
      else mret (tot, off)
  end.

Definition writei (i : nat) (src : srcbuf) (off n : Z) : K Z :=
  ip ← ip_get i;
  if bool_decide (i_size ip < off ∨ u32 (off + n) < off) then mret (-1) else
  if bool_decide (MAXFILE * BSIZE < u32 (off + n)) then mret (-1) else
  '(tot, off') ← writei_loop (rw_rounds n) i src off n 0;
  ip ← ip_get i;
  when (bool_decide (i_size ip < off')) (ip_upd i (λ ip, ip <| i_size := off' |>));;
  iupdate i;;
  mret (s32 tot).

(** ** Directories *)
Definition namecmp (s t : list Z) : Z := strncmp_l s t (Z.to_nat DIRSIZ).

(** struct dirent: inum and name *)
Definition de_inum (de : list Z) : Z := get16 de 0.
Definition de_name (de : list Z) : list Z := take (Z.to_nat DIRSIZ) (drop 2 de).
Definition dirent (inum : Z) (name : list Z) : list Z := le_split 2 inum ++ name.

(** [for(off = 0; off < dp->size; off += sizeof(de))] of dirlookup: the entry's
    inode and offset *)
Fixpoint dirlookup_loop (fuel : nat) (dp : nat) (name : list Z) (off : Z) : K (option (nat * Z)) :=
  match fuel with
  | O => stuck
  | S fuel' =>
      ip ← ip_get dp;
      if bool_decide (off < i_size ip) then
        '(rc, de) ← readi dp DLocal off dirent_size;
        if bool_decide (rc ≠ dirent_size) then panic "dirlookup read" else
        if bool_decide (de_inum de = 0) then dirlookup_loop fuel' dp name (u32 (off + dirent_size)) else
        if bool_decide (namecmp name (de_name de) = 0) then
          ip ← ip_get dp;
          i ← iget (i_dev ip) (de_inum de);
          mret (Some (i, off))
        else dirlookup_loop fuel' dp name (u32 (off + dirent_size))
      else mret None
  end.

Definition dirlookup (dp : nat) (name : list Z) : K (option (nat * Z)) :=
  ip ← ip_get dp;
  if bool_decide (i_type ip ≠ T_DIR) then panic "dirlookup not DIR" else
  dirlookup_loop (S (S (Z.to_nat (i_size ip / dirent_size)))) dp name 0.

(** dirlink's search for an empty entry: the offset *)
Fixpoint dirlink_loop (fuel : nat) (dp : nat) (off : Z) : K Z :=
  match fuel with
  | O => stuck
  | S fuel' =>
      ip ← ip_get dp;
      if bool_decide (off < i_size ip) then
        '(rc, de) ← readi dp DLocal off dirent_size;
        if bool_decide (rc ≠ dirent_size) then panic "dirlink read" else
        if bool_decide (de_inum de = 0) then mret off else dirlink_loop fuel' dp (off + dirent_size)
      else mret off
  end.

Definition dirlink (dp : nat) (name : list Z) (inum : Z) : K Z :=
  r ← dirlookup dp name;
  match r with
  | Some (i, _) => iput i;; mret (-1)
  | None =>
      ip ← ip_get dp;
      off ← dirlink_loop (S (S (Z.to_nat (i_size ip / dirent_size)))) dp 0;
      let de := dirent (u16 inum) (strncpy_l name (Z.to_nat DIRSIZ)) in
      rc ← writei dp (SLocal de) off dirent_size;
      if bool_decide (rc ≠ dirent_size) then mret (-1) else mret 0
  end.

(** ** Paths *)
Definition slash : Z := 47.

(** [while( *path == '/') path++] *)
Fixpoint skip_slashes (path : list Z) : list Z :=
  match path with
  | c :: path' => if bool_decide (c = slash) then skip_slashes path' else path
  | [] => []
  end.

(** [while( *path != '/' && *path != 0) path++]: what is passed over, and the rest *)
Fixpoint take_elem (path : list Z) : list Z * list Z :=
  match path with
  | c :: path' =>
      if bool_decide (c = slash) then ([], path)
      else let '(s, rest) := take_elem path' in (c :: s, rest)
  | [] => ([], [])
  end.

(** [path] is the string without its NUL, [name] the DIRSIZ bytes at name; the
    result is the rest of the path and the new contents of name. *)
Definition skipelem (path name : list Z) : option (list Z * list Z) :=
  match skip_slashes path with
  | [] => None
  | p =>
      let '(s, rest) := take_elem p in
      let name' :=
        if bool_decide (DIRSIZ <= Z.of_nat (length s)) then take (Z.to_nat DIRSIZ) s
        else s ++ [0] ++ drop (S (length s)) name in
      Some (skip_slashes rest, name')
  end.

(** [while((path = skipelem(path, name)) != 0)] *)
Fixpoint namex_loop (fuel : nat) (ip : nat) (path : list Z) (nameiparent : bool) (name : list Z) :
    K (option nat * list Z) :=
  match fuel with
  | O => stuck
  | S fuel' =>
      match skipelem path name with
      | None => if nameiparent then iput ip;; mret (None, name) else mret (Some ip, name)
      | Some (path', name') =>
          ilock ip;;
          x ← ip_get ip;
          if bool_decide (i_type x ≠ T_DIR) then iunlockput ip;; mret (None, name') else
          if nameiparent && bool_decide (path' = []) then iunlock ip;; mret (Some ip, name') else
          r ← dirlookup ip name';
          match r with
          | None => iunlockput ip;; mret (None, name')
          | Some (next, _) => iunlockput ip;; namex_loop fuel' next path' nameiparent name'
          end
      end
  end.

Definition namex (path : list Z) (nameiparent : bool) (name : list Z) : K (option nat * list Z) :=
  ip ← (if bool_decide (head path = Some slash) then iget ROOTDEV ROOTINO
        else i ← the_proc; p ← proc_get i;
             match p_cwd p with Some c => idup c | None => fault end);
  namex_loop (S (length path)) ip path nameiparent name.

(** The uninitialised [char name[DIRSIZ]] of namei. *)
Definition name0 : list Z := replicate (Z.to_nat DIRSIZ) 0.

Definition namei (path : list Z) : K (option nat) :=
  '(r, _) ← namex path false name0; mret r.

Definition nameiparent (path name : list Z) : K (option nat * list Z) := namex path true name.
End fs.
