(* ===== verification/File.v ===== *)
(** * kernel/pipe.c and kernel/file.c: pipes and open files

    A file pointer is an index into [ftable].  The struct pipe that pipealloc puts
    in a page of memory is kept in [pipes], under the address of the page. *)
From S2P Require Import Prelude.
From S2P Require Import Mem.
From S2P Require Import Params.
From S2P Require Import State.
From S2P Require Import Kalloc.
From S2P Require Import Vm.
From S2P Require Import Sched.
From S2P Require Import Console.
From S2P Require Import Bio.
From S2P Require Import Log.
From S2P Require Import Fs.
#[local] Open Scope Z_scope.

Definition PIPESIZE : Z := 512.
Definition CONSOLE : Z := 1.

Definition pi_get (pa : Z) : K pipe :=
  ps ← rd pipes;
  match ps !! pa with Some pi => mret pi | None => fault end.

Definition pi_upd (pa : Z) (g : pipe → pipe) : K unit :=
  pi ← pi_get pa;
  upd (λ k, k <| pipes := <[pa := g pi]> (pipes k) |>).

Definition f_get (f : nat) : K file :=
  t ← rd ftable;
  match t !! f with Some x => mret x | None => fault end.

Definition f_upd (f : nat) (g : file → file) : K unit :=
  x ← f_get f;
  upd (λ k, k <| ftable := <[f := g x]> (ftable k) |>).

(** The bytes of struct stat; 4 bytes before the 8-byte aligned size are padding
    that stati does not set. *)
Definition stat_bytes (pad : list Z) (st : stat) : list Z :=
  le_split 4 (st_dev st) ++ le_split 4 (st_ino st) ++ le_split 2 (st_type st) ++ le_split 2 (st_nlink st) ++
  pad ++ le_split 8 (st_size st).

Section file.
Context `{Linker} `{Sched} `{BlockDev}.

(** ** kernel/pipe.c *)
Definition pipeclose (pi : Z) (writable : bool) : K unit :=
  acquire (Lpipe pi);;
  (if writable
   then pi_upd pi (λ p, p <| pi_writeopen := false |>);; wakeup (ChPipeR pi)
   else pi_upd pi (λ p, p <| pi_readopen := false |>);; wakeup (ChPipeW pi));;
  p ← pi_get pi;
  if negb (pi_readopen p) && negb (pi_writeopen p) then
    release (Lpipe pi);;
    upd (λ k, k <| pipes := delete pi (pipes k) |>);;
    kfree pi
  else release (Lpipe pi).

(** [while(i < n)] of pipewrite: [None] when it returns -1 from inside the loop.
    Each round stores a byte or sleeps. *)
Fixpoint pipewrite_loop (fuel : nat) (pi addr n i : Z) : K (option Z) :=
  match fuel with
  | O => stuck
  | S fuel' =>
      if bool_decide (i < n) then
        pr ← the_proc;
        p ← pi_get pi;
        k ← (if pi_readopen p then killed pr else mret 1);
        if bool_decide (k ≠ 0) then release (Lpipe pi);; mret None else
        p ← pi_get pi;
        if bool_decide (pi_nwrite p = u32 (pi_nread p + PIPESIZE)) then
          wakeup (ChPipeR pi);;
          sleep (ChPipeW pi) (Lpipe pi);;
          pipewrite_loop fuel' pi addr n i
        else
          q ← proc_get pr;
          '(rc, ch) ← copyin (p_pagetable q) (u64 (addr + i)) 1;
          if bool_decide (rc = -1) then mret (Some i) else
          pi_upd pi (λ p, p <| pi_data := <[Z.to_nat (pi_nwrite p mod PIPESIZE) := ch !!! 0%nat]> (pi_data p) |>
                            <| pi_nwrite := u32 (pi_nwrite p + 1) |>);;
          pipewrite_loop fuel' pi addr n (i + 1)
      else mret (Some i)
  end.

Definition pipewrite (pi addr n : Z) : K Z :=
  acquire (Lpipe pi);;
  r ← pipewrite_loop (S (Z.to_nat n + sched_bound)) pi addr n 0;
  match r with
  | None => mret (-1)
  | Some i => wakeup (ChPipeR pi);; release (Lpipe pi);; mret i
  end.

(** [while(pi->nread == pi->nwrite && pi->writeopen)] of piperead; true when the
    process was killed *)
Fixpoint piperead_wait (fuel : nat) (pi : Z) : K bool :=
  match fuel with
  | O => stuck
  | S fuel' =>
      p ← pi_get pi;
      if bool_decide (pi_nread p = pi_nwrite p) && pi_writeopen p then
        pr ← the_proc;
        k ← killed pr;
        if bool_decide (k ≠ 0) then release (Lpipe pi);; mret true else
        sleep (ChPipeR pi) (Lpipe pi);; piperead_wait fuel' pi
      else mret false
  end.

(** [for(i = 0; i < n; i++)] of piperead *)
Fixpoint piperead_loop (fuel : nat) (pi addr n i : Z) : K Z :=
  match fuel with
  | O => stuck
  | S fuel' =>
      if bool_decide (i < n) then
        p ← pi_get pi;
        if bool_decide (pi_nread p = pi_nwrite p) then mret i else
        let ch := pi_data p !!! Z.to_nat (pi_nread p mod PIPESIZE) in
        pi_upd pi (λ p, p <| pi_nread := u32 (pi_nread p + 1) |>);;
        pr ← the_proc;
        q ← proc_get pr;
        rc ← copyout (p_pagetable q) (u64 (addr + i)) [ch];
        if bool_decide (rc = -1) then mret i else
        piperead_loop fuel' pi addr n (i + 1)
      else mret i
  end.

Definition piperead (pi addr n : Z) : K Z :=
  acquire (Lpipe pi);;
  dead ← piperead_wait (S sched_bound) pi;
  if dead : bool then mret (-1) else
  i ← piperead_loop (S (Z.to_nat n)) pi addr n 0;
  wakeup (ChPipeW pi);;
  release (Lpipe pi);;
  mret i.

(** ** kernel/file.c *)
Definition filealloc : K (option nat) :=
  acquire Lftable;;
  r ← for_ NFILE 0 (λ f,
    x ← f_get f;
    if bool_decide (f_ref x = 0) then
      f_upd f (λ x, x <| f_ref := 1 |>);; release Lftable;; mret (Some f)
    else mret None);
  match r with
  | Some f => mret (Some f)
  | None => release Lftable;; mret None
  end.

Definition filedup (f : nat) : K nat :=
  acquire Lftable;;
  x ← f_get f;
  if bool_decide (f_ref x < 1) then panic "filedup" else
  f_upd f (λ x, x <| f_ref := f_ref x + 1 |>);;
  release Lftable;;
  mret f.

Definition fileclose (f : nat) : K unit :=
  acquire Lftable;;
  x ← f_get f;
  if bool_decide (f_ref x < 1) then panic "fileclose" else
  f_upd f (λ x, x <| f_ref := f_ref x - 1 |>);;
  ff ← f_get f;
  if bool_decide (0 < f_ref ff) then release Lftable else
  f_upd f (λ x, x <| f_ref := 0 |> <| f_type := FD_NONE |>);;
  release Lftable;;
  match f_type ff with
  | FD_PIPE => pipeclose (f_pipe ff) (f_writable ff)
  | FD_INODE | FD_DEVICE => begin_op;; iput (f_ip ff);; end_op
  | FD_NONE => mret tt
  end.

(** The return value and the two files; pi->data keeps what kalloc filled the
    page with. *)
Definition pipealloc : K (option (nat * nat)) :=
  f0 ← filealloc;
  f1 ← (match f0 with Some _ => filealloc | None => mret None end);
  pi ← (match f1 with Some _ => kalloc | None => mret 0 end);
  match f0, f1 with
  | Some f0, Some f1 =>
      if bool_decide (pi ≠ 0) then
        upd (λ k, k <| pipes := <[pi := Pipe (replicate (Z.to_nat PIPESIZE) 5) 0 0 true true]> (pipes k) |>);;
        f_upd f0 (λ x, x <| f_type := FD_PIPE |> <| f_readable := true |> <| f_writable := false |> <| f_pipe := pi |>);;
        f_upd f1 (λ x, x <| f_type := FD_PIPE |> <| f_readable := false |> <| f_writable := true |> <| f_pipe := pi |>);;
        mret (Some (f0, f1))
      else fileclose f0;; fileclose f1;; mret None
  | Some f0, None => fileclose f0;; mret None
  | None, _ => mret None
  end.

(** [pad] is what the kernel stack held in the padding of st. *)
Definition filestat (pad : list Z) (f : nat) (addr : Z) : K Z :=
  x ← f_get f;
  match f_type x with
  | FD_INODE | FD_DEVICE =>
      ilock (f_ip x);;
      st ← stati (f_ip x);
      iunlock (f_ip x);;
      i ← the_proc; p ← proc_get i;
      rc ← copyout (p_pagetable p) addr (stat_bytes pad st);
      if bool_decide (rc < 0) then mret (-1) else mret 0
  | _ => mret (-1)
  end.

(** devsw[f->major].read and .write: consoleinit installs the only driver. *)
Definition fileread (f : nat) (addr n : Z) : K Z :=
  x ← f_get f;
  if negb (f_readable x) then mret (-1) else
  match f_type x with
  | FD_PIPE => piperead (f_pipe x) addr n
  | FD_DEVICE =>
      if bool_decide (f_major x < 0 ∨ NDEV <= f_major x ∨ f_major x ≠ CONSOLE) then mret (-1)
      else consoleread (DUser addr) n
  | FD_INODE =>
      ilock (f_ip x);;
      x ← f_get f;
      '(r, _) ← readi (f_ip x) (DUser addr) (f_off x) (u32 n);
      when (bool_decide (0 < r)) (f_upd f (λ x, x <| f_off := u32 (f_off x + r) |>));;
      iunlock (f_ip x);;
      mret r
  | FD_NONE => panic "fileread"
  end.

Definition filewrite_max : Z := (MAXOPBLOCKS - 1 - 1 - 2) / 2 * BSIZE.

(** [while(i < n)] of filewrite: the value of i on leaving it *)
Fixpoint filewrite_loop (fuel : nat) (f : nat) (addr n i : Z) : K Z :=
  match fuel with
  | O => stuck
  | S fuel' =>
      if bool_decide (i < n) then
        let n1 := Z.min (n - i) filewrite_max in
        begin_op;;
        x ← f_get f;
        ilock (f_ip x);;
        x ← f_get f;
        r ← writei (f_ip x) (SUser (u64 (addr + i))) (f_off x) n1;
        when (bool_decide (0 < r)) (f_upd f (λ x, x <| f_off := u32 (f_off x + r) |>));;
        iunlock (f_ip x);;
        end_op;;
        if bool_decide (r ≠ n1) then mret i else filewrite_loop fuel' f addr n (i + r)
      else mret i
  end.

Definition filewrite (f : nat) (addr n : Z) : K Z :=
  x ← f_get f;
  if negb (f_writable x) then mret (-1) else
  match f_type x with
  | FD_PIPE => pipewrite (f_pipe x) addr n
  | FD_DEVICE =>
      if bool_decide (f_major x < 0 ∨ NDEV <= f_major x ∨ f_major x ≠ CONSOLE) then mret (-1)
      else consolewrite (SUser addr) n
  | FD_INODE =>
      i ← filewrite_loop (S (Z.to_nat (n / filewrite_max + 1))) f addr n 0;
      mret (if bool_decide (i = n) then n else -1)
  | FD_NONE => panic "filewrite"
  end.
End file.
