(* ===== verification/Proc.v ===== *)
(** * kernel/proc.c: creating, reproducing and ending processes

    A process pointer is an index into [procs]; the trapframe is a page of memory
    at [p_trapframe].  [TextSyms] are the addresses of kernel functions that the
    code stores in data structures. *)
From S2P Require Import Prelude.
From S2P Require Import Mem.
From S2P Require Import Params.
From S2P Require Import State.
From S2P Require Import KString.
From S2P Require Import Kalloc.
From S2P Require Import Vm.
From S2P Require Import Sched.
From S2P Require Import Bio.
From S2P Require Import Log.
From S2P Require Import Fs.
From S2P Require Import File.
#[local] Open Scope Z_scope.

Class TextSyms := {
  forkret_sym : Z;
  usertrap_sym : Z;
  kernelvec_sym : Z;
  uservec_off : Z;     (* uservec - trampoline *)
  userret_off : Z      (* userret - trampoline *)
}.

(** sizeof(struct trapframe) and the offsets of its fields *)
Definition trapframe_size : nat := 288.
Definition tf_kernel_satp : Z := 0.
Definition tf_kernel_sp : Z := 8.
Definition tf_kernel_trap : Z := 16.
Definition tf_epc : Z := 24.
Definition tf_kernel_hartid : Z := 32.
Definition tf_sp : Z := 48.
Definition tf_a (n : Z) : Z := 112 + 8 * n.

Section proc.
Context `{Linker} `{Sched} `{BlockDev} `{TextSyms}.

Definition procinit : K unit :=
  for_each NPROC 0 (λ i,
    proc_upd i (λ p, p <| p_state := UNUSED |> <| p_kstack := KSTACK (Z.of_nat i) |>)).

Definition allocpid : K Z :=
  acquire Lpid;;
  pid ← rd nextpid;
  upd (λ k, k <| nextpid := nextpid k + 1 |>);;
  release Lpid;;
  mret pid.

Definition proc_pagetable (i : nat) : K Z :=
  p ← proc_get i;
  pagetable ← uvmcreate;
  if bool_decide (pagetable = 0) then mret 0 else
  rc ← mappages pagetable TRAMPOLINE PGSIZE trampoline_sym (Z.lor PTE_R PTE_X);
  if bool_decide (rc < 0) then uvmfree pagetable 0;; mret 0 else
  rc ← mappages pagetable TRAPFRAME PGSIZE (p_trapframe p) (Z.lor PTE_R PTE_W);
  if bool_decide (rc < 0) then
    uvmunmap pagetable TRAMPOLINE 1 false;;
    uvmfree pagetable 0;;
    mret 0
  else mret pagetable.

Definition proc_freepagetable (pagetable sz : Z) : K unit :=
  uvmunmap pagetable TRAMPOLINE 1 false;;
  uvmunmap pagetable TRAPFRAME 1 false;;
  uvmfree pagetable sz.

Definition freeproc (i : nat) : K unit :=
  p ← proc_get i;
  when (bool_decide (p_trapframe p ≠ 0)) (kfree (p_trapframe p));;
  proc_upd i (λ p, p <| p_trapframe := 0 |>);;
  when (bool_decide (p_pagetable p ≠ 0)) (proc_freepagetable (p_pagetable p) (p_sz p));;
  proc_upd i (λ p, p <| p_pagetable := 0 |> <| p_sz := 0 |> <| p_pid := 0 |> <| p_parent := None |>
                     <| p_name := <[0%nat := 0]> (p_name p) |> <| p_chan := None |> <| p_killed := 0 |>
                     <| p_xstate := 0 |> <| p_state := UNUSED |>).

(** The search for an UNUSED slot; the slot that is found stays locked. *)
Definition find_unused : K (option nat) :=
  for_ NPROC 0 (λ i,
    acquire (Lproc i);;
    p ← proc_get i;
    if bool_decide (p_state p = UNUSED) then mret (Some i)
    else release (Lproc i);; mret None).

Definition allocproc : K (option nat) :=
  u ← find_unused;
  match u with
  | None => mret None
  | Some i =>
      pid ← allocpid;
      proc_upd i (λ p, p <| p_pid := pid |> <| p_state := USED |>);;
      tf ← kalloc;
      proc_upd i (λ p, p <| p_trapframe := tf |>);;
      if bool_decide (tf = 0) then freeproc i;; release (Lproc i);; mret None else
      pagetable ← proc_pagetable i;
      proc_upd i (λ p, p <| p_pagetable := pagetable |>);;
      if bool_decide (pagetable = 0) then freeproc i;; release (Lproc i);; mret None else
      proc_upd i (λ p, p <| p_context := Context forkret_sym (p_kstack p + PGSIZE) (replicate 12 0) |>);;
      mret (Some i)
  end.

(** allocproc cannot fail this early; a null result would be dereferenced. *)
Definition userinit : K unit :=
  u ← allocproc;
  upd (λ k, k <| initproc := u |>);;
  match u with
  | None => fault
  | Some i =>
      cwd ← namei [slash];
      proc_upd i (λ p, p <| p_cwd := cwd |>);;
      proc_upd i (λ p, p <| p_state := RUNNABLE |>);;
      release (Lproc i)
  end.

Definition growproc (n : Z) : K Z :=
  i ← the_proc;
  p ← proc_get i;
  if bool_decide (0 < n) then
    sz ← uvmalloc (p_pagetable p) (p_sz p) (u64 (p_sz p + n)) PTE_W;
    if bool_decide (sz = 0) then mret (-1) else
    proc_upd i (λ p, p <| p_sz := sz |>);; mret 0
  else if bool_decide (n < 0) then
    sz ← uvmdealloc (p_pagetable p) (p_sz p) (u64 (p_sz p + n));
    proc_upd i (λ p, p <| p_sz := sz |>);; mret 0
  else mret 0.

(** [for(i = 0; i < NOFILE; i++)] of kfork *)
Definition dup_files (i np : nat) : K unit :=
  for_each NOFILE 0 (λ fd,
    p ← proc_get i;
    match p_ofile p !!! fd with
    | Some f => f' ← filedup f; proc_upd np (λ q, q <| p_ofile := <[fd := Some f']> (p_ofile q) |>)
    | None => mret tt
    end).

Definition kfork : K Z :=
  i ← the_proc;
  u ← allocproc;
  match u with
  | None => mret (-1)
  | Some np =>
      p ← proc_get i;
      q ← proc_get np;
      rc ← uvmcopy (p_pagetable p) (p_pagetable q) (p_sz p);
      if bool_decide (rc < 0) then freeproc np;; release (Lproc np);; mret (-1) else
      proc_upd np (λ q, q <| p_sz := p_sz p |>);;
      memmove (p_trapframe q) (p_trapframe p) trapframe_size;;
      store64 (p_trapframe q + tf_a 0) 0;;
      dup_files i np;;
      cwd ← (match p_cwd p with Some c => idup c | None => fault end);
      proc_upd np (λ q, q <| p_cwd := Some cwd |> <| p_name := safestrcpy_l (p_name q) (p_name p) 16 |>);;
      q ← proc_get np;
      let pid := p_pid q in
      release (Lproc np);;
      acquire Lwait;;
      proc_upd np (λ q, q <| p_parent := Some i |>);;
      release Lwait;;
      acquire (Lproc np);;
      proc_upd np (λ q, q <| p_state := RUNNABLE |>);;
      release (Lproc np);;
      mret pid
  end.

Definition reparent (i : nat) : K unit :=
  for_each NPROC 0 (λ j,
    pp ← proc_get j;
    when (bool_decide (p_parent pp = Some i))
      (ip ← rd initproc;
       proc_upd j (λ pp, pp <| p_parent := ip |>);;
       match ip with Some k => wakeup (ChProc k) | None => mret tt end)).

(** [for(int fd = 0; fd < NOFILE; fd++)] of kexit *)
Definition close_files (i : nat) : K unit :=
  for_each NOFILE 0 (λ fd,
    p ← proc_get i;
    match p_ofile p !!! fd with
    | Some f => fileclose f;; proc_upd i (λ p, p <| p_ofile := <[fd := None]> (p_ofile p) |>)
    | None => mret tt
    end).

(** kexit until it calls sched: the process is a zombie and only its own lock is
    held. *)
Definition kexit_zombie (status : Z) : K unit :=
  i ← the_proc;
  ip ← rd initproc;
  if bool_decide (ip = Some i) then panic "init exiting" else
  close_files i;;
  begin_op;;
  p ← proc_get i;
  match p_cwd p with Some c => iput c | None => fault end;;
  end_op;;
  proc_upd i (λ p, p <| p_cwd := None |>);;
  acquire Lwait;;
  reparent i;;
  p ← proc_get i;
  match p_parent p with Some k => wakeup (ChProc k) | None => mret tt end;;
  acquire (Lproc i);;
  proc_upd i (λ p, p <| p_xstate := status |> <| p_state := ZOMBIE |>);;
  release Lwait.

Definition kexit (status : Z) : K unit :=
  kexit_zombie status;;
  sched;;
  panic "zombie exit".

(** kwait's scan of the table from [j] on: [inl] the value it returns, or [inr]
    havekids. *)
Fixpoint kwait_scan (n j : nat) (i : nat) (addr : Z) (havekids : bool) : K (Z + bool) :=
  match n with
  | O => mret (inr havekids)
  | S n' =>
      pp ← proc_get j;
      if bool_decide (p_parent pp = Some i) then
        acquire (Lproc j);;
        pp ← proc_get j;
        if bool_decide (p_state pp = ZOMBIE) then
          let pid := p_pid pp in
          p ← proc_get i;
          rc ← (if bool_decide (addr ≠ 0) then copyout (p_pagetable p) addr (le_split 4 (p_xstate pp)) else mret 0);
          if bool_decide (rc < 0) then release (Lproc j);; release Lwait;; mret (inl (-1)) else
          freeproc j;;
          release (Lproc j);;
          release Lwait;;
          mret (inl pid)
        else release (Lproc j);; kwait_scan n' (S j) i addr true
      else kwait_scan n' (S j) i addr havekids
  end.

(** [for(;;)] of kwait *)
Fixpoint kwait_loop (fuel : nat) (i : nat) (addr : Z) : K Z :=
  match fuel with
  | O => stuck
  | S fuel' =>
      r ← kwait_scan NPROC 0 i addr false;
      match r with
      | inl rc => mret rc
      | inr havekids =>
          k ← (if (havekids : bool) then killed i else mret 1);
          if bool_decide (k ≠ 0) then release Lwait;; mret (-1) else
          sleep (ChProc i) Lwait;;
          kwait_loop fuel' i addr
      end
  end.

Definition kwait (addr : Z) : K Z :=
  i ← the_proc;
  acquire Lwait;;
  kwait_loop (S sched_bound) i addr.
End proc.
