(* ===== verification/Exec.v ===== *)
(** * kernel/exec.c

    The program's argument strings are pages that sys_exec allocated, or string
    constants of the kernel (in forkret). *)
From S2P Require Import Prelude.
From S2P Require Import Mem.
From S2P Require Import Params.
From S2P Require Import State.
From S2P Require Import KString.
From S2P Require Import Kalloc.
From S2P Require Import Vm.
From S2P Require Import Sched.
From S2P Require Import Bio.
From S2P Require Import Log.
From S2P Require Import Fs.
From S2P Require Import File.
From S2P Require Import Proc.
#[local] Open Scope Z_scope.

(** ** kernel/elf.h *)
Definition ELF_MAGIC : Z := 1179403647.
Definition ELF_PROG_LOAD : Z := 1.
Definition elfhdr_size : Z := 64.
Definition proghdr_size : Z := 56.
Definition elf_magic (d : list Z) : Z := get32 d 0.
Definition elf_entry (d : list Z) : Z := get_le 8 d 24.
Definition elf_phoff (d : list Z) : Z := get_le 8 d 32.
Definition elf_phnum (d : list Z) : Z := get16 d 56.
Definition ph_type (d : list Z) : Z := get32 d 0.
Definition ph_flags (d : list Z) : Z := get32 d 4.
Definition ph_off (d : list Z) : Z := get_le 8 d 8.
Definition ph_vaddr (d : list Z) : Z := get_le 8 d 16.
Definition ph_filesz (d : list Z) : Z := get_le 8 d 32.
Definition ph_memsz (d : list Z) : Z := get_le 8 d 40.

Definition flags2perm (flags : Z) : Z :=
  let perm := if bool_decide (Z.land flags 1 ≠ 0) then PTE_X else 0 in
  if bool_decide (Z.land flags 2 ≠ 0) then Z.lor perm PTE_W else perm.

(** A string argument: a page, or a constant. *)
Inductive karg : Type := KPage (pa : Z) | KConst (s : list Z).

(** The path after its last '/' ([last]). *)
Fixpoint last_elem (last path : list Z) : list Z :=
  match path with
  | [] => last
  | c :: path' => if bool_decide (c = slash) then last_elem path' path' else last_elem last path'
  end.

Section exec.
Context `{Linker} `{Sched} `{BlockDev} `{TextSyms}.

(** The characters of the string, without the NUL. *)
Definition karg_str (a : karg) : K (list Z) :=
  match a with
  | KPage pa => n ← strlen PGSIZEn pa; load_bytes (Z.to_nat n) pa
  | KConst s => mret s
  end.

(** [for(i = 0; i < sz; i += PGSIZE)] of loadseg *)
Fixpoint loadseg_loop (fuel : nat) (pagetable va : Z) (ip : nat) (offset sz i : Z) : K Z :=
  match fuel with
  | O => stuck
  | S fuel' =>
      if bool_decide (i < sz) then
        pa ← walkaddr pagetable (u64 (va + i));
        if bool_decide (pa = 0) then panic "loadseg: address should exist" else
        let n := if bool_decide (sz - i < PGSIZE) then sz - i else PGSIZE in
        '(r, _) ← readi ip (DPhys pa) (u32 (offset + i)) n;
        if bool_decide (r ≠ n) then mret (-1)
        else loadseg_loop fuel' pagetable va ip offset sz (u32 (i + PGSIZE))
      else mret 0
  end.

Definition loadseg (pagetable va : Z) (ip : nat) (offset sz : Z) : K Z :=
  loadseg_loop (S (S (Z.to_nat (sz / PGSIZE)))) pagetable va ip offset sz 0.

(** [for(i=0, off=elf.phoff; i<elf.phnum; i++, off+=sizeof(ph))]: sz at the end,
    with true when the loop ran to its end and false when it jumped to bad *)
Fixpoint load_program (n : nat) (pagetable : Z) (ip : nat) (off sz : Z) : K (bool * Z) :=
  match n with
  | O => mret (true, sz)
  | S n' =>
      '(r, ph) ← readi ip DLocal (u32 off) proghdr_size;
      if bool_decide (r ≠ proghdr_size) then mret (false, sz) else
      if bool_decide (ph_type ph ≠ ELF_PROG_LOAD) then load_program n' pagetable ip (s32 (off + proghdr_size)) sz else
      if bool_decide (ph_memsz ph < ph_filesz ph) then mret (false, sz) else
      if bool_decide (u64 (ph_vaddr ph + ph_memsz ph) < ph_vaddr ph) then mret (false, sz) else
      if bool_decide (ph_vaddr ph mod PGSIZE ≠ 0) then mret (false, sz) else
      sz1 ← uvmalloc pagetable sz (u64 (ph_vaddr ph + ph_memsz ph)) (flags2perm (ph_flags ph));
      if bool_decide (sz1 = 0) then mret (false, sz) else
      r ← loadseg pagetable (ph_vaddr ph) ip (u32 (ph_off ph)) (u32 (ph_filesz ph));
      if bool_decide (r < 0) then mret (false, sz1) else
      load_program n' pagetable ip (s32 (off + proghdr_size)) sz1
  end.

(** [for(argc = 0; argv[argc]; argc++)]: sp and the addresses of the strings, or
    [None] for the jump to bad *)
Fixpoint push_args (argv : list karg) (pagetable sp stackbase : Z) (ustack : list Z) : K (option (Z * list Z)) :=
  match argv with
  | [] => mret (Some (sp, ustack))
  | a :: argv' =>
      if bool_decide (MAXARG <= length ustack)%nat then mret None else
      s ← karg_str a;
      let sp := u64 (sp - (Z.of_nat (length s) + 1)) in
      let sp := sp - sp mod 16 in
      if bool_decide (sp < stackbase) then mret None else
      rc ← copyout pagetable sp (s ++ [0]);
      if bool_decide (rc < 0) then mret None else
      push_args argv' pagetable sp stackbase (ustack ++ [sp])
  end.

(** The label bad. *)
Definition exec_bad (pagetable sz : Z) (ip : option nat) : K Z :=
  when (bool_decide (pagetable ≠ 0)) (proc_freepagetable pagetable sz);;
  match ip with Some i => iunlockput i;; end_op | None => mret tt end;;
  mret (-1).

(** kexec after the program is loaded: stack, arguments and commitment. *)
Definition exec_image (path : list Z) (argv : list karg) (pagetable sz entry : Z) : K Z :=
  pi ← the_proc;
  p ← proc_get pi;
  let oldsz := p_sz p in
  let sz := PGROUNDUP sz in
  sz1 ← uvmalloc pagetable sz (u64 (sz + (USERSTACK + 1) * PGSIZE)) PTE_W;
  if bool_decide (sz1 = 0) then exec_bad pagetable sz None else
  let sz := sz1 in
  uvmclear pagetable (u64 (sz - (USERSTACK + 1) * PGSIZE));;
  let stackbase := u64 (sz - USERSTACK * PGSIZE) in
  r ← push_args argv pagetable sz stackbase [];
  match r with
  | None => exec_bad pagetable sz None
  | Some (sp, ustack) =>
      let argc := Z.of_nat (length ustack) in
      let sp := u64 (sp - (argc + 1) * 8) in
      let sp := sp - sp mod 16 in
      if bool_decide (sp < stackbase) then exec_bad pagetable sz None else
      rc ← copyout pagetable sp (concat (map (le_split 8) (ustack ++ [0])));
      if bool_decide (rc < 0) then exec_bad pagetable sz None else
      store64 (p_trapframe p + tf_a 1) sp;;
      p ← proc_get pi;
      let oldpagetable := p_pagetable p in
      proc_upd pi (λ p, p <| p_name := safestrcpy_l (p_name p) (last_elem path path ++ [0]) 16 |>
                          <| p_pagetable := pagetable |> <| p_sz := sz |>);;
      store64 (p_trapframe p + tf_epc) entry;;
      store64 (p_trapframe p + tf_sp) sp;;
      proc_freepagetable oldpagetable oldsz;;
      mret argc
  end.

Definition kexec (path : list Z) (argv : list karg) : K Z :=
  pi ← the_proc;
  begin_op;;
  r ← namei path;
  match r with
  | None => end_op;; mret (-1)
  | Some ip =>
      ilock ip;;
      '(r, elf) ← readi ip DLocal 0 elfhdr_size;
      if bool_decide (r ≠ elfhdr_size) then exec_bad 0 0 (Some ip) else
      if bool_decide (elf_magic elf ≠ ELF_MAGIC) then exec_bad 0 0 (Some ip) else
      pagetable ← proc_pagetable pi;
      if bool_decide (pagetable = 0) then exec_bad 0 0 (Some ip) else
      '(ok, sz) ← load_program (Z.to_nat (elf_phnum elf)) pagetable ip (s32 (elf_phoff elf)) 0;
      if (ok : bool) then
        iunlockput ip;;
        end_op;;
        exec_image path argv pagetable sz (elf_entry elf)
      else exec_bad pagetable sz (Some ip)
  end.
End exec.
