(* ===== verification/Sysfile.v ===== *)
(** * kernel/syscall.c (arguments) and kernel/sysfile.c: file system calls

    System call arguments come from the trapframe of the calling process, strings
    and arrays from its memory.  The value a handler returns is what syscall
    stores in a0, as a signed number. *)
From S2P Require Import Prelude.
From S2P Require Import Mem.
From S2P Require Import Params.
From S2P Require Import State.
From S2P Require Import KString.
From S2P Require Import Kalloc.
From S2P Require Import Vm.
From S2P Require Import Sched.
From S2P Require Import Console.
From S2P Require Import Bio.
From S2P Require Import Log.
From S2P Require Import Fs.
From S2P Require Import File.
From S2P Require Import Proc.
From S2P Require Import Exec.
#[local] Open Scope Z_scope.

(** kernel/fcntl.h *)
Definition O_RDONLY : Z := 0.
Definition O_WRONLY : Z := 1.
Definition O_RDWR : Z := 2.
Definition O_CREATE : Z := 512.
Definition O_TRUNC : Z := 1024.

Section sysfile.
Context `{Linker} `{Sched} `{BlockDev} `{TextSyms}.

(** ** Fetching arguments (kernel/syscall.c) *)
Definition fetchaddr (addr : Z) : K (option Z) :=
  i ← the_proc; p ← proc_get i;
  if bool_decide (p_sz p <= addr ∨ p_sz p < u64 (addr + 8)) then mret None else
  '(rc, bs) ← copyin (p_pagetable p) addr 8;
  mret (if bool_decide (rc ≠ 0) then None else Some (le_combine bs)).

(** The string in buf, whose length is the return value, or [None] for -1. *)
Definition fetchstr (addr : Z) (max : nat) : K (option (list Z)) :=
  i ← the_proc; p ← proc_get i;
  '(rc, bs) ← copyinstr (p_pagetable p) addr max;
  mret (if bool_decide (rc < 0) then None else Some (cstr bs)).

Definition argraw (n : Z) : K Z :=
  i ← the_proc; p ← proc_get i;
  if bool_decide (0 <= n <= 5) then load64 (p_trapframe p + tf_a n) else panic "argraw".

Definition argint (n : Z) : K Z := v ← argraw n; mret (s32 v).
Definition argaddr (n : Z) : K Z := argraw n.
Definition argstr (n : Z) (max : nat) : K (option (list Z)) := addr ← argaddr n; fetchstr addr max.

(** ** File descriptors *)
Definition argfd (n : Z) : K (option (nat * nat)) :=
  fd ← argint n;
  if bool_decide (fd < 0 ∨ Z.of_nat NOFILE <= fd) then mret None else
  i ← the_proc; p ← proc_get i;
  mret (match p_ofile p !!! Z.to_nat fd with Some f => Some (Z.to_nat fd, f) | None => None end).

(** The first free entry of the descriptor table. *)
Fixpoint free_fd (ofile : list (option nat)) (fd : nat) : option nat :=
  match ofile with
  | [] => None
  | None :: _ => Some fd
  | Some _ :: ofile' => free_fd ofile' (S fd)
  end.

Definition fdalloc (f : nat) : K Z :=
  i ← the_proc; p ← proc_get i;
  match free_fd (p_ofile p) 0 with
  | Some fd => proc_upd i (λ p, p <| p_ofile := <[fd := Some f]> (p_ofile p) |>);; mret (Z.of_nat fd)
  | None => mret (-1)
  end.

(** [myproc()->ofile[fd] = 0] *)
Definition clear_fd (fd : nat) : K unit :=
  i ← the_proc; proc_upd i (λ p, p <| p_ofile := <[fd := None]> (p_ofile p) |>).

Definition sys_dup : K Z :=
  r ← argfd 0;
  match r with
  | None => mret (-1)
  | Some (_, f) =>
      fd ← fdalloc f;
      if bool_decide (fd < 0) then mret (-1) else filedup f;; mret fd
  end.

Definition sys_read : K Z :=
  p ← argaddr 1;
  n ← argint 2;
  r ← argfd 0;
  match r with None => mret (-1) | Some (_, f) => fileread f p n end.

Definition sys_write : K Z :=
  p ← argaddr 1;
  n ← argint 2;
  r ← argfd 0;
  match r with None => mret (-1) | Some (_, f) => filewrite f p n end.

Definition sys_close : K Z :=
  r ← argfd 0;
  match r with
  | None => mret (-1)
  | Some (fd, f) => clear_fd fd;; fileclose f;; mret 0
  end.

Definition sys_fstat (pad : list Z) : K Z :=
  st ← argaddr 1;
  r ← argfd 0;
  match r with None => mret (-1) | Some (_, f) => filestat pad f st end.

(** ** Links *)

(** The label bad of sys_link. *)
Definition link_bad (ip : nat) : K Z :=
  ilock ip;;
  ip_upd ip (λ x, x <| i_nlink := s16 (i_nlink x - 1) |>);;
  iupdate ip;;
  iunlockput ip;;
  end_op;;
  mret (-1).

Definition sys_link : K Z :=
  old ← argstr 0 (Z.to_nat MAXPATH);
  new ← (match old with Some _ => argstr 1 (Z.to_nat MAXPATH) | None => mret None end);
  match old, new with
  | Some old, Some new =>
      begin_op;;
      r ← namei old;
      match r with
      | None => end_op;; mret (-1)
      | Some ip =>
          ilock ip;;
          x ← ip_get ip;
          if bool_decide (i_type x = T_DIR) then iunlockput ip;; end_op;; mret (-1) else
          ip_upd ip (λ x, x <| i_nlink := s16 (i_nlink x + 1) |>);;
          iupdate ip;;
          iunlock ip;;
          '(r, name) ← nameiparent new name0;
          match r with
          | None => link_bad ip
          | Some dp =>
              ilock dp;;
              d ← ip_get dp; x ← ip_get ip;
              rc ← (if bool_decide (i_dev d ≠ i_dev x) then mret (-1) else dirlink dp name (i_inum x));
              if bool_decide (rc < 0) then iunlockput dp;; link_bad ip else
              iunlockput dp;;
              iput ip;;
              end_op;;
              mret 0
          end
      end
  | _, _ => mret (-1)
  end.

(** [for(off=2*sizeof(de); off<dp->size; off+=sizeof(de))] *)
Fixpoint isdirempty_loop (fuel : nat) (dp : nat) (off : Z) : K bool :=
  match fuel with
  | O => stuck
  | S fuel' =>
      x ← ip_get dp;
      if bool_decide (off < i_size x) then
        '(rc, de) ← readi dp DLocal off dirent_size;
        if bool_decide (rc ≠ dirent_size) then panic "isdirempty: readi" else
        if bool_decide (de_inum de ≠ 0) then mret false else isdirempty_loop fuel' dp (off + dirent_size)
      else mret true
  end.

Definition isdirempty (dp : nat) : K bool :=
  x ← ip_get dp;
  isdirempty_loop (S (Z.to_nat (i_size x / dirent_size))) dp (2 * dirent_size).

(** The label bad of sys_unlink. *)
Definition unlink_bad (dp : nat) : K Z := iunlockput dp;; end_op;; mret (-1).

Definition sys_unlink : K Z :=
  path ← argstr 0 (Z.to_nat MAXPATH);
  match path with
  | None => mret (-1)
  | Some path =>
      begin_op;;
      '(r, name) ← nameiparent path name0;
      match r with
      | None => end_op;; mret (-1)
      | Some dp =>
          ilock dp;;
          if bool_decide (namecmp name (str "." ++ [0]) = 0 ∨ namecmp name (str ".." ++ [0]) = 0)
          then unlink_bad dp else
          r ← dirlookup dp name;
          match r with
          | None => unlink_bad dp
          | Some (ip, off) =>
              ilock ip;;
              x ← ip_get ip;
              if bool_decide (i_nlink x < 1) then panic "unlink: nlink < 1" else
              empty ← (if bool_decide (i_type x = T_DIR) then isdirempty ip else mret true);
              if negb empty then iunlockput ip;; unlink_bad dp else
              rc ← writei dp (SLocal (replicate 16 0)) off dirent_size;
              if bool_decide (rc ≠ dirent_size) then panic "unlink: writei" else
              x ← ip_get ip;
              when (bool_decide (i_type x = T_DIR))
                (ip_upd dp (λ x, x <| i_nlink := s16 (i_nlink x - 1) |>);; iupdate dp);;
              iunlockput dp;;
              ip_upd ip (λ x, x <| i_nlink := s16 (i_nlink x - 1) |>);;
              iupdate ip;;
              iunlockput ip;;
              end_op;;
              mret 0
          end
      end
  end.

(** ** Creating files *)

(** The label fail of create. *)
Definition create_fail (ip dp : nat) : K (option nat) :=
  ip_upd ip (λ x, x <| i_nlink := 0 |>);;
  iupdate ip;;
  iunlockput ip;;
  iunlockput dp;;
  mret None.

Definition create (path : list Z) (type major minor : Z) : K (option nat) :=
  '(r, name) ← nameiparent path name0;
  match r with
  | None => mret None
  | Some dp =>
      ilock dp;;
      r ← dirlookup dp name;
      match r with
      | Some (ip, _) =>
          iunlockput dp;;
          ilock ip;;
          x ← ip_get ip;
          if bool_decide (type = T_FILE ∧ (i_type x = T_FILE ∨ i_type x = T_DEVICE)) then mret (Some ip)
          else iunlockput ip;; mret None
      | None =>
          d ← ip_get dp;
          r ← ialloc (i_dev d) type;
          match r with
          | None => iunlockput dp;; mret None
          | Some ip =>
              ilock ip;;
              ip_upd ip (λ x, x <| i_major := major |> <| i_minor := minor |> <| i_nlink := 1 |>);;
              iupdate ip;;
              x ← ip_get ip; d ← ip_get dp;
              rc ← (if bool_decide (type = T_DIR) then
                      rc ← dirlink ip (str "." ++ [0]) (i_inum x);
                      if bool_decide (rc < 0) then mret rc else dirlink ip (str ".." ++ [0]) (i_inum d)
                    else mret 0);
              if bool_decide (rc < 0) then create_fail ip dp else
              rc ← dirlink dp name (i_inum x);
              if bool_decide (rc < 0) then create_fail ip dp else
              when (bool_decide (type = T_DIR))
                (ip_upd dp (λ x, x <| i_nlink := s16 (i_nlink x + 1) |>);; iupdate dp);;
              iunlockput dp;;
              mret (Some ip)
          end
      end
  end.

(** sys_open once the inode is found and locked. *)
Definition open_inode (ip : nat) (omode : Z) : K Z :=
  x ← ip_get ip;
  if bool_decide (i_type x = T_DEVICE ∧ (i_major x < 0 ∨ NDEV <= i_major x))
  then iunlockput ip;; end_op;; mret (-1) else
  fo ← filealloc;
  fd ← (match fo with Some f => fdalloc f | None => mret (-1) end);
  match fo with
  | None => iunlockput ip;; end_op;; mret (-1)
  | Some f =>
      if bool_decide (fd < 0) then fileclose f;; iunlockput ip;; end_op;; mret (-1) else
      (if bool_decide (i_type x = T_DEVICE)
       then f_upd f (λ y, y <| f_type := FD_DEVICE |> <| f_major := i_major x |>)
       else f_upd f (λ y, y <| f_type := FD_INODE |> <| f_off := 0 |>));;
      f_upd f (λ y, y <| f_ip := ip |>
        <| f_readable := bool_decide (Z.land omode O_WRONLY = 0) |>
        <| f_writable := bool_decide (Z.land omode O_WRONLY ≠ 0 ∨ Z.land omode O_RDWR ≠ 0) |>);;
      when (bool_decide (Z.land omode O_TRUNC ≠ 0 ∧ i_type x = T_FILE)) (itrunc ip);;
      iunlock ip;;
      end_op;;
      mret fd
  end.

Definition sys_open : K Z :=
  omode ← argint 1;
  path ← argstr 0 (Z.to_nat MAXPATH);
  match path with
  | None => mret (-1)
  | Some path =>
      begin_op;;
      if bool_decide (Z.land omode O_CREATE ≠ 0) then
        r ← create path T_FILE 0 0;
        match r with None => end_op;; mret (-1) | Some ip => open_inode ip omode end
      else
        r ← namei path;
        match r with
        | None => end_op;; mret (-1)
        | Some ip =>
            ilock ip;;
            x ← ip_get ip;
            if bool_decide (i_type x = T_DIR ∧ omode ≠ O_RDONLY)
            then iunlockput ip;; end_op;; mret (-1)
            else open_inode ip omode
        end
  end.

Definition sys_mkdir : K Z :=
  begin_op;;
  path ← argstr 0 (Z.to_nat MAXPATH);
  r ← (match path with Some path => create path T_DIR 0 0 | None => mret None end);
  match r with
  | None => end_op;; mret (-1)
  | Some ip => iunlockput ip;; end_op;; mret 0
  end.

Definition sys_mknod : K Z :=
  begin_op;;
  major ← argint 1;
  minor ← argint 2;
  path ← argstr 0 (Z.to_nat MAXPATH);
  r ← (match path with Some path => create path T_DEVICE (s16 major) (s16 minor) | None => mret None end);
  match r with
  | None => end_op;; mret (-1)
  | Some ip => iunlockput ip;; end_op;; mret 0
  end.

Definition sys_chdir : K Z :=
  i ← the_proc;
  begin_op;;
  path ← argstr 0 (Z.to_nat MAXPATH);
  r ← (match path with Some path => namei path | None => mret None end);
  match r with
  | None => end_op;; mret (-1)
  | Some ip =>
      ilock ip;;
      x ← ip_get ip;
      if bool_decide (i_type x ≠ T_DIR) then iunlockput ip;; end_op;; mret (-1) else
      iunlock ip;;
      p ← proc_get i;
      match p_cwd p with Some c => iput c | None => fault end;;
      end_op;;
      proc_upd i (λ p, p <| p_cwd := Some ip |>);;
      mret 0
  end.

(** ** exec and pipe *)

(** [for(i=0;; i++)] of sys_exec: the pages of the arguments, with true when it
    reached the null pointer and false for the jump to bad *)
Fixpoint exec_args (n : nat) (uargv : Z) (argv : list Z) : K (bool * list Z) :=
  match n with
  | O => mret (false, argv)
  | S n' =>
      a ← fetchaddr (u64 (uargv + 8 * Z.of_nat (length argv)));
      match a with
      | None => mret (false, argv)
      | Some uarg =>
          if bool_decide (uarg = 0) then mret (true, argv) else
          page ← kalloc;
          if bool_decide (page = 0) then mret (false, argv) else
          i ← the_proc; p ← proc_get i;
          '(rc, bs) ← copyinstr (p_pagetable p) uarg PGSIZEn;
          store_bytes page bs;;
          if bool_decide (rc < 0) then mret (false, argv ++ [page])
          else exec_args n' uargv (argv ++ [page])
      end
  end.

(** [for(i = 0; i < NELEM(argv) && argv[i] != 0; i++) kfree(argv[i]);] *)
Fixpoint free_args (argv : list Z) : K unit :=
  match argv with
  | [] => mret tt
  | a :: argv' => kfree a;; free_args argv'
  end.

Definition sys_exec : K Z :=
  uargv ← argaddr 1;
  path ← argstr 0 (Z.to_nat MAXPATH);
  match path with
  | None => mret (-1)
  | Some path =>
      '(ok, argv) ← exec_args MAXARG uargv [];
      if (ok : bool) then
        ret ← kexec path (map KPage argv);
        free_args argv;;
        mret ret
      else free_args argv;; mret (-1)
  end.

Definition sys_pipe : K Z :=
  i ← the_proc;
  fdarray ← argaddr 0;
  r ← pipealloc;
  match r with
  | None => mret (-1)
  | Some (rf, wf) =>
      fd0 ← fdalloc rf;
      fd1 ← (if bool_decide (fd0 < 0) then mret (-1) else fdalloc wf);
      if bool_decide (fd1 < 0) then
        when (bool_decide (0 <= fd0)) (clear_fd (Z.to_nat fd0));;
        fileclose rf;; fileclose wf;; mret (-1)
      else
      p ← proc_get i;
      rc ← copyout (p_pagetable p) fdarray (le_split 4 fd0);
      rc ← (if bool_decide (rc < 0) then mret rc
            else copyout (p_pagetable p) (u64 (fdarray + 4)) (le_split 4 fd1));
      if bool_decide (rc < 0) then
        clear_fd (Z.to_nat fd0);; clear_fd (Z.to_nat fd1);;
        fileclose rf;; fileclose wf;; mret (-1)
      else mret 0
  end.
End sysfile.
