(* ===== verification/Syscall.v ===== *)
(** * kernel/sysproc.c and kernel/syscall.c: the remaining system calls and the
    dispatch on the system call number

    A system call returns a C int or uint64; [syscall] stores it, as a 64-bit
    word, in the saved register a0. *)
From S2P Require Import Prelude.
From S2P Require Import Mem.
From S2P Require Import Params.
From S2P Require Import State.
From S2P Require Import KString.
From S2P Require Import Vm.
From S2P Require Import Sched.
From S2P Require Import Console.
From S2P Require Import Bio.
From S2P Require Import Proc.
From S2P Require Import Sysfile.
#[local] Open Scope Z_scope.

Definition SBRK_EAGER : Z := 1.
Definition SBRK_LAZY : Z := 2.

(** ** kernel/syscall.h *)
Definition SYS_fork : Z := 1.
Definition SYS_exit : Z := 2.
Definition SYS_wait : Z := 3.
Definition SYS_pipe : Z := 4.
Definition SYS_read : Z := 5.
Definition SYS_kill : Z := 6.
Definition SYS_exec : Z := 7.
Definition SYS_fstat : Z := 8.
Definition SYS_chdir : Z := 9.
Definition SYS_dup : Z := 10.
Definition SYS_getpid : Z := 11.
Definition SYS_sbrk : Z := 12.
Definition SYS_pause : Z := 13.
Definition SYS_uptime : Z := 14.
Definition SYS_open : Z := 15.
Definition SYS_write : Z := 16.
Definition SYS_mknod : Z := 17.
Definition SYS_unlink : Z := 18.
Definition SYS_link : Z := 19.
Definition SYS_mkdir : Z := 20.
Definition SYS_close : Z := 21.

Section syscall.
Context `{Linker} `{Sched} `{BlockDev} `{TextSyms}.

(** ** kernel/sysproc.c *)
Definition sys_exit : K Z :=
  n ← argint 0;
  kexit n;;
  mret 0.

Definition sys_getpid : K Z :=
  i ← the_proc; p ← proc_get i; mret (p_pid p).

Definition sys_fork : K Z := kfork.

Definition sys_wait : K Z :=
  p ← argaddr 0;
  kwait p.

Definition sys_sbrk : K Z :=
  n ← argint 0;
  t ← argint 1;
  i ← the_proc;
  p ← proc_get i;
  let addr := p_sz p in
  if bool_decide (t = SBRK_EAGER ∨ n < 0) then
    r ← growproc n;
    if bool_decide (r < 0) then mret (-1) else mret addr
  else if bool_decide (u64 (addr + n) < addr) then mret (-1)
  else
    proc_upd i (λ p, p <| p_sz := u64 (p_sz p + n) |>);;
    mret addr.

(** [while(ticks - ticks0 < n)]: unsigned arithmetic on 32 bits *)
Fixpoint pause_loop (fuel : nat) (ticks0 n : Z) : K Z :=
  match fuel with
  | O => stuck
  | S fuel' =>
      t ← rd ticks;
      if bool_decide (u32 (t - ticks0) < u32 n) then
        i ← the_proc;
        k ← killed i;
        if bool_decide (k ≠ 0) then release Lticks;; mret (-1)
        else sleep ChTicks Lticks;; pause_loop fuel' ticks0 n
      else release Lticks;; mret 0
  end.

Definition sys_pause : K Z :=
  n ← argint 0;
  let n := if bool_decide (n < 0) then 0 else n in
  acquire Lticks;;
  ticks0 ← rd ticks;
  pause_loop (S sched_bound) ticks0 n.

Definition sys_kill : K Z :=
  pid ← argint 0;
  kkill pid.

Definition sys_uptime : K Z :=
  acquire Lticks;;
  xticks ← rd ticks;
  release Lticks;;
  mret xticks.

(** ** kernel/syscall.c *)

(** The table; [pad] are the padding bytes of the struct stat of sys_fstat. *)
Definition syscalls (pad : list Z) (num : Z) : option (K Z) :=
  if bool_decide (num = SYS_fork) then Some sys_fork
  else if bool_decide (num = SYS_exit) then Some sys_exit
  else if bool_decide (num = SYS_wait) then Some sys_wait
  else if bool_decide (num = SYS_pipe) then Some sys_pipe
  else if bool_decide (num = SYS_read) then Some sys_read
  else if bool_decide (num = SYS_kill) then Some sys_kill
  else if bool_decide (num = SYS_exec) then Some sys_exec
  else if bool_decide (num = SYS_fstat) then Some (sys_fstat pad)
  else if bool_decide (num = SYS_chdir) then Some sys_chdir
  else if bool_decide (num = SYS_dup) then Some sys_dup
  else if bool_decide (num = SYS_getpid) then Some sys_getpid
  else if bool_decide (num = SYS_sbrk) then Some sys_sbrk
  else if bool_decide (num = SYS_pause) then Some sys_pause
  else if bool_decide (num = SYS_uptime) then Some sys_uptime
  else if bool_decide (num = SYS_open) then Some sys_open
  else if bool_decide (num = SYS_write) then Some sys_write
  else if bool_decide (num = SYS_mknod) then Some sys_mknod
  else if bool_decide (num = SYS_unlink) then Some sys_unlink
  else if bool_decide (num = SYS_link) then Some sys_link
  else if bool_decide (num = SYS_mkdir) then Some sys_mkdir
  else if bool_decide (num = SYS_close) then Some sys_close
  else None.

(** NELEM(syscalls): the table has an entry 0, which is null. *)
Definition nsyscalls : Z := 22.

Definition syscall (pad : list Z) : K unit :=
  i ← the_proc;
  p ← proc_get i;
  a7 ← load64 (p_trapframe p + tf_a 7);
  let num := s32 a7 in
  match (if bool_decide (0 < num < nsyscalls) then syscalls pad num else None) with
  | Some f =>
      v ← f;
      p ← proc_get i;
      store64 (p_trapframe p + tf_a 0) (u64 v)
  | None =>
      printf (str "%d %s: unknown sys call %d" ++ [10])
        [AInt (p_pid p); AStr (Some (cstr (p_name p))); AInt num];;
      store64 (p_trapframe p + tf_a 0) (u64 (-1))
  end.
End syscall.
