(* ===== verification/Trap.v ===== *)
(** * kernel/trap.c: traps from user space and from the kernel

    The control and status registers of the hart are [csrs]; reading one is a
    field and writing one an update.  [irq] is what plic_claim returns.  The
    functions return the registers as they leave them. *)
From S2P Require Import Prelude.
From S2P Require Import Mem.
From S2P Require Import Params.
From S2P Require Import State.
From S2P Require Import KString.
From S2P Require Import Vm.
From S2P Require Import Sched.
From S2P Require Import Console.
From S2P Require Import Bio.
From S2P Require Import Virtio.
From S2P Require Import Fs.
From S2P Require Import Proc.
From S2P Require Import Exec.
From S2P Require Import Syscall.
#[local] Open Scope Z_scope.

Record csrs : Type := CSRs {
  sstatus : Z;
  sepc : Z;
  scause : Z;
  stval : Z;
  stvec : Z;
  satp : Z;
  hartid : Z;
  mtime : Z;
  stimecmp : Z;
  irq : Z }.

#[export] Instance set_sstatus : Setter sstatus := λ g r,
  CSRs
    (g (sstatus r)) (sepc r) (scause r) (stval r) (stvec r) (satp r)
    (hartid r) (mtime r) (stimecmp r) (irq r).
#[export] Instance set_sepc : Setter sepc := λ g r,
  CSRs
    (sstatus r) (g (sepc r)) (scause r) (stval r) (stvec r) (satp r)
    (hartid r) (mtime r) (stimecmp r) (irq r).
#[export] Instance set_scause : Setter scause := λ g r,
  CSRs
    (sstatus r) (sepc r) (g (scause r)) (stval r) (stvec r) (satp r)
    (hartid r) (mtime r) (stimecmp r) (irq r).
#[export] Instance set_stval : Setter stval := λ g r,
  CSRs
    (sstatus r) (sepc r) (scause r) (g (stval r)) (stvec r) (satp r)
    (hartid r) (mtime r) (stimecmp r) (irq r).
#[export] Instance set_stvec : Setter stvec := λ g r,
  CSRs
    (sstatus r) (sepc r) (scause r) (stval r) (g (stvec r)) (satp r)
    (hartid r) (mtime r) (stimecmp r) (irq r).
#[export] Instance set_satp : Setter satp := λ g r,
  CSRs
    (sstatus r) (sepc r) (scause r) (stval r) (stvec r) (g (satp r))
    (hartid r) (mtime r) (stimecmp r) (irq r).
#[export] Instance set_hartid : Setter hartid := λ g r,
  CSRs
    (sstatus r) (sepc r) (scause r) (stval r) (stvec r) (satp r)
    (g (hartid r)) (mtime r) (stimecmp r) (irq r).
#[export] Instance set_mtime : Setter mtime := λ g r,
  CSRs
    (sstatus r) (sepc r) (scause r) (stval r) (stvec r) (satp r) (hartid r)
    (g (mtime r)) (stimecmp r) (irq r).
#[export] Instance set_stimecmp : Setter stimecmp := λ g r,
  CSRs
    (sstatus r) (sepc r) (scause r) (stval r) (stvec r) (satp r) (hartid r)
    (mtime r) (g (stimecmp r)) (irq r).
#[export] Instance set_irq : Setter irq := λ g r,
  CSRs
    (sstatus r) (sepc r) (scause r) (stval r) (stvec r) (satp r) (hartid r)
    (mtime r) (stimecmp r) (g (irq r)).

(** ** kernel/riscv.h, kernel/memlayout.h *)
Definition SSTATUS_SPP : Z := Z.shiftl 1 8.
Definition SSTATUS_SPIE : Z := Z.shiftl 1 5.
Definition SSTATUS_SIE : Z := Z.shiftl 1 1.
Definition SATP_SV39 : Z := Z.shiftl 8 60.
Definition MAKE_SATP (pagetable : Z) : Z := Z.lor SATP_SV39 (Z.shiftr pagetable 12).
Definition UART0_IRQ : Z := 10.
Definition VIRTIO0_IRQ : Z := 1.

Definition intr_on (c : csrs) : csrs := c <| sstatus := Z.lor (sstatus c) SSTATUS_SIE |>.
Definition intr_off (c : csrs) : csrs := c <| sstatus := Z.land (sstatus c) (Z.lnot SSTATUS_SIE) |>.
Definition intr_get (c : csrs) : bool := bool_decide (Z.land (sstatus c) SSTATUS_SIE ≠ 0).

(** scause of a supervisor external interrupt and of a timer interrupt *)
Definition scause_external : Z := 2 ^ 63 + 9.
Definition scause_timer : Z := 2 ^ 63 + 5.

Section trap.
Context `{Linker} `{Sched} `{BlockDev} `{TextSyms}.

Definition clockintr (c : csrs) : K csrs :=
  when (bool_decide (hartid c = 0))
    (acquire Lticks;;
     upd (λ k, k <| ticks := u32 (ticks k + 1) |>);;
     wakeup ChTicks;;
     release Lticks);;
  mret (c <| stimecmp := u64 (mtime c + 1000000) |>).

Definition devintr (c : csrs) : K (csrs * Z) :=
  if bool_decide (scause c = scause_external) then
    (if bool_decide (irq c = UART0_IRQ) then uartintr
     else if bool_decide (irq c = VIRTIO0_IRQ) then virtio_disk_intr
     else if bool_decide (irq c ≠ 0) then printf (str "unexpected interrupt irq=%d" ++ [10]) [AInt (irq c)];; mret tt
     else mret tt);;
    mret (c, 1)
  else if bool_decide (scause c = scause_timer) then c ← clockintr c; mret (c, 2)
  else mret (c, 0).

Definition prepare_return (c : csrs) : K csrs :=
  i ← the_proc;
  p ← proc_get i;
  let c := intr_off c in
  let c := c <| stvec := u64 (TRAMPOLINE + uservec_off) |> in
  store64 (p_trapframe p + tf_kernel_satp) (satp c);;
  store64 (p_trapframe p + tf_kernel_sp) (u64 (p_kstack p + PGSIZE));;
  store64 (p_trapframe p + tf_kernel_trap) usertrap_sym;;
  store64 (p_trapframe p + tf_kernel_hartid) (hartid c);;
  let x := Z.lor (Z.land (sstatus c) (Z.lnot SSTATUS_SPP)) SSTATUS_SPIE in
  let c := c <| sstatus := x |> in
  epc ← load64 (p_trapframe p + tf_epc);
  mret (c <| sepc := epc |>).

(** The cases of usertrap: the registers and which_dev. *)
Definition usertrap_cause (pad : list Z) (i : nat) (c : csrs) : K (csrs * Z) :=
  p ← proc_get i;
  if bool_decide (scause c = 8) then
    k ← killed i;
    when (bool_decide (k ≠ 0)) (kexit (-1));;
    epc ← load64 (p_trapframe p + tf_epc);
    store64 (p_trapframe p + tf_epc) (u64 (epc + 4));;
    syscall pad;;
    mret (intr_on c, 0)
  else
    '(c, which_dev) ← devintr c;
    if bool_decide (which_dev ≠ 0) then mret (c, which_dev) else
    r ← (if bool_decide (scause c = 15 ∨ scause c = 13)
         then vmfault (p_pagetable p) (stval c) (bool_decide (scause c = 13)) else mret 0);
    if bool_decide (r ≠ 0) then mret (c, 0) else
    printf (str "usertrap(): unexpected scause 0x%lx pid=%d" ++ [10]) [AInt (scause c); AInt (p_pid p)];;
    printf (str "            sepc=0x%lx stval=0x%lx" ++ [10]) [AInt (sepc c); AInt (stval c)];;
    setkilled i;;
    mret (c, 0).

(** The registers and the value of satp for trampoline.S *)
Definition usertrap (pad : list Z) (c : csrs) : K (csrs * Z) :=
  if bool_decide (Z.land (sstatus c) SSTATUS_SPP ≠ 0) then panic "usertrap: not from user mode" else
  let c := c <| stvec := kernelvec_sym |> in
  i ← the_proc;
  p ← proc_get i;
  store64 (p_trapframe p + tf_epc) (sepc c);;
  '(c, which_dev) ← usertrap_cause pad i c;
  k ← killed i;
  when (bool_decide (k ≠ 0)) (kexit (-1));;
  when (bool_decide (which_dev = 2)) yield;;
  c ← prepare_return c;
  p ← proc_get i;
  mret (c, MAKE_SATP (p_pagetable p)).

Definition kerneltrap (c : csrs) : K csrs :=
  let sepc0 := sepc c in
  let sstatus0 := sstatus c in
  let scause0 := scause c in
  if bool_decide (Z.land sstatus0 SSTATUS_SPP = 0) then panic "kerneltrap: not from supervisor mode" else
  if intr_get c then panic "kerneltrap: interrupts enabled" else
  '(c, which_dev) ← devintr c;
  if bool_decide (which_dev = 0) then
    printf (str "scause=0x%lx sepc=0x%lx stval=0x%lx" ++ [10]) [AInt scause0; AInt (sepc c); AInt (stval c)];;
    panic "kerneltrap"
  else
  p ← myproc;
  when (bool_decide (which_dev = 2 ∧ p ≠ None)) yield;;
  mret (c <| sepc := sepc0 |> <| sstatus := sstatus0 |>).

(** kernel/proc.c forkret: the registers and the value of satp with which it
    enters userret in trampoline.S *)
Definition forkret (c : csrs) : K (csrs * Z) :=
  i ← the_proc;
  release (Lproc i);;
  first ← rd forkret_first;
  when first
    (fsinit ROOTDEV;;
     upd (λ k, k <| forkret_first := false |>);;
     r ← kexec (str "/init") [KConst (str "/init")];
     p ← proc_get i;
     store64 (p_trapframe p + tf_a 0) (u64 r);;
     if bool_decide (r = -1) then panic "exec" else mret tt);;
  c ← prepare_return c;
  p ← proc_get i;
  mret (c, MAKE_SATP (p_pagetable p)).
End trap.
