(* ===== verification/Wp.v ===== *)
(** * Weakest preconditions over the kernel's globals

    [wp m Q s]: run from [s], [m] returns normally (no panic, no fault, no
    missing fuel) and [Q] holds of the value it returns and the final state.
    Used for the code that works on the globals; code that works on memory uses
    the separation logic of Heap.v. *)
From S2P Require Import Prelude.
From S2P Require Import Mem.
From S2P Require Import Params.
From S2P Require Import State.
From S2P Require Import Sched.
#[local] Open Scope Z_scope.

Definition wp {S A} (m : M S A) (Q : A → S → Prop) (s : S) : Prop :=
  match m s with Ok a s' => Q a s' | _ => False end.

Section wp_rules.
Context {S : Type}.
Implicit Types s : S.

Lemma wp_ret {A} (a : A) (Q : A → S → Prop) s : Q a s → wp (mret a) Q s.
Proof. done. Qed.

Lemma wp_bind {A B} (m : M S A) (k : A → M S B) Q s :
  wp m (λ a s', wp (k a) Q s') s → wp (m ≫= k) Q s.
Proof. unfold wp, mbind, M_bind. destruct (m s); done. Qed.

Lemma wp_mono {A} (m : M S A) (Q Q' : A → S → Prop) s :
  wp m Q s → (∀ a s', Q a s' → Q' a s') → wp m Q' s.
Proof. unfold wp. destruct (m s); auto. Qed.

Lemma wp_ok {A} (m : M S A) Q s : wp m Q s ↔ ∃ a s', m s = Ok a s' ∧ Q a s'.
Proof.
  unfold wp. split; [|by intros (a & s' & -> & HQ)]. destruct (m s); try done. intros HQ. eauto.
Qed.

Lemma wp_run {A} (m : M S A) a s s' : wp m (λ b t, b = a ∧ t = s') s → m s = Ok a s'.
Proof. by intros (b & t & Hrun & -> & ->)%wp_ok. Qed.

(** The steps of a run that returned. *)
Lemma bind_ok {A B} (m : M S A) (k : A → M S B) b s s' :
  (m ≫= k) s = Ok b s' → ∃ a s1, m s = Ok a s1 ∧ k a s1 = Ok b s'.
Proof. unfold mbind, M_bind. destruct (m s); try done. eauto. Qed.

Lemma bind_run {A B} (m : M S A) (k : A → M S B) a s s' : m s = Ok a s' → (m ≫= k) s = k a s'.
Proof. unfold mbind, M_bind. by intros ->. Qed.

Lemma wp_when (c : bool) (m : M S unit) Q s :
  (c = true → wp m Q s) → (c = false → Q tt s) → wp (when c m) Q s.
Proof. destruct c; simpl; [auto|]. intros _ HQ. by apply wp_ret, HQ. Qed.

(** A loop with an invariant on the number of rounds done. *)
Lemma wp_for_each (I : nat → S → Prop) n i (body : nat → M S unit) (Q : unit → S → Prop) s :
  I i s → (∀ j s, (i <= j < i + n)%nat → I j s → wp (body j) (λ _ s', I (Datatypes.S j) s') s) →
  (∀ s, I (i + n)%nat s → Q tt s) → wp (for_each n i body) Q s.
Proof.
  revert i s; induction n as [|n IH]; intros i s HI Hb HQ; simpl.
  - apply wp_ret, HQ. by rewrite Nat.add_0_r.
  - apply wp_bind. eapply wp_mono; [apply (Hb i s); [lia|done]|]. intros [] s' HI'.
    apply IH; [done| |].
    + intros j s2 Hj. apply Hb. lia.
    + intros s2 H2. apply HQ. by replace (i + Datatypes.S n)%nat with (Datatypes.S i + n)%nat by lia.
Qed.

(** The same for a loop that may be left early. *)
Lemma wp_for {A} (I : nat → S → Prop) n i (body : nat → M S (option A)) (Q : option A → S → Prop) s :
  I i s →
  (∀ j s, (i <= j < i + n)%nat → I j s →
     wp (body j) (λ r s', match r with Some a => Q (Some a) s' | None => I (Datatypes.S j) s' end) s) →
  (∀ s, I (i + n)%nat s → Q None s) → wp (for_ n i body) Q s.
Proof.
  revert i s; induction n as [|n IH]; intros i s HI Hb HQ; simpl.
  - apply wp_ret, HQ. by rewrite Nat.add_0_r.
  - apply wp_bind. eapply wp_mono; [apply (Hb i s); [lia|done]|]. intros [a|] s' HI'; [done|].
    apply IH; [done| |].
    + intros j s2 Hj. apply Hb. lia.
    + intros s2 H2. apply HQ. by replace (i + Datatypes.S n)%nat with (Datatypes.S i + n)%nat by lia.
Qed.
End wp_rules.

(** ** Projections of updated records *)
Ltac rsimpl_in_goal :=
  repeat match goal with
  | |- context [?f (@set_field ?R ?T ?g ?i ?v ?r)] =>
      first [ progress change (f (@set_field R T g i v r)) with (f r)
            | progress change (f (@set_field R T g i v r)) with (v (f r)); cbv beta ]
  end.
Ltac rsimpl_in H :=
  repeat match type of H with
  | context [?f (@set_field ?R ?T ?g ?i ?v ?r)] =>
      first [ progress change (f (@set_field R T g i v r)) with (f r) in H
            | progress change (f (@set_field R T g i v r)) with (v (f r)) in H; cbv beta in H ]
  end.
Tactic Notation "rsimpl" := cbn [rest mem]; rsimpl_in_goal.
Tactic Notation "rsimpl" "in" hyp(H) := cbn [rest mem] in H; rsimpl_in H.

(** ** The globals *)
Lemma wp_rd {A} (f : sys → A) (Q : A → st sys → Prop) h r : Q (f r) (St h r) → wp (rd f) Q (St h r).
Proof. done. Qed.

Lemma wp_upd (g : sys → sys) (Q : unit → st sys → Prop) h r :
  Q tt (St h (g r)) → wp (upd g) Q (St h r).
Proof. done. Qed.

Lemma wp_acquire lk (Q : unit → st sys → Prop) h r :
  lk ∉ held r → Q tt (St h (r <| held := lk :: held r |>)) → wp (acquire lk) Q (St h r).
Proof.
  intros Hn HQ. apply wp_bind, wp_rd. destruct (decide _); [done|]. by apply wp_upd.
Qed.

Lemma wp_release lk hl (Q : unit → st sys → Prop) h r :
  held r = lk :: hl → Q tt (St h (r <| held := hl |>)) → wp (release lk) Q (St h r).
Proof.
  intros Hh HQ. apply wp_bind, wp_rd. rewrite Hh.
  destruct (decide _) as [_|Hn]; [|exfalso; apply Hn; by constructor].
  apply wp_upd. simpl. by destruct (decide (lk = lk)).
Qed.

(** sleep releases the lock acquired before the latest one. *)
Lemma wp_release_second lk l hl (Q : unit → st sys → Prop) h r :
  held r = l :: lk :: hl → l ≠ lk → Q tt (St h (r <| held := l :: hl |>)) → wp (release lk) Q (St h r).
Proof.
  intros Hh Hl HQ. apply wp_bind, wp_rd. rewrite Hh.
  destruct (decide (lk ∈ _)) as [_|Hn]; [|exfalso; apply Hn; constructor; by constructor].
  apply wp_upd. cbn [remove_lock]. by rewrite (decide_False (P := l = lk)), (decide_True (P := lk = lk)) by done.
Qed.

Lemma wp_proc_get i p (Q : proc → st sys → Prop) h r :
  procs r !! i = Some p → Q p (St h r) → wp (proc_get i) Q (St h r).
Proof. intros Hp HQ. apply wp_bind, wp_rd. rewrite Hp. by apply wp_ret. Qed.

Lemma wp_proc_upd i p g (Q : unit → st sys → Prop) h r :
  procs r !! i = Some p →
  Q tt (St h (r <| procs := <[i := g p]> (procs r) |>)) → wp (proc_upd i g) Q (St h r).
Proof. intros Hp HQ. apply wp_bind, (wp_proc_get _ _ _ _ _ Hp). by apply wp_upd. Qed.

Lemma wp_the_proc i (Q : nat → st sys → Prop) h r :
  cur r = Some i → Q i (St h r) → wp the_proc Q (St h r).
Proof. intros Hc HQ. apply wp_bind, wp_rd. rewrite Hc. by apply wp_ret. Qed.

(** A critical section restores the list of held locks. *)
Lemma held_same (r : sys) lk : r <| held := lk :: held r |> <| held := held r |> = r.
Proof. by destruct r. Qed.

Lemma held_id (r : sys) : r <| held := held r |> = r.
Proof. by destruct r. Qed.
