(* ===== verification/SchedSpec.v ===== *)
(** * Specification of wakeup, kill and the process table accesses

    [wake ch c ps]: the process table after wakeup(ch) by process [c]. *)
From S2P Require Import Prelude.
From S2P Require Import Mem.
From S2P Require Import Params.
From S2P Require Import State.
From S2P Require Import Sched.
From S2P Require Import Wp.
#[local] Open Scope Z_scope.

Definition wake1 (ch : channel) (c : option nat) (i : nat) (p : proc) : proc :=
  if bool_decide (c ≠ Some i ∧ p_state p = SLEEPING ∧ p_chan p = Some ch)
  then p <| p_state := RUNNABLE |> else p.

Definition wake (ch : channel) (c : option nat) (ps : list proc) : list proc := imap (wake1 ch c) ps.

(** Some sleepers other than [c] have become runnable; nothing else changed. *)
Definition woken (c : option nat) (ps ps' : list proc) : Prop :=
  length ps' = length ps ∧
  ∀ i p, ps !! i = Some p →
    ∃ p', ps' !! i = Some p' ∧
      (p' = p ∨ c ≠ Some i ∧ p_state p = SLEEPING ∧ p' = p <| p_state := RUNNABLE |>).

Lemma woken_refl c ps : woken c ps ps.
Proof. split; [done|]. intros i p Hp. exists p. auto. Qed.

Lemma woken_trans c ps1 ps2 ps3 : woken c ps1 ps2 → woken c ps2 ps3 → woken c ps1 ps3.
Proof.
  intros [L1 H1] [L2 H2]. split; [congruence|]. intros i p Hp.
  destruct (H1 i p Hp) as (p2 & Hp2 & E2). destruct (H2 i p2 Hp2) as (p3 & Hp3 & E3).
  exists p3. split; [done|]. destruct E2 as [->|(Hc & Hs & ->)]; [done|].
  destruct E3 as [->|(_ & Hs' & _)]; [by right|]. done.
Qed.

Lemma woken_cur i ps ps' : woken (Some i) ps ps' → ps' !! i = ps !! i.
Proof.
  intros [L H]. destruct (ps !! i) as [p|] eqn:E.
  - destruct (H i p E) as (p' & -> & [->|(? & _)]); done.
  - apply lookup_ge_None in E. apply lookup_ge_None. lia.
Qed.

Lemma wake_woken ch c ps : woken c ps (wake ch c ps).
Proof.
  split; [apply length_imap|]. intros i p Hp. unfold wake.
  exists (wake1 ch c i p). rewrite list_lookup_imap, Hp. split; [done|].
  unfold wake1. case_bool_decide as Hb; [right; naive_solver|by left].
Qed.

(** The part of the table below [n] woken. *)
Definition wake_upto (ch : channel) (c : option nat) (n : nat) (ps : list proc) : list proc :=
  imap (λ i p, if decide (i < n)%nat then wake1 ch c i p else p) ps.

Lemma wake_upto_S ch c n ps p :
  ps !! n = Some p →
  wake_upto ch c (S n) ps = <[n := wake1 ch c n p]> (wake_upto ch c n ps).
Proof.
  intros Hp. apply list_eq. intros i. unfold wake_upto. destruct (decide (i = n)) as [->|Hi].
  - rewrite list_lookup_insert_eq by (rewrite length_imap; by eapply lookup_lt_Some).
    rewrite list_lookup_imap, Hp. simpl. by rewrite decide_True by lia.
  - rewrite list_lookup_insert_ne, !list_lookup_imap by done. destruct (ps !! i); simpl; [|done].
    do 2 f_equal. repeat case_decide; try done; lia.
Qed.

Lemma wake_upto_0 ch c ps : wake_upto ch c 0 ps = ps.
Proof.
  apply list_eq. intros i. unfold wake_upto. rewrite list_lookup_imap. by destruct (ps !! i).
Qed.

Lemma wake_upto_all ch c ps : wake_upto ch c (length ps) ps = wake ch c ps.
Proof.
  apply list_eq. intros i. unfold wake_upto, wake. rewrite !list_lookup_imap.
  destruct (ps !! i) as [p|] eqn:E; simpl; [|done]. apply lookup_lt_Some in E.
  by rewrite decide_True.
Qed.

Definition no_proc_lock (hl : list lockid) : Prop := ∀ i, Lproc i ∉ hl.

Lemma procs_twice (r : sys) a b : r <| procs := a |> <| procs := b |> = r <| procs := b |>.
Proof. by destruct r. Qed.
Lemma procs_id (r : sys) : r <| procs := procs r |> = r.
Proof. by destruct r. Qed.
Lemma procs_held (r : sys) hl ps :
  r <| held := hl |> <| procs := ps |> <| held := held r |> = r <| procs := ps |>.
Proof. by destruct r. Qed.

(** wakeup makes exactly the other processes that sleep on the channel
    runnable. *)
Lemma wp_wakeup ch (Q : unit → st sys → Prop) h r :
  no_proc_lock (held r) → length (procs r) = NPROC →
  Q tt (St h (r <| procs := wake ch (cur r) (procs r) |>)) → wp (wakeup ch) Q (St h r).
Proof.
  intros Hh Hlen HQ. unfold wakeup.
  apply (wp_for_each (λ n s, s = St h (r <| procs := wake_upto ch (cur r) n (procs r) |>))).
  - by rewrite wake_upto_0, procs_id.
  - intros j s Hj ->. destruct (lookup_lt_is_Some_2 (procs r) j) as [p Hp]; [lia|].
    rewrite (wake_upto_S _ _ _ _ _ Hp). apply wp_bind, wp_rd. rsimpl.
    assert (wake_upto ch (cur r) j (procs r) !! j = Some p) as Hj'.
    { unfold wake_upto. rewrite list_lookup_imap, Hp. simpl. by rewrite decide_False by lia. }
    unfold wake1. destruct (decide (cur r = Some j)) as [Hc|Hc].
    { rewrite bool_decide_eq_true_2 by done. rewrite bool_decide_eq_false_2 by naive_solver.
      apply wp_ret. by rewrite list_insert_id. }
    rewrite bool_decide_eq_false_2 by done. apply wp_bind, wp_acquire; [apply Hh|].
    apply wp_bind, (wp_proc_get _ p); [done|]. apply wp_bind.
    case_bool_decide as Hs.
    + rewrite bool_decide_eq_true_2 by done. eapply wp_proc_upd; [done|].
      eapply wp_release; [done|]. by destruct r.
    + rewrite bool_decide_eq_false_2 by naive_solver. apply wp_ret.
      eapply wp_release; [done|]. rewrite list_insert_id by done. by destruct r.
  - intros s ->. rewrite Nat.add_0_l, <-Hlen, wake_upto_all. done.
Qed.

(** ** Sleeping

    While the process is switched out the rest of the system makes the steps
    [sched_steps]; sleep returns if they have made the process runnable. *)
Lemma wp_sched `{Sched} i p s' p' (Q : unit → st sys → Prop) h r :
  held r = [Lproc i] → cur r = Some i → procs r !! i = Some p → p_state p ≠ RUNNING →
  s' = sched_steps (nswtch r) (St h r) →
  procs (rest s') !! i = Some p' → p_state p' = RUNNABLE →
  Q tt (St (mem s') ((rest s') <| procs := <[i := p' <| p_state := RUNNING |>]> (procs (rest s')) |>
    <| cur := Some i |> <| held := [Lproc i] |> <| nswtch := S (nswtch r) |>)) →
  wp sched Q (St h r).
Proof.
  intros Hh Hc Hp Hst Hs' Hp' Hst' HQ. unfold sched. apply wp_bind, (wp_the_proc i); [done|].
  apply wp_bind, wp_bind, wp_rd, wp_ret. rewrite Hh, bool_decide_eq_true_2 by set_solver. cbn [negb].
  apply wp_bind, wp_rd. rewrite Hh, bool_decide_eq_false_2 by (intros E; apply E; done).
  apply wp_bind, (wp_proc_get _ p); [done|]. rewrite bool_decide_eq_false_2 by done.
  unfold wp, swtch. cbn [rest]. rewrite <-Hs', Hp', bool_decide_eq_true_2 by done. exact HQ.
Qed.

Lemma wp_sleep `{Sched} ch lk i p s' p' (Q : unit → st sys → Prop) h r :
  held r = [lk] → lk ≠ Lproc i → cur r = Some i → procs r !! i = Some p →
  s' = sched_steps (nswtch r) (St h (r <| held := [Lproc i] |>
    <| procs := <[i := p <| p_chan := Some ch |> <| p_state := SLEEPING |>]> (procs r) |>)) →
  procs (rest s') !! i = Some p' → p_state p' = RUNNABLE →
  Q tt (St (mem s') ((rest s') <| procs := <[i := p' <| p_state := RUNNING |> <| p_chan := None |>]> (procs (rest s')) |>
    <| cur := Some i |> <| held := [lk] |> <| nswtch := S (nswtch r) |>)) →
  wp (sleep ch lk) Q (St h r).
Proof.
  intros Hh Hlk Hc Hp Hs' Hp' Hst HQ. unfold sleep.
  apply wp_bind, (wp_the_proc i); [done|].
  apply wp_bind, wp_acquire; [rewrite Hh; by intros Hin%list_elem_of_singleton|].
  apply wp_bind, (wp_release_second lk (Lproc i) []); [by rsimpl; rewrite Hh|done|].
  apply wp_bind, (wp_proc_upd _ p); [done|].
  apply wp_bind, (wp_sched i (p <| p_chan := Some ch |> <| p_state := SLEEPING |>) s' p'); try done.
  { rsimpl. apply list_lookup_insert_eq. by eapply lookup_lt_Some. }
  apply wp_bind, (wp_proc_upd _ (p' <| p_state := RUNNING |>)).
  { rsimpl. apply list_lookup_insert_eq. by eapply lookup_lt_Some. }
  apply wp_bind, (wp_release _ []); [done|].
  apply wp_acquire; [apply not_elem_of_nil|]. rsimpl. rewrite list_insert_insert_eq.
  by destruct (rest s').
Qed.

(** ** A kernel thread that may sleep: it holds no spin lock

    [vdisk_ok] is the invariant that the disk driver keeps on its own variables
    between its operations. *)
Class DevInv := vdisk_ok : vdiskst → Prop.

Record thread `{DevInv} (r : sys) (pid : Z) : Prop := {
  th_dev : vdisk_ok (vdisk r);
  th_held : held r = [];
  th_len : length (procs r) = NPROC;
  th_cur : ∃ i p, cur r = Some i ∧ procs r !! i = Some p ∧ p_pid p = pid;
  th_run : ∀ i p, cur r = Some i → procs r !! i = Some p → p_state p = RUNNING ∧ p_chan p = None;
  th_disk : ∀ b, b ∈ dom (disk r) → 0 <= b < 2 ^ 31
}.

Lemma thread_no_proc_lock `{DevInv} r pid lk : thread r pid → (∀ i, lk ≠ Lproc i) → no_proc_lock [lk].
Proof. intros _ Hlk i Hin. apply list_elem_of_singleton in Hin. by apply (Hlk i). Qed.
