(* ===== verification/ConsoleSpec.v ===== *)
(** * Specification of printf

    [out r bs] is the state after [bs] went to the UART.  A format is built from
    [directive]s; printf writes what [render] says, and the digits it writes for
    a number read back as that number. *)
From S2P Require Import Prelude.
From S2P Require Import Mem.
From S2P Require Import Params.
From S2P Require Import State.
From S2P Require Import Sched.
From S2P Require Import Console.
From S2P Require Import Wp.
#[local] Open Scope Z_scope.

Definition out (r : sys) (bs : list Z) : sys := r <| uart_out := uart_out r ++ bs |>.

Lemma out_nil r : out r [] = r.
Proof. unfold out. rewrite app_nil_r. by destruct r. Qed.
Lemma out_app r a b : out (out r a) b = out r (a ++ b).
Proof. unfold out. simpl. rewrite app_assoc. by destruct r. Qed.

(** What consputc sends. *)
Definition cput (c : Z) : list Z := if decide (c = BACKSPACE) then [8; 32; 8] else [u8 c].

(** ** Numbers in a base *)
Definition digit_val (c : Z) : Z := if decide (97 <= c) then c - 87 else c - 48.

Fixpoint value (base : Z) (ds : list Z) : Z :=
  match ds with
  | [] => 0
  | d :: ds' => digit_val d + base * value base ds'
  end.

Lemma digits_val k : 0 <= k < 16 → digit_val (digits !!! Z.to_nat k) = k.
Proof.
  intros Hk. assert (∃ n : nat, k = Z.of_nat n ∧ (n < 16)%nat) as (n & -> & Hn) by (exists (Z.to_nat k); lia).
  rewrite Nat2Z.id. do 16 (destruct n as [|n]; [reflexivity|]). lia.
Qed.

Lemma digits_ascii k : 0 <= k < 16 → 48 <= digits !!! Z.to_nat k <= 102.
Proof.
  intros Hk. assert (∃ n : nat, k = Z.of_nat n ∧ (n < 16)%nat) as (n & -> & Hn) by (exists (Z.to_nat k); lia).
  rewrite Nat2Z.id. do 16 (destruct n as [|n]; [vm_compute; split; discriminate|]). lia.
Qed.

Lemma div_small_fuel x base f : 2 <= base → 0 <= x < base ^ Z.of_nat (S f) → 0 <= x / base < base ^ Z.of_nat f.
Proof.
  intros Hb Hx. split; [apply Z.div_pos; lia|]. apply Z.div_lt_upper_bound; [lia|].
  rewrite Nat2Z.inj_succ, Z.pow_succ_r in Hx by lia. lia.
Qed.

(** The digits are those of the number, and there are no more than needed. *)
Lemma printint_digits_value f x base :
  2 <= base <= 16 → 0 <= x < base ^ Z.of_nat f → (0 < f)%nat → value base (printint_digits f x base) = x.
Proof.
  intros Hb. revert x; induction f as [|f IH]; intros x Hx Hf; [lia|]. simpl printint_digits.
  pose proof (Z.mod_pos_bound x base ltac:(lia)). pose proof (Z.div_mod x base ltac:(lia)).
  case_bool_decide as Hq.
  - simpl. rewrite digits_val by lia. lia.
  - destruct f as [|f]; [exfalso; rewrite Z.div_small in Hq by lia; lia|].
    cbn [value]. rewrite digits_val, IH by (try apply div_small_fuel; lia). lia.
Qed.

Lemma printint_digits_length f x base n :
  2 <= base → 0 <= x < base ^ Z.of_nat n → (0 < n)%nat → (length (printint_digits f x base) <= n)%nat.
Proof.
  intros Hb. revert f x; induction n as [|n IH]; intros f x Hx Hn; [lia|]. destruct f as [|f]; simpl; [lia|].
  case_bool_decide as Hq; simpl; [lia|].
  destruct n as [|n]; [exfalso; rewrite Z.div_small in Hq by lia; lia|].
  assert (length (printint_digits f (x / base) base) <= S n)%nat; [|lia].
  apply IH; [by apply div_small_fuel|lia].
Qed.

Lemma printint_digits_ascii f x base :
  2 <= base <= 16 → 0 <= x → Forall (λ c, 48 <= c <= 102) (printint_digits f x base).
Proof.
  intros Hb. revert x; induction f as [|f IH]; intros x Hx; simpl; [constructor|].
  pose proof (Z.mod_pos_bound x base ltac:(lia)).
  case_bool_decide; (constructor; [apply digits_ascii; lia|]); [constructor|].
  apply IH. apply Z.div_pos; lia.
Qed.

(** No leading zero: the most significant digit is not 0 unless the number is. *)
Lemma printint_digits_last f x base :
  2 <= base <= 16 → 0 < x < base ^ Z.of_nat f → ∃ d, last (printint_digits f x base) = Some d ∧ d ≠ 48.
Proof.
  intros Hb. revert x; induction f as [|f IH]; intros x Hx; [simpl in Hx; lia|]. simpl printint_digits.
  pose proof (Z.mod_pos_bound x base ltac:(lia)). pose proof (Z.div_mod x base ltac:(lia)).
  pose proof (div_small_fuel x base f ltac:(lia) ltac:(lia)). case_bool_decide as Hq.
  - exists (digits !!! Z.to_nat (x mod base)). split; [done|]. intros E.
    pose proof (digits_val (x mod base) ltac:(lia)) as Hv. rewrite E in Hv. change (digit_val 48) with 0 in Hv. rewrite Hq in *. lia.
  - destruct (IH (x / base)) as (d & Hd & Hne); [lia|]. exists d. by rewrite last_cons, Hd.
Qed.

(** ** Directives and what they print *)
Definition number (xx base : Z) (sign : bool) : list Z :=
  let neg := sign && bool_decide (xx < 0) in
  (if neg then [45] else []) ++ rev (printint_digits 64 (u64 (if neg then - xx else xx)) base).

Fixpoint ptr_digits (n : nat) (x : Z) : list Z :=
  match n with
  | O => []
  | S n' => digits !!! Z.to_nat (Z.shiftr x 60) :: ptr_digits n' (u64 (Z.shiftl x 4))
  end.

(** [longs] is the number of l before the letter. *)
Inductive numfmt : Type := Fd | Fu | Fx.
Inductive directive : Type :=
| Lit (c : Z) | Num (longs : nat) (f : numfmt) | Fp | Fc | Fs | Fpercent.

Definition letter (f : numfmt) : Z := match f with Fd => 100 | Fu => 117 | Fx => 120 end.

Definition dir_ok (d : directive) : Prop :=
  match d with Lit c => c ≠ 37 ∧ c ≠ BACKSPACE ∧ 0 < c < 256 | Num l _ => (l <= 2)%nat | _ => True end.

#[export] Instance dir_ok_dec d : Decision (dir_ok d).
Proof. destruct d; simpl; apply _. Defined.

Definition spell (d : directive) : list Z :=
  match d with
  | Lit c => [c]
  | Num l f => 37 :: replicate l 108 ++ [letter f]
  | Fp => [37; 112] | Fc => [37; 99] | Fs => [37; 115] | Fpercent => [37; 37]
  end.

Definition conv (l : nat) (f : numfmt) (v : Z) : Z :=
  match l, f with O, Fd => s32 v | O, _ => u32 v | _, _ => s64 v end.

(** The output of one directive and the arguments left, if they fit. *)
Definition render (d : directive) (args : list arg) : option (list Z * list arg) :=
  match d, args with
  | Lit c, _ => Some ([c], args)
  | Num l f, AInt v :: a =>
      Some (number (conv l f v) (match f with Fx => 16 | _ => 10 end) (match f with Fd => true | _ => false end), a)
  | Fp, AInt v :: a => Some (48 :: 120 :: ptr_digits 16 (u64 v), a)
  | Fc, AInt v :: a => Some (cput (s32 v), a)
  | Fs, AStr s :: a => Some (flat_map cput (default (str "(null)") s), a)
  | Fpercent, _ => Some ([37], args)
  | _, _ => None
  end.

Fixpoint render_all (ds : list directive) (args : list arg) : option (list Z) :=
  match ds with
  | [] => Some []
  | d :: ds' =>
      match render d args with
      | Some (bs, a) => match render_all ds' a with Some bs' => Some (bs ++ bs') | None => None end
      | None => None
      end
  end.

Section printf.
Context `{Linker} `{Sched}.

Lemma wp_consputc c (Q : unit → st sys → Prop) h r :
  Q tt (St h (out r (cput c))) → wp (consputc c) Q (St h r).
Proof.
  intros HQ. unfold consputc, cput in *. case_bool_decide as Hc; case_decide; try done.
  - change (Q tt (St h (out (out (out r [8]) [32]) [8]))). by rewrite !out_app.
Qed.

Lemma wp_cputs s (Q : unit → st sys → Prop) h r :
  Q tt (St h (out r (flat_map cput s))) → wp (cputs s) Q (St h r).
Proof.
  revert r; induction s as [|c s IH]; intros r HQ; simpl in *.
  - rewrite out_nil in HQ. by apply wp_ret.
  - apply wp_bind, wp_consputc, IH. by rewrite out_app.
Qed.

Lemma cput_small c : 0 <= c < 256 → cput c = [c].
Proof. intros Hc. unfold cput, BACKSPACE. rewrite decide_False by lia. by rewrite uN_small by lia. Qed.

Lemma flat_cput s : Forall (λ c, 0 <= c < 256) s → flat_map cput s = s.
Proof. induction 1 as [|c s Hc _ IH]; simpl; [done|]. by rewrite cput_small, IH. Qed.

(** The longest number, sign included, fills the 20 bytes of printint's buffer. *)
Lemma number_fits xx base (sign : bool) :
  base = 10 ∨ base = 16 → - 2 ^ 63 <= xx < 2 ^ 64 →
  let neg := sign && bool_decide (xx < 0) in
  (length (printint_digits 64 (u64 (if neg then - xx else xx)) base ++ (if neg then [45%Z] else [])) <= 20)%nat.
Proof.
  intros Hb Hx neg. rewrite length_app. destruct neg eqn:Hn; cbn [length].
  - apply andb_true_iff in Hn as [_ Hn%bool_decide_eq_true]. rewrite uN_small by lia.
    pose proof (printint_digits_length 64 (- xx) base 19) as Hl. change (Z.of_nat 19) with 19 in Hl.
    destruct Hb as [-> | ->]; lia.
  - pose proof (printint_digits_length 64 (u64 xx) base 20) as Hl. change (Z.of_nat 20) with 20 in Hl.
    assert (0 <= u64 xx < 2 ^ 64) by (unfold uN; apply Z.mod_pos_bound; lia).
    destruct Hb as [-> | ->]; lia.
Qed.

Lemma wp_printint xx base sign (Q : unit → st sys → Prop) h r :
  base = 10 ∨ base = 16 → - 2 ^ 63 <= xx < 2 ^ 64 →
  Q tt (St h (out r (number xx base sign))) → wp (printint xx base sign) Q (St h r).
Proof.
  intros Hb Hx HQ. unfold printint. rewrite bool_decide_eq_true_2 by (by apply number_fits).
  apply wp_cputs. rewrite flat_cput.
  - rewrite rev_app_distr. unfold number in HQ. by destruct (sign && _).
  - apply Forall_rev, Forall_app. split.
    + eapply Forall_impl; [apply printint_digits_ascii; [lia|]|intros c Hc; cbv beta in *; lia].
      unfold uN. by apply Z.mod_pos_bound.
    + destruct (sign && _); repeat constructor; lia.
Qed.

Lemma ptr_digits_range n x : 0 <= x < 2 ^ 64 → Forall (λ c, 0 <= c < 256) (ptr_digits n x).
Proof.
  revert x; induction n as [|n IH]; intros x Hx; cbn [ptr_digits]; constructor.
  - assert (0 <= Z.shiftr x 60 < 16) as Hs.
    { rewrite Z.shiftr_div_pow2 by lia. split; [apply Z.div_pos; lia|apply Z.div_lt_upper_bound; lia]. }
    pose proof (digits_ascii _ Hs). lia.
  - apply IH. unfold uN. apply Z.mod_pos_bound. lia.
Qed.

Lemma wp_printptr x (Q : unit → st sys → Prop) h r :
  0 <= x < 2 ^ 64 → Q tt (St h (out r (48 :: 120 :: ptr_digits 16 x))) → wp (printptr x) Q (St h r).
Proof.
  intros Hx HQ. unfold printptr. apply wp_bind, wp_consputc, wp_bind, wp_consputc.
  rewrite out_app, !cput_small by lia.
  assert (∀ n x r, 0 <= x < 2 ^ 64 → Q tt (St h (out r (ptr_digits n x))) → wp (printptr_loop n x) Q (St h r)) as Hl.
  { clear. induction n as [|n IH]; intros x r Hx HQ; cbn [ptr_digits printptr_loop] in *.
    - rewrite out_nil in HQ. by apply wp_ret.
    - apply wp_bind, wp_consputc, IH; [unfold uN; apply Z.mod_pos_bound; lia|].
      pose proof (ptr_digits_range 1 x Hx) as Hd. cbn [ptr_digits] in Hd. apply Forall_cons in Hd as [Hd _].
      rewrite cput_small, out_app by lia. done. }
  apply Hl; [done|]. by rewrite out_app.
Qed.

(** One round of the loop for each directive. *)
Lemma printf_num fuel l f rest args :
  (l <= 2)%nat →
  printf_loop (S fuel) (spell (Num l f) ++ rest) args =
    ('(v, args) ← va_int args;
     printint (conv l f v) (match f with Fx => 16 | _ => 10 end) (match f with Fd => true | _ => false end);;
     printf_loop fuel rest args).
Proof. intros Hl. destruct l as [|[|[|l]]]; [| | |lia]; destruct f; reflexivity. Qed.

Lemma conv_range l f v : - 2 ^ 63 <= conv l f v < 2 ^ 64.
Proof.
  assert (∀ w x, 0 < w <= 64 → - 2 ^ 63 <= sN w x < 2 ^ 64 ∧ 0 <= uN w x < 2 ^ 64) as Hr.
  { intros w x Hw. unfold sN, uN. pose proof (Z.mod_pos_bound (x + 2 ^ (w - 1)) (2 ^ w) ltac:(lia)).
    pose proof (Z.mod_pos_bound x (2 ^ w) ltac:(lia)). pose proof (Z.pow_le_mono_r 2 w 64 ltac:(lia) ltac:(lia)).
    pose proof (Z.pow_le_mono_r 2 (w - 1) 63 ltac:(lia) ltac:(lia)). lia. }
  destruct l, f; simpl; (apply Hr || (pose proof (Hr 32 v); lia)); lia.
Qed.

Lemma wp_printf_loop ds : ∀ fuel args bs (Q : unit → st sys → Prop) h r,
  Forall dir_ok ds → render_all ds args = Some bs → (length (flat_map spell ds) < fuel)%nat →
  Q tt (St h (out r bs)) → wp (printf_loop fuel (flat_map spell ds) args) Q (St h r).
Proof.
  induction ds as [|d ds IH]; intros fuel args bs Q h r Hok Hr Hf HQ; destruct fuel as [|fuel]; try (simpl in *; lia).
  { injection Hr as <-. rewrite out_nil in HQ. by apply wp_ret. }
  apply Forall_cons in Hok as [Hd Hok]. cbn [render_all flat_map] in *. rewrite length_app in Hf.
  destruct (render d args) as [[b1 a1]|] eqn:Hd1; [|done].
  destruct (render_all ds a1) as [b2|] eqn:Hds; [|done]. injection Hr as <-.
  assert (∀ m : K unit, (∀ Q', Q' tt (St h (out r b1)) → wp m Q' (St h r)) →
    (0 < length (spell d))%nat → wp (m;; printf_loop fuel (flat_map spell ds) a1) Q (St h r)) as Hstep.
  { intros m Hm Hl. apply wp_bind, Hm. eapply IH; [done|done|lia|]. by rewrite out_app. }
  destruct d as [c|l f| | | |]; cbn [render] in Hd1.
  - injection Hd1 as <- <-. destruct Hd as (H37 & Hbs & Hc). cbn [spell app printf_loop].
    rewrite bool_decide_eq_true_2 by done. apply Hstep; [|simpl; lia]. intros Q' HQ'. apply wp_consputc.
    by rewrite cput_small by lia.
  - destruct args as [|[v|s] args]; simplify_eq. rewrite printf_num by done.
    apply Hstep; [|simpl; lia]. intros Q' HQ'. apply wp_printint; [destruct f; auto|apply conv_range|done].
  - destruct args as [|[v|s] args]; simplify_eq.
    change (wp (printptr (u64 v);; printf_loop fuel (flat_map spell ds) a1) Q (St h r)).
    apply Hstep; [|simpl; lia]. intros Q' HQ'. apply wp_printptr; [unfold uN; apply Z.mod_pos_bound; lia|done].
  - destruct args as [|[v|s] args]; simplify_eq.
    change (wp (consputc (s32 v);; printf_loop fuel (flat_map spell ds) a1) Q (St h r)).
    apply Hstep; [|simpl; lia]. intros Q' HQ'. by apply wp_consputc.
  - destruct args as [|[v|s] args]; simplify_eq.
    change (wp (cputs (default (str "(null)") s);; printf_loop fuel (flat_map spell ds) a1) Q (St h r)).
    apply Hstep; [|simpl; lia]. intros Q' HQ'. by apply wp_cputs.
  - injection Hd1 as <- <-. change (wp (consputc 37;; printf_loop fuel (flat_map spell ds) args) Q (St h r)).
    apply Hstep; [|simpl; lia]. intros Q' HQ'. by apply wp_consputc.
Qed.

Lemma wp_printf ds args bs (Q : Z → st sys → Prop) h r :
  Forall dir_ok ds → render_all ds args = Some bs → Lpr ∉ held r →
  Q 0 (St h (out r bs)) → wp (printf (flat_map spell ds) args) Q (St h r).
Proof.
  intros Hok Hr Hh HQ. apply wp_bind, wp_acquire; [done|]. apply wp_bind.
  eapply wp_printf_loop; [done|done|lia|]. apply wp_bind. eapply wp_release; [done|]. apply wp_ret.
  by destruct r.
Qed.
End printf.
