(* ===== verification/BioSpec.v ===== *)
(** * Specification of the buffer cache

    [bcache B D pid refs lk] is the invariant of the cache [B] over the disk
    [D].  [refs] maps the number of every referenced block to its buffer, its
    reference count and its data; [lk] is the set of those that the thread of
    process [pid] has locked.  An unreferenced buffer that is valid holds what
    the disk holds, so recycling it loses nothing. *)
From S2P Require Import Prelude.
From S2P Require Import Mem.
From S2P Require Import Params.
From S2P Require Import State.
From S2P Require Import Sched.
From S2P Require Import Bio.
From S2P Require Import Wp.
From S2P Require Import SchedSpec.
#[local] Open Scope Z_scope.

(** ** Doubly linked lists through two index functions

    [seg nx pv x l z]: following [nx] from [x] one meets the nodes [l] and then
    [z], and [pv] goes the same way back.  A circular list with head [x] is
    [seg nx pv x l x].  Used for the LRU list of kernel/bio.c. *)

(** [f] with the value at [i] changed. *)
Definition fupd {A} (f : nat → A) (i : nat) (v : A) : nat → A :=
  λ j, if decide (j = i) then v else f j.

Lemma fupd_eq {A} (f : nat → A) i v : fupd f i v i = v.
Proof. unfold fupd. by rewrite decide_True. Qed.
Lemma fupd_ne {A} (f : nat → A) i j v : j ≠ i → fupd f i v j = f j.
Proof. intros. unfold fupd. by rewrite decide_False. Qed.

Fixpoint seg (nx pv : nat → nat) (x : nat) (l : list nat) (z : nat) : Prop :=
  match l with
  | [] => nx x = z ∧ pv z = x
  | y :: l' => nx x = y ∧ pv y = x ∧ seg nx pv y l' z
  end.

Section seg.
Implicit Types nx pv : nat → nat.

Lemma seg_app nx pv x l1 y l2 z :
  seg nx pv x (l1 ++ y :: l2) z ↔ seg nx pv x l1 y ∧ seg nx pv y l2 z.
Proof. revert x; induction l1 as [|a l1 IH]; intros x; simpl; [tauto|]. rewrite IH. tauto. Qed.

(** Only the [nx] of the nodes left of the end and the [pv] of the nodes right
    of the start matter. *)
Lemma seg_ext nx pv nx' pv' x l z :
  (∀ a, a = x ∨ a ∈ l → nx' a = nx a) → (∀ a, a = z ∨ a ∈ l → pv' a = pv a) →
  seg nx pv x l z → seg nx' pv' x l z.
Proof.
  revert x; induction l as [|y l IH]; intros x Hn Hp; simpl.
  - intros [H1 H2]. split; [rewrite Hn|rewrite Hp]; auto.
  - intros (H1 & H2 & H3). split; [rewrite Hn; auto|]. split; [rewrite Hp; set_solver|].
    apply IH; [| |done]; intros a Ha; [apply Hn|apply Hp]; set_solver.
Qed.

Lemma seg_last nx pv x l z : seg nx pv x l z → pv z = default x (last l) ∧ nx x = default z (head l).
Proof.
  revert x; induction l as [|y l IH]; intros x; simpl; [tauto|].
  intros (H1 & H2 & H3). destruct (IH y H3) as [H4 _]. split; [|done].
  rewrite H4, last_cons. by destruct (last l).
Qed.

(** Taking node [i] out: its neighbours [a] and [c] are linked to each other. *)
Lemma seg_unlink nx pv x l1 i l2 z :
  NoDup (l1 ++ i :: l2) → x ∉ l1 ++ i :: l2 → z ∉ l1 ++ i :: l2 →
  seg nx pv x (l1 ++ i :: l2) z →
  seg (fupd nx (pv i) (nx i)) (fupd pv (nx i) (pv i)) x (l1 ++ l2) z.
Proof.
  intros Hnd Hx Hz [S1 S2]%seg_app. destruct (seg_last _ _ _ _ _ S1) as [Ea _].
  destruct (seg_last _ _ _ _ _ S2) as [_ Ec]. rewrite Ea, Ec. clear Ea Ec.
  apply NoDup_app in Hnd as (N1 & Hd & N2). apply NoDup_cons in N2 as [Hi N2].
  assert (∀ c l, l2 = c :: l → c ∉ l) as Nc.
  { intros c l ->. by apply NoDup_cons in N2 as [? _]. }
  assert (∀ a l, l1 = l ++ [a] → a ∉ l) as Na.
  { intros a l ->. apply NoDup_app in N1 as (_ & N1 & _). intros Ha. apply (N1 a Ha). set_solver. }
  destruct l1 as [|a1 l1 _] using rev_ind; destruct l2 as [|c l2]; simpl in *.
  - rewrite !fupd_eq. done.
  - rewrite !fupd_eq. split; [done|]. split; [done|]. destruct S2 as (_ & _ & S2).
    specialize (Nc c l2 eq_refl).
    eapply seg_ext, S2; intros b Hb; apply fupd_ne; intros ->; set_solver.
  - rewrite app_nil_r, last_snoc. simpl. apply seg_app in S1 as [S1 _]. apply seg_app. simpl.
    rewrite !fupd_eq. split; [|done]. specialize (Na a1 l1 eq_refl).
    eapply seg_ext, S1; intros b Hb; apply fupd_ne; intros ->; set_solver.
  - rewrite last_snoc. simpl. apply seg_app in S1 as [S1 _]. destruct S2 as (_ & _ & S2).
    specialize (Na a1 l1 eq_refl). specialize (Nc c l2 eq_refl).
    rewrite <-app_assoc. apply seg_app. simpl. rewrite !fupd_eq. split; [|split; [done|split; [done|]]].
    + eapply seg_ext, S1; intros b Hb; apply fupd_ne; intros ->; set_solver.
    + eapply seg_ext, S2; intros b Hb; apply fupd_ne; intros ->; set_solver.
Qed.

(** Putting node [i] right after [x]. *)
Lemma seg_link nx pv x l i z :
  NoDup l → x ∉ l → z ∉ l → i ∉ l → i ≠ x → i ≠ z → seg nx pv x l z →
  seg (fupd (fupd nx i (nx x)) x i) (fupd (fupd pv i x) (nx x) i) x (i :: l) z.
Proof.
  intros Hnd Hx Hz Hi Hix Hiz S1. destruct (seg_last _ _ _ _ _ S1) as [_ Ec]. rewrite Ec.
  split; [by rewrite fupd_eq|]. destruct l as [|c l]; simpl in *.
  - rewrite (fupd_ne _ _ i), fupd_eq by done. split; [done|].
    rewrite fupd_ne, fupd_eq by done. by rewrite fupd_eq.
  - rewrite (fupd_ne _ c i), fupd_eq by set_solver. split; [done|].
    rewrite (fupd_ne _ x i), fupd_eq by done. split; [done|]. rewrite fupd_eq. split; [done|].
    destruct S1 as (_ & _ & S1). apply NoDup_cons in Hnd as [Hc Hnd].
    eapply seg_ext, S1; intros b Hb; rewrite !fupd_ne; set_solver.
Qed.
End seg.

Definition nxf (B : list buf) (i : nat) : nat := default O (b_next <$> B !! i).
Definition pvf (B : list buf) (i : nat) : nat := default O (b_prev <$> B !! i).

Abbreviation refmap := (gmap Z (nat * Z * list Z)).

Definition lock_ok (pid bno : Z) (lk : gset Z) (l : sleeplock) : Prop :=
  if bool_decide (bno ∈ lk) then l = SleepLock true pid else sl_locked l = false.

Definition buf_ok (D : gmap Z (list Z)) (pid : Z) (refs : refmap) (lk : gset Z) (i : nat) (b : buf) : Prop :=
  (refs !! b_blockno b = Some (i, b_refcnt b, b_data b) ∧ b_dev b = ROOTDEV ∧ b_valid b = true ∧
   0 < b_refcnt b < 2 ^ 31 ∧ lock_ok pid (b_blockno b) lk (b_lock b)) ∨
  (b_refcnt b = 0 ∧ sl_locked (b_lock b) = false ∧
   (b_dev b = ROOTDEV → refs !! b_blockno b = None ∧
      (b_valid b = true → D !! b_blockno b = Some (b_data b)))).

Record bcache (B : list buf) (D : gmap Z (list Z)) (pid : Z) (refs : refmap) (lk : gset Z) : Prop := {
  bc_len : length B = S NBUF;
  bc_lru : ∃ l, l ≡ₚ seq 0 NBUF ∧ seg (nxf B) (pvf B) HEAD l HEAD;
  bc_buf : ∀ i b, (i < NBUF)%nat → B !! i = Some b → buf_ok D pid refs lk i b;
  bc_uniq : ∀ i j bi bj, (i < NBUF)%nat → (j < NBUF)%nat → B !! i = Some bi → B !! j = Some bj →
    b_dev bi = ROOTDEV → b_dev bj = ROOTDEV → b_blockno bi = b_blockno bj → i = j;
  bc_refs : ∀ bno i c d, refs !! bno = Some (i, c, d) →
    (i < NBUF)%nat ∧ ∃ b, B !! i = Some b ∧ b_dev b = ROOTDEV ∧ b_blockno b = bno;
  bc_locked : ∀ bno, bno ∈ lk → is_Some (refs !! bno)
}.

(** ** Updating the links *)
Lemma nxf_insert B i b j : (i < length B)%nat → nxf (<[i := b]> B) j = fupd (nxf B) i (b_next b) j.
Proof.
  intros Hi. unfold nxf, fupd. case_decide as Hj; [subst j|].
  - by rewrite list_lookup_insert_eq.
  - by rewrite list_lookup_insert_ne.
Qed.
Lemma pvf_insert B i b j : (i < length B)%nat → pvf (<[i := b]> B) j = fupd (pvf B) i (b_prev b) j.
Proof.
  intros Hi. unfold pvf, fupd. case_decide as Hj; [subst j|].
  - by rewrite list_lookup_insert_eq.
  - by rewrite list_lookup_insert_ne.
Qed.

(** A change of the other fields keeps the list. *)
Lemma seg_same_links B i b b' x l z :
  B !! i = Some b → b_next b' = b_next b → b_prev b' = b_prev b →
  seg (nxf B) (pvf B) x l z → seg (nxf (<[i := b']> B)) (pvf (<[i := b']> B)) x l z.
Proof.
  intros Hi Hn Hp. pose proof (lookup_lt_Some _ _ _ Hi).
  apply seg_ext; intros a _; [rewrite nxf_insert by done|rewrite pvf_insert by done];
    unfold fupd; case_decide; [subst a|done|subst a|done]; unfold nxf, pvf; by rewrite Hi.
Qed.

Section bcache.
Context {B : list buf} {D : gmap Z (list Z)} {pid : Z} {refs : refmap} {lk : gset Z}.
Context (HB : bcache B D pid refs lk).

(** What is known of a referenced buffer. *)
Lemma bc_get bno i c d :
  refs !! bno = Some (i, c, d) →
  (i < NBUF)%nat ∧ ∃ b, B !! i = Some b ∧ b_dev b = ROOTDEV ∧ b_blockno b = bno ∧ b_valid b = true ∧
    b_refcnt b = c ∧ b_data b = d ∧ 0 < c < 2 ^ 31 ∧ lock_ok pid bno lk (b_lock b).
Proof.
  intros Hr. destruct (bc_refs _ _ _ _ _ HB _ _ _ _ Hr) as (Hi & b & Hb & Hd & Hn).
  split; [done|]. exists b. destruct (bc_buf _ _ _ _ _ HB i b Hi Hb) as [(Hr' & _ & Hv & Hc & Hl)|(_ & _ & Hno)].
  - rewrite Hn, Hr in Hr'. simplify_eq. done.
  - destruct (Hno Hd) as [Hno' _]. congruence.
Qed.

(** Setting a buffer to hold a referenced block. *)
Lemma bcache_set i b b' bno c' d' lk' :
  (i < NBUF)%nat → B !! i = Some b → b_next b' = b_next b → b_prev b' = b_prev b →
  b_dev b' = ROOTDEV → b_blockno b' = bno → b_valid b' = true → b_refcnt b' = c' → b_data b' = d' →
  0 < c' < 2 ^ 31 → lock_ok pid bno lk' (b_lock b') →
  (∀ bno', bno' ≠ bno → bno' ∈ lk' ↔ bno' ∈ lk) →
  (∀ j bj, j ≠ i → (j < NBUF)%nat → B !! j = Some bj → b_dev bj = ROOTDEV → b_blockno bj ≠ bno) →
  (∀ bno' c d, refs !! bno' = Some (i, c, d) → bno' = bno) →
  bcache (<[i := b']> B) D pid (<[bno := (i, c', d')]> refs) lk'.
Proof.
  intros Hi Hb Hnx Hpv Hdev Hbno Hval Hc Hd Hc' Hlock Hlk Hother Hself.
  destruct HB as [Hlen (l & Hperm & Hseg) Hbuf Huniq Hrefs Hlocked].
  pose proof (lookup_lt_Some _ _ _ Hb) as Hlt. split.
  - by rewrite length_insert.
  - exists l. split; [done|]. by eapply seg_same_links.
  - intros j bj Hj. rewrite list_lookup_insert_Some. intros [(<- & <- & _)|[Hne Hbj]].
    { left. rewrite Hbno, lookup_insert_eq. by subst. }
    destruct (Hbuf j bj Hj Hbj) as [(Hr & Hdv & Hv & Hrc & Hl)|(Hr & Hl & Hno)].
    + assert (b_blockno bj ≠ bno) as Hne' by (apply (Hother j); auto).
      left. rewrite lookup_insert_ne by done. split_and!; try done; try lia.
      unfold lock_ok in *. by rewrite (bool_decide_ext _ _ (Hlk _ Hne')).
    + right. split_and!; [done|done|]. intros Hdv.
      rewrite lookup_insert_ne by (apply not_eq_sym, (Hother j); auto). by apply Hno.
  - intros j k bj bk Hj Hk. rewrite !list_lookup_insert_Some.
    intros [(<- & <- & _)|[Hjn Hbj]] [(<- & <- & _)|[Hkn Hbk]] Hdj Hdk Heq; [done| | |by eapply Huniq].
    + destruct (Hother k bk); auto. congruence.
    + destruct (Hother j bj); auto. congruence.
  - intros bno' j c d. rewrite lookup_insert_Some. intros [[<- [= <- <- <-]]|[Hne Hr]].
    + split; [done|]. exists b'. by rewrite list_lookup_insert_eq.
    + destruct (Hrefs _ _ _ _ Hr) as (Hj & bj & Hbj & ? & ?). split; [done|]. exists bj.
      rewrite list_lookup_insert_ne; [done|]. intros ->. destruct Hne. symmetry. by eapply Hself.
  - intros bno' Hin. destruct (decide (bno' = bno)) as [->|Hne]; [by rewrite lookup_insert_eq|].
    rewrite lookup_insert_ne by done. apply Hlocked. by apply Hlk.
Qed.

(** Dropping the last reference to a block that the disk holds. *)
Lemma bcache_drop i b b' bno c d lk' :
  refs !! bno = Some (i, c, d) → B !! i = Some b →
  b_next b' = b_next b → b_prev b' = b_prev b → b_dev b' = b_dev b → b_blockno b' = b_blockno b →
  b_data b' = b_data b → b_refcnt b' = 0 → sl_locked (b_lock b') = false →
  D !! bno = Some d → (∀ bno', bno' ∈ lk' ↔ bno' ∈ lk ∧ bno' ≠ bno) →
  bcache (<[i := b']> B) D pid (delete bno refs) lk'.
Proof.
  intros Hr Hb Hnx Hpv Hdev Hblk Hdat Hrc Hul HD Hlk.
  destruct (bc_get _ _ _ _ Hr) as (Hi & b0 & Hb0 & Hd0 & Hn0 & Hv0 & Hc0 & Hdd0 & _ & _).
  rewrite Hb in Hb0. injection Hb0 as <-.
  destruct HB as [Hlen (l & Hperm & Hseg) Hbuf Huniq Hrefs Hlocked]. split.
  - by rewrite length_insert.
  - exists l. split; [done|]. by eapply seg_same_links.
  - intros j bj Hj. rewrite list_lookup_insert_Some. intros [(<- & <- & _)|[Hne Hbj]].
    { right. rewrite Hblk, Hn0, Hdat, Hdd0, lookup_delete_eq. by split_and!. }
    destruct (Hbuf j bj Hj Hbj) as [(Hr' & Hdv & Hv & Hrcj & Hl)|(Hr' & Hl & Hno)].
    + assert (b_blockno bj ≠ bno) by (intros E; rewrite E in *; congruence).
      left. rewrite lookup_delete_ne by done. split_and!; try done; try lia.
      unfold lock_ok in *. rewrite (bool_decide_ext _ (b_blockno bj ∈ lk)); [done|].
      rewrite Hlk. naive_solver.
    + right. split_and!; [done|done|]. intros Hdv. destruct (Hno Hdv) as [Hno1 Hno2].
      split; [|done]. rewrite lookup_delete_None. auto.
  - intros j k bj bk Hj Hk. rewrite !list_lookup_insert_Some.
    intros [(<- & <- & _)|[Hjn Hbj]] [(<- & <- & _)|[Hkn Hbk]] Hdj Hdk Heq; [done| | |by eapply Huniq].
    + eapply Huniq; try done; congruence.
    + eapply Huniq; try done; congruence.
  - intros bno' j c' d'. rewrite lookup_delete_Some. intros [Hne Hr'].
    destruct (Hrefs _ _ _ _ Hr') as (Hj & bj & Hbj & Hdj & Hnj). split; [done|]. exists bj.
    rewrite list_lookup_insert_ne; [done|]. intros ->. congruence.
  - intros bno' [Hin Hne]%Hlk. rewrite lookup_delete_ne by done. by apply Hlocked.
Qed.

(** Writing a referenced block to the disk. *)
Lemma bcache_disk bno x : is_Some (refs !! bno) → bcache B (<[bno := x]> D) pid refs lk.
Proof.
  intros [r Hr]. destruct HB as [Hlen Hlru Hbuf Huniq Hrefs Hlocked]. split; try done.
  intros i b Hi Hb. destruct (Hbuf i b Hi Hb) as [?|(Hrc & Hl & Hno)]; [by left|right].
  split_and!; [done|done|]. intros Hd. destruct (Hno Hd) as [Hno1 Hno2]. split; [done|].
  intros Hv. rewrite lookup_insert_ne by congruence. by apply Hno2.
Qed.

(** Fields other than the links. *)
Definition same_but_links (b b' : buf) : Prop :=
  b' = b <| b_next := b_next b' |> <| b_prev := b_prev b' |>.

Lemma bcache_relink B' l :
  length B' = length B →
  (∀ i b', B' !! i = Some b' → ∃ b, B !! i = Some b ∧ same_but_links b b') →
  l ≡ₚ seq 0 NBUF → seg (nxf B') (pvf B') HEAD l HEAD → bcache B' D pid refs lk.
Proof.
  intros Hl Hsame Hperm Hseg. destruct HB as [Hlen _ Hbuf Huniq Hrefs Hlocked]. split.
  - congruence.
  - by exists l.
  - intros i b' Hi Hb'. destruct (Hsame i b' Hb') as (b & Hb & ->). exact (Hbuf i b Hi Hb).
  - intros i j bi' bj' Hi Hj Hbi' Hbj'. destruct (Hsame _ _ Hbi') as (bi & Hbi & ->).
    destruct (Hsame _ _ Hbj') as (bj & Hbj & ->). exact (Huniq i j bi bj Hi Hj Hbi Hbj).
  - intros bno i c d Hr. destruct (Hrefs _ _ _ _ Hr) as (Hi & b & Hb & Hd & Hn). split; [done|].
    destruct (lookup_lt_is_Some_2 B' i) as [b' Hb']; [rewrite Hl; by eapply lookup_lt_Some|].
    destruct (Hsame _ _ Hb') as (b0 & Hb0 & E). exists b'. split; [done|].
    rewrite Hb in Hb0. injection Hb0 as <-. by rewrite E.
  - done.
Qed.
End bcache.

(** ** Frames

    What the buffer cache does not touch.  Disk, cache, driver, console output
    (recovery prints) and the number of context switches are the business of each
    specification. *)
Record bio_frame `{DevInv} (r r' : sys) : Prop := {
  bf_dev : vdisk_ok (vdisk r) → vdisk_ok (vdisk r');
  bf_held : held r' = held r;
  bf_cur : cur r' = cur r;
  bf_procs : woken (cur r) (procs r) (procs r');
  bf_freelist : freelist r' = freelist r;
  bf_nextpid : nextpid r' = nextpid r;
  bf_initproc : initproc r' = initproc r;
  bf_ticks : ticks r' = ticks r;
  bf_lg : lg r' = lg r;
  bf_sb : sb r' = sb r;
  bf_itable : itable r' = itable r;
  bf_ftable : ftable r' = ftable r;
  bf_pipes : pipes r' = pipes r;
  bf_cons : cons r' = cons r;
  bf_tx : tx_busy r' = tx_busy r;
  bf_rx : uart_rx r' = uart_rx r;
  bf_idle : uart_idle r' = uart_idle r;
  bf_first : forkret_first r' = forkret_first r;
  bf_disk : dom (disk r') = dom (disk r)
}.

Ltac frame_step := split; try reflexivity; try (exact id); try apply woken_refl; try apply wake_woken.

Section frame.
Context `{DevInv}.

Lemma bio_frame_refl r : bio_frame r r.
Proof. frame_step. Qed.

Lemma bio_frame_trans r1 r2 r3 : bio_frame r1 r2 → bio_frame r2 r3 → bio_frame r1 r3.
Proof.
  intros [] []. split; try congruence; [auto|]. eapply woken_trans; [done|]. congruence.
Qed.

Lemma bio_frame_bufs r B : bio_frame r (r <| bufs := B |>).
Proof. frame_step. Qed.
Lemma bio_frame_procs r ps : woken (cur r) (procs r) ps → bio_frame r (r <| procs := ps |>).
Proof. intros. by frame_step. Qed.

Lemma thread_frame r r' pid : thread r pid → bio_frame r r' → thread r' pid.
Proof.
  intros [Hd Hh Hl (i & p & Hc & Hp & Hpid) Hr HD] []. rewrite Hc in bf_procs0.
  pose proof (woken_cur _ _ _ bf_procs0) as Hi. split; [auto|congruence| | | |].
  - destruct bf_procs0 as [-> _]. done.
  - exists i, p. rewrite bf_cur0. split; [done|]. by rewrite Hi.
  - intros j q. rewrite bf_cur0, Hc. intros [= <-]. rewrite Hi. by apply Hr.
  - by rewrite bf_disk0.
Qed.

Lemma thread_bufs r pid B : thread r pid → thread (r <| bufs := B |>) pid.
Proof. intros [Ha Hb Hc Hd He Hf]. by split. Qed.
End frame.

(** ** The promise of the disk driver

    A read fills the buffer with the block, a write stores the buffer in the
    block; when the call returns the transfer is complete. *)
Class BlockDevOk `{BlockDev, DevInv} : Prop := {
  disk_read_ok : ∀ h r pid i b blk,
    thread r pid → bufs r !! i = Some b → disk r !! b_blockno b = Some blk →
    ∃ r', virtio_disk_rw i false (St h r) = Ok tt (St h r') ∧ bio_frame r r' ∧
      bufs r' = <[i := b <| b_data := blk |> <| b_disk := false |>]> (bufs r) ∧
      disk r' = disk r ∧ dtrace r' = dtrace r;
  disk_write_ok : ∀ h r pid i b blk,
    thread r pid → bufs r !! i = Some b → disk r !! b_blockno b = Some blk →
    ∃ r', virtio_disk_rw i true (St h r) = Ok tt (St h r') ∧ bio_frame r r' ∧
      bufs r' = <[i := b <| b_disk := false |>]> (bufs r) ∧
      disk r' = <[b_blockno b := b_data b]> (disk r) ∧
      dtrace r' = dtrace r ++ [(b_blockno b, b_data b)]
}.

Section ops.
Context `{Sched} `{BlockDevOk}.

Lemma wp_buf_get i b (Q : buf → st sys → Prop) h r :
  bufs r !! i = Some b → Q b (St h r) → wp (buf_get i) Q (St h r).
Proof. intros Hb HQ. apply wp_bind, wp_rd. rewrite Hb. by apply wp_ret. Qed.

Lemma wp_buf_upd i b g (Q : unit → st sys → Prop) h r :
  bufs r !! i = Some b → Q tt (St h (r <| bufs := <[i := g b]> (bufs r) |>)) →
  wp (buf_upd i g) Q (St h r).
Proof. intros Hb HQ. apply wp_bind, (wp_buf_get _ _ _ _ _ Hb). by apply wp_upd. Qed.

Lemma bufs_id (r : sys) : r <| bufs := bufs r |> = r.
Proof. by destruct r. Qed.

(** ** Sleep locks of buffers *)
Lemma wp_acquiresleep_buf i b pid (Q : unit → st sys → Prop) h r :
  thread r pid → bufs r !! i = Some b → sl_locked (b_lock b) = false →
  Q tt (St h (r <| bufs := <[i := b <| b_lock := SleepLock true pid |>]> (bufs r) |>)) →
  wp (acquiresleep (SlBuf i)) Q (St h r).
Proof.
  intros [_ Hh Hl (c & p & Hc & Hp & Hpid)] Hb Hfree HQ. unfold acquiresleep.
  apply wp_bind, wp_acquire; [rewrite Hh; apply not_elem_of_nil|]. apply wp_bind. simpl.
  apply wp_bind, wp_bind, (wp_buf_get _ b); [done|]. apply wp_ret. rewrite Hfree. apply wp_ret.
  apply wp_bind, (wp_the_proc c); [done|]. apply wp_bind, (wp_proc_get _ p); [done|].
  apply wp_bind, (wp_buf_upd _ b); [done|]. eapply wp_release; [done|]. rewrite Hpid.
  by destruct r.
Qed.

Lemma wp_releasesleep_buf i b pid (Q : unit → st sys → Prop) h r :
  thread r pid → bufs r !! i = Some b →
  Q tt (St h (r <| bufs := <[i := b <| b_lock := SleepLock false 0 |>]> (bufs r) |>
                <| procs := wake (ChSlBuf i) (cur r) (procs r) |>)) →
  wp (releasesleep (SlBuf i)) Q (St h r).
Proof.
  intros [_ Hh Hl _] Hb HQ. unfold releasesleep.
  apply wp_bind, wp_acquire; [rewrite Hh; apply not_elem_of_nil|].
  apply wp_bind, (wp_buf_upd _ b); [done|]. apply wp_bind, wp_wakeup.
  - rsimpl. rewrite Hh. intros j Hj. by apply list_elem_of_singleton in Hj.
  - done.
  - eapply wp_release; [done|]. by destruct r.
Qed.

Lemma wp_holdingsleep_buf i b pid (Q : bool → st sys → Prop) h r :
  thread r pid → bufs r !! i = Some b → b_lock b = SleepLock true pid →
  Q true (St h r) → wp (holdingsleep (SlBuf i)) Q (St h r).
Proof.
  intros [_ Hh Hl (c & p & Hc & Hp & Hpid)] Hb Hlock HQ. unfold holdingsleep.
  apply wp_bind, wp_acquire; [rewrite Hh; apply not_elem_of_nil|].
  apply wp_bind, wp_bind, (wp_buf_get _ b); [done|]. apply wp_ret.
  apply wp_bind, (wp_the_proc c); [done|]. apply wp_bind, (wp_proc_get _ p); [done|].
  apply wp_bind. eapply wp_release; [done|]. apply wp_ret. rewrite Hlock. simpl.
  rewrite Hpid, bool_decide_eq_true_2 by done. by destruct r.
Qed.

(** ** The two searches of bget *)
Lemma wp_bget_cached fuel x l dev bno (Q : option nat → st sys → Prop) h r :
  seg (nxf (bufs r)) (pvf (bufs r)) x l HEAD → (length l < fuel)%nat →
  (∀ i, i ∈ l → (i < NBUF)%nat) → length (bufs r) = S NBUF →
  (∀ i b, i ∈ l → bufs r !! i = Some b → b_dev b = dev → b_blockno b = bno → Q (Some i) (St h r)) →
  ((∀ i b, i ∈ l → bufs r !! i = Some b → b_dev b = dev → b_blockno b ≠ bno) → Q None (St h r)) →
  wp (bget_cached fuel (nxf (bufs r) x) dev bno) Q (St h r).
Proof.
  revert x fuel. induction l as [|y l IH]; intros x [|fuel] Hseg Hf Hin Hlen Hs Hn; simpl in *; try lia.
  - destruct Hseg as [-> _]. rewrite bool_decide_eq_true_2 by done. apply wp_ret, Hn. set_solver.
  - destruct Hseg as (-> & _ & Hseg). assert (y < NBUF)%nat by (apply Hin; set_solver).
    rewrite bool_decide_eq_false_2 by (unfold HEAD; lia).
    destruct (lookup_lt_is_Some_2 (bufs r) y) as [b Hb]; [lia|].
    apply wp_bind, (wp_buf_get _ b); [done|]. case_bool_decide as Hm.
    + apply wp_ret, (Hs y b); [set_solver|naive_solver..].
    + replace (b_next b) with (nxf (bufs r) y) by (unfold nxf; by rewrite Hb).
      apply IH; [done|lia|set_solver|done| |].
      * intros i bi Hi. apply Hs. set_solver.
      * intros Hno. apply Hn. intros i bi [->|Hi]%elem_of_cons Hbi; [|by eapply Hno].
        rewrite Hb in Hbi. injection Hbi as <-. naive_solver.
Qed.

Lemma wp_bget_lru fuel z l (Q : option nat → st sys → Prop) h r :
  seg (nxf (bufs r)) (pvf (bufs r)) HEAD l z → (length l < fuel)%nat →
  (∀ i, i ∈ l → (i < NBUF)%nat) → length (bufs r) = S NBUF →
  (∀ i b, i ∈ l → bufs r !! i = Some b → b_refcnt b = 0 → Q (Some i) (St h r)) →
  ((∀ i b, i ∈ l → bufs r !! i = Some b → b_refcnt b ≠ 0) → Q None (St h r)) →
  wp (bget_lru fuel (pvf (bufs r) z)) Q (St h r).
Proof.
  revert z fuel. induction l as [|y l IH] using rev_ind; intros z [|fuel] Hseg Hf Hin Hlen Hs Hn;
    simpl in *; try lia.
  - destruct Hseg as [_ ->]. rewrite bool_decide_eq_true_2 by done. apply wp_ret, Hn. set_solver.
  - apply seg_app in Hseg as [Hseg [_ ->]]. assert (y < NBUF)%nat by (apply Hin; set_solver).
    rewrite bool_decide_eq_false_2 by (unfold HEAD; lia). rewrite length_app in Hf. simpl in Hf.
    destruct (lookup_lt_is_Some_2 (bufs r) y) as [b Hb]; [lia|].
    apply wp_bind, (wp_buf_get _ b); [done|]. case_bool_decide as Hm.
    + apply wp_ret, (Hs y b); [set_solver|done|done].
    + replace (b_prev b) with (pvf (bufs r) y) by (unfold pvf; by rewrite Hb).
      apply IH; [done|lia|set_solver|done| |].
      * intros i bi Hi. apply Hs. set_solver.
      * intros Hno. apply Hn. intros i bi [Hi| ->%list_elem_of_singleton]%elem_of_app Hbi; [by eapply Hno|].
        congruence.
Qed.

(** With fewer references than buffers, some buffer is free. *)
Lemma bcache_has_free B D pid refs lk :
  bcache B D pid refs lk → (size refs < NBUF)%nat →
  ∃ i b, (i < NBUF)%nat ∧ B !! i = Some b ∧ b_refcnt b = 0.
Proof.
  intros HB Hsz. destruct (decide (Exists (λ i, b_refcnt <$> B !! i = Some 0) (seq 0 NBUF)))
    as [Hex|Hno].
  { apply Exists_exists in Hex as (i & Hi%elem_of_seq & Hb). destruct (B !! i) as [b|] eqn:E; [|done].
    exists i, b. injection Hb as Hb. split; [lia|done]. }
  exfalso. apply not_Exists_Forall in Hno; [|apply _]. rewrite Forall_forall in Hno.
  assert (∀ i, (i < NBUF)%nat → ∃ b, B !! i = Some b ∧ b_dev b = ROOTDEV ∧ is_Some (refs !! b_blockno b)) as Hall.
  { intros i Hi. destruct (lookup_lt_is_Some_2 B i) as [b Hb]; [rewrite (bc_len _ _ _ _ _ HB); lia|].
    exists b. split; [done|]. specialize (Hno i). unfold compose in Hno. rewrite Hb in Hno.
    destruct (bc_buf _ _ _ _ _ HB i b Hi Hb) as [(Hr & Hd & _)|(Hc & _)]; [by eauto|].
    destruct Hno; [apply elem_of_seq; lia|]. simpl. by rewrite Hc. }
  set (f := λ i : nat, default 0 (b_blockno <$> B !! i)).
  assert (NoDup (f <$> seq 0 NBUF)) as Hnd.
  { apply NoDup_fmap_2_strong; [|apply NoDup_seq]. intros i j Hi%elem_of_seq Hj%elem_of_seq Hij.
    destruct (Hall i) as (bi & Hbi & Hdi & _); [lia|]. destruct (Hall j) as (bj & Hbj & Hdj & _); [lia|].
    subst f. simpl in Hij. rewrite Hbi, Hbj in Hij. simpl in Hij.
    eapply (bc_uniq _ _ _ _ _ HB i j bi bj); (done || lia). }
  assert (list_to_set (f <$> seq 0 NBUF) ⊆ dom refs) as Hsub.
  { intros x Hx%elem_of_list_to_set. apply list_elem_of_fmap in Hx as (i & -> & Hi%elem_of_seq).
    destruct (Hall i) as (b & Hb & _ & Hr); [lia|]. subst f. simpl. rewrite Hb. by apply elem_of_dom. }
  apply subseteq_size in Hsub. rewrite size_list_to_set in Hsub by done.
  rewrite length_fmap, length_seq, size_dom in Hsub. lia.
Qed.

(** ** bread *)

(** The end of bread: fill the buffer from the disk unless it is valid. *)
Lemma wp_bread_fill i b bno blk pid (Q : nat → st sys → Prop) h r :
  thread r pid → bufs r !! i = Some b → b_blockno b = bno → disk r !! bno = Some blk →
  (b_valid b = true → b_data b = blk) →
  (∀ b' r', bio_frame r r' → disk r' = disk r → dtrace r' = dtrace r →
     bufs r' = <[i := b']> (bufs r) → b_next b' = b_next b → b_prev b' = b_prev b →
     b_dev b' = b_dev b → b_blockno b' = bno → b_refcnt b' = b_refcnt b → b_lock b' = b_lock b →
     b_valid b' = true → b_data b' = blk → Q i (St h r')) →
  wp (b ← buf_get i;
      when (negb (b_valid b)) (virtio_disk_rw i false;; buf_upd i (λ b, b <| b_valid := true |>));;
      mret i) Q (St h r).
Proof.
  intros Hth Hb Hbno Hblk Hval HQ. apply wp_bind, (wp_buf_get _ b); [done|].
  apply wp_bind. destruct (b_valid b) eqn:Hv; simpl.
  - apply wp_ret, wp_ret, (HQ b r); try done; [apply bio_frame_refl|by rewrite list_insert_id|by apply Hval].
  - apply wp_bind. rewrite <-Hbno in Hblk.
    destruct (disk_read_ok h r pid i b blk Hth Hb Hblk) as (r' & Hrun & Hf & HB' & HD' & HT').
    unfold wp at 1. rewrite Hrun. pose proof (lookup_lt_Some _ _ _ Hb) as Hlt.
    eapply wp_buf_upd; [rewrite HB'; by rewrite list_lookup_insert_eq|].
    apply wp_ret. eapply HQ with (b' := b <| b_data := blk |> <| b_disk := false |> <| b_valid := true |>);
      try done.
    + eapply bio_frame_trans; [exact Hf|]. apply bio_frame_bufs.
    + rsimpl. rewrite HB'. by rewrite list_insert_insert_eq.
Qed.

Lemma bcache_head B D pid refs lk : bcache B D pid refs lk → ∃ hd, B !! HEAD = Some hd.
Proof. intros HB. apply lookup_lt_is_Some_2. rewrite (bc_len _ _ _ _ _ HB). unfold HEAD. lia. Qed.

Lemma lru_lt l i : l ≡ₚ seq 0 NBUF → i ∈ l → (i < NBUF)%nat.
Proof. intros Hl. rewrite Hl, elem_of_seq. lia. Qed.

Lemma lru_length l : l ≡ₚ seq 0 NBUF → length l = NBUF.
Proof. intros ->. apply length_seq. Qed.

Lemma lock_ok_lock pid bno lk : lock_ok pid bno ({[bno]} ∪ lk) (SleepLock true pid).
Proof. unfold lock_ok. rewrite bool_decide_eq_true_2 by set_solver. done. Qed.

(** A block that is referenced already: its buffer, one more reference. *)
Lemma wp_bread_ref bno i c d refs lk pid (Q : nat → st sys → Prop) h r :
  thread r pid → bcache (bufs r) (disk r) pid refs lk →
  refs !! bno = Some (i, c, d) → bno ∉ lk → c + 1 < 2 ^ 31 →
  (∀ r', bio_frame r r' → disk r' = disk r → dtrace r' = dtrace r →
     bcache (bufs r') (disk r') pid (<[bno := (i, c + 1, d)]> refs) ({[bno]} ∪ lk) → Q i (St h r')) →
  wp (bread ROOTDEV bno) Q (St h r).
Proof.
  intros Hth HB Hr Hlk Hc HQ. destruct (bc_lru _ _ _ _ _ HB) as (l & Hperm & Hseg).
  destruct (bcache_head _ _ _ _ _ HB) as [hd Hhd]. pose proof (th_held _ _ Hth) as Hheld.
  destruct (bc_get HB _ _ _ _ Hr) as (Hi & b & Hb & Hdev & Hbno & Hv & Hrc & Hd & Hc0 & Hl).
  unfold lock_ok in Hl. rewrite bool_decide_eq_false_2 in Hl by done.
  apply wp_bind, wp_bind, wp_acquire; [rewrite Hheld; apply not_elem_of_nil|].
  apply wp_bind, (wp_buf_get _ hd); [done|]. apply wp_bind.
  replace (b_next hd) with (nxf (bufs r) HEAD) by (unfold nxf; by rewrite Hhd).
  change (bufs r) with (bufs (r <| held := Lbcache :: held r |>)).
  eapply wp_bget_cached; [exact Hseg|rewrite (lru_length l Hperm); lia| | | |].
  { intros j. by apply lru_lt. } { apply (bc_len _ _ _ _ _ HB). }
  2: { intros Hno. exfalso. apply (Hno i b); [|done..]. rewrite Hperm. apply elem_of_seq. lia. }
  intros j bj Hj Hbj Hdj Hnj.
  assert (j = i) as -> by (eapply (bc_uniq _ _ _ _ _ HB j i); try done; [by eapply lru_lt|congruence]).
  change (bufs (r <| held := Lbcache :: held r |>)) with (bufs r) in Hbj.
  rewrite Hb in Hbj. injection Hbj as <-. pose proof (lookup_lt_Some _ _ _ Hb) as Hlt.
  apply wp_bind, (wp_buf_upd _ b); [done|]. apply wp_bind. eapply wp_release; [done|].
  apply wp_bind. eapply (wp_acquiresleep_buf _ _ pid).
  { eapply thread_frame; [exact Hth|]. by frame_step. }
  { by apply list_lookup_insert_eq. } { done. }
  apply wp_ret. apply wp_bind. eapply wp_buf_get.
  { apply list_lookup_insert_eq. rsimpl. by rewrite length_insert. }
  rsimpl. rewrite Hv. apply wp_bind, wp_ret, wp_ret. apply HQ; [by frame_step|done|done|].
  rsimpl. rewrite list_insert_insert_eq. eapply bcache_set; try done; rsimpl.
  - rewrite Hrc. apply uN_small. lia.
  - lia.
  - apply lock_ok_lock.
  - set_solver.
  - intros k bk Hne Hk Hbk Hdk Heq. apply Hne.
    eapply (bc_uniq _ _ _ _ _ HB k i); try done. congruence.
  - intros bno' c' d' Hr'. destruct (bc_get HB _ _ _ _ Hr') as (_ & b' & Hb' & _ & Hn' & _). congruence.
Qed.

(** A block without a reference: it is read from the disk, or its buffer, which
    holds the same, is used. *)
Lemma wp_bread_new bno blk refs lk pid (Q : nat → st sys → Prop) h r :
  thread r pid → bcache (bufs r) (disk r) pid refs lk → disk r !! bno = Some blk →
  refs !! bno = None → (size refs < NBUF)%nat →
  (∀ i r', bio_frame r r' → disk r' = disk r → dtrace r' = dtrace r →
     bcache (bufs r') (disk r') pid (<[bno := (i, 1, blk)]> refs) ({[bno]} ∪ lk) → Q i (St h r')) →
  wp (bread ROOTDEV bno) Q (St h r).
Proof.
  intros Hth HB Hblk Hr Hsz HQ. destruct (bc_lru _ _ _ _ _ HB) as (l & Hperm & Hseg).
  destruct (bcache_head _ _ _ _ _ HB) as [hd Hhd]. pose proof (th_held _ _ Hth) as Hheld.
  assert (∀ i b v, i ∈ l → bufs r !! i = Some b → b_refcnt b = 0 → sl_locked (b_lock b) = false →
    (∀ j bj, j ≠ i → (j < NBUF)%nat → bufs r !! j = Some bj → b_dev bj = ROOTDEV → b_blockno bj ≠ bno) →
    (v = true → b_data b = blk) →
    wp (release Lbcache;; acquiresleep (SlBuf i);; mret i)
      (λ i, wp (b ← buf_get i; when (negb (b_valid b))
        (virtio_disk_rw i false;; buf_upd i (λ b, b <| b_valid := true |>));; mret i) Q)
      (St h (r <| held := Lbcache :: held r |> <| bufs := <[i := b <| b_dev := ROOTDEV |>
         <| b_blockno := bno |> <| b_valid := v |> <| b_refcnt := 1 |>]> (bufs r) |>))) as Htail.
  { intros i b v Hi Hb Hrc Hul Hother Hv. pose proof (lookup_lt_Some _ _ _ Hb) as Hlt.
    apply wp_bind. eapply wp_release; [done|]. apply wp_bind. eapply (wp_acquiresleep_buf _ _ pid).
    { eapply thread_frame; [exact Hth|]. by frame_step. }
    { by apply list_lookup_insert_eq. } { done. }
    apply wp_ret. rsimpl. eapply (wp_bread_fill _ _ bno blk pid).
    { eapply thread_frame; [exact Hth|]. by frame_step. }
    { apply list_lookup_insert_eq. rsimpl. by rewrite length_insert. }
    { done. } { done. } { done. }
    intros b' r' Hf HD' HT' HB' Hnx Hpv Hdv Hbn Hrc' Hlo Hva Hda. rsimpl in HB'. apply HQ; [|done|done|].
    - eapply bio_frame_trans; [|exact Hf]. by frame_step.
    - rewrite HB', HD', !list_insert_insert_eq. rsimpl. eapply bcache_set; try done.
      + by eapply lru_lt.
      + rewrite Hlo. apply lock_ok_lock.
      + set_solver.
      + intros bno' c' d' Hr'. destruct (bc_get HB _ _ _ _ Hr') as (_ & b2 & Hb2 & _ & _ & _ & Hc2 & _ & ? & _).
        rewrite Hb in Hb2. injection Hb2 as <-. lia. }
  apply wp_bind, wp_bind, wp_acquire; [rewrite Hheld; apply not_elem_of_nil|].
  apply wp_bind, (wp_buf_get _ hd); [done|]. apply wp_bind.
  replace (b_next hd) with (nxf (bufs r) HEAD) by (unfold nxf; by rewrite Hhd).
  change (bufs r) with (bufs (r <| held := Lbcache :: held r |>)) at 1.
  eapply wp_bget_cached; [exact Hseg|rewrite (lru_length l Hperm); lia| | | |].
  { intros j. by apply lru_lt. } { apply (bc_len _ _ _ _ _ HB). }
  - intros i b Hi Hb Hd Hn. rsimpl in Hb.
    destruct (bc_buf _ _ _ _ _ HB i b) as [(Hr' & _)|(Hrc & Hul & Hno)];
      [by eapply lru_lt|done|congruence|].
    apply wp_bind, (wp_buf_upd _ b); [done|]. rsimpl.
    assert (b <| b_refcnt := u32 (b_refcnt b + 1) |> = b <| b_dev := ROOTDEV |> <| b_blockno := bno |>
      <| b_valid := b_valid b |> <| b_refcnt := 1 |>) as ->.
    { rewrite Hrc, <-Hd, <-Hn. by destruct b. }
    apply (Htail i b (b_valid b)); try done.
    + intros j bj Hne Hj Hbj Hdj Heq. apply Hne. eapply (bc_uniq _ _ _ _ _ HB j i); try done;
        [by eapply lru_lt|congruence].
    + intros Hv. destruct (Hno Hd) as [_ Hdat]. specialize (Hdat Hv). congruence.
  - intros Hnot. rsimpl in Hnot. apply wp_bind.
    replace (b_prev hd) with (pvf (bufs r) HEAD) by (unfold pvf; by rewrite Hhd).
    change (bufs r) with (bufs (r <| held := Lbcache :: held r |>)) at 1.
    eapply wp_bget_lru; [exact Hseg|rewrite (lru_length l Hperm); lia| | | |].
    { intros j. by apply lru_lt. } { apply (bc_len _ _ _ _ _ HB). }
    + intros i b Hi Hb Hrc. rsimpl in Hb.
      destruct (bc_buf _ _ _ _ _ HB i b) as [(_ & _ & _ & ? & _)|(_ & Hul & _)];
        [by eapply lru_lt|done|lia|].
      apply wp_bind, (wp_buf_upd _ b); [done|]. rsimpl. apply (Htail i b false); try done.
      intros j bj Hne Hj Hbj Hdj. apply (Hnot j bj); [|done|done]. rewrite Hperm. apply elem_of_seq. lia.
    + intros Hall. exfalso. destruct (bcache_has_free _ _ _ _ _ HB Hsz) as (i & b & Hi & Hb & Hrc).
      apply (Hall i b); [|done|done]. rewrite Hperm. apply elem_of_seq. lia.
Qed.

(** ** A change of a referenced buffer *)
Lemma bcache_upd B D pid refs lk bno i c d b b' c' d' lk' :
  bcache B D pid refs lk → refs !! bno = Some (i, c, d) → B !! i = Some b →
  b_next b' = b_next b → b_prev b' = b_prev b → b_dev b' = b_dev b → b_blockno b' = b_blockno b →
  b_valid b' = b_valid b → b_refcnt b' = c' → b_data b' = d' → 0 < c' < 2 ^ 31 →
  lock_ok pid bno lk' (b_lock b') → (∀ bno', bno' ≠ bno → bno' ∈ lk' ↔ bno' ∈ lk) →
  bcache (<[i := b']> B) D pid (<[bno := (i, c', d')]> refs) lk'.
Proof.
  intros HB Hr Hb Hnx Hpv Hd Hn Hv Hc Hdd Hc' Hl Hlk.
  destruct (bc_get HB _ _ _ _ Hr) as (Hi & b0 & Hb0 & Hd0 & Hn0 & Hv0 & _).
  rewrite Hb in Hb0. injection Hb0 as <-. eapply bcache_set; try done; try congruence.
  - intros k bk Hne Hk Hbk Hdk Heq. apply Hne.
    eapply (bc_uniq _ _ _ _ _ HB k i); try done. congruence.
  - intros bno' c2 d2 Hr'. destruct (bc_get HB _ _ _ _ Hr') as (_ & b2 & Hb2 & _ & Hn2 & _). congruence.
Qed.

(** Assigning to the data of a locked buffer. *)
Lemma wp_buf_data bno i c d g refs lk pid (Q : unit → st sys → Prop) h r :
  bcache (bufs r) (disk r) pid refs lk → refs !! bno = Some (i, c, d) →
  (∀ B', bcache B' (disk r) pid (<[bno := (i, c, g d)]> refs) lk → Q tt (St h (r <| bufs := B' |>))) →
  wp (buf_upd i (λ b, b <| b_data := g (b_data b) |>)) Q (St h r).
Proof.
  intros HB Hr HQ. destruct (bc_get HB _ _ _ _ Hr) as (Hi & b & Hb & _ & _ & _ & Hc & Hd & Hc0 & Hl).
  eapply wp_buf_upd; [done|]. apply HQ. eapply bcache_upd; try done. rsimpl. by rewrite Hd.
Qed.

Lemma wp_buf_read bno i c d refs lk pid (Q : buf → st sys → Prop) h r :
  bcache (bufs r) (disk r) pid refs lk → refs !! bno = Some (i, c, d) →
  (∀ b, b_data b = d → b_blockno b = bno → Q b (St h r)) → wp (buf_get i) Q (St h r).
Proof.
  intros HB Hr HQ. destruct (bc_get HB _ _ _ _ Hr) as (Hi & b & Hb & _ & Hn & _ & _ & Hd & _).
  eapply wp_buf_get; [done|]. by apply HQ.
Qed.

Lemma lock_ok_held pid bno lk l : bno ∈ lk → lock_ok pid bno lk l → l = SleepLock true pid.
Proof. intros Hin. unfold lock_ok. by rewrite bool_decide_eq_true_2. Qed.

(** ** bwrite: the block on the disk becomes the data of the buffer *)
Lemma wp_bwrite bno i c d blk refs lk pid (Q : unit → st sys → Prop) h r :
  thread r pid → bcache (bufs r) (disk r) pid refs lk → refs !! bno = Some (i, c, d) → bno ∈ lk →
  disk r !! bno = Some blk →
  (∀ r', bio_frame r r' → disk r' = <[bno := d]> (disk r) → dtrace r' = dtrace r ++ [(bno, d)] →
     bcache (bufs r') (disk r') pid refs lk → Q tt (St h r')) →
  wp (bwrite i) Q (St h r).
Proof.
  intros Hth HB Hr Hin Hblk HQ.
  destruct (bc_get HB _ _ _ _ Hr) as (Hi & b & Hb & _ & Hn & _ & Hc & Hd & Hc0 & Hl).
  apply wp_bind, (wp_holdingsleep_buf _ b pid); [done|done|by eapply lock_ok_held|]. simpl.
  rewrite <-Hn in Hblk. destruct (disk_write_ok h r pid i b blk Hth Hb Hblk) as (r' & Hrun & Hf & HB' & HD' & HT').
  unfold wp. rewrite Hrun. rewrite Hn, Hd in HD', HT'. apply HQ; try done.
  rewrite HB', HD'. apply bcache_disk; [|by rewrite Hr].
  rewrite <-(insert_id refs bno (i, c, d)) by done. by eapply bcache_upd.
Qed.

(** ** bpin and bunpin *)
Lemma wp_bpin bno i c d refs lk pid (Q : unit → st sys → Prop) h r :
  Lbcache ∉ held r → bcache (bufs r) (disk r) pid refs lk → refs !! bno = Some (i, c, d) → c + 1 < 2 ^ 31 →
  (∀ B', bcache B' (disk r) pid (<[bno := (i, c + 1, d)]> refs) lk → Q tt (St h (r <| bufs := B' |>))) →
  wp (bpin i) Q (St h r).
Proof.
  intros Hh HB Hr Hlt HQ. destruct (bc_get HB _ _ _ _ Hr) as (Hi & b & Hb & _ & _ & _ & Hc & Hd & Hc0 & Hl).
  apply wp_bind, wp_acquire; [done|]. apply wp_bind. eapply wp_buf_upd; [done|].
  eapply wp_release; [done|]. rsimpl.
  evar (B' : list buf). replace (_ <| held := _ |>) with (r <| bufs := B' |>); [apply HQ|by subst B'; destruct r].
  subst B'. eapply bcache_upd; try done; rsimpl; [|lia]. rewrite Hc. apply uN_small. lia.
Qed.

Lemma wp_bunpin bno i c d refs lk pid (Q : unit → st sys → Prop) h r :
  Lbcache ∉ held r → bcache (bufs r) (disk r) pid refs lk → refs !! bno = Some (i, c, d) → 1 < c →
  (∀ B', bcache B' (disk r) pid (<[bno := (i, c - 1, d)]> refs) lk → Q tt (St h (r <| bufs := B' |>))) →
  wp (bunpin i) Q (St h r).
Proof.
  intros Hh HB Hr Hlt HQ. destruct (bc_get HB _ _ _ _ Hr) as (Hi & b & Hb & _ & _ & _ & Hc & Hd & Hc0 & Hl).
  apply wp_bind, wp_acquire; [done|]. apply wp_bind. eapply wp_buf_upd; [done|].
  eapply wp_release; [done|]. rsimpl.
  evar (B' : list buf). replace (_ <| held := _ |>) with (r <| bufs := B' |>); [apply HQ|by subst B'; destruct r].
  subst B'. eapply bcache_upd; try done; rsimpl; [|lia]. rewrite Hc. apply uN_small. lia.
Qed.

(** ** brelse *)

(** [B'] is [B] with links given by [nx] and [pv]. *)
Definition relinked (B B' : list buf) (nx pv : nat → nat) : Prop :=
  length B' = length B ∧
  (∀ i b', B' !! i = Some b' → ∃ b, B !! i = Some b ∧ same_but_links b b') ∧
  (∀ j, nxf B' j = nx j) ∧ (∀ j, pvf B' j = pv j).

Lemma relinked_refl B : relinked B B (nxf B) (pvf B).
Proof. split_and!; try done. intros i b Hb. exists b. split; [done|]. by destruct b. Qed.

Lemma wp_set_next B nx pv j v (Q : unit → st sys → Prop) h r :
  relinked B (bufs r) nx pv → (j < length B)%nat →
  (∀ B', relinked B B' (fupd nx j v) pv → Q tt (St h (r <| bufs := B' |>))) →
  wp (buf_upd j (λ b, b <| b_next := v |>)) Q (St h r).
Proof.
  intros (Hl & Hs & Hn & Hp) Hj HQ. rewrite <-Hl in Hj. destruct (lookup_lt_is_Some_2 _ _ Hj) as [b Hb].
  eapply wp_buf_upd; [done|]. apply HQ. split_and!.
  - by rewrite length_insert.
  - intros i b'. rewrite list_lookup_insert_Some. intros [(<- & <- & _)|[_ Hb']]; [|by apply Hs].
    destruct (Hs _ _ Hb) as (b0 & Hb0 & E). exists b0. split; [done|]. unfold same_but_links. rewrite E. by destruct b.
  - intros a. rewrite nxf_insert by done. unfold fupd. by case_decide.
  - intros a. rewrite pvf_insert by done. unfold fupd. case_decide; [subst a|done].
    rsimpl. rewrite <-Hp. unfold pvf. by rewrite Hb.
Qed.

Lemma wp_set_prev B nx pv j v (Q : unit → st sys → Prop) h r :
  relinked B (bufs r) nx pv → (j < length B)%nat →
  (∀ B', relinked B B' nx (fupd pv j v) → Q tt (St h (r <| bufs := B' |>))) →
  wp (buf_upd j (λ b, b <| b_prev := v |>)) Q (St h r).
Proof.
  intros (Hl & Hs & Hn & Hp) Hj HQ. rewrite <-Hl in Hj. destruct (lookup_lt_is_Some_2 _ _ Hj) as [b Hb].
  eapply wp_buf_upd; [done|]. apply HQ. split_and!.
  - by rewrite length_insert.
  - intros i b'. rewrite list_lookup_insert_Some. intros [(<- & <- & _)|[_ Hb']]; [|by apply Hs].
    destruct (Hs _ _ Hb) as (b0 & Hb0 & E). exists b0. split; [done|]. unfold same_but_links. rewrite E. by destruct b.
  - intros a. rewrite nxf_insert by done. unfold fupd. case_decide; [subst a|done].
    rsimpl. rewrite <-Hn. unfold nxf. by rewrite Hb.
  - intros a. rewrite pvf_insert by done. unfold fupd. by case_decide.
Qed.

Lemma wp_get_links B nx pv j (Q : buf → st sys → Prop) h r :
  relinked B (bufs r) nx pv → (j < length B)%nat →
  (∀ b, b_next b = nx j → b_prev b = pv j → Q b (St h r)) → wp (buf_get j) Q (St h r).
Proof.
  intros (Hl & Hs & Hn & Hp) Hj HQ. rewrite <-Hl in Hj. destruct (lookup_lt_is_Some_2 _ _ Hj) as [b Hb].
  eapply wp_buf_get; [done|]. apply HQ; [rewrite <-Hn; unfold nxf|rewrite <-Hp; unfold pvf]; by rewrite Hb.
Qed.

Lemma buf_upd_twice i (f g : buf → buf) (Q : unit → st sys → Prop) h r :
  wp (buf_upd i g;; buf_upd i f) Q (St h r) → wp (buf_upd i (λ b, f (g b))) Q (St h r).
Proof.
  unfold wp, buf_upd, buf_get, mbind, M_bind, rd, upd. simpl. destruct (bufs r !! i) as [b|] eqn:Hb; [|done].
  simpl. rewrite list_lookup_insert_eq by (by eapply lookup_lt_Some). simpl.
  rewrite list_insert_insert_eq. by destruct r.
Qed.

Lemma seg_bound nx pv l i n :
  seg nx pv n l n → (∀ j, j ∈ l → (j < n)%nat) → i ∈ l → (nx i < S n)%nat ∧ (pv i < S n)%nat.
Proof.
  intros Hseg Hlt Hi. apply list_elem_of_split in Hi as (l1 & l2 & ->). apply seg_app in Hseg as [S1 S2].
  destruct (seg_last _ _ _ _ _ S1) as [-> _]. destruct (seg_last _ _ _ _ _ S2) as [_ ->]. split.
  - destruct l2 as [|y l2]; simpl; [lia|]. assert (y < n)%nat by (apply Hlt; set_solver). lia.
  - destruct (last l1) as [y|] eqn:E; simpl; [|lia]. apply last_Some_elem_of in E.
    assert (y < n)%nat by (apply Hlt; set_solver). lia.
Qed.

(** Moving a buffer to the front of the list keeps the invariant. *)
Lemma wp_move_to_head i D refs lk pid (Q : unit → st sys → Prop) h r :
  bcache (bufs r) D pid refs lk → (i < NBUF)%nat →
  (∀ B', bcache B' D pid refs lk → Q tt (St h (r <| bufs := B' |>))) → wp (move_to_head i) Q (St h r).
Proof.
  intros HB Hi HQ. destruct (bc_lru _ _ _ _ _ HB) as (l & Hperm & Hseg).
  pose proof (bc_len _ _ _ _ _ HB) as Hlen.
  assert (i ∈ l) as Hil by (rewrite Hperm; apply elem_of_seq; lia).
  destruct (seg_bound _ _ _ i HEAD Hseg) as [Hnx Hpv]; [intros j; by apply lru_lt|done|].
  pose proof (lru_lt l HEAD Hperm) as Hhd. apply list_elem_of_split in Hil as (l1 & l2 & ->).
  assert (NoDup (l1 ++ i :: l2)) as Hnd by (rewrite Hperm; apply NoDup_seq).
  assert (HEAD ∉ l1 ++ i :: l2) as Hno by (intros ?%Hhd; unfold HEAD in *; lia).
  pose proof (seg_unlink _ _ _ _ _ _ _ Hnd Hno Hno Hseg) as Hseg'.
  assert (NoDup (i :: l1 ++ l2)) as Hnd' by (by rewrite Permutation_middle). apply NoDup_cons in Hnd' as [Hi' Hnd'].
  assert (i ≠ HEAD) as Hih by (unfold HEAD; lia).
  set (nx1 := fupd (nxf (bufs r)) (pvf (bufs r) i) (nxf (bufs r) i)) in *.
  set (pv1 := fupd (pvf (bufs r)) (nxf (bufs r) i) (pvf (bufs r) i)) in *.
  assert (nx1 HEAD < S NBUF)%nat as Hn1.
  { destruct (seg_last _ _ _ _ _ Hseg') as [_ ->]. destruct (l1 ++ l2) as [|y l'] eqn:E; simpl; [unfold HEAD; lia|].
    assert (y < NBUF)%nat; [|lia]. apply (lru_lt (l1 ++ i :: l2)); [done|].
    assert (y ∈ l1 ++ l2) as Hy by (rewrite E; left).
    apply elem_of_app in Hy as [?|?]; apply elem_of_app; [by left|by right; right]. }
  assert (HEAD ∉ l1 ++ l2) as Hno'.
  { intros Hin. apply Hno. apply elem_of_app in Hin as [?|?]; apply elem_of_app; [by left|by right; right]. }
  unfold move_to_head. apply wp_bind. eapply wp_get_links; [apply relinked_refl|lia|]. intros b -> ->.
  apply wp_bind. eapply wp_set_prev; [apply relinked_refl|unfold HEAD in *; lia|]. intros B1 HB1.
  apply wp_bind. eapply wp_set_next; [exact HB1|unfold HEAD in *; lia|]. intros B2 HB2. fold nx1 pv1 in HB2.
  apply wp_bind. eapply wp_get_links; [exact HB2|unfold HEAD in *; lia|]. intros hd -> _.
  apply wp_bind, (buf_upd_twice _ (λ b, b <| b_prev := HEAD |>) (λ b, b <| b_next := nx1 HEAD |>)).
  apply wp_bind. eapply wp_set_next; [exact HB2|lia|]. intros B3 HB3.
  eapply wp_set_prev; [exact HB3|lia|]. intros B4 HB4.
  apply wp_bind. eapply wp_get_links; [exact HB4|unfold HEAD in *; lia|]. intros hd' -> _.
  rewrite fupd_ne by done. apply wp_bind. eapply wp_set_prev; [exact HB4|lia|]. intros B5 HB5.
  eapply wp_set_next; [exact HB5|unfold HEAD; lia|]. intros B6 (HL & HS & HN & HP).
  match goal with |- Q tt (St h ?x) => replace x with (r <| bufs := B6 |>) by (by destruct r) end.
  apply HQ. eapply bcache_relink; [exact HB|done|done| |].
  { etrans; [|exact Hperm]. apply Permutation_middle. }
  eapply seg_ext; [intros a _; apply HN|intros a _; apply HP|].
  by apply seg_link.
Qed.

Lemma lock_ok_unlock pid bno lk l : sl_locked l = false → lock_ok pid bno (lk ∖ {[bno]}) l.
Proof. intros Hl. unfold lock_ok. rewrite bool_decide_eq_false_2 by set_solver. done. Qed.

(** Releasing a buffer that others still refer to. *)
Lemma wp_brelse_more bno i c d refs lk pid (Q : unit → st sys → Prop) h r :
  thread r pid → bcache (bufs r) (disk r) pid refs lk → refs !! bno = Some (i, c, d) → bno ∈ lk → 1 < c →
  (∀ r', bio_frame r r' → disk r' = disk r → dtrace r' = dtrace r →
     bcache (bufs r') (disk r') pid (<[bno := (i, c - 1, d)]> refs) (lk ∖ {[bno]}) → Q tt (St h r')) →
  wp (brelse i) Q (St h r).
Proof.
  intros Hth HB Hr Hin Hc1 HQ. pose proof (th_held _ _ Hth) as Hheld.
  destruct (bc_get HB _ _ _ _ Hr) as (Hi & b & Hb & _ & Hn & _ & Hc & Hd & Hc0 & Hl).
  pose proof (lookup_lt_Some _ _ _ Hb) as Hlt.
  apply wp_bind, (wp_holdingsleep_buf _ b pid); [done|done|by eapply lock_ok_held|]. simpl.
  apply wp_bind, (wp_releasesleep_buf _ b pid); [done|done|].
  apply wp_bind, wp_acquire; [rsimpl; rewrite Hheld; apply not_elem_of_nil|].
  apply wp_bind. eapply wp_buf_upd; [by apply list_lookup_insert_eq|].
  apply wp_bind. eapply wp_buf_get; [rsimpl; apply list_lookup_insert_eq; by rewrite length_insert|].
  rsimpl. rewrite Hc, uN_small by lia. apply wp_bind.
  rewrite bool_decide_eq_false_2 by lia. apply wp_ret. eapply wp_release; [done|].
  apply HQ; [by frame_step|done|done|]. rsimpl. rewrite list_insert_insert_eq. rsimpl.
  eapply bcache_upd; try done; [lia|by apply lock_ok_unlock|set_solver].
Qed.

(** Releasing the last reference: the disk must hold the data. *)
Lemma wp_brelse_last bno i d refs lk pid (Q : unit → st sys → Prop) h r :
  thread r pid → bcache (bufs r) (disk r) pid refs lk → refs !! bno = Some (i, 1, d) → bno ∈ lk →
  disk r !! bno = Some d →
  (∀ r', bio_frame r r' → disk r' = disk r → dtrace r' = dtrace r →
     bcache (bufs r') (disk r') pid (delete bno refs) (lk ∖ {[bno]}) → Q tt (St h r')) →
  wp (brelse i) Q (St h r).
Proof.
  intros Hth HB Hr Hin Hblk HQ. pose proof (th_held _ _ Hth) as Hheld.
  destruct (bc_get HB _ _ _ _ Hr) as (Hi & b & Hb & _ & Hn & _ & Hc & Hd & Hc0 & Hl).
  pose proof (lookup_lt_Some _ _ _ Hb) as Hlt.
  apply wp_bind, (wp_holdingsleep_buf _ b pid); [done|done|by eapply lock_ok_held|]. simpl.
  apply wp_bind, (wp_releasesleep_buf _ b pid); [done|done|].
  apply wp_bind, wp_acquire; [rsimpl; rewrite Hheld; apply not_elem_of_nil|].
  apply wp_bind. eapply wp_buf_upd; [by apply list_lookup_insert_eq|].
  apply wp_bind. eapply wp_buf_get; [rsimpl; apply list_lookup_insert_eq; by rewrite length_insert|].
  rsimpl. rewrite Hc. apply wp_bind. change (u32 (1 - 1)) with 0. rewrite bool_decide_eq_true_2 by done.
  eapply (wp_move_to_head _ (disk r) (delete bno refs) (lk ∖ {[bno]}) pid); [|done|].
  - rsimpl. rewrite list_insert_insert_eq. rsimpl. eapply bcache_drop; try done. set_solver.
  - intros B' HB'. eapply wp_release; [done|]. apply HQ; [by frame_step|done|done|done].
Qed.
End ops.
