(* ===== verification/BioRef.v ===== *)
(** * The buffer cache as its clients see it

    [view refs D] is the content of the blocks as read through the cache: the
    data of a referenced buffer, otherwise what the disk holds.  bread adds a
    reference ([ref]), brelse takes one away ([unref]); [bstep tr r r'] collects
    what a step does to the rest: it writes [tr] to the disk and changes nothing
    outside the cache. *)
From S2P Require Import Prelude.
From S2P Require Import Mem.
From S2P Require Import Params.
From S2P Require Import State.
From S2P Require Import Sched.
From S2P Require Import Wp.
From S2P Require Import SchedSpec.
From S2P Require Import Bio.
From S2P Require Import BioSpec.
#[local] Open Scope Z_scope.

Definition view (refs : refmap) (D : gmap Z (list Z)) (bno : Z) : option (list Z) :=
  match refs !! bno with Some (_, _, d) => Some d | None => D !! bno end.

Definition cnt (refs : refmap) (bno : Z) : Z :=
  match refs !! bno with Some (_, c, _) => c | None => 0 end.

Definition ref (refs : refmap) (bno : Z) (i : nat) (d : list Z) : refmap :=
  <[bno := (i, cnt refs bno + 1, d)]> refs.

Definition unref (refs : refmap) (bno : Z) : refmap :=
  match refs !! bno with
  | Some (i, c, d) => if decide (c = 1) then delete bno refs else <[bno := (i, c - 1, d)]> refs
  | None => refs
  end.

(** How block [bno] stood before bread returned buffer [i] with data [d]. *)
Definition was (refs : refmap) (bno : Z) (i : nat) (d : list Z) : Prop :=
  refs !! bno = None ∨ ∃ c, 0 < c ∧ refs !! bno = Some (i, c, d).

Lemma ref_lookup refs bno i d : ref refs bno i d !! bno = Some (i, cnt refs bno + 1, d).
Proof. apply lookup_insert_eq. Qed.

Lemma ref_lookup_ne refs bno bno' i d : bno' ≠ bno → ref refs bno i d !! bno' = refs !! bno'.
Proof. intros. by apply lookup_insert_ne. Qed.

Lemma unref_lookup_ne refs bno bno' : bno' ≠ bno → unref refs bno !! bno' = refs !! bno'.
Proof.
  intros Hne. unfold unref. destruct (refs !! bno) as [[[i c] d]|]; [|done].
  case_decide; [by apply lookup_delete_ne|by apply lookup_insert_ne].
Qed.

(** Releasing what bread returned gives the references back. *)
Lemma unref_ref refs bno i d : was refs bno i d → unref (ref refs bno i d) bno = refs.
Proof.
  intros Hw. unfold unref. rewrite ref_lookup. unfold ref, cnt. destruct Hw as [Hn|(c & Hc & Hs)].
  - rewrite Hn, decide_True by lia. by rewrite delete_insert_id.
  - rewrite Hs, decide_False by lia. replace (c + 1 - 1) with c by lia.
    by rewrite insert_insert_eq, insert_id.
Qed.

Lemma ref_new refs bno i d : refs !! bno = None → ref refs bno i d = <[bno := (i, 1, d)]> refs.
Proof. intros Hn. unfold ref, cnt. by rewrite Hn. Qed.

Lemma unref_last refs bno i d :
  refs !! bno = None → unref (<[bno := (i, 1, d)]> refs) bno = refs.
Proof.
  intros Hn. unfold unref. rewrite lookup_insert_eq, decide_True by done. by rewrite delete_insert_id.
Qed.

Lemma unref_insert_ne refs bno bno' x :
  bno' ≠ bno → unref (<[bno' := x]> refs) bno = <[bno' := x]> (unref refs bno).
Proof.
  intros Hne. unfold unref. rewrite lookup_insert_ne by done. destruct (refs !! bno) as [[[i c] d]|]; [|done].
  case_decide; [by apply delete_insert_ne|by apply insert_insert_ne].
Qed.

Lemma size_unref refs bno : (size (unref refs bno) <= size refs)%nat.
Proof.
  unfold unref. destruct (refs !! bno) as [[[i c] d]|] eqn:Hr; [|done]. case_decide.
  - rewrite map_size_delete. rewrite Hr. lia.
  - by rewrite map_size_insert_Some.
Qed.

Definition unref_all (refs : refmap) (bs : list Z) : refmap := foldl unref refs bs.

Lemma unref_all_notin refs bs b : b ∉ bs → unref_all refs bs !! b = refs !! b.
Proof.
  revert refs; induction bs as [|a bs IH]; intros refs Hb; simpl; [done|].
  rewrite IH by set_solver. apply unref_lookup_ne. set_solver.
Qed.

Lemma size_unref_all refs bs : (size (unref_all refs bs) <= size refs)%nat.
Proof.
  revert refs; induction bs as [|a bs IH]; intros refs; simpl; [done|].
  etrans; [apply IH|apply size_unref].
Qed.

Lemma unref_all_snoc refs bs b : unref_all refs (bs ++ [b]) = unref (unref_all refs bs) b.
Proof. apply foldl_snoc. Qed.

(** ** Writes to the disk *)
Definition apply_writes (tr : list (Z * list Z)) (D : gmap Z (list Z)) : gmap Z (list Z) :=
  foldl (λ D w, <[w.1 := w.2]> D) D tr.

Lemma apply_writes_app tr1 tr2 D : apply_writes (tr1 ++ tr2) D = apply_writes tr2 (apply_writes tr1 D).
Proof. apply foldl_app. Qed.

Lemma apply_writes_notin tr D bno : bno ∉ tr.*1 → apply_writes tr D !! bno = D !! bno.
Proof.
  revert D; induction tr as [|[b d] tr IH]; intros D Hn; simpl in *; [done|].
  rewrite IH by set_solver. rewrite lookup_insert_ne; [done|set_solver].
Qed.

Lemma apply_writes_is_Some tr D bno : is_Some (D !! bno) → is_Some (apply_writes tr D !! bno).
Proof.
  revert D; induction tr as [|[b d] tr IH]; intros D Hs; simpl; [done|]. apply IH.
  rewrite lookup_insert_is_Some'. by right.
Qed.

(** With distinct targets, every write is found. *)
Lemma apply_writes_zip bs ds D k b d :
  NoDup bs → length bs = length ds → bs !! k = Some b → ds !! k = Some d →
  apply_writes (zip bs ds) D !! b = Some d.
Proof.
  revert ds D k; induction bs as [|b0 bs IH]; intros [|d0 ds] D k Hnd Hl Hb Hd; try done.
  apply NoDup_cons in Hnd as [Hni Hnd]. destruct k as [|k]; simpl in *; simplify_eq.
  - rewrite apply_writes_notin; [apply lookup_insert_eq|]. rewrite fst_zip by lia. done.
  - by eapply IH.
Qed.

Section step.
Context `{DevInv}.

Definition bstep (tr : list (Z * list Z)) (r r' : sys) : Prop :=
  bio_frame r r' ∧ disk r' = apply_writes tr (disk r) ∧ dtrace r' = dtrace r ++ tr.

Lemma bstep_refl r : bstep [] r r.
Proof. split_and!; [apply bio_frame_refl|done|by rewrite app_nil_r]. Qed.

Lemma bstep_trans tr1 tr2 r1 r2 r3 : bstep tr1 r1 r2 → bstep tr2 r2 r3 → bstep (tr1 ++ tr2) r1 r3.
Proof.
  intros (F1 & D1 & T1) (F2 & D2 & T2). split_and!; [by eapply bio_frame_trans| |].
  - by rewrite apply_writes_app, <-D1.
  - by rewrite T2, T1, app_assoc.
Qed.

Lemma bstep_nil r1 r2 tr r3 : bstep [] r1 r2 → bstep tr r2 r3 → bstep tr r1 r3.
Proof. apply (bstep_trans []). Qed.

Lemma bstep_nil_r r1 r2 tr r3 : bstep tr r1 r2 → bstep [] r2 r3 → bstep tr r1 r3.
Proof. intros S1 S2. rewrite <-(app_nil_r tr). by eapply bstep_trans. Qed.

Lemma bstep_bufs r B : bstep [] r (r <| bufs := B |>).
Proof. split_and!; [apply bio_frame_bufs|done|by rewrite app_nil_r]. Qed.

Lemma bstep_disk r r' : bstep [] r r' → disk r' = disk r.
Proof. by intros (_ & ? & _). Qed.

Lemma thread_bstep r r' pid tr : thread r pid → bstep tr r r' → thread r' pid.
Proof. intros Hth [Hf _]. by eapply thread_frame. Qed.

(** A change of the log variables goes along. *)
Lemma bstep_set_lg tr r r' l : bstep tr r r' → bstep tr (r <| lg := l |>) (r' <| lg := l |>).
Proof. intros ([] & HD & HT). split_and!; [by split|done|done]. Qed.

Lemma bstep_lg tr r r' : bstep tr r r' → lg r' = lg r.
Proof. by intros [[] _]. Qed.

End step.

Section ops.
Context `{Sched} `{BlockDevOk}.

Lemma wp_bread bno d refs lk pid (Q : nat → st sys → Prop) h r :
  thread r pid → bcache (bufs r) (disk r) pid refs lk → view refs (disk r) bno = Some d →
  bno ∉ lk → cnt refs bno + 1 < 2 ^ 31 → is_Some (refs !! bno) ∨ (size refs < NBUF)%nat →
  (∀ i r', bstep [] r r' → was refs bno i d →
     bcache (bufs r') (disk r') pid (ref refs bno i d) ({[bno]} ∪ lk) → Q i (St h r')) →
  wp (bread ROOTDEV bno) Q (St h r).
Proof.
  intros Hth HB Hv Hlk Hc Hroom HQ. unfold view, cnt in *.
  destruct (refs !! bno) as [[[i c] d0]|] eqn:Hr.
  - injection Hv as ->. destruct (bc_get HB _ _ _ _ Hr) as (_ & _ & _ & _ & _ & _ & _ & _ & Hc0 & _).
    eapply wp_bread_ref; try done. intros r' Hf HD HT HB'. apply HQ.
    + split_and!; [done|done|by rewrite app_nil_r].
    + right. exists c. split; [lia|done].
    + unfold ref, cnt. by rewrite Hr.
  - destruct Hroom as [[? ?]|Hroom]; [done|]. eapply wp_bread_new; try done.
    intros i r' Hf HD HT HB'. apply HQ.
    + split_and!; [done|done|by rewrite app_nil_r].
    + by left.
    + unfold ref, cnt. by rewrite Hr.
Qed.

Lemma wp_brelse bno i c d refs lk pid (Q : unit → st sys → Prop) h r :
  thread r pid → bcache (bufs r) (disk r) pid refs lk → refs !! bno = Some (i, c, d) → bno ∈ lk →
  (c = 1 → disk r !! bno = Some d) →
  (∀ r', bstep [] r r' → bcache (bufs r') (disk r') pid (unref refs bno) (lk ∖ {[bno]}) → Q tt (St h r')) →
  wp (brelse i) Q (St h r).
Proof.
  intros Hth HB Hr Hlk Hd HQ.
  destruct (bc_get HB _ _ _ _ Hr) as (_ & _ & _ & _ & _ & _ & _ & _ & Hc0 & _).
  assert (unref refs bno = if decide (c = 1) then delete bno refs else <[bno := (i, c - 1, d)]> refs) as Hu.
  { unfold unref. by rewrite Hr. }
  rewrite Hu in HQ. case_decide as Hc.
  - subst c. eapply wp_brelse_last; try done; [by apply Hd|]. intros r' Hf HD HT HB'.
    apply HQ; [|done]. split_and!; [done|done|by rewrite app_nil_r].
  - eapply wp_brelse_more; try done; [lia|]. intros r' Hf HD HT HB'.
    apply HQ; [|done]. split_and!; [done|done|by rewrite app_nil_r].
Qed.

Lemma wp_bwrite_step bno i c d blk refs lk pid (Q : unit → st sys → Prop) h r :
  thread r pid → bcache (bufs r) (disk r) pid refs lk → refs !! bno = Some (i, c, d) → bno ∈ lk →
  disk r !! bno = Some blk →
  (∀ r', bstep [(bno, d)] r r' → bcache (bufs r') (disk r') pid refs lk → Q tt (St h r')) →
  wp (bwrite i) Q (St h r).
Proof. intros ? ? ? ? ? HQ. eapply wp_bwrite; try done. intros r' Hf HD HT HB'. by apply HQ. Qed.
End ops.
