(* ===== verification/LogSpec.v ===== *)
(** * Specification of the write-ahead log

    The header block is encoded and decoded exactly ([hdr]); commit and recovery
    are specified by the sequence of writes they make to the disk. *)
From S2P Require Import Prelude.
From S2P Require Import Mem.
From S2P Require Import Params.
From S2P Require Import State.
From S2P Require Import Sched.
From S2P Require Import Console.
From S2P Require Import Bio.
From S2P Require Import Log.
From S2P Require Import Wp.
From S2P Require Import SchedSpec.
From S2P Require Import BioSpec.
From S2P Require Import BioRef.
#[local] Open Scope Z_scope.

(** ** Integers stored in the data of a disk block

    Reading back what put_le wrote, and what it leaves alone. *)

Lemma length_put_le n data off v : (off + n <= length data)%nat → length (put_le n data off v) = length data.
Proof. intros Hl. unfold put_le. rewrite !length_app, length_take, length_drop, length_le_split. lia. Qed.

Lemma get_put_same n data off v :
  (off + n <= length data)%nat → get_le n (put_le n data off v) off = v mod 256 ^ Z.of_nat n.
Proof.
  intros Hl. unfold get_le, put_le. rewrite drop_app_length' by (rewrite length_take; lia).
  rewrite take_app_length' by (by rewrite length_le_split). apply le_combine_split.
Qed.

Lemma get_put_other n n' data off off' v :
  (off + n <= length data)%nat → (off' + n' <= off ∨ off + n <= off')%nat →
  get_le n' (put_le n data off v) off' = get_le n' data off'.
Proof.
  intros Hl Hd. unfold get_le. f_equal. apply list_eq. intros i.
  destruct (decide (i < n')%nat) as [Hi|Hi].
  - rewrite !lookup_take_lt, !lookup_drop by lia. unfold put_le. destruct Hd as [Hd|Hd].
    + rewrite lookup_app_l by (rewrite length_take; lia). by rewrite lookup_take_lt by lia.
    + rewrite lookup_app_r by (rewrite length_take; lia).
      rewrite lookup_app_r by (rewrite length_le_split, length_take; lia).
      rewrite lookup_drop, length_take, length_le_split. f_equal. lia.
  - by rewrite !lookup_take_ge by lia.
Qed.

Lemma get32_range data off : Forall is_byte data → (off + 4 <= length data)%nat → 0 <= get32 data off < 2 ^ 32.
Proof.
  intros Hb Hl. unfold get_le. pose proof (le_combine_bound (take 4 (drop off data))) as Hr.
  rewrite length_take, length_drop in Hr. replace (4 `min` (length data - off))%nat with 4%nat in Hr by lia.
  apply Hr. by apply Forall_take, Forall_drop.
Qed.

Lemma s32_mod v : -(2 ^ 31) <= v < 2 ^ 31 → s32 (v mod 2 ^ 32) = v.
Proof. intros Hv. unfold sN. change (32 - 1) with 31. rewrite Zplus_mod_idemp_l. rewrite Z.mod_small; lia. Qed.

Definition NLOG : nat := Z.to_nat LOGBLOCKS.

(** ** The header block: [n] and the block numbers over the old content [d] *)
Fixpoint hdr_blocks (i : nat) (bs : list Z) (d : list Z) : list Z :=
  match bs with
  | [] => d
  | b :: bs' => hdr_blocks (S i) bs' (lh_put_block d i b)
  end.

Definition hdr (bs : list Z) (d : list Z) : list Z :=
  hdr_blocks 0 bs (lh_put_n d (Z.of_nat (length bs))).

Definition blockno_ok (b : Z) : Prop := 0 <= b < 2 ^ 31.

Lemma length_hdr_blocks bs i d :
  (4 + 4 * (i + length bs) <= length d)%nat → length (hdr_blocks i bs d) = length d.
Proof.
  revert i d; induction bs as [|b bs IH]; intros i d Hl; simpl in *; [done|].
  unfold lh_put_block. rewrite IH, !length_put_le by (rewrite ?length_put_le; lia). done.
Qed.

Lemma hdr_blocks_get_n bs i d :
  (4 + 4 * (i + length bs) <= length d)%nat → lh_get_n (hdr_blocks i bs d) = lh_get_n d.
Proof.
  revert i d; induction bs as [|b bs IH]; intros i d Hl; simpl in *; [done|].
  unfold lh_put_block. rewrite IH by (rewrite length_put_le; lia).
  unfold lh_get_n. by rewrite get_put_other by lia.
Qed.

Lemma hdr_blocks_get bs i d j :
  (4 + 4 * (i + length bs) <= length d)%nat → Forall blockno_ok bs →
  lh_get_block (hdr_blocks i bs d) j =
    if decide (i <= j)%nat then default (lh_get_block d j) (bs !! (j - i)%nat) else lh_get_block d j.
Proof.
  revert i d; induction bs as [|b bs IH]; intros i d Hl Hb; simpl in *; [by case_decide|].
  apply Forall_cons in Hb as [Hb Hbs]. unfold lh_put_block. rewrite IH by (try rewrite length_put_le; done || lia).
  unfold lh_get_block. destruct (decide (j = i)) as [->|Hj].
  - rewrite decide_False, decide_True, Nat.sub_diag by lia. simpl.
    rewrite get_put_same by lia. apply s32_mod. unfold blockno_ok in Hb. lia.
  - rewrite get_put_other by lia. repeat case_decide; try lia; try done.
    replace (j - i)%nat with (S (j - S i))%nat by lia. done.
Qed.

Lemma hdr_length bs d :
  (length bs <= NLOG)%nat → length d = Z.to_nat BSIZE → length (hdr bs d) = length d.
Proof.
  intros Hn Hd. unfold hdr, lh_put_n. unfold NLOG, LOGBLOCKS, MAXOPBLOCKS, BSIZE in *.
  rewrite length_hdr_blocks, !length_put_le; rewrite ?length_put_le; simpl in *; lia.
Qed.

(** The header reads back as written. *)
Lemma hdr_get_n bs d :
  (length bs <= NLOG)%nat → length d = Z.to_nat BSIZE → lh_get_n (hdr bs d) = Z.of_nat (length bs).
Proof.
  intros Hn Hd. unfold hdr, lh_put_n. unfold NLOG, LOGBLOCKS, MAXOPBLOCKS, BSIZE in *.
  rewrite hdr_blocks_get_n by (rewrite length_put_le; simpl in *; lia).
  unfold lh_get_n. rewrite get_put_same by (simpl in *; lia). apply s32_mod. simpl in *. lia.
Qed.

Lemma hdr_get_block bs d j b :
  (length bs <= NLOG)%nat → length d = Z.to_nat BSIZE → Forall blockno_ok bs → bs !! j = Some b →
  lh_get_block (hdr bs d) j = b.
Proof.
  intros Hn Hd Hb Hj. unfold hdr, lh_put_n. unfold NLOG, LOGBLOCKS, MAXOPBLOCKS, BSIZE in *.
  rewrite hdr_blocks_get by (try rewrite length_put_le; simpl in *; (done || lia)).
  rewrite decide_True by lia. rewrite Nat.sub_0_r, Hj. done.
Qed.

Lemma hdr_blocks_snoc bs i d b :
  hdr_blocks i (bs ++ [b]) d = lh_put_block (hdr_blocks i bs d) (i + length bs) b.
Proof.
  revert i d; induction bs as [|a bs IH]; intros i d; simpl; [by rewrite Nat.add_0_r|].
  rewrite IH. f_equal. lia.
Qed.

(** ** The log in memory and its region on the disk *)
Definition slot (L : Z) (k : nat) : Z := L + Z.of_nat k + 1.

(** struct log with [bs] logged. *)
Record log_mem (l : logst) (L : Z) (bs : list Z) : Prop := {
  lm_dev : lg_dev l = ROOTDEV;
  lm_start : lg_start l = L;
  lm_n : lh_n l = Z.of_nat (length bs);
  lm_len : length (lh_block l) = NLOG;
  lm_blocks : take (length bs) (lh_block l) = bs
}.

Lemma lm_bound l L bs : log_mem l L bs → (length bs <= NLOG)%nat.
Proof. intros [_ _ _ Hl Hb]. rewrite <-Hb, length_take. lia. Qed.

Lemma lm_lookup l L bs k b : log_mem l L bs → bs !! k = Some b → lh_block l !! k = Some b.
Proof.
  intros Hm Hk. rewrite <-(lookup_take_lt _ (length bs)) by (by eapply lookup_lt_Some).
  by rewrite (lm_blocks _ _ _ Hm).
Qed.

Record log_region (L : Z) (D : gmap Z (list Z)) (refs : refmap) (lk : gset Z) : Prop := {
  lr_L : 0 <= L ∧ L + LOGBLOCKS < 2 ^ 31;
  lr_hdr : ∃ d, D !! L = Some d ∧ length d = Z.to_nat BSIZE;
  lr_slot : ∀ k, (k < NLOG)%nat → is_Some (D !! slot L k);
  lr_free : ∀ b, L <= b <= L + LOGBLOCKS → refs !! b = None ∧ b ∉ lk
}.

Lemma slot_u32 L k : 0 <= L ∧ L + LOGBLOCKS < 2 ^ 31 → (k < NLOG)%nat → u32 (L + Z.of_nat k + 1) = slot L k.
Proof. intros HL Hk. unfold slot. apply uN_small. unfold NLOG, LOGBLOCKS, MAXOPBLOCKS in *. lia. Qed.

Lemma slot_region L k : (k < NLOG)%nat → L < slot L k <= L + LOGBLOCKS.
Proof. unfold slot, NLOG, LOGBLOCKS, MAXOPBLOCKS. lia. Qed.

Section ops.
Context `{Linker} `{Sched} `{BlockDevOk}.

Lemma wp_lh_block_get k b (Q : Z → st sys → Prop) h r :
  lh_block (lg r) !! k = Some b → Q b (St h r) → wp (lh_block_get k) Q (St h r).
Proof. intros Hk HQ. apply wp_bind, wp_rd. rewrite Hk. by apply wp_ret. Qed.

(** write_head stores the header. *)
Lemma wp_write_head L bs d refs lk pid (Q : unit → st sys → Prop) h r :
  thread r pid → bcache (bufs r) (disk r) pid refs lk → log_mem (lg r) L bs →
  log_region L (disk r) refs lk → disk r !! L = Some d → (size refs < NBUF)%nat →
  (∀ r', bstep [(L, hdr bs d)] r r' → bcache (bufs r') (disk r') pid refs lk → Q tt (St h r')) →
  wp write_head Q (St h r).
Proof.
  intros Hth HB Hm Hreg Hd Hsz HQ. destruct (lr_L _ _ _ _ Hreg) as [HL0 HL1].
  destruct (lr_free _ _ _ _ Hreg L) as [Hfree Hlk]; [unfold LOGBLOCKS, MAXOPBLOCKS; lia|].
  apply wp_bind, wp_rd. rewrite (lm_dev _ _ _ Hm), (lm_start _ _ _ Hm), (lm_n _ _ _ Hm), Nat2Z.id.
  rewrite uN_small by (unfold LOGBLOCKS, MAXOPBLOCKS in *; lia).
  apply wp_bind. eapply wp_bread; [done|done|unfold view; by rewrite Hfree|done| |by right|].
  { unfold cnt. rewrite Hfree. lia. }
  intros ib r1 Hs1 _ HB1. rewrite ref_new in HB1 by done. rewrite (bstep_disk _ _ Hs1) in HB1.
  pose proof (bstep_disk _ _ Hs1) as HD1. rewrite <-HD1 in HB1.
  apply wp_bind. eapply (wp_buf_data L ib 1 d (λ x, lh_put_n x (Z.of_nat (length bs)))); [done|apply lookup_insert_eq|].
  intros B2 HB2. rewrite insert_insert_eq in HB2. apply wp_bind.
  apply (wp_for_each (λ k s, ∃ r2, s = St h r2 ∧ bstep [] r r2 ∧ bcache (bufs r2) (disk r2) pid
    (<[L := (ib, 1, hdr_blocks 0 (take k bs) (lh_put_n d (Z.of_nat (length bs))))]> refs) ({[L]} ∪ lk))).
  { eexists. split; [done|]. split; [|done]. eapply bstep_nil; [done|apply bstep_bufs]. }
  - intros k s Hk (r2 & -> & Hs2 & HB'). destruct (lookup_lt_is_Some_2 bs k) as [b Hb]; [lia|].
    apply wp_bind. eapply wp_lh_block_get; [rewrite (bstep_lg _ _ _ Hs2); by eapply lm_lookup|].
    eapply (wp_buf_data L ib 1 _ (λ x, lh_put_block x k b)); [done|apply lookup_insert_eq|].
    intros B3 HB3. rewrite insert_insert_eq in HB3. eexists. split; [done|].
    split; [eapply bstep_nil; [done|apply bstep_bufs]|].
    rewrite (take_S_r _ _ b), hdr_blocks_snoc, length_take by done.
    replace (0 + k `min` length bs)%nat with k by (apply lookup_lt_Some in Hb; lia). done.
  - intros s (r2 & -> & Hs2 & HB'). rewrite Nat.add_0_l, take_ge in HB' by done. fold (hdr bs d) in HB'.
    apply wp_bind. eapply wp_bwrite_step.
    { by eapply thread_bstep. } { done. } { apply lookup_insert_eq. } { set_solver. }
    { rewrite (bstep_disk _ _ Hs2). done. }
    intros r3 Hs3 HB3. eapply wp_brelse.
    { eapply thread_bstep; [by eapply thread_bstep|done]. } { done. } { apply lookup_insert_eq. } { set_solver. }
    { intros _. destruct Hs3 as (_ & -> & _). apply lookup_insert_eq. }
    intros r4 Hs4 HB4. rewrite unref_last in HB4 by done. apply HQ.
    + eapply bstep_nil; [done|]. by eapply bstep_nil_r.
    + by replace ((({[L]} ∪ lk) ∖ {[L]} : gset Z)) with lk in HB4 by set_solver.
Qed.

(** One round of write_log: block [b], in the cache with data [d], goes to slot
    [k]. *)
Lemma wp_log_block L bs k b i c d old refs lk pid (Q : unit → st sys → Prop) h r :
  thread r pid → bcache (bufs r) (disk r) pid refs lk → log_mem (lg r) L bs →
  log_region L (disk r) refs lk → bs !! k = Some b → blockno_ok b → ¬ (L <= b <= L + LOGBLOCKS) →
  b ∉ lk → refs !! b = Some (i, c, d) → c + 1 < 2 ^ 31 → disk r !! slot L k = Some old →
  (size refs < NBUF)%nat →
  (∀ r', bstep [(slot L k, d)] r r' → bcache (bufs r') (disk r') pid refs lk → Q tt (St h r')) →
  wp (log_block k) Q (St h r).
Proof.
  intros Hth HB Hm Hreg Hk Hb Hout Hlkb Hr Hc Hold Hsz HQ.
  assert (k < NLOG)%nat as Hkn by (apply lookup_lt_Some in Hk; pose proof (lm_bound _ _ _ Hm); lia).
  pose proof (slot_region L k Hkn) as Hsr. destruct (lr_free _ _ _ _ Hreg (slot L k)) as [Hfree Hlk]; [lia|].
  assert (slot L k ≠ b) as Hne by (intros E; rewrite E in *; lia).
  destruct (bc_get HB _ _ _ _ Hr) as (_ & _ & _ & _ & _ & _ & _ & _ & Hc0 & _).
  apply wp_bind, wp_rd. rewrite (lm_dev _ _ _ Hm), (lm_start _ _ _ Hm), (slot_u32 L k (lr_L _ _ _ _ Hreg) Hkn).
  apply wp_bind. eapply wp_bread; [done|done|unfold view; by rewrite Hfree|done| |by right|].
  { unfold cnt. rewrite Hfree. lia. }
  intros i1 r1 Hs1 _ HB1. rewrite ref_new in HB1 by done.
  apply wp_bind. eapply wp_lh_block_get; [rewrite (bstep_lg _ _ _ Hs1); by eapply lm_lookup|].
  rewrite uN_small by (unfold blockno_ok in Hb; lia). apply wp_bind.
  assert ((<[slot L k := (i1, 1, old)]> refs : refmap) !! b = Some (i, c, d)) as Hr1 by (by rewrite lookup_insert_ne).
  eapply (wp_bread _ d); [by eapply thread_bstep|done|unfold view; by rewrite Hr1|set_solver| |by left|].
  { unfold cnt. rewrite Hr1. done. }
  intros i2 r2 Hs2 Hw HB2. apply wp_bind. eapply wp_buf_read; [exact HB2|apply ref_lookup|]. intros fb Hfb _.
  apply wp_bind. eapply (wp_buf_data (slot L k) i1 1 old (λ _, b_data fb)); [exact HB2| |].
  { rewrite ref_lookup_ne by done. apply lookup_insert_eq. }
  intros B3 HB3. rewrite Hfb in HB3. apply wp_bind. eapply (wp_bwrite_step (slot L k)).
  { eapply thread_bstep; [|apply bstep_bufs]. eapply thread_bstep; [by eapply thread_bstep|done]. }
  { exact HB3. } { apply lookup_insert_eq. } { set_solver. }
  { rsimpl. by rewrite (bstep_disk _ _ Hs2), (bstep_disk _ _ Hs1). }
  intros r4 Hs4 HB4. apply wp_bind. assert (bstep [(slot L k, d)] r r4) as Hs.
  { eapply bstep_nil; [exact Hs1|]. eapply bstep_nil; [exact Hs2|]. eapply bstep_nil; [apply bstep_bufs|done]. }
  eapply (wp_brelse b); [by eapply thread_bstep|exact HB4| |set_solver| |].
  { rewrite lookup_insert_ne by done. apply ref_lookup. }
  { unfold cnt. rewrite Hr1. lia. }
  intros r5 Hs5 HB5. rewrite unref_insert_ne, unref_ref, insert_insert_eq in HB5 by done.
  assert (bstep [(slot L k, d)] r r5) as Hs' by (by eapply bstep_nil_r).
  eapply (wp_brelse (slot L k)); [by eapply thread_bstep|exact HB5|apply lookup_insert_eq|set_solver| |].
  { intros _. destruct Hs' as (_ & -> & _). apply lookup_insert_eq. }
  intros r6 Hs6 HB6. rewrite unref_last in HB6 by done. apply HQ; [by eapply bstep_nil_r|].
  by replace ((({[b]} ∪ ({[slot L k]} ∪ lk)) ∖ {[b]} ∖ {[slot L k]} : gset Z)) with lk in HB6 by set_solver.
Qed.

(** ** The blocks of a transaction: [bs] are pinned in the cache with data [ds] *)
Record logged (L : Z) (D : gmap Z (list Z)) (refs : refmap) (lk : gset Z) (bs : list Z) (ds : list (list Z)) : Prop := {
  ld_len : length bs = length ds;
  ld_nodup : NoDup bs;
  ld_pinned : ∀ k b d, bs !! k = Some b → ds !! k = Some d →
    blockno_ok b ∧ ¬ (L <= b <= L + LOGBLOCKS) ∧ (b ∉ lk) ∧ is_Some (D !! b) ∧
    ∃ i c, refs !! b = Some (i, c, d) ∧ c + 1 < 2 ^ 31
}.

Definition log_writes (L : Z) (ds : list (list Z)) : list (Z * list Z) := imap (λ k d, (slot L k, d)) ds.

Lemma log_writes_take_S L ds k d :
  ds !! k = Some d → log_writes L (take (S k) ds) = log_writes L (take k ds) ++ [(slot L k, d)].
Proof.
  intros Hk. unfold log_writes. rewrite (take_S_r _ _ d), imap_app by done. simpl.
  rewrite length_take, Nat.min_l, Nat.add_0_r; [done|]. apply lookup_lt_Some in Hk. lia.
Qed.

Lemma log_region_writes L D refs lk tr :
  log_region L D refs lk → L ∉ tr.*1 → log_region L (apply_writes tr D) refs lk.
Proof.
  intros [HL (d & Hd & Hl) Hs Hf] Hn. split; [done| | |done].
  - exists d. by rewrite apply_writes_notin.
  - intros k Hk. by apply apply_writes_is_Some, Hs.
Qed.

Lemma log_writes_fst L ds b : b ∈ (log_writes L ds).*1 → ∃ k, (k < length ds)%nat ∧ b = slot L k.
Proof.
  intros Hb. apply list_elem_of_fmap in Hb as ((? & d) & -> & Hin). apply elem_of_lookup_imap in Hin as (k & y & [= -> ->] & Hk).
  exists k. split; [by eapply lookup_lt_Some|done].
Qed.

Lemma wp_write_log L bs ds refs lk pid (Q : unit → st sys → Prop) h r :
  thread r pid → bcache (bufs r) (disk r) pid refs lk → log_mem (lg r) L bs →
  log_region L (disk r) refs lk → logged L (disk r) refs lk bs ds → (size refs < NBUF)%nat →
  (∀ r', bstep (log_writes L ds) r r' → bcache (bufs r') (disk r') pid refs lk → Q tt (St h r')) →
  wp write_log Q (St h r).
Proof.
  intros Hth HB Hm Hreg Hld Hsz HQ. apply wp_bind, wp_rd. rewrite (lm_n _ _ _ Hm), Nat2Z.id.
  apply (wp_for_each (λ k s, ∃ r2, s = St h r2 ∧ bstep (log_writes L (take k ds)) r r2 ∧
    bcache (bufs r2) (disk r2) pid refs lk)).
  { exists r. split; [done|]. split; [apply bstep_refl|done]. }
  - intros k s Hk (r2 & -> & Hs2 & HB2). destruct (lookup_lt_is_Some_2 bs k) as [b Hb]; [lia|].
    destruct (lookup_lt_is_Some_2 ds k) as [d Hd]; [rewrite <-(ld_len _ _ _ _ _ _ Hld); lia|].
    destruct (ld_pinned _ _ _ _ _ _ Hld k b d Hb Hd) as (Hbok & Hout & Hlk & _ & i & c & Hr & Hc).
    pose proof (lm_bound _ _ _ Hm) as Hbd.
    assert (L ∉ (log_writes L (take k ds)).*1) as HLn.
    { intros (j & _ & E)%log_writes_fst. unfold slot in E. lia. }
    assert (log_region L (disk r2) refs lk) as Hreg2.
    { destruct Hs2 as (_ & -> & _). by apply log_region_writes. }
    destruct (lr_slot _ _ _ _ Hreg2 k) as [old Hold]; [lia|].
    eapply wp_log_block; try done; [by eapply thread_bstep|by rewrite (bstep_lg _ _ _ Hs2)|].
    intros r3 Hs3 HB3. exists r3. split; [done|]. split; [|done].
    rewrite (log_writes_take_S _ _ _ d) by done. by eapply bstep_trans.
  - intros s (r2 & -> & Hs2 & HB2). apply HQ; [|done].
    rewrite Nat.add_0_l, (ld_len _ _ _ _ _ _ Hld), take_ge in Hs2 by done. done.
Qed.

(** One round of install_trans(0): block [b] goes from its slot to its home and
    loses the pin. *)
Lemma wp_install_block L bs k b i c d refs lk pid (Q : unit → st sys → Prop) h r :
  thread r pid → bcache (bufs r) (disk r) pid refs lk → log_mem (lg r) L bs →
  log_region L (disk r) refs lk → bs !! k = Some b → blockno_ok b → ¬ (L <= b <= L + LOGBLOCKS) →
  b ∉ lk → is_Some (disk r !! b) → refs !! b = Some (i, c, d) → c + 1 < 2 ^ 31 →
  disk r !! slot L k = Some d → (size refs < NBUF)%nat →
  (∀ r', bstep [(b, d)] r r' → bcache (bufs r') (disk r') pid (unref refs b) lk → Q tt (St h r')) →
  wp (install_block false k) Q (St h r).
Proof.
  intros Hth HB Hm Hreg Hk Hb Hout Hlkb [old Hhome] Hr Hc Hsl Hsz HQ.
  assert (k < NLOG)%nat as Hkn by (apply lookup_lt_Some in Hk; pose proof (lm_bound _ _ _ Hm); lia).
  pose proof (slot_region L k Hkn) as Hsr. destruct (lr_free _ _ _ _ Hreg (slot L k)) as [Hfree Hlk]; [lia|].
  assert (slot L k ≠ b) as Hne by (intros E; rewrite E in *; lia).
  destruct (bc_get HB _ _ _ _ Hr) as (_ & _ & _ & _ & _ & _ & _ & _ & Hc0 & _).
  apply wp_bind. eapply wp_lh_block_get; [by eapply lm_lookup|]. apply wp_bind, wp_ret.
  apply wp_bind, wp_rd. rewrite (lm_dev _ _ _ Hm), (lm_start _ _ _ Hm), (slot_u32 L k (lr_L _ _ _ _ Hreg) Hkn).
  apply wp_bind. eapply wp_bread; [done|done|unfold view; by rewrite Hfree|done| |by right|].
  { unfold cnt. rewrite Hfree. lia. }
  intros i1 r1 Hs1 _ HB1. rewrite ref_new in HB1 by done.
  apply wp_bind. eapply wp_lh_block_get; [rewrite (bstep_lg _ _ _ Hs1); by eapply lm_lookup|].
  rewrite uN_small by (unfold blockno_ok in Hb; lia). apply wp_bind.
  set (refs1 := <[slot L k := (i1, 1, d)]> refs) in *.
  assert (refs1 !! b = Some (i, c, d)) as Hr1 by (subst refs1; by rewrite lookup_insert_ne).
  eapply (wp_bread _ d); [by eapply thread_bstep|done|unfold view; by rewrite Hr1|set_solver| |by left|].
  { unfold cnt. rewrite Hr1. done. }
  intros i2 r2 Hs2 Hw HB2. apply wp_bind. eapply (wp_buf_read (slot L k) i1 1 d); [exact HB2| |].
  { rewrite ref_lookup_ne by done. apply lookup_insert_eq. }
  intros lb Hlb _. apply wp_bind. eapply (wp_buf_data b i2 _ d (λ _, b_data lb)); [exact HB2|apply ref_lookup|].
  intros B3 HB3. rewrite Hlb in HB3. unfold ref in HB3. rewrite insert_insert_eq in HB3. fold (ref refs1 b i2 d) in HB3.
  apply wp_bind. eapply (wp_bwrite_step b).
  { eapply thread_bstep; [|apply bstep_bufs]. eapply thread_bstep; [by eapply thread_bstep|done]. }
  { exact HB3. } { apply ref_lookup. } { set_solver. }
  { rsimpl. rewrite (bstep_disk _ _ Hs2), (bstep_disk _ _ Hs1). exact Hhome. }
  intros r4 Hs4 HB4. assert (bstep [(b, d)] r r4) as Hs.
  { eapply bstep_nil; [exact Hs1|]. eapply bstep_nil; [exact Hs2|]. eapply bstep_nil; [apply bstep_bufs|done]. }
  assert (cnt refs1 b = c) as Hcnt by (unfold cnt; by rewrite Hr1).
  apply wp_bind. eapply (wp_bunpin b).
  { rewrite (th_held _ pid); [apply not_elem_of_nil|by eapply thread_bstep]. }
  { exact HB4. } { apply ref_lookup. } { lia. }
  intros B5 HB5. assert (<[b := (i2, cnt refs1 b + 1 - 1, d)]> (ref refs1 b i2 d) = refs1) as E.
  { unfold ref. rewrite insert_insert_eq. destruct Hw as [Hw|(c' & _ & Hw)]; [congruence|].
    rewrite Hr1 in Hw. injection Hw as -> <-. rewrite Hcnt. replace (c + 1 - 1) with c by lia. by apply insert_id. }
  rewrite E in HB5. assert (bstep [(b, d)] r (r4 <| bufs := B5 |>)) as Hs5 by (eapply bstep_nil_r; [done|apply bstep_bufs]).
  assert (i2 = i) as -> by (destruct Hw as [Hw|(c' & _ & Hw)]; congruence).
  apply wp_bind. eapply (wp_brelse (slot L k)); [by eapply thread_bstep|exact HB5|apply lookup_insert_eq|set_solver| |].
  { intros _. rsimpl. destruct Hs as (_ & -> & _). simpl. by rewrite lookup_insert_ne. }
  intros r6 Hs6 HB6. subst refs1. rewrite unref_last in HB6 by done.
  assert (bstep [(b, d)] r r6) as Hs' by (by eapply bstep_nil_r).
  eapply (wp_brelse b); [by eapply thread_bstep|exact HB6|exact Hr|set_solver| |].
  { intros _. destruct Hs' as (_ & -> & _). apply lookup_insert_eq. }
  intros r7 Hs7 HB7. apply HQ; [by eapply bstep_nil_r|].
  by replace ((({[b]} ∪ ({[slot L k]} ∪ lk)) ∖ {[slot L k]} ∖ {[b]} : gset Z)) with lk in HB7 by set_solver.
Qed.

Lemma log_region_unref L D refs lk bs :
  log_region L D refs lk → (∀ b, b ∈ bs → ¬ (L <= b <= L + LOGBLOCKS)) → log_region L D (unref_all refs bs) lk.
Proof.
  intros [HL Hd Hs Hf] Hn. split; [done|done|done|]. intros b Hb. rewrite unref_all_notin; [by apply Hf|].
  intros Hin. by apply (Hn b).
Qed.

Lemma zip_take_S (bs : list Z) (ds : list (list Z)) k b d :
  bs !! k = Some b → ds !! k = Some d → zip (take (S k) bs) (take (S k) ds) = zip (take k bs) (take k ds) ++ [(b, d)].
Proof.
  intros Hb Hd. rewrite (take_S_r _ _ b), (take_S_r _ _ d) by done. rewrite zip_with_app; [done|].
  apply lookup_lt_Some in Hb, Hd. rewrite !length_take. lia.
Qed.

Lemma wp_install_trans L bs ds refs lk pid (Q : unit → st sys → Prop) h r :
  thread r pid → bcache (bufs r) (disk r) pid refs lk → log_mem (lg r) L bs →
  log_region L (disk r) refs lk → logged L (disk r) refs lk bs ds → (size refs < NBUF)%nat →
  (∀ k d, ds !! k = Some d → disk r !! slot L k = Some d) →
  (∀ r', bstep (zip bs ds) r r' → bcache (bufs r') (disk r') pid (unref_all refs bs) lk → Q tt (St h r')) →
  wp (install_trans false) Q (St h r).
Proof.
  intros Hth HB Hm Hreg Hld Hsz Hslots HQ. apply wp_bind, wp_rd. rewrite (lm_n _ _ _ Hm), Nat2Z.id.
  pose proof (ld_len _ _ _ _ _ _ Hld) as Hlen. pose proof (lm_bound _ _ _ Hm) as Hbd.
  assert (∀ b, b ∈ bs → ¬ (L <= b <= L + LOGBLOCKS)) as Hout.
  { intros b (k & Hk)%list_elem_of_lookup. destruct (lookup_lt_is_Some_2 ds k) as [d Hd];
      [rewrite <-Hlen; by eapply lookup_lt_Some|]. by destruct (ld_pinned _ _ _ _ _ _ Hld k b d Hk Hd) as (_ & ? & _). }
  apply (wp_for_each (λ k s, ∃ r2, s = St h r2 ∧ bstep (zip (take k bs) (take k ds)) r r2 ∧
    bcache (bufs r2) (disk r2) pid (unref_all refs (take k bs)) lk)).
  { exists r. split; [done|]. split; [apply bstep_refl|done]. }
  - intros k s Hk (r2 & -> & Hs2 & HB2). destruct (lookup_lt_is_Some_2 bs k) as [b Hb]; [lia|].
    destruct (lookup_lt_is_Some_2 ds k) as [d Hd]; [lia|].
    destruct (ld_pinned _ _ _ _ _ _ Hld k b d Hb Hd) as (Hbok & Ho & Hlk & Hhome & i & c & Hr & Hc).
    assert (b ∉ take k bs) as Hbn.
    { intros (j & Hj)%list_elem_of_lookup. assert (j < k)%nat by (apply lookup_lt_Some in Hj; rewrite length_take in Hj; lia).
      rewrite lookup_take_lt in Hj by done. pose proof (NoDup_lookup _ _ _ _ (ld_nodup _ _ _ _ _ _ Hld) Hb Hj). lia. }
    assert (∀ b, L <= b <= L + LOGBLOCKS → b ∉ (zip (take k bs) (take k ds)).*1) as Hn.
    { intros b' Hb' Hin. rewrite fst_zip in Hin by (rewrite !length_take; lia).
      apply (Hout b'); [|done]. eapply elem_of_subseteq; [|exact Hin]. apply subseteq_take. }
    pose proof Hs2 as (_ & HD2 & _). eapply (wp_install_block L bs k b i c d); try done.
    + by eapply thread_bstep.
    + by rewrite (bstep_lg _ _ _ Hs2).
    + apply log_region_unref; [|intros b' Hb'; apply Hout; eapply elem_of_subseteq; [apply subseteq_take|exact Hb']].
      rewrite HD2. apply log_region_writes; [done|]. apply Hn. unfold LOGBLOCKS, MAXOPBLOCKS. lia.
    + rewrite HD2. by apply apply_writes_is_Some.
    + by rewrite unref_all_notin.
    + rewrite HD2, apply_writes_notin; [by apply Hslots|]. apply Hn.
      pose proof (slot_region L k). lia.
    + pose proof (size_unref_all refs (take k bs)). lia.
    + intros r3 Hs3 HB3. exists r3. split; [done|]. rewrite (zip_take_S _ _ _ b d) by done.
      split; [by eapply bstep_trans|]. by rewrite (take_S_r _ _ b), unref_all_snoc.
  - intros s (r2 & -> & Hs2 & HB2). rewrite Nat.add_0_l in *. rewrite (take_ge ds), take_ge in Hs2 by lia.
    rewrite take_ge in HB2 by lia. by apply HQ.
Qed.

(** ** commit *)
Definition commit_writes (L : Z) (bs : list Z) (ds : list (list Z)) (d0 : list Z) : list (Z * list Z) :=
  log_writes L ds ++ [(L, hdr bs d0)] ++ zip bs ds ++ [(L, hdr [] (hdr bs d0))].

Lemma log_mem_clear l L bs : log_mem l L bs → log_mem (l <| lh_n := 0 |>) L [].
Proof. intros [Hd Hs Hn Hl Hb]. by split. Qed.

Lemma logged_writes L D refs lk bs ds tr :
  logged L D refs lk bs ds → logged L (apply_writes tr D) refs lk bs ds.
Proof.
  intros [Hl Hnd Hp]. split; [done|done|]. intros k b d Hb Hd.
  destruct (Hp k b d Hb Hd) as (? & ? & ? & ? & ?). split_and!; try done. by apply apply_writes_is_Some.
Qed.

Lemma log_region_hdr L D refs lk d :
  log_region L D refs lk → length d = Z.to_nat BSIZE → log_region L (<[L := d]> D) refs lk.
Proof.
  intros [HL _ Hs Hf] Hd. split; [done| | |done].
  - exists d. by rewrite lookup_insert_eq.
  - intros k Hk. rewrite lookup_insert_ne by (unfold slot; lia). by apply Hs.
Qed.

Lemma log_writes_slot L ds D k d : ds !! k = Some d → apply_writes (log_writes L ds) D !! slot L k = Some d.
Proof.
  intros Hk. assert (log_writes L ds = zip (imap (λ k _, slot L k) ds) ds) as ->.
  { unfold log_writes. apply list_eq. intros i. rewrite lookup_zip_with, !list_lookup_imap. by destruct (ds !! i). }
  eapply apply_writes_zip; [| |by rewrite list_lookup_imap, Hk|done].
  - apply NoDup_alt. intros i j x. rewrite !list_lookup_imap. unfold slot.
    destruct (ds !! i), (ds !! j); simpl; try done. intros [= <-] [= E]. lia.
  - apply length_imap.
Qed.

Lemma logged_bs_out L D refs lk bs ds b :
  logged L D refs lk bs ds → b ∈ bs → ¬ (L <= b <= L + LOGBLOCKS).
Proof.
  intros Hld (k & Hk)%list_elem_of_lookup. destruct (lookup_lt_is_Some_2 ds k) as [d Hd].
  { rewrite <-(ld_len _ _ _ _ _ _ Hld). by eapply lookup_lt_Some. }
  by destruct (ld_pinned _ _ _ _ _ _ Hld k b d Hk Hd) as (_ & ? & _).
Qed.

Lemma wp_commit L bs ds d0 refs lk pid (Q : unit → st sys → Prop) h r :
  thread r pid → bcache (bufs r) (disk r) pid refs lk → log_mem (lg r) L bs →
  log_region L (disk r) refs lk → logged L (disk r) refs lk bs ds → (size refs < NBUF)%nat →
  disk r !! L = Some d0 → (0 < length bs)%nat →
  (∀ r', bstep (commit_writes L bs ds d0) (r <| lg ::= set_field lh_n (λ _, 0) |>) r' →
     bcache (bufs r') (disk r') pid (unref_all refs bs) lk → Q tt (St h r')) →
  wp commit Q (St h r).
Proof.
  intros Hth HB Hm Hreg Hld Hsz Hd0 Hn HQ. pose proof (lm_bound _ _ _ Hm) as Hbd.
  assert (length d0 = Z.to_nat BSIZE) as Hl0.
  { destruct (lr_hdr _ _ _ _ Hreg) as (d & Hd & Hl). congruence. }
  assert (L ∉ (log_writes L ds).*1) as HLn.
  { intros (j & _ & E)%log_writes_fst. unfold slot in E. lia. }
  assert (L ∉ (zip bs ds).*1) as HLz.
  { rewrite fst_zip by (rewrite (ld_len _ _ _ _ _ _ Hld); done). intros Hin.
    apply (logged_bs_out _ _ _ _ _ _ _ Hld Hin). unfold LOGBLOCKS, MAXOPBLOCKS. lia. }
  apply wp_bind, wp_rd. rewrite (lm_n _ _ _ Hm), bool_decide_eq_true_2 by lia.
  apply wp_bind. eapply wp_write_log; try done. intros r1 Hs1 HB1. pose proof Hs1 as (_ & HD1 & _).
  assert (log_region L (disk r1) refs lk) as Hreg1 by (rewrite HD1; by apply log_region_writes).
  apply wp_bind. eapply (wp_write_head L bs d0); try done.
  { by eapply thread_bstep. } { by rewrite (bstep_lg _ _ _ Hs1). } { by rewrite HD1, apply_writes_notin. }
  intros r2 Hs2 HB2. pose proof (bstep_trans _ _ _ _ _ Hs1 Hs2) as Hs12. pose proof Hs2 as (_ & HD2 & _).
  assert (log_region L (disk r2) refs lk) as Hreg2.
  { rewrite HD2. simpl. apply log_region_hdr; [done|]. by rewrite hdr_length. }
  apply wp_bind. eapply wp_install_trans; try done.
  { by eapply thread_bstep. } { by rewrite (bstep_lg _ _ _ Hs12). }
  { rewrite HD2, HD1. by do 2 apply logged_writes. }
  { intros k d Hk. rewrite HD2, HD1. simpl. rewrite lookup_insert_ne by (unfold slot; lia). by apply log_writes_slot. }
  intros r3 Hs3 HB3. pose proof (bstep_trans _ _ _ _ _ Hs12 Hs3) as Hs123. pose proof Hs3 as (_ & HD3 & _).
  apply wp_bind, wp_upd. eapply (wp_write_head L [] (hdr bs d0)).
  { destruct (thread_bstep _ _ _ _ Hth Hs123) as [Ha Hb Hc Hd]. by split. }
  { exact HB3. }
  { rsimpl. rewrite (bstep_lg _ _ _ Hs123). by eapply log_mem_clear. }
  { rsimpl. apply log_region_unref; [|intros b; by apply (logged_bs_out _ _ _ _ _ _ b Hld)].
    rewrite HD3. by apply log_region_writes. }
  { rsimpl. rewrite HD3, apply_writes_notin, HD2 by done. apply lookup_insert_eq. }
  { pose proof (size_unref_all refs bs). lia. }
  intros r4 Hs4 HB4. apply HQ; [|done]. unfold commit_writes. rewrite !app_assoc.
  eapply bstep_trans; [|exact Hs4]. change (r <| lg ::= ?f |>) with (r <| lg := f (lg r) |>).
  change (r3 <| lg ::= ?f |>) with (r3 <| lg := f (lg r3) |>). rewrite (bstep_lg _ _ _ Hs123).
  by apply bstep_set_lg.
Qed.
End ops.
