(* ===== verification/LogRecover.v ===== *)
(** * Specification of log recovery

    initlog reads the header, copies the logged blocks to their homes and clears
    the header.  [log_disk L D bs ds d0]: the log of disk [D] holds the blocks
    [bs] with contents [ds] under the header block [d0]. *)
From S2P Require Import Prelude.
From S2P Require Import Mem.
From S2P Require Import Params.
From S2P Require Import State.
From S2P Require Import Sched.
From S2P Require Import Console.
From S2P Require Import Bio.
From S2P Require Import Log.
From S2P Require Import Wp.
From S2P Require Import SchedSpec.
From S2P Require Import BioSpec.
From S2P Require Import BioRef.
From S2P Require Import ConsoleSpec.
From S2P Require Import LogSpec.
#[local] Open Scope Z_scope.

Record log_disk (L : Z) (D : gmap Z (list Z)) (bs : list Z) (ds : list (list Z)) (d0 : list Z) : Prop := {
  ll_L : 0 <= L ∧ L + LOGBLOCKS < 2 ^ 31;
  ll_hdr : D !! L = Some d0;
  ll_size : length d0 = Z.to_nat BSIZE;
  ll_n : lh_get_n d0 = Z.of_nat (length bs);
  ll_max : (length bs <= NLOG)%nat;
  ll_block : ∀ k b, bs !! k = Some b → lh_get_block d0 k = b;
  ll_len : length bs = length ds;
  ll_slot : ∀ k d, ds !! k = Some d → D !! slot L k = Some d;
  ll_slots : ∀ k, (k < NLOG)%nat → is_Some (D !! slot L k);
  ll_home : ∀ b, b ∈ bs → blockno_ok b ∧ ¬ (L <= b <= L + LOGBLOCKS) ∧ is_Some (D !! b);
  ll_nodup : NoDup bs
}.

Definition recover_writes (L : Z) (bs : list Z) (ds : list (list Z)) (d0 : list Z) : list (Z * list Z) :=
  zip bs ds ++ [(L, hdr [] d0)].

(** The directives of install_trans's message. *)
Definition recovering_fmt : list directive :=
  map Lit (str "recovering tail ") ++ [Num 0 Fd] ++ map Lit (str " dst ") ++ [Num 0 Fd; Lit 10].

Lemma recovering_fmt_spell : str "recovering tail %d dst %d" ++ [10] = flat_map spell recovering_fmt.
Proof. reflexivity. Qed.

Lemma recovering_fmt_ok : Forall dir_ok recovering_fmt.
Proof. repeat constructor; done. Qed.

Section recover.
Context `{Linker} `{Sched} `{BlockDevOk}.

Lemma bstep_out r bs : bstep [] r (out r bs).
Proof. split_and!; [by frame_step|done|by rewrite app_nil_r]. Qed.

(** One round of install_trans(1), with nothing referenced. *)
Lemma wp_recover_block L bs ds d0 k b d pid (Q : unit → st sys → Prop) h r :
  thread r pid → bcache (bufs r) (disk r) pid ∅ ∅ → log_mem (lg r) L bs →
  0 <= L ∧ L + LOGBLOCKS < 2 ^ 31 → bs !! k = Some b → ds !! k = Some d → log_disk L (disk r) bs ds d0 →
  (∀ r', bstep [(b, d)] r r' → bcache (bufs r') (disk r') pid ∅ ∅ → Q tt (St h r')) →
  wp (install_block true k) Q (St h r).
Proof.
  intros Hth HB Hm HL Hk Hdk Hll HQ.
  assert (k < NLOG)%nat as Hkn by (apply lookup_lt_Some in Hk; pose proof (lm_bound _ _ _ Hm); lia).
  pose proof (slot_region L k Hkn) as Hsr. pose proof (ll_slot _ _ _ _ _ Hll k d Hdk) as Hsl.
  destruct (ll_home _ _ _ _ _ Hll b) as (Hb & Hout & old & Hold); [by eapply list_elem_of_lookup_2|].
  assert (slot L k ≠ b) as Hne by (intros E; rewrite E in *; lia).
  apply wp_bind. eapply wp_lh_block_get; [by eapply lm_lookup|]. apply wp_bind, wp_bind.
  rewrite recovering_fmt_spell. eapply wp_printf; [apply recovering_fmt_ok|reflexivity| |].
  { rewrite (th_held _ _ Hth). apply not_elem_of_nil. }
  match goal with |- context [out r ?x] => set (r1 := out r x) end.
  assert (bstep [] r r1) as Hs1 by apply bstep_out.
  apply wp_ret. apply wp_bind, wp_rd. rewrite (bstep_lg _ _ _ Hs1), (lm_dev _ _ _ Hm), (lm_start _ _ _ Hm), (slot_u32 L k HL Hkn).
  apply wp_bind. eapply (wp_bread _ d ∅ ∅ pid).
  { by eapply thread_bstep. } { done. } { done. } { set_solver. } { done. } { right. rewrite map_size_empty. unfold NBUF. lia. }
  intros i1 r2 Hs2 _ HB2. rewrite ref_new in HB2 by done.
  apply wp_bind. eapply wp_lh_block_get; [rewrite (bstep_lg _ _ _ Hs2), (bstep_lg _ _ _ Hs1); by eapply lm_lookup|].
  rewrite uN_small by (unfold blockno_ok in Hb; lia). apply wp_bind.
  assert (bstep [] r r2) as Hs02 by (by eapply bstep_nil).
  assert ((<[slot L k := (i1, 1, d)]> ∅ : refmap) !! b = None) as Hr1 by (by rewrite lookup_insert_ne).
  eapply (wp_bread _ old); [by eapply thread_bstep|done| |set_solver| | |].
  { unfold view. rewrite Hr1, (bstep_disk _ _ Hs02). done. }
  { unfold cnt. rewrite Hr1. lia. }
  { right. rewrite map_size_insert_None by done. rewrite map_size_empty. unfold NBUF. lia. }
  intros i2 r3 Hs3 Hw HB3. rewrite ref_new in HB3 by done.
  apply wp_bind. eapply (wp_buf_read (slot L k) i1 1 d); [exact HB3| |].
  { rewrite lookup_insert_ne by done. apply lookup_insert_eq. }
  intros lb Hlb _. apply wp_bind. eapply (wp_buf_data b i2 1 old (λ _, b_data lb)); [exact HB3|apply lookup_insert_eq|].
  intros B4 HB4. rewrite Hlb, insert_insert_eq in HB4.
  apply wp_bind. eapply (wp_bwrite_step b).
  { eapply thread_bstep; [|apply bstep_bufs]. eapply thread_bstep; [by eapply thread_bstep|done]. }
  { exact HB4. } { apply lookup_insert_eq. } { set_solver. }
  { rsimpl. rewrite (bstep_disk _ _ Hs3), (bstep_disk _ _ Hs02). exact Hold. }
  intros r5 Hs5 HB5. assert (bstep [(b, d)] r r5) as Hs.
  { eapply bstep_nil; [exact Hs02|]. eapply bstep_nil; [exact Hs3|]. eapply bstep_nil; [apply bstep_bufs|done]. }
  apply wp_bind, wp_ret. apply wp_bind.
  eapply (wp_brelse (slot L k)); [by eapply thread_bstep|exact HB5| |set_solver| |].
  { rewrite lookup_insert_ne by done. apply lookup_insert_eq. }
  { intros _. destruct Hs as (_ & -> & _). simpl. by rewrite lookup_insert_ne. }
  intros r6 Hs6 HB6. rewrite unref_insert_ne, unref_last in HB6 by done.
  assert (bstep [(b, d)] r r6) as Hs' by (by eapply bstep_nil_r).
  eapply (wp_brelse b); [by eapply thread_bstep|exact HB6|apply lookup_insert_eq|set_solver| |].
  { intros _. destruct Hs' as (_ & -> & _). apply lookup_insert_eq. }
  intros r7 Hs7 HB7. rewrite unref_last in HB7 by done. apply HQ; [by eapply bstep_nil_r|].
  by replace ((({[b]} ∪ ({[slot L k]} ∪ ∅)) ∖ {[slot L k]} ∖ {[b]} : gset Z)) with (∅ : gset Z) in HB7 by set_solver.
Qed.

Lemma log_disk_home L D bs ds d0 b d : b ∈ bs → log_disk L D bs ds d0 → log_disk L (<[b := d]> D) bs ds d0.
Proof.
  intros Hin Hll. pose proof (ll_home _ _ _ _ _ Hll b Hin) as (_ & Hout & _). pose proof (ll_max _ _ _ _ _ Hll).
  destruct Hll as [? Hh ? ? ? ? Hlen Hsl Hss Hhm ?]. split; try done.
  - rewrite lookup_insert_ne; [done|]. unfold LOGBLOCKS, MAXOPBLOCKS in *. lia.
  - intros k d' Hk. rewrite lookup_insert_ne; [by apply Hsl|]. apply lookup_lt_Some in Hk.
    pose proof (slot_region L k). lia.
  - intros k Hk. rewrite lookup_insert_is_Some'. right. by apply Hss.
  - intros b' Hb'. destruct (Hhm b' Hb') as (? & ? & ?). split_and!; try done.
    rewrite lookup_insert_is_Some'. by right.
Qed.

Lemma log_disk_zip L D bs ds d0 k : log_disk L D bs ds d0 →
  log_disk L (apply_writes (zip (take k bs) (take k ds)) D) bs ds d0.
Proof.
  intros Hll. assert (∀ tr D, (∀ b, b ∈ tr.*1 → b ∈ bs) → log_disk L D bs ds d0 →
    log_disk L (apply_writes tr D) bs ds d0) as Hgen.
  { clear. induction tr as [|[b d] tr IH]; intros D Hin Hll; simpl; [done|].
    apply IH; [intros b' Hb'; apply Hin; by right|]. apply log_disk_home; [apply Hin; by left|done]. }
  apply Hgen; [|done]. intros b Hb. rewrite fst_zip in Hb
    by (rewrite !length_take, (ll_len _ _ _ _ _ Hll); lia).
  eapply elem_of_subseteq; [apply subseteq_take|exact Hb].
Qed.

Lemma wp_recover_trans L bs ds d0 pid (Q : unit → st sys → Prop) h r :
  thread r pid → bcache (bufs r) (disk r) pid ∅ ∅ → log_mem (lg r) L bs → log_disk L (disk r) bs ds d0 →
  (∀ r', bstep (zip bs ds) r r' → bcache (bufs r') (disk r') pid ∅ ∅ → Q tt (St h r')) →
  wp (install_trans true) Q (St h r).
Proof.
  intros Hth HB Hm Hll HQ. apply wp_bind, wp_rd. rewrite (lm_n _ _ _ Hm), Nat2Z.id.
  pose proof (ll_len _ _ _ _ _ Hll) as Hlen.
  apply (wp_for_each (λ k s, ∃ r2, s = St h r2 ∧ bstep (zip (take k bs) (take k ds)) r r2 ∧
    bcache (bufs r2) (disk r2) pid ∅ ∅)).
  { exists r. split; [done|]. split; [apply bstep_refl|done]. }
  - intros k s Hk (r2 & -> & Hs2 & HB2). destruct (lookup_lt_is_Some_2 bs k) as [b Hb]; [lia|].
    destruct (lookup_lt_is_Some_2 ds k) as [d Hd]; [lia|]. pose proof Hs2 as (_ & HD2 & _).
    eapply (wp_recover_block L bs ds d0 k b d); try done.
    + by eapply thread_bstep.
    + by rewrite (bstep_lg _ _ _ Hs2).
    + apply (ll_L _ _ _ _ _ Hll).
    + rewrite HD2. by apply log_disk_zip.
    + intros r3 Hs3 HB3. exists r3. split; [done|]. rewrite (zip_take_S _ _ _ b d) by done.
      split; [by eapply bstep_trans|done].
  - intros s (r2 & -> & Hs2 & HB2). rewrite Nat.add_0_l in *. rewrite (take_ge ds), take_ge in Hs2 by lia.
    by apply HQ.
Qed.

Lemma wp_lh_block_set k v (Q : unit → st sys → Prop) h r :
  (k < length (lh_block (lg r)))%nat →
  Q tt (St h (r <| lg := (lg r) <| lh_block := <[k := v]> (lh_block (lg r)) |> |>)) →
  wp (lh_block_set k v) Q (St h r).
Proof. intros Hk HQ. apply wp_bind, wp_rd. rewrite decide_True by done. by apply wp_upd. Qed.

Lemma thread_lg r pid l : thread r pid → thread (r <| lg := l |>) pid.
Proof. by intros [Ha Hb Hc Hd He Hf]. Qed.

Lemma bstep_lg_irrel tr r r' l l' : bstep tr (r <| lg := l |>) r' → bstep tr (r <| lg := l' |>) (r' <| lg := l' |>).
Proof.
  intros Hs%(bstep_set_lg _ _ _ l').
  by replace (r <| lg := l |> <| lg := l' |>) with (r <| lg := l' |>) in Hs by (by destruct r).
Qed.

Lemma bstep_lg_twice tr r r' l l' : bstep tr (r <| lg := l |> <| lg := l' |>) r' → bstep tr (r <| lg := l' |>) r'.
Proof. by replace (r <| lg := l |> <| lg := l' |>) with (r <| lg := l' |>) by (by destruct r). Qed.

(** read_head copies the header of the log to memory. *)
Lemma wp_read_head L bs ds d0 pid (Q : unit → st sys → Prop) h r :
  thread r pid → bcache (bufs r) (disk r) pid ∅ ∅ → lg_dev (lg r) = ROOTDEV → lg_start (lg r) = L →
  length (lh_block (lg r)) = NLOG → log_disk L (disk r) bs ds d0 →
  (∀ l' r', log_mem l' L bs → lg_outstanding l' = lg_outstanding (lg r) → lg_committing l' = lg_committing (lg r) →
     bstep [] (r <| lg := l' |>) r' → bcache (bufs r') (disk r') pid ∅ ∅ → Q tt (St h r')) →
  wp read_head Q (St h r).
Proof.
  intros Hth HB Hdev Hst Hlb Hll HQ. destruct (ll_L _ _ _ _ _ Hll) as [HL0 HL1].
  apply wp_bind, wp_rd. rewrite Hdev, Hst, uN_small by (unfold LOGBLOCKS, MAXOPBLOCKS in *; lia).
  apply wp_bind. eapply (wp_bread _ d0 ∅ ∅ pid); [done|done|apply (ll_hdr _ _ _ _ _ Hll)|set_solver|done| |].
  { right. rewrite map_size_empty. unfold NBUF. lia. }
  intros ib r1 Hs1 _ HB1. rewrite ref_new in HB1 by done.
  apply wp_bind. eapply wp_buf_read; [exact HB1|apply lookup_insert_eq|]. intros b Hbd _. rewrite Hbd.
  cbv zeta. rewrite (ll_n _ _ _ _ _ Hll), Nat2Z.id. apply wp_bind, wp_upd, wp_bind.
  pose proof (ll_max _ _ _ _ _ Hll) as Hmax. pose proof (bstep_lg _ _ _ Hs1) as Hlg1.
  apply (wp_for_each (λ k s, ∃ l, s = St h (r1 <| lg := l |>) ∧ lg_dev l = ROOTDEV ∧ lg_start l = L ∧
    lh_n l = Z.of_nat (length bs) ∧ length (lh_block l) = NLOG ∧ take k (lh_block l) = take k bs ∧
    lg_outstanding l = lg_outstanding (lg r) ∧ lg_committing l = lg_committing (lg r))).
  { eexists. split; [reflexivity|]. rsimpl. rewrite Hlg1. done. }
  - intros k s Hk (l & -> & H1' & H2' & H3' & H4' & H5' & H6' & H7').
    destruct (lookup_lt_is_Some_2 bs k) as [b' Hb']; [lia|].
    apply wp_lh_block_set; [rsimpl; lia|]. rewrite (ll_block _ _ _ _ _ Hll k b' Hb').
    eexists. split; [by destruct r1|]. rsimpl. split_and!; try done; [by rewrite length_insert|].
    rewrite (take_S_r _ _ b') by (rewrite list_lookup_insert_eq; [done|lia]).
    rewrite (take_S_r bs _ b') by done. by rewrite take_insert_ge, H5' by lia.
  - intros s (l & -> & H1' & H2' & H3' & H4' & H5' & H6' & H7'). rewrite Nat.add_0_l in H5'.
    rewrite (take_ge bs) in H5' by done. assert (bstep [] (r <| lg := l |>) (r1 <| lg := l |>)) as Hs by (by apply bstep_set_lg).
    eapply (wp_brelse L); [apply thread_lg; by eapply thread_bstep|exact HB1|apply lookup_insert_eq|set_solver| |].
    { intros _. rsimpl. rewrite (bstep_disk _ _ Hs1). apply (ll_hdr _ _ _ _ _ Hll). }
    intros r2 Hs2 HB2. rewrite unref_last in HB2 by done. eapply (HQ l); [by split|done|done|by eapply bstep_nil|].
    by replace ((({[L]} ∪ ∅) ∖ {[L]} : gset Z)) with (∅ : gset Z) in HB2 by set_solver.
Qed.

Lemma log_disk_region L D bs ds d0 : log_disk L D bs ds d0 → log_region L D ∅ ∅.
Proof. intros []. split; [done|by exists d0|done|]. intros b _. split; [done|set_solver]. Qed.

Lemma wp_initlog L bs ds d0 pid (Q : unit → st sys → Prop) h r :
  thread r pid → bcache (bufs r) (disk r) pid ∅ ∅ → sb_logstart (sb r) = L →
  length (lh_block (lg r)) = NLOG → log_disk L (disk r) bs ds d0 →
  (∀ l' r', log_mem l' L [] → lg_outstanding l' = lg_outstanding (lg r) → lg_committing l' = lg_committing (lg r) →
     bstep (recover_writes L bs ds d0) (r <| lg := l' |>) r' → bcache (bufs r') (disk r') pid ∅ ∅ → Q tt (St h r')) →
  wp (initlog ROOTDEV) Q (St h r).
Proof.
  intros Hth HB Hsb Hlb Hll HQ. destruct (ll_L _ _ _ _ _ Hll) as [HL0 HL1].
  apply wp_bind, wp_upd, wp_bind. change (r <| lg ::= ?f |>) with (r <| lg := f (lg r) |>).
  eapply (wp_read_head L bs ds d0 pid); rsimpl; [by apply thread_lg|done|done| |done|done|].
  { rewrite Hsb, sN_small; [done|lia|]. unfold LOGBLOCKS, MAXOPBLOCKS in *. lia. }
  intros l1 r1 Hm1 Ho1 Hc1 Hs1 HB1.
  apply bstep_lg_twice in Hs1.
  pose proof (bstep_disk _ _ Hs1) as HD1. rsimpl in HD1. pose proof (bstep_lg _ _ _ Hs1) as Hlg1. rsimpl in Hlg1.
  apply wp_bind. eapply (wp_recover_trans L bs ds d0 pid).
  { eapply thread_bstep; [|exact Hs1]. by apply thread_lg. } { done. } { by rewrite Hlg1. } { by rewrite HD1. }
  intros r2 Hs2 HB2. pose proof (bstep_nil _ _ _ _ Hs1 Hs2) as Hs12.
  pose proof (bstep_lg _ _ _ Hs12) as Hlg2. rsimpl in Hlg2. pose proof Hs12 as (_ & HD2 & _). rsimpl in HD2.
  assert (log_disk L (disk r2) bs ds d0) as Hll2.
  { rewrite HD2. pose proof (log_disk_zip _ _ _ _ _ (length bs) Hll) as E.
    by rewrite (take_ge ds), take_ge in E by (rewrite ?(ll_len _ _ _ _ _ Hll); lia). }
  apply wp_bind, wp_upd. change (r2 <| lg ::= ?f |>) with (r2 <| lg := f (lg r2) |>).
  eapply (wp_write_head L [] d0 ∅ ∅ pid).
  { apply thread_lg. eapply thread_bstep; [|exact Hs12]. by apply thread_lg. } { exact HB2. }
  { rsimpl. rewrite Hlg2. by eapply log_mem_clear. } { by eapply log_disk_region. }
  { rsimpl. apply (ll_hdr _ _ _ _ _ Hll2). } { rewrite map_size_empty. unfold NBUF. lia. }
  intros r3 Hs3 HB3. apply (HQ (l1 <| lh_n := 0 |>)); [by eapply log_mem_clear|done|done| |done].
  unfold recover_writes. eapply bstep_trans; [|exact Hs3]. rewrite Hlg2. by eapply bstep_lg_irrel.
Qed.
End recover.
