(* ===== verification/Boot0.v ===== *)
(** * A concrete machine

    A running process, a small zeroed disk and a cache as binit leaves it: the
    states at which the theorems on the file system layers are instantiated. *)
From S2P Require Import Prelude.
From S2P Require Import Mem.
From S2P Require Import Params.
From S2P Require Import State.
From S2P Require Import Sched.
From S2P Require Import Bio.
From S2P Require Import Wp.
From S2P Require Import SchedSpec.
From S2P Require Import BioSpec.
#[local] Open Scope Z_scope.

(** ** A disk that keeps the promise, and the cache after binit

    [ideal_rw] transfers a block at once; it shows that the assumptions on the
    driver can be met and serves to evaluate concrete runs.  binit establishes
    the invariant of the cache. *)

Definition ideal_rw (i : nat) (write : bool) : K unit :=
  b ← buf_get i;
  d ← rd disk;
  match d !! b_blockno b with
  | None => fault
  | Some blk =>
      if write then
        buf_upd i (λ b, b <| b_disk := false |>);;
        upd (λ k, k <| disk := <[b_blockno b := b_data b]> (disk k) |>
                    <| dtrace := dtrace k ++ [(b_blockno b, b_data b)] |>)
      else buf_upd i (λ b, b <| b_data := blk |> <| b_disk := false |>)
  end.

#[export] Instance ideal_dev : BlockDev := ideal_rw.

(** The ideal disk has no variables of its own. *)
#[export] Instance ideal_inv : DevInv := λ _, True.

#[export] Instance ideal_dev_ok : @BlockDevOk ideal_dev ideal_inv.
Proof.
  split; intros h r pid i b blk Hth Hb Hblk; unfold virtio_disk_rw, ideal_dev, ideal_rw, buf_upd, buf_get, mbind, M_bind, rd, upd;
    simpl; rewrite Hb; simpl; rewrite Hblk; simpl; rewrite ?Hb; simpl; eexists; (split; [reflexivity|]); split_and!; try done; frame_step.
  cbn. apply dom_insert_lookup_L. by eexists.
Qed.

(** ** binit *)
Lemma elem_of_rev_seq x k : x ∈ rev (seq 0 k) ↔ (x < k)%nat.
Proof. rewrite list_elem_of_In, <-in_rev, in_seq. lia. Qed.

(** The state of the links and of the other fields before and during binit. *)
Definition blank (b : buf) : Prop := b_refcnt b = 0 ∧ sl_locked (b_lock b) = false ∧ b_dev b ≠ ROOTDEV.

Record binit_inv (B : list buf) (k : nat) : Prop := {
  bi_len : length B = S NBUF;
  bi_blank : Forall blank B;
  bi_seg : seg (nxf B) (pvf B) HEAD (rev (seq 0 k)) HEAD
}.

Lemma blank_bcache B D pid : binit_inv B NBUF → bcache B D pid ∅ ∅.
Proof.
  intros [Hl Hb Hs]. assert (∀ i b, B !! i = Some b → blank b) as Hbl by (intros i b; by apply Forall_lookup_1).
  split; [done| | | |done|set_solver].
  - exists (rev (seq 0 NBUF)). split; [|done]. symmetry. apply Permutation_rev.
  - intros i b Hi Hbi. right. destruct (Hbl i b Hbi) as (? & ? & ?). split_and!; [done|done|]. by intros.
  - intros i j bi bj _ _ Hbi _ Hdi. by destruct (Hbl i bi Hbi) as (_ & _ & ?).
Qed.

Section binit.
Context `{Linker} `{Sched}.

(** One round: buffer [k] goes to the front of the list. *)
Lemma wp_binit_buf k (Q : unit → st sys → Prop) h r :
  binit_inv (bufs r) k → (k < NBUF)%nat →
  (∀ B', binit_inv B' (S k) → Q tt (St h (r <| bufs := B' |>))) → wp (binit_buf k) Q (St h r).
Proof.
  intros [Hl Hb Hs] Hk HQ. destruct (lookup_lt_is_Some_2 (bufs r) HEAD) as [hd Hhd]; [unfold HEAD; lia|].
  destruct (lookup_lt_is_Some_2 (bufs r) k) as [b Hbk]; [lia|].
  assert (b_next hd = nxf (bufs r) HEAD) as Hnx by (unfold nxf; by rewrite Hhd).
  assert (nxf (bufs r) HEAD < S NBUF)%nat as Hnb.
  { destruct (seg_last _ _ _ _ _ Hs) as [_ ->]. destruct (rev (seq 0 k)) as [|y l] eqn:E; simpl; [unfold HEAD; lia|].
    assert (y ∈ rev (seq 0 k)) as Hy by (rewrite E; left). rewrite elem_of_rev_seq in Hy. lia. }
  assert (nxf (bufs r) HEAD ≠ k) as Hnk.
  { destruct (seg_last _ _ _ _ _ Hs) as [_ ->]. destruct (rev (seq 0 k)) as [|y l] eqn:E; simpl; [unfold HEAD; lia|].
    assert (y ∈ rev (seq 0 k)) as Hy by (rewrite E; left). rewrite elem_of_rev_seq in Hy. lia. }
  assert (k ≠ HEAD) as Hkh by (unfold HEAD; lia).
  apply wp_bind, (wp_buf_get _ hd); [done|]. apply wp_bind, (wp_buf_upd _ b); [done|].
  apply wp_bind, (wp_buf_get _ hd). { rsimpl. by rewrite list_lookup_insert_ne. }
  rewrite Hnx. remember (nxf (bufs r) HEAD) as n eqn:En.
  destruct (lookup_lt_is_Some_2 (bufs r) n) as [bn Hbn]; [lia|].
  apply wp_bind. apply (wp_buf_upd _ bn). { rsimpl. by rewrite list_lookup_insert_ne. }
  set (b1 := b <| b_next := n |> <| b_prev := HEAD |> <| b_lock := SleepLock false 0 |>).
  assert (∃ hd', <[n := bn <| b_prev := k |>]> (<[k := b1]> (bufs r)) !! HEAD = Some hd' ∧ blank hd' ∧
    b_prev hd' = (if decide (n = HEAD) then k else b_prev hd)) as (hd' & Hhd' & Hbl' & Hpv').
  { destruct (decide (n = HEAD)) as [E|Hne].
    - rewrite E in *. eexists. rewrite list_lookup_insert_eq by (rewrite length_insert; unfold HEAD; lia). split; [done|].
      split; [|done]. rewrite Forall_lookup in Hb. apply (Hb _ _ Hbn).
    - exists hd. rewrite list_lookup_insert_ne, list_lookup_insert_ne by done. split; [done|]. split; [|done].
      rewrite Forall_lookup in Hb. apply (Hb _ _ Hhd). }
  eapply wp_buf_upd; [exact Hhd'|]. rsimpl.
  match goal with |- Q tt (St h ?x) => replace x with (r <| bufs := <[HEAD := hd' <| b_next := k |>]>
     (<[n := bn <| b_prev := k |>]> (<[k := b1]> (bufs r))) |>) by (by destruct r) end.
  apply HQ. split.
  - by rewrite !length_insert.
  - repeat apply Forall_insert; try done.
    + rewrite Forall_lookup in Hb. destruct (Hb _ _ Hbk) as (? & _ & ?). by split_and!.
    + rewrite Forall_lookup in Hb. apply (Hb _ _ Hbn).
  - rewrite seq_S, rev_app_distr. change (rev [(0 + k)%nat] ++ rev (seq 0 k)) with (k :: rev (seq 0 k)).
    eapply (seg_ext (fupd (fupd (nxf (bufs r)) k n) HEAD k) (fupd (fupd (pvf (bufs r)) k HEAD) n k)).
    + intros a _. do 3 (rewrite nxf_insert by (rewrite ?length_insert; unfold HEAD; lia); unfold fupd). subst b1. rsimpl.
      repeat case_decide; try done; first [congruence|subst a; unfold nxf; by rewrite Hbn].
    + intros a _. do 3 (rewrite pvf_insert by (rewrite ?length_insert; unfold HEAD; lia); unfold fupd). subst b1. rsimpl.
      rewrite Hpv'. repeat case_decide; try done; first [congruence|subst a; unfold pvf; by rewrite Hhd].
    + rewrite En. apply seg_link; try done.
      * rewrite <-Permutation_rev. apply NoDup_seq.
      * rewrite elem_of_rev_seq. unfold HEAD. lia.
      * rewrite elem_of_rev_seq. unfold HEAD. lia.
      * rewrite elem_of_rev_seq. lia.
Qed.

Lemma wp_binit pid (Q : unit → st sys → Prop) h r :
  length (bufs r) = S NBUF → Forall blank (bufs r) →
  (∀ B', bcache B' (disk r) pid ∅ ∅ → Q tt (St h (r <| bufs := B' |>))) → wp binit Q (St h r).
Proof.
  intros Hl Hb HQ. destruct (lookup_lt_is_Some_2 (bufs r) HEAD) as [hd Hhd]; [unfold HEAD; lia|].
  apply wp_bind, (wp_buf_upd _ hd); [done|].
  apply (wp_for_each (λ k s, ∃ B, s = St h (r <| bufs := B |>) ∧ binit_inv B k)).
  - eexists. split; [reflexivity|]. split.
    + by rewrite length_insert.
    + apply Forall_insert; [done|]. rewrite Forall_lookup in Hb. apply (Hb _ _ Hhd).
    + simpl. rewrite nxf_insert, pvf_insert by (unfold HEAD; lia). by rewrite !fupd_eq.
  - intros k s Hk (B & -> & HB). apply wp_binit_buf; [done|lia|]. intros B' HB'. exists B'. split; [|done].
    by destruct r.
  - intros s (B & -> & HB). apply HQ. by apply blank_bcache.
Qed.
End binit.

(** Nothing else runs: code that would sleep has nobody to wake it. *)
Definition quiet : Sched := {| sched_steps := λ _ s, s; sched_bound := 0 |}.

Definition zero_block : list Z := replicate (Z.to_nat BSIZE) 0.

(** Blocks 0 to 59. *)
Definition disk0 : gmap Z (list Z) := list_to_map ((λ i, (Z.of_nat i, zero_block)) <$> seq 0 60).

Definition proc1 : proc := proc0 <| p_state := RUNNING |> <| p_pid := 1 |>.

Definition bufs0 : list buf :=
  match @binit (St ∅ (sys0 ∅)) with Ok _ s => bufs (rest s) | _ => [] end.

(** Process 0, with pid 1, runs on disk [D]. *)
Definition machine (D : gmap Z (list Z)) : sys :=
  (sys0 D) <| procs := <[0%nat := proc1]> (replicate NPROC proc0) |> <| cur := Some 0%nat |>
           <| bufs := bufs0 |>.

Definition in_range (D : gmap Z (list Z)) : Prop := ∀ b, b ∈ dom D → 0 <= b < 2 ^ 31.

Lemma machine_thread D : in_range D → thread (machine D) 1.
Proof.
  split; [done|done|by vm_compute| | |done].
  - exists 0%nat, proc1. by split_and!.
  - intros i p [= <-] [= <-]. done.
Qed.

Lemma bufs0_ok D : bcache bufs0 D 1 ∅ ∅.
Proof.
  assert (wp binit (λ _ s, bcache (bufs (rest s)) D 1 ∅ ∅) (St ∅ (sys0 ∅))) as Hw.
  { apply (wp_binit 1); [apply length_replicate|by apply Forall_replicate|]. intros B' HB'.
    destruct HB' as [? ? Hb ? ? ?]. split; try done. intros i b Hi Hbi.
    destruct (Hb i b Hi Hbi) as [(? & _)|(? & ? & Hn)]; [done|]. right. split_and!; [done|done|].
    intros Hd. destruct (Hn Hd) as [? Hv]. split; [done|]. intros Hval. specialize (Hv Hval). done. }
  revert Hw. unfold bufs0, wp. generalize (binit (St ∅ (sys0 ∅))). by intros [].
Qed.

(** Buffer 0 holds block [bno] with data [d], referenced [c] times. *)
Definition cached0 (bno c : Z) (d : list Z) : list buf :=
  <[0%nat := (default buf0 (bufs0 !! 0%nat)) <| b_dev := ROOTDEV |> <| b_blockno := bno |>
     <| b_valid := true |> <| b_refcnt := c |> <| b_data := d |>]> bufs0.

Lemma bufs0_0 : ∃ b, bufs0 !! 0%nat = Some b ∧ b_lock b = SleepLock false 0.
Proof. eexists. split; vm_compute; reflexivity. Qed.

Lemma bufs0_blank i b : bufs0 !! i = Some b → b_dev b = 0.
Proof.
  assert (Forall (λ b, b_dev b = 0) bufs0) as Hf by (apply (bool_decide_unpack _); vm_compute; exact I).
  rewrite Forall_lookup in Hf. apply Hf.
Qed.

Lemma bufs0_3 : ∃ b, bufs0 !! 3%nat = Some b ∧ b_blockno b = 0.
Proof.
  assert (b_blockno <$> bufs0 !! 3%nat = Some 0) as Hb by (vm_compute; reflexivity).
  destruct (bufs0 !! 3%nat) as [b|]; [|done]. injection Hb as Hb. by exists b.
Qed.

#[global] Opaque bufs0.

Lemma cached0_ok D bno c d : 0 < c < 2 ^ 31 → bcache (cached0 bno c d) D 1 {[bno := (0%nat, c, d)]} ∅.
Proof.
  intros Hc. destruct bufs0_0 as (b & Hb & Hl). unfold cached0. rewrite Hb. change (default buf0 (Some b)) with b.
  rewrite <-insert_empty. apply (bcache_set (bufs0_ok D) 0%nat b); [unfold NBUF; lia|exact Hb|reflexivity..|exact Hc| |done| |].
  - unfold lock_ok. rewrite bool_decide_eq_false_2 by apply not_elem_of_empty. rsimpl. by rewrite Hl.
  - intros j bj _ _ Hj Hd. rewrite (bufs0_blank _ _ Hj) in Hd. discriminate Hd.
  - intros bno' c' d' Hr. by rewrite lookup_empty in Hr.
Qed.

Lemma disk0_range : in_range disk0.
Proof.
  intros b. unfold disk0. rewrite dom_list_to_map_L, elem_of_list_to_set, list_elem_of_fmap.
  intros ([? ?] & -> & (i & [= -> ->] & Hi)%list_elem_of_fmap). apply elem_of_seq in Hi. cbn [fst]. lia.
Qed.

Lemma disk0_lookup b : 0 <= b < 60 → disk0 !! b = Some zero_block.
Proof.
  intros Hb. unfold disk0. apply elem_of_list_to_map_1'.
  - intros y Hy. apply list_elem_of_fmap in Hy as (i & [= _ ->] & _). done.
  - apply list_elem_of_fmap. exists (Z.to_nat b). rewrite Z2Nat.id by lia. split; [done|]. apply elem_of_seq. lia.
Qed.
