(* ===== verification/BioThms.v ===== *)
(** * The buffer cache: theorems *)
From S2P Require Import Prelude.
From S2P Require Import Mem.
From S2P Require Import Params.
From S2P Require Import State.
From S2P Require Import Sched.
From S2P Require Import Bio.
From S2P Require Import Wp.
From S2P Require Import SchedSpec.
From S2P Require Import BioSpec.
From S2P Require Import BioRef.
From S2P Require Import Boot0.
#[local] Open Scope Z_scope.

Section bio.
Context `{Linker} `{Sched} `{BlockDevOk}.

(** C21. bread returns the contents of the block.  In a cache that satisfies its
    invariant, with a free buffer or the block already referenced, bread returns
    a valid buffer that holds the block's current contents (those in the cache
    when another user has modified it, otherwise those on the disk), locked by
    the caller; it is the only buffer for that block; nothing is written to the
    disk and the invariant holds with one more reference. *)
Theorem bread_correct bno d refs lk pid h r :
  thread r pid → bcache (bufs r) (disk r) pid refs lk → view refs (disk r) bno = Some d →
  bno ∉ lk → cnt refs bno + 1 < 2 ^ 31 → is_Some (refs !! bno) ∨ (size refs < NBUF)%nat →
  ∃ i b r', bread ROOTDEV bno (St h r) = Ok i (St h r') ∧
    bufs r' !! i = Some b ∧ b_data b = d ∧ b_blockno b = bno ∧ b_valid b = true ∧ b_lock b = SleepLock true pid ∧
    (∀ j bj, (j < NBUF)%nat → bufs r' !! j = Some bj → b_dev bj = ROOTDEV → b_blockno bj = bno → j = i) ∧
    disk r' = disk r ∧ dtrace r' = dtrace r ∧
    bcache (bufs r') (disk r') pid (ref refs bno i d) ({[bno]} ∪ lk).
Proof.
  intros Hth HB Hv Hlk Hc Hroom.
  assert (wp (bread ROOTDEV bno) (λ i s, mem s = h ∧ bstep [] r (rest s) ∧
    bcache (bufs (rest s)) (disk (rest s)) pid (ref refs bno i d) ({[bno]} ∪ lk)) (St h r)) as Hw
    by (by eapply wp_bread).
  apply wp_ok in Hw as (i & [h' r'] & Hrun & Hm & (_ & HD & HT) & HB'). simpl in *. subst h'.
  destruct (bc_get HB' _ _ _ _ (ref_lookup refs bno i d)) as (Hi & b & Hb & Hdev & Hn & Hva & _ & Hd & _ & Hl).
  exists i, b, r'. split_and!; try done.
  - eapply lock_ok_held; [|exact Hl]. apply elem_of_union_l. by apply elem_of_singleton.
  - intros j bj Hj Hbj Hdj Hnj. eapply (bc_uniq _ _ _ _ _ HB' j i); try done. congruence.
  - by rewrite HT, app_nil_r.
Qed.

(** brelse loses nothing.  Releasing a locked buffer that others still refer
    to, or whose block is on the disk, gives the reference back, keeps the
    invariant, and leaves the contents of every block as read through the cache
    unchanged. *)
Theorem brelse_correct bno i c d refs lk pid h r :
  thread r pid → bcache (bufs r) (disk r) pid refs lk → refs !! bno = Some (i, c, d) → bno ∈ lk →
  (c = 1 → disk r !! bno = Some d) →
  ∃ r', brelse i (St h r) = Ok tt (St h r') ∧ disk r' = disk r ∧ dtrace r' = dtrace r ∧
    cnt (unref refs bno) bno = c - 1 ∧ (∀ b, view (unref refs bno) (disk r') b = view refs (disk r) b) ∧
    bcache (bufs r') (disk r') pid (unref refs bno) (lk ∖ {[bno]}).
Proof.
  intros Hth HB Hr Hlk Hd.
  assert (wp (brelse i) (λ _ s, mem s = h ∧ bstep [] r (rest s) ∧
    bcache (bufs (rest s)) (disk (rest s)) pid (unref refs bno) (lk ∖ {[bno]})) (St h r)) as Hw
    by (by eapply wp_brelse).
  apply wp_ok in Hw as ([] & [h' r'] & Hrun & Hm & (_ & HD & HT) & HB'). simpl in *. subst h'.
  exists r'. split_and!; try done; [by rewrite HT, app_nil_r| |].
  - unfold cnt, unref. rewrite Hr. case_decide; [|by rewrite lookup_insert_eq]. rewrite lookup_delete_eq. lia.
  - intros b. rewrite HD. unfold view. destruct (decide (b = bno)) as [->|Hne]; [|by rewrite unref_lookup_ne].
    unfold unref. rewrite Hr. case_decide; [rewrite lookup_delete_eq; auto|by rewrite lookup_insert_eq].
Qed.
End bio.

Lemma bread_correct_witness :
  ∃ i b r', @bread quiet ideal_dev ROOTDEV 7 (St ∅ (machine disk0)) = Ok i (St ∅ r') ∧
    bufs r' !! i = Some b ∧ b_data b = zero_block.
Proof.
  destruct (@bread_correct quiet ideal_dev ideal_inv ideal_dev_ok 7 zero_block ∅ ∅ 1 ∅ (machine disk0))
    as (i & b & r' & Hrun & Hb & Hd & _).
  - apply machine_thread, disk0_range.
  - apply bufs0_ok.
  - change (view ∅ (disk (machine disk0)) 7) with (disk0 !! 7). apply disk0_lookup. lia.
  - apply not_elem_of_empty.
  - reflexivity.
  - right. rewrite map_size_empty. unfold NBUF. lia.
  - exists i, b, r'. split; [exact Hrun|]. split; [exact Hb|exact Hd].
Defined.

(** Buffer 0 locked by process 1. *)
Definition locked_machine : sys :=
  (machine disk0) <| bufs := <[0%nat := (default buf0 (cached0 7 1 zero_block !! 0%nat))
     <| b_lock := SleepLock true 1 |>]> (cached0 7 1 zero_block) |>.

Lemma locked_machine_ok :
  bcache (bufs locked_machine) disk0 1 {[7 := (0%nat, 1, zero_block)]} {[7]}.
Proof.
  pose proof (cached0_ok disk0 7 1 zero_block ltac:(lia)) as HB.
  destruct (bc_get HB _ _ _ _ (lookup_singleton_eq _ _)) as (_ & b & Hb & _ & Hn & _ & Hc & Hd & _ & _).
  change (bufs locked_machine) with (<[0%nat := (default buf0 (cached0 7 1 zero_block !! 0%nat))
     <| b_lock := SleepLock true 1 |>]> (cached0 7 1 zero_block)). rewrite Hb. change (default buf0 (Some b)) with b.
  rewrite <-insert_empty, <-(insert_insert_eq _ _ _ (0%nat, 1, zero_block)), insert_empty.
  eapply (bcache_upd _ _ _ _ _ 7 0%nat 1 zero_block b); [exact HB|apply lookup_singleton_eq|exact Hb|reflexivity..|exact Hc|exact Hd|lia| |].
  - unfold lock_ok. rewrite bool_decide_eq_true_2 by (by apply elem_of_singleton). done.
  - intros b' Hne. rewrite elem_of_singleton. split; intros E; exfalso; [exact (Hne E)|exact (not_elem_of_empty _ E)].
Qed.

Lemma brelse_correct_witness :
  ∃ r', brelse 0 (St ∅ locked_machine) = Ok tt (St ∅ r') ∧ bcache (bufs r') (disk r') 1 ∅ ∅.
Proof.
  destruct (brelse_correct 7 0 1 zero_block {[7 := (0%nat, 1, zero_block)]} {[7]} 1 ∅ locked_machine)
    as (r' & Hrun & _ & _ & _ & _ & HB).
  - apply thread_bufs, machine_thread, disk0_range.
  - apply locked_machine_ok.
  - apply lookup_singleton_eq.
  - by apply elem_of_singleton.
  - intros _. change (disk locked_machine) with disk0. apply disk0_lookup. lia.
  - exists r'. split; [exact Hrun|]. rewrite <-insert_empty, unref_last in HB by apply lookup_empty.
    rewrite difference_diag_L in HB. exact HB.
Defined.
