(* ===== verification/LogThms.v ===== *)
(** * The log: theorems

    Crash safety of commit, durability of end_op, the reservation of begin_op,
    absorption in log_write, and what happens when the log is as large as the
    cache. *)
From S2P Require Import Prelude.
From S2P Require Import Mem.
From S2P Require Import Params.
From S2P Require Import State.
From S2P Require Import Sched.
From S2P Require Import Bio.
From S2P Require Import Log.
From S2P Require Import Wp.
From S2P Require Import SchedSpec.
From S2P Require Import BioSpec.
From S2P Require Import BioRef.
From S2P Require Import LogSpec.
From S2P Require Import LogRecover.
From S2P Require Import Boot0.
#[local] Open Scope Z_scope.

(** ** Crashes of the write-ahead log

    A crash keeps a prefix of the writes made to the disk.  [recovers L D X]:
    recovery of disk [D] gives the blocks outside the log region the contents
    they have in [X].  Every prefix of the writes of commit recovers to the old or
    to the new state, and a recovery that is itself cut short recovers to the
    same. *)

Definition same_home (L : Z) (D X : gmap Z (list Z)) : Prop :=
  ∀ b, ¬ (L <= b <= L + LOGBLOCKS) → D !! b = X !! b.

Definition recovers (L : Z) (D X : gmap Z (list Z)) : Prop :=
  ∃ bs ds d0, log_disk L D bs ds d0 ∧ same_home L (apply_writes (zip bs ds) D) X.

(** The header and the slots determine the transaction. *)
Lemma log_disk_fun L D bs ds d0 bs' ds' d0' :
  log_disk L D bs ds d0 → log_disk L D bs' ds' d0' → bs = bs' ∧ ds = ds' ∧ d0 = d0'.
Proof.
  intros [_ H1 _ H2 _ H3 H4 H5 _ _ _] [_ H1' _ H2' _ H3' H4' H5' _ _ _].
  assert (d0 = d0') as <- by congruence. assert (length bs = length bs') as Hl by lia.
  split_and!; [| |done].
  - apply list_eq_same_length with (length bs); [done|done|]. intros k x y _ Hx Hy.
    rewrite <-(H3 _ _ Hx), <-(H3' _ _ Hy). done.
  - apply list_eq_same_length with (length ds); [lia|done|]. intros k x y _ Hx Hy.
    pose proof (H5 _ _ Hx). pose proof (H5' _ _ Hy). congruence.
Qed.

Lemma zip_writes_eq bs ds D D' b :
  NoDup bs → length bs = length ds → (b ∉ bs → D !! b = D' !! b) →
  apply_writes (zip bs ds) D !! b = apply_writes (zip bs ds) D' !! b.
Proof.
  intros Hnd Hl Hb. destruct (decide (b ∈ bs)) as [Hin|Hin].
  - apply list_elem_of_lookup in Hin as (k & Hk). destruct (lookup_lt_is_Some_2 ds k) as [d Hd].
    { rewrite <-Hl. by eapply lookup_lt_Some. }
    by rewrite !(apply_writes_zip _ _ _ k b d).
  - rewrite !apply_writes_notin by (rewrite fst_zip; [done|lia]). auto.
Qed.

(** Installing a part first does not matter. *)
Lemma zip_writes_prefix bs ds D j b :
  NoDup bs → length bs = length ds →
  apply_writes (zip bs ds) (apply_writes (zip (take j bs) (take j ds)) D) !! b = apply_writes (zip bs ds) D !! b.
Proof.
  intros Hnd Hl. apply zip_writes_eq; [done|done|]. intros Hb. apply apply_writes_notin.
  rewrite fst_zip by (rewrite !length_take; lia). intros Hin. apply Hb.
  eapply elem_of_subseteq; [apply subseteq_take|exact Hin].
Qed.

Lemma take_zip (bs : list Z) (ds : list (list Z)) j : take j (zip bs ds) = zip (take j bs) (take j ds).
Proof. revert bs ds; induction j as [|j IH]; intros [|b bs] [|d ds]; simpl; try done. by rewrite IH. Qed.

Lemma take_log_writes L ds j : take j (log_writes L ds) = log_writes L (take j ds).
Proof.
  apply list_eq. intros i. unfold log_writes. destruct (decide (i < j)%nat).
  - by rewrite lookup_take_lt, !list_lookup_imap, lookup_take_lt.
  - rewrite lookup_take_ge, list_lookup_imap, lookup_take_ge by lia. done.
Qed.

(** Clearing the header. *)
Lemma log_disk_clear L D bs ds d0 :
  log_disk L D bs ds d0 → log_disk L (<[L := hdr [] d0]> D) [] [] (hdr [] d0).
Proof.
  intros [HL Hh Hs Hn Hm Hb Hl Hsl Hss Hho Hnd]. split; try done.
  - apply lookup_insert_eq.
  - by rewrite hdr_length by (simpl; unfold NLOG, LOGBLOCKS, MAXOPBLOCKS; lia || done).
  - simpl. lia.
  - intros k Hk. rewrite lookup_insert_is_Some'. right. by apply Hss.
  - intros b Hb'. by apply elem_of_nil in Hb'.
  - constructor.
Qed.

Lemma home_ne L b : ¬ (L <= b <= L + LOGBLOCKS) → L ≠ b.
Proof. unfold LOGBLOCKS, MAXOPBLOCKS. lia. Qed.

(** ** A crash during recovery *)
Lemma crash_recover L D X bs ds d0 k :
  recovers L D X → log_disk L D bs ds d0 →
  recovers L (apply_writes (take k (recover_writes L bs ds d0)) D) X.
Proof.
  intros (bs' & ds' & d0' & Hll' & Hsame) Hll. destruct (log_disk_fun _ _ _ _ _ _ _ _ Hll' Hll) as (-> & -> & ->).
  pose proof (ll_len _ _ _ _ _ Hll) as Hl. pose proof (ll_nodup _ _ _ _ _ Hll) as Hnd.
  unfold recover_writes. destruct (decide (k <= length (zip bs ds))%nat) as [Hk|Hk].
  - rewrite take_app_le, take_zip by done. exists bs, ds, d0. split; [by apply log_disk_zip|].
    intros b Hb. rewrite zip_writes_prefix by done. by apply Hsame.
  - rewrite take_ge by (rewrite length_app; simpl; lia). rewrite apply_writes_app. simpl.
    exists [], [], (hdr [] d0). split.
    + eapply log_disk_clear. pose proof (log_disk_zip _ _ _ _ _ (length bs) Hll) as E.
      by rewrite (take_ge ds), take_ge in E by lia.
    + intros b Hb. simpl. rewrite lookup_insert_ne by (by apply home_ne). by apply Hsame.
Qed.

Lemma log_writes_home L D tr b : ¬ (L <= b <= L + LOGBLOCKS) → (length tr <= NLOG)%nat →
  apply_writes (log_writes L tr) D !! b = D !! b.
Proof.
  intros Hb Ht. apply apply_writes_notin. intros (k & Hk & ->)%log_writes_fst. apply Hb.
  pose proof (slot_region L k). lia.
Qed.

Lemma log_writes_L L D tr : apply_writes (log_writes L tr) D !! L = D !! L.
Proof. apply apply_writes_notin. intros (k & _ & E)%log_writes_fst. unfold slot in E. lia. Qed.

(** ** A crash during commit *)
Section commit.
Context (L : Z) (D : gmap Z (list Z)) (bs : list Z) (ds : list (list Z)) (d0 : list Z).
Context (Hclean : log_disk L D [] [] d0).
Context (Hmax : (length bs <= NLOG)%nat) (Hlen : length bs = length ds) (Hnd : NoDup bs).
Context (Hhome : ∀ b, b ∈ bs → blockno_ok b ∧ ¬ (L <= b <= L + LOGBLOCKS) ∧ is_Some (D !! b)).

(** The writes to the slots leave the clean log clean. *)
Lemma clean_log_writes tr : log_disk L (apply_writes (log_writes L tr) D) [] [] d0.
Proof.
  destruct Hclean as [? Hh ? ? ? ? ? ? Hss ? ?]. split; try done.
  - by rewrite log_writes_L.
  - intros k Hk. by apply apply_writes_is_Some, Hss.
  - intros b Hb. by apply elem_of_nil in Hb.
Qed.

(** Once the header is written the log holds the transaction. *)
Lemma committed_log :
  log_disk L (<[L := hdr bs d0]> (apply_writes (log_writes L ds) D)) bs ds (hdr bs d0).
Proof.
  destruct Hclean as [? Hh Hs ? ? ? ? ? Hss ? ?]. split; try done.
  - apply lookup_insert_eq.
  - by rewrite hdr_length.
  - by apply hdr_get_n.
  - intros k b Hb. apply hdr_get_block; try done. apply Forall_forall. intros x Hx. by apply Hhome.
  - intros k d Hd. rewrite lookup_insert_ne by (unfold slot; lia). by apply log_writes_slot.
  - intros k Hk. rewrite lookup_insert_is_Some'. right. by apply apply_writes_is_Some, Hss.
  - intros b Hb. destruct (Hhome b Hb) as (? & ? & ?). split_and!; try done.
    rewrite lookup_insert_is_Some'. right. by apply apply_writes_is_Some.
Qed.

Lemma crash_commit k :
  recovers L (apply_writes (take k (commit_writes L bs ds d0)) D)
    (if decide (k <= length bs)%nat then D else apply_writes (zip bs ds) D).
Proof.
  assert (length (log_writes L ds) = length bs) as HlW by (unfold log_writes; by rewrite length_imap).
  assert (length (zip bs ds) = length bs) as HlZ by (rewrite length_zip_with; lia).
  assert (∀ b, ¬ (L <= b <= L + LOGBLOCKS) →
    apply_writes (zip bs ds) (<[L := hdr bs d0]> (apply_writes (log_writes L ds) D)) !! b =
    apply_writes (zip bs ds) D !! b) as Hnew.
  { intros b Hb. apply zip_writes_eq; [done|done|]. intros _.
    rewrite lookup_insert_ne by (by apply home_ne). apply log_writes_home; [done|lia]. }
  unfold commit_writes. case_decide as Hk.
  - rewrite take_app_le, take_log_writes by lia. exists [], [], d0. split; [apply clean_log_writes|].
    intros b Hb. simpl. apply log_writes_home; [done|]. rewrite length_take. lia.
  - destruct (decide (k <= S (length bs + length bs))%nat) as [Hk2|Hk2].
    + rewrite take_app_ge, apply_writes_app by lia. destruct (k - length (log_writes L ds))%nat as [|j] eqn:Ej; [lia|].
      simpl. rewrite take_app_le, take_zip by lia. exists bs, ds, (hdr bs d0).
      split; [apply log_disk_zip, committed_log|]. intros b Hb. rewrite zip_writes_prefix by done. by apply Hnew.
    + rewrite take_ge by (rewrite !length_app; cbn [length]; lia).
      rewrite !apply_writes_app. exists [], [], (hdr [] (hdr bs d0)). split.
      * simpl. eapply log_disk_clear. pose proof (log_disk_zip _ _ _ _ _ (length bs) committed_log) as E.
        by rewrite (take_ge ds), take_ge in E by lia.
      * intros b Hb. simpl. rewrite lookup_insert_ne by (by apply home_ne). by apply Hnew.
Qed.
End commit.

(** ** Specification of begin_op, log_write and end_op *)

(** log_find returns the first index of the block, or the length. *)
Lemma log_find_notin bs b : b ∉ bs → log_find bs b = length bs.
Proof.
  induction bs as [|a bs IH]; intros Hb; simpl; [done|].
  rewrite bool_decide_eq_false_2 by set_solver. f_equal. apply IH. set_solver.
Qed.

Lemma log_find_in bs b : b ∈ bs → bs !! log_find bs b = Some b.
Proof.
  induction bs as [|a bs IH]; intros Hb; simpl; [by apply elem_of_nil in Hb|].
  case_bool_decide as Ha; simpl; [by subst|]. apply IH. set_solver.
Qed.

Section ops.
Context `{Linker} `{Sched} `{BlockDevOk}.

Lemma lg_id (r : sys) : r <| lg := lg r |> = r.
Proof. by destruct r. Qed.

(** A block that is in the log already is absorbed. *)
Lemma wp_log_write_absorb bno i c d L bs refs lk pid (Q : unit → st sys → Prop) h r :
  thread r pid → bcache (bufs r) (disk r) pid refs lk → log_mem (lg r) L bs →
  refs !! bno = Some (i, c, d) → blockno_ok bno → (length bs < NLOG)%nat → 1 <= lg_outstanding (lg r) →
  bno ∈ bs → Q tt (St h r) → wp (log_write i) Q (St h r).
Proof.
  intros Hth HB Hm Hr Hb Hn Ho Hin HQ. pose proof (th_held _ _ Hth) as Hheld.
  apply wp_bind, wp_acquire; [rewrite Hheld; apply not_elem_of_nil|]. apply wp_bind, wp_rd. rsimpl.
  rewrite (lm_n _ _ _ Hm), bool_decide_eq_false_2 by (unfold NLOG in Hn; lia). rewrite bool_decide_eq_false_2 by lia.
  apply wp_bind. eapply wp_buf_read; [exact HB|exact Hr|]. intros b _ Hbn. cbv zeta.
  rewrite Hbn, sN_small by (unfold blockno_ok in Hb; lia). rewrite Nat2Z.id, (lm_blocks _ _ _ Hm).
  pose proof (log_find_in bs bno Hin) as Hf. pose proof (lookup_lt_Some _ _ _ Hf) as Hlt.
  apply wp_bind, wp_lh_block_set; [rsimpl; rewrite (lm_len _ _ _ Hm); lia|]. rsimpl.
  rewrite list_insert_id by (by eapply lm_lookup).
  apply wp_bind. rewrite bool_decide_eq_false_2 by lia. apply wp_ret. eapply wp_release; [done|].
  match goal with |- Q tt (St h ?x) => replace x with r by (by destruct r as [? ? ? ? ? ? ? ? ? ? ? []]) end. done.
Qed.

(** A new block is appended and pinned. *)
Lemma wp_log_write_append bno i c d L bs refs lk pid (Q : unit → st sys → Prop) h r :
  thread r pid → bcache (bufs r) (disk r) pid refs lk → log_mem (lg r) L bs →
  refs !! bno = Some (i, c, d) → blockno_ok bno → (length bs < NLOG)%nat → 1 <= lg_outstanding (lg r) →
  bno ∉ bs → c + 1 < 2 ^ 31 →
  (∀ B' l', bcache B' (disk r) pid (<[bno := (i, c + 1, d)]> refs) lk → log_mem l' L (bs ++ [bno]) →
     lg_outstanding l' = lg_outstanding (lg r) → lg_committing l' = lg_committing (lg r) →
     Q tt (St h (r <| bufs := B' |> <| lg := l' |>))) →
  wp (log_write i) Q (St h r).
Proof.
  intros Hth HB Hm Hr Hb Hn Ho Hin Hc HQ. pose proof (th_held _ _ Hth) as Hheld.
  apply wp_bind, wp_acquire; [rewrite Hheld; apply not_elem_of_nil|]. apply wp_bind, wp_rd. rsimpl.
  rewrite (lm_n _ _ _ Hm), bool_decide_eq_false_2 by (unfold NLOG in Hn; lia). rewrite bool_decide_eq_false_2 by lia.
  apply wp_bind. eapply wp_buf_read; [exact HB|exact Hr|]. intros b _ Hbn. cbv zeta.
  rewrite Hbn, sN_small by (unfold blockno_ok in Hb; lia). rewrite Nat2Z.id, (lm_blocks _ _ _ Hm).
  rewrite log_find_notin by done.
  apply wp_bind, wp_lh_block_set; [rsimpl; rewrite (lm_len _ _ _ Hm); lia|]. rsimpl.
  apply wp_bind. rewrite bool_decide_eq_true_2 by done. apply wp_bind. eapply wp_bpin; [|exact HB|exact Hr|done|].
  { rsimpl. rewrite Hheld. by intros ?%list_elem_of_singleton. }
  intros B' HB'. apply wp_upd. eapply wp_release; [done|].
  match goal with |- Q tt (St h ?x) => replace x with (r <| bufs := B' |> <| lg := (lg r)
    <| lh_block := <[length bs := bno]> (lh_block (lg r)) |> <| lh_n := lh_n (lg r) + 1 |> |>) by (by destruct r) end.
  apply HQ; [done| |done|done]. destruct Hm as [Hd Hs Hnn Hl Hbs]. split; rsimpl; try done.
  - rewrite Hnn, length_app. simpl. lia.
  - by rewrite length_insert.
  - rewrite length_app. simpl. rewrite Nat.add_1_r, (take_S_r _ _ bno) by (rewrite list_lookup_insert_eq; [done|lia]).
    by rewrite take_insert_ge, Hbs by lia.
Qed.

(** ** begin_op *)
Lemma wp_begin_op (Q : unit → st sys → Prop) h r :
  Llog ∉ held r → lg_committing (lg r) = false →
  lh_n (lg r) + (lg_outstanding (lg r) + 1) * MAXOPBLOCKS <= LOGBLOCKS →
  Q tt (St h (r <| lg := (lg r) <| lg_outstanding := lg_outstanding (lg r) + 1 |> |>)) →
  wp begin_op Q (St h r).
Proof.
  intros Hh Hc Hn HQ. apply wp_bind, wp_acquire; [done|]. simpl. apply wp_bind, wp_rd. rsimpl.
  rewrite Hc, bool_decide_eq_false_2 by lia. apply wp_bind, wp_upd. eapply wp_release; [done|]. by destruct r.
Qed.

(** However often it slept: when begin_op returns no commit is under way and the
    log has room for MAXOPBLOCKS blocks of every operation. *)
Lemma begin_op_loop_post fuel s s' :
  begin_op_loop fuel s = Ok tt s' →
  lg_committing (lg (rest s')) = false ∧
  lh_n (lg (rest s')) + lg_outstanding (lg (rest s')) * MAXOPBLOCKS <= LOGBLOCKS.
Proof.
  revert s; induction fuel as [|fuel IH]; intros [h r] Hrun; [done|]. simpl in Hrun.
  apply bind_ok in Hrun as (l & s1 & [= <- <-] & Hrun). destruct (lg_committing (lg r)) eqn:Hc.
  { apply bind_ok in Hrun as ([] & s2 & _ & Hrun). by eapply IH. }
  case_bool_decide as Hn.
  { apply bind_ok in Hrun as ([] & s2 & _ & Hrun). by eapply IH. }
  apply bind_ok in Hrun as ([] & s2 & [= <-] & Hrun). apply bind_ok in Hrun as (hl & s3 & [= <- <-] & Hrun).
  destruct (decide _); [|done]. injection Hrun as <-. simpl. split; [done|]. simpl in Hn. lia.
Qed.

(** ** end_op of the last operation *)
Lemma wp_end_op_last L bs ds d0 refs lk pid (Q : unit → st sys → Prop) h r :
  thread r pid → bcache (bufs r) (disk r) pid refs lk → log_mem (lg r) L bs →
  log_region L (disk r) refs lk → logged L (disk r) refs lk bs ds → (size refs < NBUF)%nat →
  disk r !! L = Some d0 → (0 < length bs)%nat → lg_outstanding (lg r) = 1 → lg_committing (lg r) = false →
  (∀ r' l', bstep (commit_writes L bs ds d0) (r <| lg := l' |>) r' → log_mem l' L [] →
     lg_outstanding l' = 0 → lg_committing l' = false →
     bcache (bufs r') (disk r') pid (unref_all refs bs) lk → Q tt (St h r')) →
  wp end_op Q (St h r).
Proof.
  intros Hth HB Hm Hreg Hld Hsz Hd0 Hn Ho Hcm HQ. pose proof (th_held _ _ Hth) as Hheld.
  apply wp_bind, wp_acquire; [rewrite Hheld; apply not_elem_of_nil|]. apply wp_bind, wp_upd, wp_bind, wp_rd.
  rsimpl. rewrite Hcm, Ho, bool_decide_eq_true_2 by done. apply wp_bind, wp_upd. apply wp_bind.
  eapply wp_release; [done|]. rewrite Hheld.
  set (l1 := (lg r) <| lg_outstanding := 0 |> <| lg_committing := true |>).
  match goal with |- wp _ _ (St h ?x) => replace x with (r <| lg := l1 |>)
    by (subst l1; destruct r as [? ? ? ? ? ? ? ? ? ? ? []]; simpl in *; by subst) end.
  apply wp_bind. eapply (wp_commit L bs ds d0 refs lk pid); try done.
  { by apply thread_lg. } { subst l1. destruct Hm. by split. }
  intros r' Hs HB'. change (r <| lg := l1 |> <| lg ::= ?f |>) with (r <| lg := l1 |> <| lg := f l1 |>) in Hs.
  apply bstep_lg_twice in Hs. pose proof (bstep_lg _ _ _ Hs) as Hlg. rsimpl in Hlg.
  assert (thread r' pid) as Hth' by (eapply thread_bstep; [|exact Hs]; by apply thread_lg).
  apply wp_bind, wp_acquire; [rewrite (th_held _ _ Hth'); apply not_elem_of_nil|]. apply wp_bind, wp_upd.
  apply wp_bind, wp_wakeup.
  { rsimpl. rewrite (th_held _ _ Hth'). intros j. by intros ?%list_elem_of_singleton. } { apply (th_len _ _ Hth'). }
  eapply wp_release; [done|]. rsimpl.
  set (l2 := l1 <| lh_n := 0 |> <| lg_committing := false |>).
  apply (HQ _ l2); [|subst l2 l1; destruct Hm; by split|done|done|exact HB'].
  apply (bstep_lg_irrel _ _ _ _ l2) in Hs. eapply bstep_nil_r; [exact Hs|].
  split_and!; [|done|by rewrite app_nil_r]. split; try reflexivity; rsimpl.
  - exact id.
  - apply wake_woken.
  - rewrite Hlg. done.
Qed.
End ops.

(** ** Rebooting *)

(** The state in which fsinit calls initlog: an empty cache, the superblock read. *)
Record booting `{DevInv} (r : sys) (L pid : Z) : Prop := {
  bo_thread : thread r pid;
  bo_cache : bcache (bufs r) (disk r) pid ∅ ∅;
  bo_sb : sb_logstart (sb r) = L;
  bo_log : length (lh_block (lg r)) = NLOG
}.

Section log.
Context `{Linker} `{Sched} `{BlockDevOk}.

(** [reboots L D D']: starting with disk [D], some number of reboots, each of
    which crashed during recovery, left the disk [D']. *)
Inductive reboots (L : Z) (D : gmap Z (list Z)) : gmap Z (list Z) → Prop :=
| reboots_none : reboots L D D
| reboots_crash D1 h r h' r' pid k :
    reboots L D D1 → booting r L pid → disk r = D1 → dtrace r = [] →
    initlog ROOTDEV (St h r) = Ok tt (St h' r') →
    reboots L D (apply_writes (take k (dtrace r')) D1).

Lemma reboots_recovers L D X D' : recovers L D X → reboots L D D' → recovers L D' X.
Proof.
  intros HX. induction 1 as [|D1 h r h' r' pid k _ IH Hb HD HT Hrun]; [done|].
  destruct IH as (bs & ds & d0 & Hll & Hs). destruct Hb as [Hth HB Hsb Hlb].
  assert (wp (initlog ROOTDEV) (λ _ s, dtrace (rest s) = recover_writes L bs ds d0) (St h r)) as Hw.
  { eapply (wp_initlog L bs ds d0); try done; [by rewrite HD|]. intros l2 r2 _ _ _ (_ & _ & HT2) _. simpl.
    rewrite HT2. rsimpl. by rewrite HT. }
  unfold wp in Hw. rewrite Hrun in Hw. simpl in Hw. rewrite Hw. eapply crash_recover; [|done].
  by exists bs, ds, d0.
Qed.

(** Recovery of a disk gives what it recovers to. *)
Lemma initlog_recovers L X r pid h :
  booting r L pid → recovers L (disk r) X →
  ∃ r', initlog ROOTDEV (St h r) = Ok tt (St h r') ∧ lh_n (lg r') = 0 ∧ same_home L (disk r') X.
Proof.
  intros [Hth HB Hsb Hlb] (bs & ds & d0 & Hll & Hs).
  assert (wp (initlog ROOTDEV) (λ _ s, mem s = h ∧ lh_n (lg (rest s)) = 0 ∧ same_home L (disk (rest s)) X) (St h r)) as Hw.
  { eapply (wp_initlog L bs ds d0); try done. intros l2 r2 Hm _ _ Hs2 _. simpl. split; [done|]. split.
    - rewrite (bstep_lg _ _ _ Hs2). rsimpl. apply (lm_n _ _ _ Hm).
    - destruct Hs2 as (_ & -> & _). intros b Hb. unfold recover_writes. rewrite apply_writes_app. simpl.
      rewrite lookup_insert_ne by (by apply home_ne). by apply Hs. }
  apply wp_ok in Hw as ([] & [h' r'] & Hrun & Hm & Hn & Hh). simpl in *. subst. by exists r'.
Qed.

Lemma clean_disk L D refs lk d0 : log_region L D refs lk → D !! L = Some d0 → lh_get_n d0 = 0 → log_disk L D [] [] d0.
Proof.
  intros [HL (d & Hd & Hl) Hs _] Hd0 Hn. assert (d = d0) as -> by congruence.
  split; try done; [simpl; lia| |constructor]. intros b Hb. by apply elem_of_nil in Hb.
Qed.

(** ** A cache in which every buffer is referenced *)
Lemma bcache_full B D pid refs lk i b :
  bcache B D pid refs lk → size refs = NBUF → (i < NBUF)%nat → B !! i = Some b →
  b_refcnt b ≠ 0 ∧ is_Some (refs !! b_blockno b).
Proof.
  intros HB Hsz Hi Hb. set (X := list_to_set ((λ kv : Z * (nat * Z * list Z), kv.2.1.1) <$> map_to_list refs) : gset nat).
  assert (∀ j, j ∈ X ↔ ∃ bno c d, refs !! bno = Some (j, c, d)) as HX.
  { intros j. subst X. rewrite elem_of_list_to_set, list_elem_of_fmap. split.
    - intros ([bno [[j' c] d]] & -> & Hin%elem_of_map_to_list). by exists bno, c, d.
    - intros (bno & c & d & Hr). exists (bno, (j, c, d)). split; [done|]. by apply elem_of_map_to_list. }
  assert (X = set_seq 0 NBUF) as HXe.
  { apply leibniz_equiv, set_subseteq_size_equiv.
    - intros j (bno & c & d & Hr)%HX. apply elem_of_set_seq. destruct (bc_refs _ _ _ _ _ HB _ _ _ _ Hr) as [? _]. lia.
    - rewrite size_set_seq. subst X. rewrite size_list_to_set, length_fmap, length_map_to_list; [lia|].
      apply NoDup_fmap_2_strong; [|apply NoDup_map_to_list].
      intros [b1 [[j1 c1] d1]] [b2 [[j2 c2] d2]] R1%elem_of_map_to_list R2%elem_of_map_to_list Hj. simpl in Hj. subst j2.
      destruct (bc_refs _ _ _ _ _ HB _ _ _ _ R1) as (_ & x & Hx & _ & E1).
      destruct (bc_refs _ _ _ _ _ HB _ _ _ _ R2) as (_ & y & Hy & _ & E2).
      assert (b1 = b2) as -> by congruence. congruence. }
  assert (i ∈ X) as (bno & c & d & Hr)%HX by (rewrite HXe; apply elem_of_set_seq; lia).
  destruct (bc_get HB _ _ _ _ Hr) as (_ & b' & Hb' & _ & Hn & _ & Hc & _ & Hpos & _).
  rewrite Hb in Hb'. injection Hb' as <-. split; [lia|]. by rewrite Hn, Hr.
Qed.

Lemma bread_full bno refs lk pid h r :
  thread r pid → bcache (bufs r) (disk r) pid refs lk → size refs = NBUF → refs !! bno = None →
  bread ROOTDEV bno (St h r) = Panic "bget: no buffers".
Proof.
  intros Hth HB Hsz Hr. destruct (bc_lru _ _ _ _ _ HB) as (l & Hperm & Hseg).
  destruct (bcache_head _ _ _ _ _ HB) as [hd Hhd]. pose proof (th_held _ _ Hth) as Hheld.
  set (r1 := r <| held := Lbcache :: held r |>).
  assert (bget_cached (S NBUF) (b_next hd) ROOTDEV bno (St h r1) = Ok None (St h r1)) as Hc.
  { eassert (wp (bget_cached (S NBUF) (nxf (bufs r1) HEAD) ROOTDEV bno) (λ o s, o = None ∧ s = St h r1) (St h r1)) as Hw.
    { eapply wp_bget_cached; [exact Hseg|rewrite (lru_length l Hperm); lia| |apply (bc_len _ _ _ _ _ HB)| |done].
      - intros j. by apply lru_lt.
      - intros i b Hi Hb _ Hn. subst r1. rsimpl in Hb.
        destruct (bcache_full _ _ _ _ _ _ _ HB Hsz (lru_lt _ _ Hperm Hi) Hb) as [_ [? ?]]. congruence. }
    apply wp_ok in Hw as (o & s & Hrun & -> & ->). rewrite <-Hrun. f_equal. unfold nxf. subst r1. rsimpl. by rewrite Hhd. }
  assert (bget_lru (S NBUF) (b_prev hd) (St h r1) = Ok None (St h r1)) as Hl.
  { eassert (wp (bget_lru (S NBUF) (pvf (bufs r1) HEAD)) (λ o s, o = None ∧ s = St h r1) (St h r1)) as Hw.
    { eapply wp_bget_lru; [exact Hseg|rewrite (lru_length l Hperm); lia| |apply (bc_len _ _ _ _ _ HB)| |done].
      - intros j. by apply lru_lt.
      - intros i b Hi Hb Hn. subst r1. rsimpl in Hb.
        by destruct (bcache_full _ _ _ _ _ _ _ HB Hsz (lru_lt _ _ Hperm Hi) Hb) as [? _]. }
    apply wp_ok in Hw as (o & s & Hrun & -> & ->). rewrite <-Hrun. f_equal. unfold pvf. subst r1. rsimpl. by rewrite Hhd. }
  assert (acquire Lbcache (St h r) = Ok tt (St h r1)) as Ha.
  { assert (wp (acquire Lbcache) (λ _ s, s = St h r1) (St h r)) as Hw
      by (apply wp_acquire; [rewrite Hheld; apply not_elem_of_nil|done]).
    by apply wp_ok in Hw as ([] & s & Hrun & ->). }
  assert (buf_get HEAD (St h r1) = Ok hd (St h r1)) as Hg.
  { assert (wp (buf_get HEAD) (λ b s, b = hd ∧ s = St h r1) (St h r1)) as Hw by (by eapply wp_buf_get).
    by apply wp_ok in Hw as (b & s & Hrun & -> & ->). }
  unfold bread, bget, mbind, M_bind. rewrite Ha, Hg, Hc, Hl. done.
Qed.

(** C1. Crash safety of commit.  commit returns, having written some sequence
    [tr] of blocks.  Suppose the machine stops after any number [k] of these
    writes, and then any number of reboots stop during recovery.  Then the next
    recovery returns, with an empty log, and every block outside the log region
    has its old contents when [k] is at most the number of logged blocks, and
    otherwise the new contents of the whole transaction. *)
Theorem commit_crash_safe L bs ds d0 refs lk pid h r :
  thread r pid → bcache (bufs r) (disk r) pid refs lk → log_mem (lg r) L bs →
  log_region L (disk r) refs lk → logged L (disk r) refs lk bs ds → (size refs < NBUF)%nat →
  disk r !! L = Some d0 → lh_get_n d0 = 0 → (0 < length bs)%nat →
  ∃ r' tr, commit (St h r) = Ok tt (St h r') ∧ dtrace r' = dtrace r ++ tr ∧ disk r' = apply_writes tr (disk r) ∧
    ∀ k D' hb rb pidb, reboots L (apply_writes (take k tr) (disk r)) D' → booting rb L pidb → disk rb = D' →
      ∃ rb', initlog ROOTDEV (St hb rb) = Ok tt (St hb rb') ∧ lh_n (lg rb') = 0 ∧
        same_home L (disk rb') (if decide (k <= length bs)%nat then disk r else apply_writes (zip bs ds) (disk r)).
Proof.
  intros Hth HB Hm Hreg Hld Hsz Hd0 Hclean Hn.
  assert (wp commit (λ _ s, mem s = h ∧ bstep (commit_writes L bs ds d0)
    (r <| lg ::= set_field lh_n (λ _, 0) |>) (rest s)) (St h r)) as Hw by (by eapply wp_commit).
  apply wp_ok in Hw as ([] & [h' r'] & Hrun & Hmem & (_ & HD & HT)). simpl in *. subst h'.
  exists r', (commit_writes L bs ds d0). split_and!; [done|done|done|].
  intros k D' hb rb pidb Hre Hbo Hdb. apply (initlog_recovers _ _ _ pidb); [done|]. rewrite Hdb.
  eapply reboots_recovers; [|exact Hre]. apply crash_commit.
  - by eapply clean_disk.
  - by eapply lm_bound.
  - apply (ld_len _ _ _ _ _ _ Hld).
  - apply (ld_nodup _ _ _ _ _ _ Hld).
  - intros b (j & Hj)%list_elem_of_lookup. destruct (lookup_lt_is_Some_2 ds j) as [d Hd].
    { rewrite <-(ld_len _ _ _ _ _ _ Hld). by eapply lookup_lt_Some. }
    by destruct (ld_pinned _ _ _ _ _ _ Hld j b d Hj Hd) as (? & ? & _ & ? & _).
Qed.

(** C12. The operation that brings the number of outstanding operations to 0
    commits: when its end_op returns, every logged block is on the disk at its
    home with the contents it had in the cache, all other blocks outside the log
    are as before, the log is empty and open for new operations, and the blocks
    have lost their pins. *)
Theorem end_op_durable L bs ds d0 refs lk pid h r :
  thread r pid → bcache (bufs r) (disk r) pid refs lk → log_mem (lg r) L bs →
  log_region L (disk r) refs lk → logged L (disk r) refs lk bs ds → (size refs < NBUF)%nat →
  disk r !! L = Some d0 → (0 < length bs)%nat → lg_outstanding (lg r) = 1 → lg_committing (lg r) = false →
  ∃ r', end_op (St h r) = Ok tt (St h r') ∧
    (∀ k b d, bs !! k = Some b → ds !! k = Some d → disk r' !! b = Some d) ∧
    (∀ b, b ∉ bs → ¬ (L <= b <= L + LOGBLOCKS) → disk r' !! b = disk r !! b) ∧
    log_mem (lg r') L [] ∧ lg_outstanding (lg r') = 0 ∧ lg_committing (lg r') = false ∧
    bcache (bufs r') (disk r') pid (unref_all refs bs) lk.
Proof.
  intros Hth HB Hm Hreg Hld Hsz Hd0 Hn Ho Hc. pose proof (ld_len _ _ _ _ _ _ Hld) as Hlen.
  eassert (wp end_op (λ _ s, mem s = h ∧ ∃ l', bstep (commit_writes L bs ds d0) (r <| lg := l' |>) (rest s) ∧
    log_mem l' L [] ∧ lg_outstanding l' = 0 ∧ lg_committing l' = false ∧
    bcache (bufs (rest s)) (disk (rest s)) pid (unref_all refs bs) lk) (St h r)) as Hw.
  { eapply wp_end_op_last; try done. intros r' l' ? ? ? ? ?. split; [done|]. by exists l'. }
  apply wp_ok in Hw as ([] & [h' r'] & Hrun & Hmem & l' & Hs & Hm' & Ho' & Hc' & HB'). simpl in *. subst h'.
  exists r'. pose proof (bstep_lg _ _ _ Hs) as Hlg. rsimpl in Hlg. rewrite Hlg.
  assert (∀ b, ¬ (L <= b <= L + LOGBLOCKS) → disk r' !! b = apply_writes (zip bs ds) (disk r) !! b) as Hhome.
  { intros b Hb. destruct Hs as (_ & -> & _). unfold commit_writes. rewrite !apply_writes_app. simpl.
    rewrite lookup_insert_ne by (by apply home_ne). apply zip_writes_eq; [apply (ld_nodup _ _ _ _ _ _ Hld)|done|].
    intros _. rewrite lookup_insert_ne by (by apply home_ne). rsimpl. apply log_writes_home; [done|].
    rewrite <-Hlen. by eapply lm_bound. }
  split_and!; try done.
  - intros k b d Hb Hd. rewrite Hhome by (apply (logged_bs_out _ _ _ _ _ _ _ Hld); by eapply list_elem_of_lookup_2).
    eapply apply_writes_zip; try done. apply (ld_nodup _ _ _ _ _ _ Hld).
  - intros b Hb Hbo. rewrite Hhome, apply_writes_notin by (done || rewrite fst_zip; (done || lia)). done.
Qed.

(** begin_op reserves log space: whenever it returns, however often it had
    to sleep and whatever the other threads did meanwhile, no commit is in
    progress and the log has room for MAXOPBLOCKS blocks of every outstanding
    operation, this one included; and with room for one more operation and no
    commit in progress it returns at once. *)
Theorem begin_op_reserves :
  (∀ s s', begin_op s = Ok tt s' → lg_committing (lg (rest s')) = false ∧
     lh_n (lg (rest s')) + lg_outstanding (lg (rest s')) * MAXOPBLOCKS <= LOGBLOCKS) ∧
  (∀ h r, Llog ∉ held r → lg_committing (lg r) = false →
     lh_n (lg r) + (lg_outstanding (lg r) + 1) * MAXOPBLOCKS <= LOGBLOCKS →
     begin_op (St h r) = Ok tt (St h (r <| lg := (lg r) <| lg_outstanding := lg_outstanding (lg r) + 1 |> |>))).
Proof.
  split.
  - intros s s' Hrun. apply bind_ok in Hrun as ([] & s1 & _ & Hrun). by eapply begin_op_loop_post.
  - intros h r Hh Hc Hn. assert (wp begin_op (λ _ s, s = St h (r <| lg := (lg r)
      <| lg_outstanding := lg_outstanding (lg r) + 1 |> |>)) (St h r)) as Hw by (by apply wp_begin_op).
    by apply wp_ok in Hw as ([] & s' & Hrun & ->).
Qed.

(** log_write records a locked buffer's block once: a block that is in the
    log already is absorbed, with no change; a new block is appended and its
    buffer pinned, so that it cannot be recycled before the commit. *)
Theorem log_write_absorbs bno i c d L bs refs lk pid h r :
  thread r pid → bcache (bufs r) (disk r) pid refs lk → log_mem (lg r) L bs →
  refs !! bno = Some (i, c, d) → blockno_ok bno → (length bs < NLOG)%nat → 1 <= lg_outstanding (lg r) →
  c + 1 < 2 ^ 31 →
  ∃ r', log_write i (St h r) = Ok tt (St h r') ∧
    (if decide (bno ∈ bs) then r' = r
     else log_mem (lg r') L (bs ++ [bno]) ∧ disk r' = disk r ∧
          bcache (bufs r') (disk r') pid (<[bno := (i, c + 1, d)]> refs) lk).
Proof.
  intros Hth HB Hm Hr Hb Hn Ho Hc. destruct (decide (bno ∈ bs)) as [Hin|Hin].
  - exists r. split; [|done]. assert (wp (log_write i) (λ _ s, s = St h r) (St h r)) as Hw by (by eapply wp_log_write_absorb).
    by apply wp_ok in Hw as ([] & s & Hrun & ->).
  - eassert (wp (log_write i) (λ _ s, mem s = h ∧ log_mem (lg (rest s)) L (bs ++ [bno]) ∧ disk (rest s) = disk r ∧
      bcache (bufs (rest s)) (disk (rest s)) pid (<[bno := (i, c + 1, d)]> refs) lk) (St h r)) as Hw.
    { eapply wp_log_write_append; try done. }
    apply wp_ok in Hw as ([] & [h' r'] & Hrun & Hmem & Hw). simpl in *. subst. by exists r'.
Qed.

(** C22. NBUF is not larger than LOGBLOCKS: when the blocks of a transaction fill
    the cache, so that every buffer is referenced, commit finds no buffer for the
    first log block and panics. *)
Theorem commit_full_cache_panics L bs refs lk pid h r :
  thread r pid → bcache (bufs r) (disk r) pid refs lk → log_mem (lg r) L bs →
  log_region L (disk r) refs lk → size refs = NBUF → (0 < length bs)%nat →
  commit (St h r) = Panic "bget: no buffers".
Proof.
  intros Hth HB Hm Hreg Hsz Hn. pose proof (lm_bound _ _ _ Hm) as Hbd.
  pose proof (slot_region L 0 ltac:(lia)) as Hsr. destruct (lr_free _ _ _ _ Hreg (slot L 0)) as [Hfree _]; [lia|].
  pose proof (bread_full _ _ _ _ h _ Hth HB Hsz Hfree) as Hb.
  destruct bs as [|b bs]; [simpl in Hn; lia|].
  assert (Z.to_nat (lh_n (lg r)) = S (length bs)) as En by (rewrite (lm_n _ _ _ Hm); simpl length; lia).
  assert (log_block 0 (St h r) = Panic "bget: no buffers") as Hlb.
  { unfold log_block, mbind, M_bind, rd. cbn [rest].
    by rewrite (lm_dev _ _ _ Hm), (lm_start _ _ _ Hm), (slot_u32 L 0 (lr_L _ _ _ _ Hreg) ltac:(lia)), Hb. }
  assert (write_log (St h r) = Panic "bget: no buffers") as Hwl.
  { unfold write_log, mbind, M_bind, rd. cbn [rest]. rewrite En. cbn [for_each]. unfold mbind, M_bind. by rewrite Hlb. }
  unfold commit, mbind, M_bind, rd. cbn [rest]. rewrite bool_decide_eq_true_2 by lia.
  cbn [when]. by rewrite Hwl.
Qed.
End log.

(** ** The theorems at concrete states *)
Definition one_block : list Z := replicate (Z.to_nat BSIZE) 1.

(** A transaction that has logged block 50, with new contents; the log starts at
    block 2. *)
Definition tx_machine : sys :=
  (machine disk0) <| bufs := cached0 50 1 one_block |>
    <| lg := LogSt 2 1 false ROOTDEV 1 (50 :: replicate 29 0) |>.
Definition tx_refs : refmap := {[50 := (0%nat, 1, one_block)]}.

Lemma tx_thread : thread tx_machine 1.
Proof. apply thread_lg, thread_bufs, machine_thread, disk0_range. Qed.
Lemma tx_cache : bcache (bufs tx_machine) (disk tx_machine) 1 tx_refs ∅.
Proof. apply cached0_ok. lia. Qed.
Lemma tx_log : log_mem (lg tx_machine) 2 [50].
Proof. by split. Qed.
Lemma disk0_region (refs : refmap) : (∀ b, 2 <= b <= 32 → refs !! b = None) → log_region 2 disk0 refs ∅.
Proof.
  intros Hr. split.
  - unfold LOGBLOCKS, MAXOPBLOCKS. lia.
  - exists zero_block. by rewrite disk0_lookup by lia.
  - intros k Hk. rewrite disk0_lookup; [done|]. unfold slot, NLOG, LOGBLOCKS, MAXOPBLOCKS in *. lia.
  - intros b Hb. split; [apply Hr; unfold LOGBLOCKS, MAXOPBLOCKS in *; lia|apply not_elem_of_empty].
Qed.
Lemma tx_region : log_region 2 (disk tx_machine) tx_refs ∅.
Proof. apply disk0_region. intros b Hb. unfold tx_refs. rewrite lookup_singleton_ne by lia. done. Qed.
Lemma tx_logged : logged 2 (disk tx_machine) tx_refs ∅ [50] [one_block].
Proof.
  split; [done|apply NoDup_singleton|]. intros [|k] b d; [|done]. intros [= <-] [= <-].
  split_and!; [unfold blockno_ok; lia|unfold LOGBLOCKS, MAXOPBLOCKS; lia|apply not_elem_of_empty| |].
  - exists zero_block. change (disk tx_machine) with disk0. apply disk0_lookup. lia.
  - exists 0%nat, 1. split; [apply lookup_singleton_eq|lia].
Qed.

Lemma commit_crash_safe_witness :
  ∃ r' tr, @commit quiet ideal_dev (St ∅ tx_machine) = Ok tt (St ∅ r') ∧
    disk r' = apply_writes tr disk0 ∧
    ∀ k rb, booting rb 2 1 → disk rb = apply_writes (take k tr) disk0 →
      ∃ rb', @initlog quiet ideal_dev ROOTDEV (St ∅ rb) = Ok tt (St ∅ rb') ∧
        same_home 2 (disk rb') (if decide (k <= 1)%nat then disk0 else apply_writes [(50, one_block)] disk0).
Proof.
  destruct (@commit_crash_safe quiet ideal_dev ideal_inv ideal_dev_ok 2 [50] [one_block] zero_block tx_refs ∅ 1 ∅ tx_machine)
    as (r' & tr & Hrun & _ & HD & Hc).
  - apply tx_thread.
  - apply tx_cache.
  - apply tx_log.
  - apply tx_region.
  - apply tx_logged.
  - unfold tx_refs. rewrite map_size_singleton. unfold NBUF. lia.
  - change (disk tx_machine) with disk0. apply disk0_lookup. lia.
  - reflexivity.
  - simpl. lia.
  - exists r', tr. split; [exact Hrun|]. split; [exact HD|]. intros k rb Hb Hd.
    destruct (Hc k _ ∅ rb 1 (reboots_none _ _) Hb Hd) as (rb' & Hr & _ & Hs).
    exists rb'. split; [exact Hr|exact Hs].
Defined.

Lemma end_op_durable_witness :
  ∃ r', @end_op quiet ideal_dev (St ∅ tx_machine) = Ok tt (St ∅ r') ∧ disk r' !! 50 = Some one_block.
Proof.
  destruct (@end_op_durable quiet ideal_dev ideal_inv ideal_dev_ok 2 [50] [one_block] zero_block tx_refs ∅ 1 ∅ tx_machine)
    as (r' & Hrun & Hb & _).
  - apply tx_thread.
  - apply tx_cache.
  - apply tx_log.
  - apply tx_region.
  - apply tx_logged.
  - unfold tx_refs. rewrite map_size_singleton. unfold NBUF. lia.
  - change (disk tx_machine) with disk0. apply disk0_lookup. lia.
  - simpl. lia.
  - reflexivity.
  - reflexivity.
  - exists r'. split; [exact Hrun|]. apply (Hb 0%nat); reflexivity.
Defined.

Lemma log_write_absorbs_witness : log_write 0 (St ∅ tx_machine) = Ok tt (St ∅ tx_machine).
Proof.
  destruct (log_write_absorbs 50 0 1 one_block 2 [50] tx_refs ∅ 1 ∅ tx_machine) as (r' & Hrun & Hr).
  - apply tx_thread.
  - apply tx_cache.
  - apply tx_log.
  - apply lookup_singleton_eq.
  - unfold blockno_ok. lia.
  - unfold NLOG, LOGBLOCKS, MAXOPBLOCKS. simpl. lia.
  - simpl. lia.
  - lia.
  - rewrite decide_True in Hr by (by left). by rewrite Hr in Hrun.
Defined.

(** A cache whose first [n] buffers hold the blocks from 100 on. *)
Fixpoint filled (n : nat) : list buf :=
  match n with
  | O => bufs0
  | S n' =>
      <[n' := (default buf0 (filled n' !! n')) <| b_dev := ROOTDEV |> <| b_blockno := 100 + Z.of_nat n' |>
         <| b_valid := true |> <| b_refcnt := 1 |> <| b_data := zero_block |>]> (filled n')
  end.
Fixpoint filled_refs (n : nat) : refmap :=
  match n with O => ∅ | S n' => <[100 + Z.of_nat n' := (n', 1, zero_block)]> (filled_refs n') end.

Lemma filled_lookup n i : (n <= i)%nat → filled n !! i = bufs0 !! i.
Proof. revert i; induction n as [|n IH]; intros i Hi; simpl; [done|]. rewrite list_lookup_insert_ne by lia. apply IH. lia. Qed.

Lemma filled_refs_lookup n b : filled_refs n !! b =
  if decide (100 <= b < 100 + Z.of_nat n) then Some (Z.to_nat (b - 100), 1, zero_block) else None.
Proof.
  induction n as [|n IH]; simpl; [by rewrite decide_False by lia|]. destruct (decide (b = 100 + Z.of_nat n)) as [->|Hb].
  - rewrite lookup_insert_eq, decide_True by lia. do 3 f_equal. lia.
  - rewrite lookup_insert_ne, IH by done. repeat case_decide; try done; lia.
Qed.

Lemma filled_size n : size (filled_refs n) = n.
Proof.
  induction n as [|n IH]; simpl; [done|]. rewrite map_size_insert_None, IH; [done|].
  rewrite filled_refs_lookup, decide_False by lia. done.
Qed.

Lemma bufs0_locks i b : bufs0 !! i = Some b → sl_locked (b_lock b) = false.
Proof.
  assert (Forall (λ b, sl_locked (b_lock b) = false) bufs0) as Hf by (apply (bool_decide_unpack _); vm_compute; exact I).
  rewrite Forall_lookup in Hf. apply Hf.
Qed.

Lemma filled_ok n : (n <= NBUF)%nat → bcache (filled n) disk0 1 (filled_refs n) ∅.
Proof.
  induction n as [|n IH]; intros Hn; [apply bufs0_ok|]. specialize (IH ltac:(lia)).
  destruct (lookup_lt_is_Some_2 (filled n) n) as [b Hb]; [rewrite (bc_len _ _ _ _ _ IH); lia|].
  pose proof Hb as Hb0. rewrite filled_lookup in Hb0 by lia. cbn [filled filled_refs].
  rewrite Hb. change (default buf0 (Some b)) with b. apply (bcache_set IH n b); [lia|exact Hb|reflexivity..|lia| |done| |].
  - unfold lock_ok. rewrite bool_decide_eq_false_2 by apply not_elem_of_empty. by apply bufs0_locks in Hb0.
  - intros j bj Hne Hj Hbj Hd Heq. destruct (decide (j < n)%nat) as [Hlt|Hlt].
    + assert (filled_refs n !! (100 + Z.of_nat j) = Some (j, 1, zero_block)) as Hr.
      { rewrite filled_refs_lookup, decide_True by lia. do 3 f_equal. lia. }
      destruct (bc_get IH _ _ _ _ Hr) as (_ & b' & Hb' & _ & Hbn & _). rewrite Hbj in Hb'. injection Hb' as <-. lia.
    + rewrite filled_lookup in Hbj by lia. rewrite (bufs0_blank _ _ Hbj) in Hd. discriminate Hd.
  - intros bno' c' d' Hr. rewrite filled_refs_lookup in Hr. case_decide; [|done]. injection Hr as E _ _. lia.
Qed.

Definition full_machine : sys :=
  (machine disk0) <| bufs := filled NBUF |>
    <| lg := LogSt 2 1 false ROOTDEV 30 ((λ i, 100 + Z.of_nat i) <$> seq 0 30) |>.

Lemma commit_full_cache_panics_witness :
  @commit quiet ideal_dev (St ∅ full_machine) = Panic "bget: no buffers".
Proof.
  apply (@commit_full_cache_panics quiet ideal_dev ideal_inv ideal_dev_ok 2 ((λ i, 100 + Z.of_nat i) <$> seq 0 30) (filled_refs NBUF) ∅ 1).
  - apply thread_lg, thread_bufs, machine_thread, disk0_range.
  - apply filled_ok. done.
  - by split.
  - apply disk0_region. intros b Hb. rewrite filled_refs_lookup, decide_False by lia. done.
  - apply filled_size.
  - rewrite length_fmap, length_seq. lia.
Defined.
