(* ===== verification/VirtioThms.v ===== *)
(** * The disk driver refines the ideal disk *)
From S2P Require Import Prelude.
From S2P Require Import Mem.
From S2P Require Import Params.
From S2P Require Import State.
From S2P Require Import Sched.
From S2P Require Import Bio.
From S2P Require Import Virtio.
From S2P Require Import Wp.
From S2P Require Import SchedSpec.
From S2P Require Import BioSpec.
From S2P Require Import Boot0.
#[local] Open Scope Z_scope.

(** ** The driver and the device together are the disk that the cache relies on

    With a device that serves the queue while the driver sleeps, disk_rw keeps
    its queue idle between calls ([idle]) and fulfils the promise [BlockDevOk]:
    [disk_rw_refines] at the end of the file. *)

Record sized (v : vdiskst) : Prop := {
  sz_desc : length (vq_desc v) = NUM;
  sz_avail : length (vq_avail_ring v) = NUM;
  sz_used : length (vq_used_ring v) = NUM;
  sz_info : length (vq_info_b v) = NUM;
  sz_status : length (vq_info_status v) = NUM;
  sz_ops : length (vq_ops v) = NUM
}.

(** Between requests: all descriptors are free, the device has served every
    request, and the driver has seen every completion. *)
Record idle (v : vdiskst) : Prop := {
  id_free : vq_free v = replicate NUM true;
  id_avail : vq_avail_idx v = vq_used_idx v;
  id_hw : vq_hw_used v = vq_used_idx v;
  id_range : 0 <= vq_used_idx v < 2 ^ 16;
  id_size : sized v
}.

(** The chain of descriptors 0, 1, 2 is a request for buffer [i]. *)
Record chain (v : vdiskst) (i : nat) (ty sector : Z) : Prop := {
  ch_free : vq_free v = [false; false; false; true; true; true; true; true];
  ch_d0 : vq_desc v !! 0%nat = Some (VDesc (AOps 0) blk_req_size VRING_DESC_F_NEXT 1);
  ch_d1 : ∃ fl, vq_desc v !! 1%nat = Some (VDesc (AData i) BSIZE fl 2) ∧ Z.land fl VRING_DESC_F_NEXT = 1;
  ch_d2 : vq_desc v !! 2%nat = Some (VDesc (AStatus 0) 1 VRING_DESC_F_WRITE 0);
  ch_op : vq_ops v !! 0%nat = Some (ty, sector);
  ch_info : vq_info_b v !! 0%nat = Some (Some i);
  ch_range : 0 <= vq_used_idx v < 2 ^ 16;
  ch_size : sized v
}.

(** The request is in the available ring; the device has not looked at it. *)
Record pending (v : vdiskst) (i : nat) (ty sector : Z) : Prop := {
  pe_chain : chain v i ty sector;
  pe_hw : vq_hw_used v = vq_used_idx v;
  pe_avail : vq_avail_idx v = u16 (vq_used_idx v + 1);
  pe_ring : vq_avail_ring v !! Z.to_nat (vq_used_idx v mod Z.of_nat NUM) = Some 0
}.

(** The device has served it; the driver has not looked at the completion. *)
Record served (v : vdiskst) (i : nat) (ty sector : Z) : Prop := {
  se_chain : chain v i ty sector;
  se_hw : vq_hw_used v = u16 (vq_used_idx v + 1);
  se_avail : vq_avail_idx v = vq_hw_used v;
  se_ring : vq_used_ring v !! Z.to_nat (vq_used_idx v mod Z.of_nat NUM) = Some 0;
  se_status : vq_info_status v !! 0%nat = Some 0
}.

Lemma u16_next u : 0 <= u < 2 ^ 16 → 0 <= u16 (u + 1) < 2 ^ 16 ∧ u16 (u + 1) ≠ u.
Proof. intros Hu. unfold uN. pose proof (Z.mod_pos_bound (u + 1) (2 ^ 16)). split; [lia|]. 
  destruct (decide (u = 2 ^ 16 - 1)) as [->|]; [done|]. rewrite Z.mod_small; lia. Qed.

Lemma u16_next_sub u : 0 <= u < 2 ^ 16 → u16 (u16 (u + 1) - u) = 1.
Proof.
  intros Hu. unfold uN. rewrite Zminus_mod_idemp_l. by replace (u + 1 - u) with 1 by lia.
Qed.

Lemma ring_slot u : (Z.to_nat (u mod Z.of_nat NUM) < NUM)%nat.
Proof. pose proof (Z.mod_pos_bound u (Z.of_nat NUM)). unfold NUM in *. lia. Qed.

(** ** The device *)
Definition device_done (v : vdiskst) : vdiskst :=
  v <| vq_info_status := <[0%nat := 0]> (vq_info_status v) |>
    <| vq_used_ring := <[Z.to_nat (vq_hw_used v mod Z.of_nat NUM) := 0]> (vq_used_ring v) |>
    <| vq_hw_used := u16 (vq_hw_used v + 1) |>.

Lemma device_done_served v i ty sector : pending v i ty sector → served (device_done v) i ty sector.
Proof.
  intros [[? ? ? ? ? ? ? []] Hhw Ha Hr]. split.
  - split; try done. split; unfold device_done; rsimpl; rewrite ?length_insert; done.
  - unfold device_done. rsimpl. by rewrite Hhw.
  - unfold device_done. rsimpl. by rewrite Hhw.
  - unfold device_done. rsimpl. rewrite Hhw. apply list_lookup_insert_eq. rewrite sz_used0. apply ring_slot.
  - unfold device_done. rsimpl. apply list_lookup_insert_eq. rewrite sz_status0. unfold NUM. lia.
Qed.

(** What the transfer does to buffer [i] with block [blk]. *)
Definition transfer (ty : Z) (i : nat) (b : buf) (bno : Z) (d : list Z) (r : sys) : sys :=
  if bool_decide (ty = VIRTIO_BLK_T_OUT)
  then r <| disk := <[bno := b_data b]> (disk r) |> <| dtrace := dtrace r ++ [(bno, b_data b)] |>
  else r <| bufs := <[i := b <| b_data := d |>]> (bufs r) |>.

Lemma device_step_pending r i ty sector b d :
  pending (vdisk r) i ty sector → bufs r !! i = Some b → disk r !! (sector / 2) = Some d →
  device_step r = transfer ty i b (sector / 2) d (r <| vdisk := device_done (vdisk r) |>).
Proof.
  intros [[? Hd0 (fl & Hd1 & _) Hd2 Hop ? Hrg ?] Hhw Ha Hr] Hb Hd. unfold device_step.
  rewrite Ha, Hhw, bool_decide_eq_false_2 by apply u16_next, Hrg.
  rewrite (list_lookup_total_correct _ _ _ Hr). change (Z.to_nat 0) with 0%nat. rewrite Hd0. cbn [from_option id vd_next vd_addr].
  change (Z.to_nat 1) with 1%nat. rewrite Hd1. cbn [from_option id vd_next vd_addr].
  change (Z.to_nat 2) with 2%nat. rewrite Hd2. cbn [from_option id vd_next vd_addr].
  change (Z.to_nat 0) with 0%nat. rewrite Hop. cbn [from_option id]. rewrite Hb, Hd.
  unfold transfer, device_done. rewrite Hhw. by case_bool_decide.
Qed.

Lemma device_run_idle n r : vq_avail_idx (vdisk r) = vq_hw_used (vdisk r) → device_run n r = r.
Proof.
  intros Hi. induction n as [|n IH]; [done|]. cbn [device_run]. unfold device_step at 1.
  by rewrite bool_decide_eq_true_2.
Qed.

Lemma transfer_vdisk ty i b bno d r : vdisk (transfer ty i b bno d r) = vdisk r.
Proof. unfold transfer. by case_bool_decide. Qed.

Lemma device_run_pending n r i ty sector b d :
  pending (vdisk r) i ty sector → bufs r !! i = Some b → disk r !! (sector / 2) = Some d →
  device_run (S n) r = transfer ty i b (sector / 2) d (r <| vdisk := device_done (vdisk r) |>).
Proof.
  intros Hp Hb Hd. cbn [device_run].
  rewrite (device_step_pending _ _ _ _ _ _ Hp Hb Hd). apply device_run_idle. rewrite transfer_vdisk.
  apply (se_avail _ _ _ _ (device_done_served _ _ _ _ Hp)).
Qed.

(** ** The interrupt *)
Lemma wp_intr i ty sector b (Q : unit → st sys → Prop) h r :
  served (vdisk r) i ty sector → bufs r !! i = Some b → held r = [] → cur r = None → length (procs r) = NPROC →
  Q tt (St h (r <| bufs := <[i := b <| b_disk := false |>]> (bufs r) |>
                <| procs := wake (ChBuf i) None (procs r) |>
                <| vdisk := (vdisk r) <| vq_used_idx := vq_hw_used (vdisk r) |> |>)) →
  wp virtio_disk_intr Q (St h r).
Proof.
  intros Hs Hb Hh Hc Hl HQ. destruct Hs as [[? ? ? ? ? Hi Hrg ?] Hhw Ha Hring Hst].
  destruct (u16_next _ Hrg) as [Hrg' Hne]. unfold virtio_disk_intr.
  apply wp_bind, wp_acquire; [rewrite Hh; apply not_elem_of_nil|].
  apply wp_bind, wp_rd. rsimpl. rewrite Hhw, (u16_next_sub _ Hrg). apply wp_bind.
  cbn [intr_loop Z.to_nat Pos.to_nat Pos.iter_op]. apply wp_bind, wp_rd. rsimpl.
  rewrite bool_decide_eq_true_2 by congruence. rewrite (list_lookup_total_correct _ _ _ Hring).
  change (Z.to_nat 0) with 0%nat. rewrite Hst, bool_decide_eq_false_2 by auto. rewrite Hi.
  apply wp_bind, (wp_buf_upd _ b); [done|]. apply wp_bind, wp_wakeup.
  { rsimpl. rewrite Hh. intros j. by intros ?%list_elem_of_singleton. } { done. }
  apply wp_bind, wp_upd. apply wp_bind, wp_rd. rsimpl.
  rewrite bool_decide_eq_false_2 by (rewrite Hhw; auto). apply wp_ret.
  eapply wp_release; [done|]. rewrite Hhw in HQ. rewrite Hc, Hh. destruct r; cbn in Hh. by subst.
Qed.

Definition moved (ty : Z) (b : buf) (d : list Z) : buf :=
  if bool_decide (ty = VIRTIO_BLK_T_OUT) then b else b <| b_data := d |>.

(** The state after the device and the interrupt handler have run. *)
Definition completed (ty : Z) (i : nat) (b : buf) (bno : Z) (d : list Z) (r : sys) : sys :=
  (transfer ty i b bno d r) <| held := [] |> <| cur := None |>
    <| bufs := <[i := (moved ty b d) <| b_disk := false |>]> (bufs r) |>
    <| procs := wake (ChBuf i) None (procs r) |>
    <| vdisk := (device_done (vdisk r)) <| vq_used_idx := u16 (vq_used_idx (vdisk r) + 1) |> |>.

Lemma completed_bufs ty i b bno d r :
  bufs (completed ty i b bno d r) = <[i := (moved ty b d) <| b_disk := false |>]> (bufs r).
Proof. reflexivity. Qed.
Lemma completed_procs ty i b bno d r : procs (completed ty i b bno d r) = wake (ChBuf i) None (procs r).
Proof. reflexivity. Qed.

Lemma disk_irq_pending h r i ty sector b d :
  pending (vdisk r) i ty sector → bufs r !! i = Some b → disk r !! (sector / 2) = Some d →
  length (procs r) = NPROC →
  disk_irq (St h r) = St h (completed ty i b (sector / 2) d r).
Proof.
  intros Hp Hb Hd Hl. unfold disk_irq. cbn [rest mem].
  change NUM with (S 7). rewrite (device_run_pending 7 _ _ _ _ _ _ Hp Hb Hd).
  pose proof (device_done_served _ _ _ _ Hp) as Hs.
  set (t := transfer _ _ _ _ _ _).
  assert (vdisk t = device_done (vdisk r)) as Hv by (subst t; by rewrite transfer_vdisk).
  assert (bufs t !! i = Some (moved ty b d)) as Hbt.
  { subst t. unfold transfer, moved. case_bool_decide; [done|]. rsimpl. apply list_lookup_insert_eq.
    by eapply lookup_lt_Some. }
  assert (wp virtio_disk_intr (λ _ s, s = St h (completed ty i b (sector / 2) d r))
            (St h (t <| held := [] |> <| cur := None |>))) as Hw.
  { eapply (wp_intr i ty sector); [rsimpl; rewrite Hv; exact Hs|exact Hbt|done|done| |].
    { subst t. unfold transfer. by case_bool_decide. }
    f_equal. change (vdisk (t <| held := [] |> <| cur := None |>)) with (vdisk t).
    rewrite Hv, (se_hw _ _ _ _ Hs). clear. subst t. unfold completed, transfer, moved.
    case_bool_decide; [by destruct r|]. destruct r; cbn. by rewrite list_insert_insert_eq. }
  apply wp_ok in Hw as ([] & s' & -> & ->). done.
Qed.

(** ** Posting a request *)
Definition request (i : nat) (write : bool) (sector : Z) (v : vdiskst) : vdiskst :=
  v <| vq_free := [false; false; false; true; true; true; true; true] |>
    <| vq_ops := <[0%nat := (if write then VIRTIO_BLK_T_OUT else VIRTIO_BLK_T_IN, sector)]> (vq_ops v) |>
    <| vq_desc := <[2%nat := VDesc (AStatus 0) 1 VRING_DESC_F_WRITE 0]>
        (<[1%nat := VDesc (AData i) BSIZE (Z.lor (if write then 0 else VRING_DESC_F_WRITE) VRING_DESC_F_NEXT) 2]>
          (<[0%nat := VDesc (AOps 0) blk_req_size VRING_DESC_F_NEXT 1]> (vq_desc v))) |>
    <| vq_info_status := <[0%nat := 255]> (vq_info_status v) |>
    <| vq_info_b := <[0%nat := Some i]> (vq_info_b v) |>
    <| vq_avail_ring := <[Z.to_nat (vq_avail_idx v mod Z.of_nat NUM) := 0]> (vq_avail_ring v) |>
    <| vq_avail_idx := u16 (vq_avail_idx v + 1) |>.

Lemma request_pending i write sector v :
  idle v → pending (request i write sector v) i (if write then VIRTIO_BLK_T_OUT else VIRTIO_BLK_T_IN) sector.
Proof.
  intros [Hf Ha Hh Hr [Hd Hav Hu Hi Hs Ho]]. split.
  - split; unfold request; rsimpl; try done.
    + rewrite list_lookup_insert_ne, list_lookup_insert_ne by done.
      apply list_lookup_insert_eq. rewrite Hd. unfold NUM. lia.
    + exists (Z.lor (if write then 0 else VRING_DESC_F_WRITE) VRING_DESC_F_NEXT).
      rewrite list_lookup_insert_ne by done. split; [|by destruct write].
      apply list_lookup_insert_eq. rewrite length_insert, Hd. unfold NUM. lia.
    + apply list_lookup_insert_eq. rewrite !length_insert, Hd. unfold NUM. lia.
    + apply list_lookup_insert_eq. rewrite Ho. unfold NUM. lia.
    + apply list_lookup_insert_eq. rewrite Hi. unfold NUM. lia.
    + split; rsimpl; by rewrite ?length_insert.
  - done.
  - unfold request. rsimpl. by rewrite Ha.
  - unfold request. rsimpl. rewrite Ha. apply list_lookup_insert_eq. rewrite Hav. apply ring_slot.
Qed.

(** ** The driver *)
Lemma vdisk_twice (r : sys) a b : r <| vdisk := a |> <| vdisk := b |> = r <| vdisk := b |>.
Proof. by destruct r. Qed.

Lemma wp_vd_upd g (Q : unit → st sys → Prop) h r :
  Q tt (St h (r <| vdisk := g (vdisk r) |>)) → wp (vd_upd g) Q (St h r).
Proof. intros HQ. apply wp_upd. by destruct r. Qed.

(** The same with the queue named, so that its value is not repeated. *)
Lemma wp_vd_set g v (Q : unit → st sys → Prop) h r :
  Q tt (St h (r <| vdisk := g v |>)) → wp (vd_upd g) Q (St h (r <| vdisk := v |>)).
Proof. intros HQ. apply wp_upd. by destruct r. Qed.

Lemma wp_buf_set i b g v (Q : unit → st sys → Prop) h r :
  bufs r !! i = Some b → Q tt (St h (r <| bufs := <[i := g b]> (bufs r) |> <| vdisk := v |>)) →
  wp (buf_upd i g) Q (St h (r <| vdisk := v |>)).
Proof. intros Hb HQ. apply (wp_buf_upd _ b); [done|]. by destruct r. Qed.

Lemma wp_alloc_desc i (Q : Z → st sys → Prop) h r :
  first_free (vq_free (vdisk r)) 0 = Some i →
  Q (Z.of_nat i) (St h (r <| vdisk := (vdisk r) <| vq_free := <[i := false]> (vq_free (vdisk r)) |> |>)) →
  wp alloc_desc Q (St h r).
Proof. intros Hf HQ. apply wp_bind, wp_rd. rewrite Hf. apply wp_bind, wp_vd_upd. by apply wp_ret. Qed.

Lemma wp_alloc3 (Q : option (list Z) → st sys → Prop) h r :
  vq_free (vdisk r) = replicate NUM true →
  Q (Some [0; 1; 2]) (St h (r <| vdisk := (vdisk r) <| vq_free := [false; false; false; true; true; true; true; true] |> |>)) →
  wp alloc3_desc Q (St h r).
Proof.
  intros Hf HQ. unfold alloc3_desc. cbn [alloc3_loop].
  apply wp_bind, (wp_alloc_desc 0); [by rewrite Hf|]. rewrite bool_decide_eq_false_2 by lia.
  apply wp_bind, (wp_alloc_desc 1); [by rsimpl; rewrite Hf|]. rewrite bool_decide_eq_false_2 by lia.
  apply wp_bind, (wp_alloc_desc 2); [by rsimpl; rewrite Hf|]. rewrite bool_decide_eq_false_2 by lia.
  apply wp_ret. rsimpl. rewrite Hf. by destruct r as [? ? ? ? ? ? ? ? ? ? ? ? ? ? ? ? ? ? ? ? ? [] ?].
Qed.

Definition freed (j : nat) (v : vdiskst) : vdiskst :=
  v <| vq_desc := <[j := VDesc ANone 0 0 0]> (vq_desc v) |> <| vq_free := <[j := true]> (vq_free v) |>.

Lemma freed_desc j k v : j ≠ k → vq_desc (freed j v) !! k = vq_desc v !! k.
Proof. intros Hjk. unfold freed. rsimpl. by apply list_lookup_insert_ne. Qed.

Lemma freed_free j v : vq_free (freed j v) = <[j := true]> (vq_free v).
Proof. done. Qed.
Lemma freed_sized j v : sized v → sized (freed j v).
Proof. intros []. unfold freed. split; rsimpl; by rewrite ?length_insert. Qed.

Lemma wp_free_desc j (Q : unit → st sys → Prop) h r :
  (j < NUM)%nat → vq_free (vdisk r) !! j = Some false → no_proc_lock (held r) → length (procs r) = NPROC →
  Q tt (St h (r <| vdisk := freed j (vdisk r) |> <| procs := wake ChDiskFree (cur r) (procs r) |>)) →
  wp (free_desc (Z.of_nat j)) Q (St h r).
Proof.
  intros Hj Hf Hh Hl HQ. unfold free_desc. rewrite bool_decide_eq_false_2 by lia.
  apply wp_bind, wp_rd. rewrite Nat2Z.id, Hf, bool_decide_eq_false_2 by done.
  apply wp_bind, wp_vd_upd. by apply wp_wakeup.
Qed.

(** One round of free_chain *)
Lemma wp_free_chain n j d (Q : unit → st sys → Prop) h r :
  (j < NUM)%nat → vq_desc (vdisk r) !! j = Some d → vq_free (vdisk r) !! j = Some false →
  no_proc_lock (held r) → length (procs r) = NPROC →
  wp (if bool_decide (Z.land (vd_flags d) VRING_DESC_F_NEXT ≠ 0) then free_chain n (vd_next d) else mret tt) Q
    (St h (r <| vdisk := freed j (vdisk r) |> <| procs := wake ChDiskFree (cur r) (procs r) |>)) →
  wp (free_chain (S n) (Z.of_nat j)) Q (St h r).
Proof.
  intros Hj Hd Hf Hh Hl HQ. cbn [free_chain]. apply wp_bind, wp_rd. rewrite Nat2Z.id, Hd.
  by apply wp_bind, wp_free_desc.
Qed.

Lemma length_wake ch c ps : length (wake ch c ps) = length ps.
Proof. apply length_imap. Qed.

Lemma wp_free_request i ty sector v x (Q : unit → st sys → Prop) h r :
  chain v i ty sector → vdisk r = v <| vq_info_b := x |> → no_proc_lock (held r) → length (procs r) = NPROC →
  (∀ ps, woken (cur r) (procs r) ps →
    Q tt (St h (r <| vdisk := freed 2 (freed 1 (freed 0 (vdisk r))) |> <| procs := ps |>))) →
  wp (free_chain NUM 0) Q (St h r).
Proof.
  intros [Hf H0 (fl & H1 & Hfl) H2 _ _ _ _] Hv Hh Hl HQ.
  replace (vq_free v) with (vq_free (vdisk r)) in Hf by (by rewrite Hv).
  replace (vq_desc v) with (vq_desc (vdisk r)) in H0, H1, H2 by (by rewrite Hv). clear Hv. change NUM with (S (S (S 5))). change 0 with (Z.of_nat 0).
  eapply wp_free_chain; [unfold NUM; lia|exact H0|by rewrite Hf|done|done|].
  cbn [vd_flags vd_next]. rewrite bool_decide_eq_true_2 by done. change 1 with (Z.of_nat 1).
  eapply wp_free_chain; [unfold NUM; lia|rsimpl; rewrite !freed_desc by lia; exact H1|by rsimpl; unfold freed; rsimpl; rewrite Hf|done|by rsimpl; rewrite length_wake|].
  cbn [vd_flags vd_next]. rewrite Hfl, bool_decide_eq_true_2 by done. change 2 with (Z.of_nat 2).
  eapply wp_free_chain; [unfold NUM; lia|rsimpl; rewrite !freed_desc by lia; exact H2|by rsimpl; unfold freed; rsimpl; rewrite Hf|done|by rsimpl; rewrite !length_wake|].
  cbn [vd_flags vd_next]. rewrite bool_decide_eq_false_2 by (intros E; by apply E). apply wp_ret.
  match goal with |- Q tt (St h ?r') => replace r' with
    (r <| vdisk := freed 2 (freed 1 (freed 0 (vdisk r))) |>
       <| procs := wake ChDiskFree (cur r) (wake ChDiskFree (cur r) (wake ChDiskFree (cur r) (procs r))) |>)
    by (by destruct r) end.
  apply HQ. eapply woken_trans; [|apply wake_woken]. eapply woken_trans; apply wake_woken.
Qed.

(** The process that slept through [wake ch None] is restored, others were
    only woken. *)
Lemma woken_slept ch c p q ps :
  ps !! c = Some p → woken (Some c) ps (<[c := p]> (wake ch None (<[c := q]> ps))).
Proof.
  intros Hp. pose proof (lookup_lt_Some _ _ _ Hp) as Hlt. split; [by rewrite length_insert, length_wake, length_insert|].
  intros j x Hx. destruct (decide (j = c)) as [->|Hj].
  - exists p. rewrite list_lookup_insert_eq by (rewrite length_wake, length_insert; lia). split; [done|].
    left. congruence.
  - rewrite list_lookup_insert_ne by done. destruct (wake_woken ch None (<[c := q]> ps)) as [_ Hw].
    destruct (Hw j x) as (x' & Hx' & Hc); [by rewrite list_lookup_insert_ne|]. exists x'. split; [done|].
    destruct Hc as [->|(_ & Hs & ->)]; [by left|]. right. split_and!; [congruence|done|done].
Qed.

Lemma wake_lookup ch c ps q :
  ps !! c = Some q → p_state q = SLEEPING ∧ p_chan q = Some ch →
  wake ch None ps !! c = Some (q <| p_state := RUNNABLE |>).
Proof.
  intros Hq [Hs Hc]. unfold wake. rewrite list_lookup_imap, Hq. simpl. unfold wake1. by rewrite bool_decide_eq_true_2.
Qed.

Lemma slept_restored p ch :
  p_state p = RUNNING → p_chan p = None →
  p <| p_chan := Some ch |> <| p_state := SLEEPING |> <| p_state := RUNNABLE |> <| p_state := RUNNING |> <| p_chan := None |> = p.
Proof. destruct p. cbn. by intros -> ->. Qed.

Definition is_out (ty : Z) : bool := bool_decide (ty = VIRTIO_BLK_T_OUT).

(** The queue after the device and the interrupt have completed a request. *)
Definition finished (v : vdiskst) : vdiskst :=
  (device_done v) <| vq_used_idx := u16 (vq_used_idx v + 1) |>.

Lemma finished_chain v i ty sector : pending v i ty sector → chain (finished v) i ty sector.
Proof.
  intros Hp. destruct (device_done_served _ _ _ _ Hp) as [[? ? ? ? ? ? ? []] _ _ _ _].
  unfold finished. split; rsimpl; try done. apply u16_next, Hp.
Qed.

Lemma freed_idle v i ty sector :
  pending v i ty sector →
  idle (freed 2 (freed 1 (freed 0 ((finished v) <| vq_info_b := <[0%nat := None]> (vq_info_b (finished v)) |>)))).
Proof.
  intros Hp. destruct (finished_chain _ _ _ _ Hp) as [Hf _ _ _ _ _ Hr []]. destruct Hp as [_ Hhw Ha _].
  split; rewrite ?freed_free.
  - by rsimpl; rewrite Hf.
  - done.
  - unfold finished, device_done. cbn. by rewrite Hhw.
  - done.
  - do 3 apply freed_sized. split; rsimpl; by rewrite ?length_insert.
Qed.

(** The state when the driver's process runs again *)
Lemma completed_resume ty i b bno d r c ps ps' l n :
  held r = [Lvdisk] → cur r = Some c →
  (completed ty i b bno d (r <| held := l |> <| procs := ps |>)) <| procs := ps' |>
     <| cur := Some c |> <| held := [Lvdisk] |> <| nswtch := n |> =
  r <| bufs := <[i := (moved ty b d) <| b_disk := false |>]> (bufs r) |>
    <| disk := if is_out ty then <[bno := b_data b]> (disk r) else disk r |>
    <| dtrace := if is_out ty then dtrace r ++ [(bno, b_data b)] else dtrace r |>
    <| vdisk := finished (vdisk r) |> <| procs := ps' |> <| nswtch := n |>.
Proof.
  intros Hh Hc. unfold completed, transfer, is_out. destruct r; cbn in Hh, Hc. subst.
  by case_bool_decide.
Qed.

Section rw.
Context `{Sched}.
Hypothesis steps_irq : ∀ n s, sched_steps n s = disk_irq s.
Hypothesis one_sleep : (1 <= sched_bound)%nat.

Lemma wp_sleep_irq c p i b ty sector d (Q : unit → st sys → Prop) h r :
  held r = [Lvdisk] → cur r = Some c → procs r !! c = Some p → p_state p = RUNNING → p_chan p = None →
  length (procs r) = NPROC → bufs r !! i = Some b →
  pending (vdisk r) i ty sector → disk r !! (sector / 2) = Some d →
  (∀ ps n', woken (Some c) (procs r) ps →
    Q tt (St h (r <| bufs := <[i := (moved ty b d) <| b_disk := false |>]> (bufs r) |>
      <| disk := if is_out ty then <[sector / 2 := b_data b]> (disk r) else disk r |>
      <| dtrace := if is_out ty then dtrace r ++ [(sector / 2, b_data b)] else dtrace r |>
      <| vdisk := finished (vdisk r) |> <| procs := ps |> <| nswtch := n' |>))) →
  wp (sleep (ChBuf i) Lvdisk) Q (St h r).
Proof.
  intros Hh Hc Hp Hrun Hchan Hl Hb Hpe Hd HQ. pose proof (lookup_lt_Some _ _ _ Hp) as Hlt.
  set (q := p <| p_chan := Some (ChBuf i) |> <| p_state := SLEEPING |>).
  pose proof (disk_irq_pending h (r <| held := [Lproc c] |> <| procs := <[c := q]> (procs r) |>) i ty sector b d) as Hirq.
  specialize (Hirq Hpe Hb Hd (eq_trans (length_insert _ _ _) Hl)). rewrite <-(steps_irq (nswtch r)) in Hirq.
  eapply (wp_sleep _ _ c p _ (q <| p_state := RUNNABLE |>)); [done|done|done|done|symmetry; exact Hirq| |done|].
  - cbn [rest]. rewrite completed_procs. apply wake_lookup; [|done]. by apply list_lookup_insert_eq.
  - cbn [rest mem]. rewrite completed_procs, (completed_resume ty i b (sector / 2) d r c) by done.
    subst q. rewrite (slept_restored p (ChBuf i) Hrun Hchan). apply HQ, woken_slept, Hp.
Qed.

Lemma wp_disk_wait c p i b ty sector d n (Q : unit → st sys → Prop) h r :
  held r = [Lvdisk] → cur r = Some c → procs r !! c = Some p → p_state p = RUNNING → p_chan p = None →
  length (procs r) = NPROC → bufs r !! i = Some b → b_disk b = true →
  pending (vdisk r) i ty sector → disk r !! (sector / 2) = Some d →
  (∀ ps n', woken (Some c) (procs r) ps →
    Q tt (St h (r <| bufs := <[i := (moved ty b d) <| b_disk := false |>]> (bufs r) |>
      <| disk := if is_out ty then <[sector / 2 := b_data b]> (disk r) else disk r |>
      <| dtrace := if is_out ty then dtrace r ++ [(sector / 2, b_data b)] else dtrace r |>
      <| vdisk := finished (vdisk r) |> <| procs := ps |> <| nswtch := n' |>))) →
  wp (disk_wait (S (S n)) i) Q (St h r).
Proof.
  intros Hh Hc Hp Hrun Hchan Hl Hb Hbd Hpe Hd HQ.
  cbn [disk_wait]. apply wp_bind, (wp_buf_get _ b); [done|]. rewrite Hbd. apply wp_bind.
  apply (wp_sleep_irq c p i b ty sector d); try done. intros ps n' Hw.
  apply wp_bind, (wp_buf_get _ ((moved ty b d) <| b_disk := false |>)).
  { apply list_lookup_insert_eq. by eapply lookup_lt_Some. }
  apply wp_ret, HQ, Hw.
Qed.

Lemma wp_format (k : K unit) i write sector (Q : unit → st sys → Prop) h r b :
  vq_free (vdisk r) = [false; false; false; true; true; true; true; true] → bufs r !! i = Some b →
  wp k Q (St h (r <| bufs := <[i := b <| b_disk := true |>]> (bufs r) |> <| vdisk := request i write sector (vdisk r) |>)) →
  wp (format_request 0 1 2 i write sector;;
      buf_upd i (λ b, b <| b_disk := true |>);;
      vd_upd (λ v, v <| vq_info_b := <[Z.to_nat 0 := Some i]> (vq_info_b v) |>);;
      submit 0;; k) Q (St h r).
Proof.
  intros Hf Hb HQ. apply wp_bind. unfold format_request, submit.
  replace r with (r <| vdisk := vdisk r |>) by (by destruct r).
  do 4 apply wp_bind, wp_vd_set. apply wp_vd_set. apply wp_bind, (wp_buf_set _ b); [done|].
  apply wp_bind, wp_vd_set. apply wp_bind, wp_bind, wp_vd_set, wp_vd_set. revert HQ. unfold request.
  destruct (vdisk r). cbn in Hf |- *. by subst.
Qed.

(** The sector of a block number below [2 ^ 31] does not wrap around. *)
Lemma sector_block bno : 0 <= bno < 2 ^ 31 → u32 (bno * (BSIZE / 512)) / 2 = bno.
Proof.
  intros Hb. change (BSIZE / 512) with 2. rewrite uN_small by lia. by apply Z.div_mul.
Qed.

Lemma wp_disk_rw i (write : bool) b d pid (Q : unit → st sys → Prop) h r :
  @thread idle r pid → bufs r !! i = Some b → disk r !! b_blockno b = Some d →
  let ty := (if write then VIRTIO_BLK_T_OUT else VIRTIO_BLK_T_IN) in
  (∀ ps n' v, woken (cur r) (procs r) ps → idle v →
    Q tt (St h (r <| bufs := <[i := (moved ty b d) <| b_disk := false |>]> (bufs r) |>
      <| disk := if is_out ty then <[b_blockno b := b_data b]> (disk r) else disk r |>
      <| dtrace := if is_out ty then dtrace r ++ [(b_blockno b, b_data b)] else dtrace r |>
      <| vdisk := v |> <| procs := ps |> <| nswtch := n' |>))) →
  wp (disk_rw i write) Q (St h r).
Proof.
  intros Hth Hb Hd ty HQ. destruct Hth as [Hidle Hh Hl (c & p & Hc & Hp & _) Hrun Hdisk].
  destruct (Hrun _ _ Hc Hp) as [Hr1 Hr2].
  assert (u32 (b_blockno b * (BSIZE / 512)) / 2 = b_blockno b) as Hsec.
  { apply sector_block, Hdisk, elem_of_dom. by eexists. }
  unfold disk_rw. apply wp_bind, (wp_buf_get _ b); [done|].
  apply wp_bind, wp_acquire; [rewrite Hh; apply not_elem_of_nil|]. rewrite Hh.
  apply wp_bind. cbn [alloc3_wait]. apply wp_bind, wp_alloc3; [apply Hidle|]. apply wp_ret.
  set (sector := u32 _) in *. apply (wp_format _ _ _ _ _ _ _ b); [done|done|]. rsimpl.
  apply wp_bind. destruct sched_bound as [|n] eqn:En; [lia|].
  pose proof (request_pending i write sector _ Hidle) as Hpe. fold ty in Hpe.
  apply (wp_disk_wait c p i (b <| b_disk := true |>) ty sector d); try done.
  { apply list_lookup_insert_eq. by eapply lookup_lt_Some. } { rsimpl. by rewrite Hsec. }
  intros ps n' Hw. rewrite Hsec. apply wp_bind.
  pose proof (finished_chain _ _ _ _ Hpe) as Hch. pose proof (freed_idle _ _ _ _ Hpe) as Hfi.
  match goal with |- context [finished ?y] => change (finished y) with (finished (request i write sector (vdisk r))) end.
  generalize dependent (finished (request i write sector (vdisk r))). intros v Hch Hfi.
  set (R := r <| bufs := <[i := (moved ty b d) <| b_disk := false |>]> (bufs r) |>
      <| disk := if is_out ty then <[b_blockno b := b_data b]> (disk r) else disk r |>
      <| dtrace := if is_out ty then dtrace r ++ [(b_blockno b, b_data b)] else dtrace r |>) in HQ.
  match goal with |- wp _ _ (St h ?x) =>
    replace x with (R <| procs := ps |> <| nswtch := n' |> <| held := [Lvdisk] |> <| vdisk := v |>) end.
  2: { subst R. clearbody sector ty. clear -i b d. destruct r; cbn. rewrite list_insert_insert_eq.
       unfold moved. by case_bool_decide. }
  apply wp_vd_set, wp_bind. eapply (wp_free_request i ty sector v); [done|done| |exact (eq_trans (proj1 Hw) Hl)|].
  { rsimpl. intros j. by intros ?%list_elem_of_singleton. }
  intros ps' Hw'. rsimpl in Hw'. eapply wp_release; [done|].
  specialize (HQ ps' n' _ (woken_trans _ _ _ _ (eq_rect_r (λ c, woken c _ _) Hw Hc) Hw') Hfi).
  subst R. clear -HQ Hh. destruct r; cbn in Hh. by subst.
Qed.
End rw.


Definition irq_sched : Sched := {| sched_steps := λ _, disk_irq; sched_bound := 1 |}.

Lemma irq_steps n s : @sched_steps irq_sched n s = disk_irq s.
Proof. cbv delta [sched_steps irq_sched]. cbv beta iota. reflexivity. Qed.

Lemma idle_thread : @thread idle (machine disk0) 1.
Proof.
  destruct (machine_thread _ disk0_range) as [_ ? ? ? ? ?]. by split.
Qed.

