(* ===== verification/ConsoleThms.v ===== *)
(** * Formatted output and the console's line discipline *)
From S2P Require Import Prelude.
From S2P Require Import Mem.
From S2P Require Import Params.
From S2P Require Import State.
From S2P Require Import Sched.
From S2P Require Import Console.
From S2P Require Import Wp.
From S2P Require Import SchedSpec.
From S2P Require Import ConsoleSpec.
#[local] Open Scope Z_scope.

(** ** Ring buffers with free-running 32-bit counters

    The console and pipes keep bytes in an array indexed by a counter modulo its
    size; the counters wrap around at [2 ^ 32].  [ring d N r n]: the [n] bytes
    from counter [r] on. *)

Definition ring (d : list Z) (N r : Z) (n : nat) : list Z :=
  (λ k, d !!! Z.to_nat ((r + Z.of_nat k) mod N)) <$> seq 0 n.

Lemma length_ring d N r n : length (ring d N r n) = n.
Proof. unfold ring. by rewrite length_fmap, length_seq. Qed.

Lemma ring_app d N r n m : ring d N r (n + m) = ring d N r n ++ ring d N (r + Z.of_nat n) m.
Proof.
  unfold ring. rewrite seq_app, fmap_app. f_equal. simpl.
  rewrite <-(Nat.add_0_r n) at 1. rewrite <-fmap_add_seq, <-list_fmap_compose. apply list_fmap_ext.
  intros i k _. simpl. do 3 f_equal. lia.
Qed.

Lemma ring_snoc d N r n : ring d N r (S n) = ring d N r n ++ [d !!! Z.to_nat ((r + Z.of_nat n) mod N)].
Proof. rewrite <-Nat.add_1_r, ring_app. unfold ring at 2. simpl. by rewrite Z.add_0_r. Qed.

Lemma ring_cons d N r n : ring d N r (S n) = d !!! Z.to_nat (r mod N) :: ring d N (r + 1) n.
Proof. change (S n) with (1 + n)%nat. rewrite ring_app. unfold ring at 1. simpl. by rewrite Z.add_0_r. Qed.

(** The size of the array divides the range of the counters. *)
Lemma ring_mod d N r m n : (N | m) → 0 < N → 0 < m → ring d N (r mod m) n = ring d N r n.
Proof.
  intros [q ->] HN Hm. unfold ring. apply list_fmap_ext. intros i k _. do 2 f_equal.
  rewrite <-(Zplus_mod_idemp_l r), <-(Zplus_mod_idemp_l (r mod _)). do 2 f_equal.
  apply Z.mod_mod_divide. by exists q.
Qed.

Lemma mod_ne x y N : 0 < N → x < y < x + N → y mod N ≠ x mod N.
Proof.
  intros HN Hxy E. assert ((y - x) mod N = 0) as H0.
  { rewrite Zminus_mod, E, Z.sub_diag. by rewrite Z.mod_0_l by lia. }
  rewrite Z.mod_small in H0 by lia. lia.
Qed.

(** A byte stored outside the window does not show in it. *)
Lemma ring_insert_out d N r n p c :
  0 < N → r + Z.of_nat n <= p < r + N → ring (<[Z.to_nat (p mod N) := c]> d) N r n = ring d N r n.
Proof.
  intros HN Hp. unfold ring. apply list_fmap_ext. intros i k Hk. apply lookup_seq in Hk as [-> Hk].
  apply list_lookup_total_insert_ne. intros E%Z2Nat.inj; try (apply Z.mod_pos_bound; lia).
  revert E. apply mod_ne; lia.
Qed.

Lemma ring_push d N r n c :
  0 < N → Z.of_nat (length d) = N → Z.of_nat n < N →
  ring (<[Z.to_nat ((r + Z.of_nat n) mod N) := c]> d) N r (S n) = ring d N r n ++ [c].
Proof.
  intros HN Hd Hn. rewrite ring_snoc, ring_insert_out by lia. do 2 f_equal.
  apply list_lookup_total_insert_eq. pose proof (Z.mod_pos_bound (r + Z.of_nat n) N). lia.
Qed.

(** The number that a reader makes of printed text. *)
Definition read_number (base : Z) (bs : list Z) : Z :=
  match bs with
  | 45 :: ds => - value base (rev ds)
  | ds => value base (rev ds)
  end.

Lemma read_digits base ds : Forall (λ c, 48 <= c <= 102) ds → read_number base (rev ds) = value base ds.
Proof.
  intros Hd. unfold read_number. rewrite <-(rev_involutive ds) at 2.
  apply Forall_rev in Hd. destruct Hd as [|c ds' Hc Hd]; [done|].
  destruct (decide (c = 45)) as [->|Hc']; [lia|].
  destruct c as [|c|c]; try done. do 6 (destruct c as [c|c|]; try done).
Qed.

Lemma number_value xx base (sign : bool) :
  base = 10 ∨ base = 16 → (if sign then - 2 ^ 63 <= xx < 2 ^ 63 else 0 <= xx < 2 ^ 64) →
  read_number base (number xx base sign) = xx.
Proof.
  intros Hb Hx. unfold number. set (neg := sign && bool_decide (xx < 0)).
  set (y := u64 (if neg then - xx else xx)).
  assert (y = if neg then - xx else xx) as Hy.
  { subst y neg. destruct sign; cbn [andb]; [case_bool_decide|]; apply uN_small; lia. }
  assert (0 <= y < 2 ^ 64) as Hr by (apply Z.mod_pos_bound; lia).
  assert (y < base ^ Z.of_nat 64) as Hf.
  { eapply Z.lt_le_trans; [apply Hr|]. apply Z.pow_le_mono_l. lia. }
  assert (value base (printint_digits 64 y base) = y) as Hv by (apply printint_digits_value; lia).
  pose proof (printint_digits_ascii 64 y base ltac:(lia) ltac:(lia)) as Ha.
  destruct neg; cbn [app].
  - cbn [read_number]. rewrite rev_involutive, Hv, Hy. lia.
  - rewrite (read_digits _ _ Ha), Hv, Hy. done.
Qed.

(** printint prints a number, signed or unsigned, in base 10 or 16, so that
    reading the printed text back gives the number; the text, sign included, fits
    the 20 bytes of the buffer, and nothing but the UART's output changes. *)
Theorem printint_roundtrip (base : Z) (sign : bool) (xx : Z) (h : heap) (r : sys) :
  base = 10 ∨ base = 16 → (if sign then - 2 ^ 63 <= xx < 2 ^ 63 else 0 <= xx < 2 ^ 64) →
  ∃ bs, printint xx base sign (St h r) = Ok tt (St h (r <| uart_out := uart_out r ++ bs |>)) ∧
    read_number base bs = xx ∧ (length bs <= 20)%nat.
Proof.
  intros Hb Hx. exists (number xx base sign).
  assert (wp (printint xx base sign) (λ _ s, s = St h (out r (number xx base sign))) (St h r)) as Hw.
  { apply wp_printint; [done|destruct sign; lia|done]. }
  apply wp_ok in Hw as ([] & s' & Hrun & ->). split_and!; [exact Hrun|by apply number_value|].
  pose proof (number_fits xx base sign Hb ltac:(destruct sign; lia)) as Hl. cbn zeta in Hl.
  unfold number. rewrite length_app, length_rev in *. lia.
Qed.

Lemma printint_roundtrip_witness :
  ∃ bs, printint (- 2 ^ 63) 10 true (St ∅ (sys0 ∅)) = Ok tt (St ∅ ((sys0 ∅) <| uart_out := [] ++ bs |>)) ∧
    read_number 10 bs = - 2 ^ 63 ∧ (length bs <= 20)%nat.
Proof. apply (printint_roundtrip 10 true (- 2 ^ 63) ∅ (sys0 ∅)); [by left|split; [reflexivity|reflexivity]]. Defined.



(** ** The line discipline *)

(** What a keystroke does to the bytes that are ready for a reader, [com], and
    to the line being edited, [ed]. *)
Definition line_edit (com ed : list Z) (c : Z) : list Z * list Z :=
  if decide (c = Ctrl 80) then (com, ed)
  else if decide (c = Ctrl 85) then (com, [])
  else if decide (c = Ctrl 72 ∨ c = 127) then (com, removelast ed)
  else if decide (c ≠ 0 ∧ Z.of_nat (length com + length ed) < INPUT_BUF_SIZE) then
    let c := if decide (c = 13) then 10 else c in
    if decide (c = 10 ∨ c = Ctrl 68 ∨ Z.of_nat (length com + length ed) + 1 = INPUT_BUF_SIZE)
    then (com ++ ed ++ [c], []) else (com, ed ++ [c])
  else (com, ed).

(** The ring buffer of the console holds [com] and then [ed]. *)
Record cons_ok (cs : consst) (com ed : list Z) : Prop := {
  co_len : Z.of_nat (length (c_buf cs)) = INPUT_BUF_SIZE;
  co_w : c_w cs = u32 (c_r cs + Z.of_nat (length com));
  co_e : c_e cs = u32 (c_r cs + Z.of_nat (length com + length ed));
  co_fit : Z.of_nat (length com + length ed) <= INPUT_BUF_SIZE;
  co_ring : ring (c_buf cs) INPUT_BUF_SIZE (c_r cs) (length com + length ed) = com ++ ed;
  co_nl : 10 ∉ ed
}.

Lemma cons_ring_split cs com ed : cons_ok cs com ed →
  ring (c_buf cs) INPUT_BUF_SIZE (c_r cs) (length com) = com ∧
  ring (c_buf cs) INPUT_BUF_SIZE (c_r cs + Z.of_nat (length com)) (length ed) = ed.
Proof.
  intros [_ _ _ _ Hr _]. rewrite ring_app in Hr. apply app_inj_1 in Hr; [done|]. by rewrite length_ring.
Qed.

Lemma u32_mod_ring x : u32 x mod INPUT_BUF_SIZE = x mod INPUT_BUF_SIZE.
Proof. unfold uN, INPUT_BUF_SIZE. apply Z.mod_mod_divide. by exists (2 ^ 25). Qed.

Lemma u32_sub_counter x n m : 0 <= n <= m → m <= INPUT_BUF_SIZE → u32 (u32 (x + m) - u32 (x + n)) = m - n.
Proof.
  intros Hn Hm. unfold uN. rewrite <-Zminus_mod. replace (x + m - (x + n)) with (m - n) by lia.
  apply Z.mod_small. unfold INPUT_BUF_SIZE in Hm. lia.
Qed.

(** The last byte of the line is removed. *)
Lemma cons_erase cs com ed c : cons_ok cs com (ed ++ [c]) → cons_ok (cs <| c_e := u32 (c_e cs - 1) |>) com ed.
Proof.
  intros [Hl Hw He Hf Hr Hn]. rewrite length_app in *. cbn [length] in *. split; rsimpl; try done.
  - rewrite He. unfold uN. rewrite Zminus_mod_idemp_l. f_equal. lia.
  - lia.
  - replace (length com + (length ed + 1))%nat with (S (length com + length ed)) in Hr by lia.
    rewrite ring_snoc, app_assoc in Hr. apply app_inj_2 in Hr; [apply Hr|done].
  - intros Hin. apply Hn. apply elem_of_app. by left.
Qed.

(** The byte that kill_line looks at. *)
Lemma cons_last_byte cs com ed c :
  cons_ok cs com (ed ++ [c]) →
  c_buf cs !!! Z.to_nat (u32 (c_e cs - 1) mod INPUT_BUF_SIZE) = c ∧ c_e cs ≠ c_w cs.
Proof.
  intros [Hl Hw He Hf Hr Hn]. rewrite length_app in *. cbn [length] in *. split.
  - replace (length com + (length ed + 1))%nat with (S (length com + length ed)) in Hr by lia.
    rewrite ring_snoc, app_assoc in Hr. apply app_inj_2 in Hr as [_ [= Hc]]; [|done].
    rewrite <-Hc. do 2 f_equal. rewrite u32_mod_ring, He.
    rewrite <-(u32_mod_ring (u32 _ - 1)). unfold uN. rewrite Zminus_mod_idemp_l. fold (u32 (c_r cs + Z.of_nat (length com + (length ed + 1)) - 1)).
    rewrite u32_mod_ring. f_equal. lia.
  - rewrite He, Hw. intros E.
    pose proof (u32_sub_counter (c_r cs) (Z.of_nat (length com)) (Z.of_nat (length com + (length ed + 1))) ltac:(lia) ltac:(lia)) as E'.
    rewrite E, Z.sub_diag in E'. unfold uN in E'. rewrite Z.mod_0_l in E' by lia. lia.
Qed.

Lemma cons_append cs com ed c :
  cons_ok cs com ed → Z.of_nat (length com + length ed) < INPUT_BUF_SIZE → 0 <= c < 256 →
  let cs' := cs <| c_buf := <[Z.to_nat (c_e cs mod INPUT_BUF_SIZE) := u8 c]> (c_buf cs) |> <| c_e := u32 (c_e cs + 1) |> in
  (c ≠ 10 → cons_ok cs' com (ed ++ [c])) ∧ cons_ok (cs' <| c_w := c_e cs' |>) (com ++ ed ++ [c]) [] ∧
  u32 (c_e cs' - c_r cs') = Z.of_nat (length com + length ed) + 1.
Proof.
  intros [Hl Hw He Hf Hr Hn] Hroom Hc cs'.
  assert (c_e cs' = u32 (c_r cs + Z.of_nat (S (length com + length ed)))) as He'.
  { subst cs'. rsimpl. rewrite He. unfold uN. rewrite Zplus_mod_idemp_l. f_equal. lia. }
  assert (ring (c_buf cs') INPUT_BUF_SIZE (c_r cs) (S (length com + length ed)) = com ++ ed ++ [c]) as Hr'.
  { subst cs'. rsimpl. rewrite He, u32_mod_ring, ring_push by (unfold INPUT_BUF_SIZE in *; lia).
    rewrite Hr, uN_small by lia. by rewrite <-app_assoc. }
  assert (Z.of_nat (length (c_buf cs')) = INPUT_BUF_SIZE) as Hl' by (subst cs'; rsimpl; by rewrite length_insert).
  split_and!.
  - intros Hnl. split; rewrite ?length_app; cbn [length]; try done.
    + rewrite He'. change (c_r cs') with (c_r cs). f_equal. lia.
    + lia.
    + rewrite <-Hr'. change (c_r cs') with (c_r cs). f_equal. lia.
    + intros [?|?%list_elem_of_singleton]%elem_of_app; congruence.
  - split; rsimpl; rewrite ?length_app; cbn [length]; try done.
    + rewrite He'. change (c_r cs') with (c_r cs). f_equal. lia.
    + rewrite He'. change (c_r cs') with (c_r cs). f_equal. lia.
    + lia.
    + rewrite app_nil_r, <-Hr'. change (c_r cs') with (c_r cs). f_equal. lia.
    + apply not_elem_of_nil.
  - rewrite He'. change (c_r cs') with (c_r cs). unfold uN. rewrite Zminus_mod_idemp_l.
    replace (c_r cs + Z.of_nat (S (length com + length ed)) - c_r cs) with (Z.of_nat (length com + length ed) + 1) by lia.
    apply Z.mod_small. unfold INPUT_BUF_SIZE in *. lia.
Qed.

Section console.
Context `{Linker} `{Sched}.

Lemma cons_out (r : sys) cs bs : out (r <| cons := cs |>) bs = (out r bs) <| cons := cs |>.
Proof. by destruct r. Qed.

Lemma wp_kill_line fuel com ed (Q : unit → st sys → Prop) h r :
  cons_ok (cons r) com ed → (length ed < fuel)%nat →
  (∀ cs bs, cons_ok cs com [] → Q tt (St h ((out r bs) <| cons := cs |>))) →
  wp (kill_line fuel) Q (St h r).
Proof.
  revert fuel r; induction ed as [|c ed IH] using rev_ind; intros [|fuel] r Hok Hf HQ;
    rewrite ?length_app in Hf; simpl in Hf; try lia; cbn [kill_line]; apply wp_bind, wp_rd.
  - rewrite bool_decide_eq_false_2.
    + apply wp_ret. specialize (HQ (cons r) [] Hok). rewrite out_nil in HQ. by destruct r.
    + destruct Hok as [_ -> -> _ _ _]. rewrite Nat.add_0_r. tauto.
  - destruct (cons_last_byte _ _ _ _ Hok) as [Hb Hew].
    rewrite bool_decide_eq_true_2.
    2: { split; [done|]. rewrite Hb. destruct Hok as [_ _ _ _ _ Hn]. intros ->. apply Hn. set_solver. }
    apply wp_bind, wp_upd, wp_bind, wp_consputc.
    apply IH; [by apply (cons_erase _ _ _ c)|lia|]. intros cs bs Hcs.
    specialize (HQ cs (cput BACKSPACE ++ bs) Hcs). rewrite <-out_app in HQ. by destruct r.
Qed.

Lemma wp_procdump (Q : unit → st sys → Prop) h r :
  Lpr ∉ held r → length (procs r) = NPROC → (∀ bs, Q tt (St h (out r bs))) → wp procdump Q (St h r).
Proof.
  intros Hh Hl HQ. apply wp_bind, (wp_printf [Lit 10] [] [10]); [by repeat constructor|done|done|].
  apply (wp_for_each (λ _ s, ∃ bs, s = St h (out r bs))); [by eexists| |intros s (bs & ->); apply HQ].
  intros j s Hj (bs & ->). destruct (lookup_lt_is_Some_2 (procs r) j) as [p Hp]; [lia|].
  apply wp_bind, (wp_proc_get _ p); [done|]. case_bool_decide; [apply wp_ret; by eexists|].
  apply wp_bind. eapply (wp_printf [Num 0 Fd; Lit 32; Fs; Lit 32; Fs]); [by repeat constructor|reflexivity|done|].
  apply wp_bind, (wp_printf [Lit 10] [] [10]); [by repeat constructor|done|done|].
  apply wp_ret. rewrite !out_app. by eexists.
Qed.

Lemma wp_insert_char c com ed (Q : unit → st sys → Prop) h r :
  cons_ok (cons r) com ed → Z.of_nat (length com + length ed) < INPUT_BUF_SIZE → 0 <= c < 256 →
  no_proc_lock (held r) → length (procs r) = NPROC →
  (∀ cs bs ps, woken (cur r) (procs r) ps →
    (if decide (c = 10 ∨ c = Ctrl 68 ∨ Z.of_nat (length com + length ed) + 1 = INPUT_BUF_SIZE)
     then cons_ok cs (com ++ ed ++ [c]) [] else cons_ok cs com (ed ++ [c])) →
    Q tt (St h ((out r bs) <| cons := cs |> <| procs := ps |>))) →
  wp (consputc c;;
      upd (λ k, k <| cons ::= λ cs,
        cs <| c_buf := <[Z.to_nat (c_e cs mod INPUT_BUF_SIZE) := u8 c]> (c_buf cs) |>
           <| c_e := u32 (c_e cs + 1) |> |>);;
      cs ← rd cons;
      when (bool_decide (c = 10 ∨ c = Ctrl 68 ∨ u32 (c_e cs - c_r cs) = INPUT_BUF_SIZE))
        (upd (λ k, k <| cons ::= λ cs, cs <| c_w := c_e cs |> |>);; wakeup ChConsR)) Q (St h r).
Proof.
  intros Hok Hroom Hc Hh Hl HQ. destruct (cons_append _ _ _ _ Hok Hroom Hc) as (H1 & H2 & H3).
  set (cs' := (cons r) <| c_buf := _ |> <| c_e := _ |>) in *.
  apply wp_bind, wp_consputc, wp_bind, wp_upd, wp_bind, wp_rd. cbn [rest].
  match goal with |- wp _ _ (St h ?x) => replace x with ((out r (cput c)) <| cons := cs' |>) by (by destruct r) end.
  change (cons ((out r (cput c)) <| cons := cs' |>)) with cs'. rewrite H3.
  apply wp_when; intros Hd%bool_decide_eq_true || intros Hd%bool_decide_eq_false.
  - apply wp_bind, wp_upd. apply wp_wakeup; [done|done|].
    specialize (HQ (cs' <| c_w := c_e cs' |>) (cput c) _ (wake_woken ChConsR _ _)).
    rewrite decide_True in HQ by done. specialize (HQ H2). by destruct r.
  - specialize (HQ cs' (cput c) _ (woken_refl _ _)). rewrite decide_False in HQ by done.
    assert (c ≠ 10) as Hnl by tauto. specialize (HQ (H1 Hnl)). by destruct r.
Qed.

Lemma wp_keystroke c com ed (Q : unit → st sys → Prop) h r :
  cons_ok (cons r) com ed → 0 <= c < 256 → Lpr ∉ held r → no_proc_lock (held r) → length (procs r) = NPROC →
  (∀ cs bs ps, woken (cur r) (procs r) ps → cons_ok cs (line_edit com ed c).1 (line_edit com ed c).2 →
    Q tt (St h ((out r bs) <| cons := cs |> <| procs := ps |>))) →
  wp (keystroke c) Q (St h r).
Proof.
  intros Hok Hc Hp Hh Hl HQ. pose proof (woken_refl (cur r) (procs r)) as Hwr.
  assert (∀ bs, (out r bs) <| cons := cons r |> <| procs := procs r |> = out r bs) as Hid by (intros; by destruct r).
  unfold keystroke, line_edit in *. apply wp_bind, wp_rd. cbn [rest].
  destruct (decide (c = Ctrl 80)); [rewrite bool_decide_eq_true_2 by done|rewrite bool_decide_eq_false_2 by done].
  { apply wp_procdump; [done|done|]. intros bs. rewrite <-Hid. by apply HQ. }
  destruct (decide (c = Ctrl 85)); [rewrite bool_decide_eq_true_2 by done|rewrite bool_decide_eq_false_2 by done].
  { eapply wp_kill_line; [done| |].
    - destruct Hok as [_ -> -> Hf _ _]. rewrite u32_sub_counter by lia. lia.
    - intros cs bs Hcs. specialize (HQ cs bs _ Hwr Hcs). by destruct r. }
  destruct (decide (c = Ctrl 72 ∨ c = 127)); [rewrite bool_decide_eq_true_2 by done|rewrite bool_decide_eq_false_2 by done].
  { destruct ed as [|x ed _] using rev_ind.
    - rewrite bool_decide_eq_false_2 by (destruct Hok as [_ -> -> _ _ _]; rewrite Nat.add_0_r; tauto).
      apply wp_ret. specialize (HQ _ [] _ Hwr Hok). rewrite Hid, out_nil in HQ. done.
    - destruct (cons_last_byte _ _ _ _ Hok) as [_ Hne]. rewrite bool_decide_eq_true_2 by done.
      rewrite removelast_last in HQ. apply wp_bind, wp_upd, wp_consputc.
      specialize (HQ _ (cput BACKSPACE) _ Hwr (cons_erase _ _ _ _ Hok)). by destruct r. }
  replace (u32 (c_e (cons r) - c_r (cons r))) with (Z.of_nat (length com + length ed)).
  2: { destruct Hok as [_ _ -> Hf _ _]. unfold uN. rewrite Zminus_mod_idemp_l.
       replace (c_r (cons r) + Z.of_nat (length com + length ed) - c_r (cons r)) with (Z.of_nat (length com + length ed)) by lia.
       symmetry. apply Z.mod_small. unfold INPUT_BUF_SIZE in Hf. lia. }
  destruct (decide (c ≠ 0 ∧ _)) as [[? ?]|]; [rewrite bool_decide_eq_true_2 by done|rewrite bool_decide_eq_false_2 by done].
  - cbn zeta in HQ. assert ((if bool_decide (c = 13) then 10 else c) = (if decide (c = 13) then 10 else c)) as ->
      by (destruct (decide (c = 13)); [by rewrite bool_decide_eq_true_2|by rewrite bool_decide_eq_false_2]).
    set (c' := if decide (c = 13) then 10 else c) in *.
    eapply wp_insert_char; [done|done|unfold c'; destruct (decide (c = 13)); lia|done|done|].
    intros cs bs ps Hps Hcs. apply HQ; [done|]. by destruct (decide (c' = 10 ∨ _)).
  - apply wp_ret. specialize (HQ _ [] _ Hwr Hok). rewrite Hid, out_nil in HQ. done.
Qed.

(** C26. The console interrupt handler edits lines as [line_edit] says: control-U
    erases the line, control-H and delete one character; other characters are
    appended, a carriage return as a newline, unless the buffer is full; a
    newline, control-D or a full buffer hands the line to the readers.  The ring
    buffer and its wrapping counters represent the ready bytes and the line
    ([cons_ok]); besides them only output is printed and sleepers are woken. *)
Theorem consoleintr_edits (c : Z) (com ed : list Z) (h : heap) (r : sys) :
  cons_ok (cons r) com ed → 0 <= c < 256 → held r = [] → length (procs r) = NPROC →
  ∃ cs bs ps, consoleintr c (St h r) =
      Ok tt (St h (r <| uart_out := uart_out r ++ bs |> <| cons := cs |> <| procs := ps |>)) ∧
    cons_ok cs (line_edit com ed c).1 (line_edit com ed c).2 ∧ woken (cur r) (procs r) ps.
Proof.
  intros Hok Hc Hh Hl.
  assert (wp (consoleintr c) (λ _ s, ∃ cs bs ps, s = St h ((out r bs) <| cons := cs |> <| procs := ps |>) ∧
    cons_ok cs (line_edit com ed c).1 (line_edit com ed c).2 ∧ woken (cur r) (procs r) ps) (St h r)) as Hw.
  { unfold consoleintr. apply wp_bind, wp_acquire; [rewrite Hh; apply not_elem_of_nil|]. rewrite Hh.
    apply wp_bind, (wp_keystroke c com ed); [done|done|set_solver|by intros j ?%list_elem_of_singleton|done|].
    intros cs bs ps Hps Hcs. eapply wp_release; [done|]. exists cs, bs, ps. split; [|done].
    destruct r; cbn in Hh. by subst. }
  apply wp_ok in Hw as ([] & s' & Hrun & cs & bs & ps & -> & HQ). by exists cs, bs, ps.
Qed.
End console.

(** Typing a newline after "a" on an empty console. *)
Definition typed_a : consst := ConsSt (97 :: replicate 127 0) 0 0 1.

Lemma consoleintr_edits_witness :
  ∃ cs bs ps, consoleintr 13 (St ∅ ((sys0 ∅) <| cons := typed_a |>)) =
      Ok tt (St ∅ ((sys0 ∅) <| cons := typed_a |> <| uart_out := [] ++ bs |> <| cons := cs |> <| procs := ps |>)) ∧
    cons_ok cs [97; 10] [].
Proof.
  destruct (consoleintr_edits 13 [] [97] ∅ ((sys0 ∅) <| cons := typed_a |>)) as (cs & bs & ps & Hrun & Hok & _).
  - split; try reflexivity; [by vm_compute|]. intros H%list_elem_of_singleton. discriminate H.
  - lia.
  - reflexivity.
  - reflexivity.
  - exists cs, bs, ps. split; [exact Hrun|exact Hok].
Defined.
