(* ===== verification/PathThms.v ===== *)
(** * Path names: skipelem splits a path into its elements *)
From S2P Require Import Prelude.
From S2P Require Import Params.
From S2P Require Import KString.
From S2P Require Import Fs.
#[local] Open Scope Z_scope.

(** The elements of a path: its maximal parts without a slash. *)
Fixpoint split_path (path cur : list Z) : list (list Z) :=
  match path with
  | [] => match cur with [] => [] | _ => [cur] end
  | c :: path' =>
      if decide (c = slash)
      then match cur with [] => split_path path' [] | _ => cur :: split_path path' [] end
      else split_path path' (cur ++ [c])
  end.
Definition elements (path : list Z) : list (list Z) := split_path path [].

(** The loop of namex, [while((path = skipelem(path, name)) != 0)], as the
    sequence of (name, rest of the path) that its body sees. *)
Fixpoint visits (fuel : nat) (path name : list Z) : option (list (list Z * list Z)) :=
  match fuel with
  | O => None
  | S fuel' =>
      match skipelem path name with
      | None => Some []
      | Some (path', name') =>
          match visits fuel' path' name' with
          | Some vs => Some ((name', path') :: vs)
          | None => None
          end
      end
  end.

(** The name in the buffer: its first DIRSIZ bytes up to a NUL. *)
Definition name_of (buf : list Z) : list Z := cstr (take (Z.to_nat DIRSIZ) buf).

Lemma skip_slashes_split path : split_path (skip_slashes path) [] = split_path path [].
Proof.
  induction path as [|c path IH]; simpl; [done|]. case_bool_decide; [by rewrite decide_True|]. done.
Qed.

Lemma skip_slashes_length path : (length (skip_slashes path) <= length path)%nat.
Proof. induction path as [|c path IH]; simpl; [done|]. case_bool_decide; simpl; lia. Qed.

Lemma skip_slashes_head path c p : skip_slashes path = c :: p → c ≠ slash.
Proof. induction path as [|x path IH]; simpl; [done|]. case_bool_decide; [done|]. by intros [= -> _]. Qed.

Lemma take_elem_split path s rest cur :
  take_elem path = (s, rest) →
  split_path path cur = match cur ++ s with [] => split_path rest [] | e => e :: split_path (skip_slashes rest) [] end ∧
  (length s + length rest = length path)%nat ∧ path = s ++ rest ∧ slash ∉ s.
Proof.
  revert s cur; induction path as [|c path IH]; simpl; intros s cur.
  - intros [= <- <-]. rewrite app_nil_r. split_and!; try done; [by destruct cur|apply not_elem_of_nil].
  - case_bool_decide as Hc.
    + intros [= <- <-]. rewrite app_nil_r. subst.
      split_and!; try done; [|apply not_elem_of_nil]. rewrite decide_True by done.
      destruct cur; cbn [split_path skip_slashes]; [by rewrite decide_True|].
      rewrite bool_decide_eq_true_2 by done. by rewrite skip_slashes_split.
    + destruct (take_elem path) as [s' rest'] eqn:Et. intros [= <- <-].
      destruct (IH s' (cur ++ [c]) eq_refl) as (IH1 & IH2 & IH3 & IH4). rewrite decide_False by done.
      split_and!; [|simpl; lia|by rewrite IH3|set_solver].
      rewrite IH1, <-app_assoc. done.
Qed.

Lemma cstr_app_nul s t : 0 ∉ s → cstr (s ++ 0 :: t) = s.
Proof.
  induction s as [|c s IH]; simpl; intros Hs; [done|]. rewrite bool_decide_eq_false_2 by set_solver.
  f_equal. apply IH. set_solver.
Qed.

Lemma cstr_no_nul s : 0 ∉ s → cstr s = s.
Proof.
  induction s as [|c s IH]; simpl; intros Hs; [done|]. rewrite bool_decide_eq_false_2 by set_solver.
  f_equal. apply IH. set_solver.
Qed.

(** One call: the element, truncated to DIRSIZ bytes, and the rest. *)
Lemma skipelem_spec path name :
  length name = Z.to_nat DIRSIZ → 0 ∉ path →
  match skipelem path name with
  | None => elements path = []
  | Some (path', name') =>
      ∃ e, elements path = e :: elements path' ∧ name_of name' = take (Z.to_nat DIRSIZ) e ∧
        length name' = Z.to_nat DIRSIZ ∧ (0 ∉ path') ∧ (length path' < length path)%nat ∧ (path' = [] ∨ head path' ≠ Some slash)
  end.
Proof.
  intros Hn H0. unfold skipelem, elements. rewrite <-(skip_slashes_split path).
  pose proof (skip_slashes_length path) as Hlen.
  assert (0 ∉ skip_slashes path) as H0'.
  { clear -H0. induction path as [|c path IH]; simpl; [done|]. case_bool_decide; [apply IH; set_solver|done]. }
  destruct (skip_slashes path) as [|c p] eqn:Ep; [done|].
  pose proof (skip_slashes_head _ _ _ Ep) as Hc. destruct (take_elem (c :: p)) as [s rest] eqn:Et.
  destruct (take_elem_split _ _ _ [] Et) as (E1 & E2 & E3 & E4). rewrite E1. simpl.
  assert (s ≠ []) as Hs. { intros ->. simpl in E3. subst rest. simpl in Et. rewrite bool_decide_eq_false_2 in Et by done. by destruct (take_elem p). }
  exists s. rewrite E3 in H0'. apply not_elem_of_app in H0' as [Hs0 Hr0].
  assert (0 ∉ skip_slashes rest) as Hrest.
  { clear -Hr0. induction rest as [|x rest IH]; simpl; [done|]. case_bool_decide; [apply IH; set_solver|done]. }
  pose proof (skip_slashes_length rest) as Hl2.
  split_and!; [by destruct s| | |done| |].
  - unfold name_of. case_bool_decide as Hd.
    + rewrite take_take, Nat.min_id, cstr_no_nul; [done|]. intros Hin. apply Hs0. rewrite <-(take_drop (Z.to_nat DIRSIZ) s). apply elem_of_app. by left.
    + rewrite (take_ge s) by (unfold DIRSIZ in *; lia). rewrite take_ge; [by apply cstr_app_nul|].
      rewrite length_app; simpl; rewrite length_drop. unfold DIRSIZ in *. lia.
  - case_bool_decide as Hd; [rewrite length_take; lia|]. rewrite length_app; simpl; rewrite length_drop. unfold DIRSIZ in *. lia.
  - destruct s; [done|]. simpl in E2. simpl in Hlen. lia.
  - destruct (skip_slashes rest) as [|x q] eqn:Eq; [by left|]. right. intros [= ->]. by apply (skip_slashes_head _ _ _ Eq).
Qed.

(** Calling skipelem until it returns 0, as namex does, goes through exactly
    the elements of the path, in order, whatever the number and place of slashes:
    each is in name, cut to DIRSIZ bytes, and the rest of the path that is returned
    with it has the remaining elements, so that it is empty exactly for the last
    one, which is what nameiparent tests.  The loop ends within the length of the
    path plus one calls. *)
Theorem skipelem_splits (path name : list Z) :
  length name = Z.to_nat DIRSIZ → 0 ∉ path →
  ∃ vs, visits (S (length path)) path name = Some vs ∧
    (λ v, name_of v.1) <$> vs = (take (Z.to_nat DIRSIZ)) <$> elements path ∧
    ∀ k n p, vs !! k = Some (n, p) → elements p = drop (S k) (elements path) ∧ (p = [] ↔ S k = length vs).
Proof.
  intros Hn H0. remember (S (length path)) as fuel eqn:Ef. assert (length path < fuel)%nat as Hf by lia. clear Ef.
  revert path name Hn H0 Hf; induction fuel as [|fuel IH]; intros path name Hn H0 Hf; [lia|]. cbn [visits].
  pose proof (skipelem_spec path name Hn H0) as Hs. destruct (skipelem path name) as [[path' name']|].
  - destruct Hs as (e & He & Hne & Hn' & H0' & Hl & Hhd).
    destruct (IH path' name' Hn' H0' ltac:(lia)) as (vs & Hv & Hm & Hk). rewrite Hv. eexists. split; [done|].
    assert (path' = [] ↔ vs = []) as Hnil.
    { split.
      - intros ->. destruct vs; [done|]. by rewrite fmap_cons in Hm.
      - intros ->. destruct Hhd as [->|Hhd]; [done|]. destruct path' as [|x q]; [done|].
        exfalso. destruct fuel as [|fuel]; [done|]. cbn [visits] in Hv. destruct (skipelem (x :: q) name') as [[p2 n2]|] eqn:E.
        + by destruct (visits fuel p2 n2).
        + unfold skipelem in E. simpl in E. rewrite !bool_decide_eq_false_2 in E by (simpl in Hhd; congruence).
          by case_match; case_match. }
    split; [rewrite fmap_cons, He, fmap_cons; simpl; by rewrite Hne, Hm|].
    intros [|k] n p; simpl.
    + intros [= <- <-]. rewrite He. split; [done|]. rewrite Hnil. destruct vs; [done|]. split; [done|]. simpl. lia.
    + intros Hkk. destruct (Hk k n p Hkk) as [E1 E2]. rewrite He. split; [done|]. rewrite E2. lia.
  - exists []. split; [done|]. rewrite Hs. split; [done|]. intros k n p. by rewrite lookup_nil.
Qed.

(** "//a/bb" *)
Lemma skipelem_splits_witness :
  ∃ vs, visits 7 [47; 47; 97; 47; 98; 98] name0 = Some vs ∧ (λ v, name_of v.1) <$> vs = [[97]; [98; 98]].
Proof.
  destruct (skipelem_splits [47; 47; 97; 47; 98; 98] name0) as (vs & Hv & Hm & _).
  - reflexivity.
  - apply (bool_decide_unpack _). vm_compute. exact I.
  - exists vs. split; [exact Hv|]. rewrite Hm. reflexivity.
Defined.
