(* ===== verification/FsTx.v ===== *)
(** * Reading and writing blocks inside a transaction

    [rtxn r pid L V bs lk]: [V] maps every block to its contents as the thread of
    process [pid] sees them, [bs] are the blocks that were logged and not yet
    committed, and [lk] maps the blocks whose buffers the thread has locked to
    these buffers.  [txn r pid L V bs lk]: the thread is inside a transaction and
    may also write.  The rules for bread, brelse and log_write keep them; [V]
    changes only where the file system writes. *)
From S2P Require Import Prelude.
From S2P Require Import Mem.
From S2P Require Import Params.
From S2P Require Import State.
From S2P Require Import Sched.
From S2P Require Import Bio.
From S2P Require Import Log.
From S2P Require Import Wp.
From S2P Require Import SchedSpec.
From S2P Require Import BioSpec.
From S2P Require Import BioRef.
From S2P Require Import LogSpec.
From S2P Require Import LogRecover.
From S2P Require Import LogThms.
#[local] Open Scope Z_scope.

Definition bit (P : Prop) `{Decision P} : Z := if decide P then 1 else 0.

(** [bs] after log_write of block [b] *)
Definition addlog (bs : list Z) (b : Z) : list Z := if decide (b ∈ bs) then bs else bs ++ [b].

Section tx.
Context `{DevInv}.

Record txn_refs (r : sys) (pid L : Z) (V : gmap Z (list Z)) (bs : list Z) (lk : gmap Z nat) (refs : refmap) : Prop := {
  tx_thread : thread r pid;
  tx_cache : bcache (bufs r) (disk r) pid refs (dom lk);
  tx_log : log_mem (lg r) L bs;
  tx_nodup : NoDup bs;
  tx_ok : Forall blockno_ok bs;
  tx_cnt : ∀ b, cnt refs b = bit (b ∈ bs) + bit (b ∈ dom lk);
  tx_idx : ∀ b i, lk !! b = Some i → ∃ c d, refs !! b = Some (i, c, d);
  tx_view : ∀ b, view refs (disk r) b = V !! b;
  tx_clean : ∀ b, b ∉ bs → V !! b = disk r !! b
}.

Definition rtxn (r : sys) (pid L : Z) (V : gmap Z (list Z)) (bs : list Z) (lk : gmap Z nat) : Prop :=
  ∃ refs, txn_refs r pid L V bs lk refs.

Definition txn (r : sys) (pid L : Z) (V : gmap Z (list Z)) (bs : list Z) (lk : gmap Z nat) : Prop :=
  rtxn r pid L V bs lk ∧ 1 <= lg_outstanding (lg r).

(** Only the cache, the log's header in memory and the console have changed, and
    sleepers were woken. *)
Definition tstep (r r' : sys) : Prop :=
  bstep [] (r <| lg := lg r' |>) r' ∧ lg_outstanding (lg r') = lg_outstanding (lg r) ∧
  lg_committing (lg r') = lg_committing (lg r).

Lemma tstep_bstep r r' : bstep [] r r' → tstep r r'.
Proof.
  intros Hs. unfold tstep. rewrite (bstep_lg _ _ _ Hs), lg_id. done.
Qed.

Lemma tstep_refl r : tstep r r.
Proof. apply tstep_bstep, bstep_refl. Qed.

Lemma tstep_trans r1 r2 r3 : tstep r1 r2 → tstep r2 r3 → tstep r1 r3.
Proof.
  intros (S1 & O1 & C1) (S2 & O2 & C2). split; [|by rewrite O2, O1, C2, C1].
  apply (bstep_set_lg _ _ _ (lg r3)) in S1. eapply bstep_nil; [|exact S2]. by destruct r1.
Qed.

Lemma tstep_lg r B l :
  lg_outstanding l = lg_outstanding (lg r) → lg_committing l = lg_committing (lg r) →
  tstep r (r <| bufs := B |> <| lg := l |>).
Proof.
  intros Ho Hc. split; [|done]. rsimpl.
  replace (r <| bufs := B |> <| lg := l |>) with (r <| lg := l |> <| bufs := B |>) by (by destruct r). apply bstep_bufs.
Qed.

Lemma tstep_txn r r' pid L V bs lk V' bs' lk' :
  tstep r r' → txn r pid L V bs lk → rtxn r' pid L V' bs' lk' → txn r' pid L V' bs' lk'.
Proof. intros (_ & Ho & _) [_ Hout] Ht. split; [done|]. by rewrite Ho. Qed.

Lemma tstep_disk r r' : tstep r r' → disk r' = disk r ∧ dtrace r' = dtrace r.
Proof. intros ((_ & HD & HT) & _). split; [exact HD|]. by rewrite app_nil_r in HT. Qed.

Lemma bit_bound P `{Decision P} : 0 <= bit P <= 1.
Proof. unfold bit. case_decide; lia. Qed.

Lemma tx_refs_bound r pid L V bs lk refs : txn_refs r pid L V bs lk refs → (size refs <= length bs + size lk)%nat.
Proof.
  intros Htx. rewrite <-(size_dom refs), <-(size_dom lk).
  transitivity (size (list_to_set (C := gset Z) bs ∪ dom lk)).
  - apply subseteq_size. intros b Hb. apply elem_of_dom in Hb as [[[i c] d] Hr].
    pose proof (tx_cnt _ _ _ _ _ _ _ Htx b) as Hc. unfold cnt in Hc. rewrite Hr in Hc.
    destruct (bc_get (tx_cache _ _ _ _ _ _ _ Htx) _ _ _ _ Hr) as (_ & x & _ & _ & _ & _ & _ & _ & Hpos & _).
    unfold bit in Hc. rewrite elem_of_union, elem_of_list_to_set. destruct (decide (b ∈ bs)); [by left|].
    destruct (decide (b ∈ dom lk)); [by right|]. lia.
  - rewrite size_union_alt, size_list_to_set by (by apply (tx_nodup _ _ _ _ _ _ _ Htx)).
    assert (size (dom lk ∖ list_to_set bs) <= size (dom lk))%nat by (apply subseteq_size; set_solver). lia.
Qed.
End tx.

Section ops.
Context `{Linker} `{Sched} `{BlockDevOk}.

Lemma wp_rtx_bread bno d pid L V bs lk (Q : nat → st sys → Prop) h r :
  rtxn r pid L V bs lk → V !! bno = Some d → lk !! bno = None → (length bs + size lk < NBUF)%nat →
  (∀ i r', tstep r r' → rtxn r' pid L V bs (<[bno := i]> lk) → Q i (St h r')) →
  wp (bread ROOTDEV bno) Q (St h r).
Proof.
  intros [refs Htx] HV Hlk Hroom HQ. pose proof (tx_refs_bound _ _ _ _ _ _ _ Htx) as Hsz.
  destruct Htx as [Hth HB Hm Hnd Hok Hcnt Hidx Hview Hclean].
  assert (bno ∉ dom lk) as Hnl by (by apply not_elem_of_dom).
  eapply wp_bread; [exact Hth|exact HB|by rewrite Hview|done| |right; lia|].
  { rewrite Hcnt. pose proof (bit_bound (bno ∈ bs)). pose proof (bit_bound (bno ∈ dom lk)). lia. }
  intros i r' Hs Hwas HB'. apply HQ; [by apply tstep_bstep|]. exists (ref refs bno i d).
  pose proof (bstep_disk _ _ Hs) as HD. pose proof (bstep_lg _ _ _ Hs) as HL.
  split; rewrite ?HD, ?HL; try done.
  - by eapply thread_bstep.
  - by rewrite dom_insert_L, <-HD.
  - intros b. unfold cnt. destruct (decide (b = bno)) as [->|Hb].
    + rewrite ref_lookup, Hcnt. unfold bit at 2 4. rewrite decide_False by done. rewrite decide_True; [lia|set_solver].
    + rewrite ref_lookup_ne by done. fold (cnt refs b). rewrite Hcnt. unfold bit at 2 4.
      rewrite dom_insert_L. repeat case_decide; set_solver.
  - intros b j. rewrite lookup_insert_Some. intros [[<- <-]|[Hb Hj]]; [rewrite ref_lookup; by eexists _, _|].
    rewrite ref_lookup_ne by done. by apply Hidx.
  - intros b. unfold view. destruct (decide (b = bno)) as [->|Hb]; [by rewrite ref_lookup|].
    rewrite ref_lookup_ne by done. apply Hview.
Qed.

Lemma wp_rtx_get bno i d pid L V bs lk (Q : buf → st sys → Prop) h r :
  rtxn r pid L V bs lk → lk !! bno = Some i → V !! bno = Some d →
  (∀ b, b_data b = d → b_blockno b = bno → Q b (St h r)) → wp (buf_get i) Q (St h r).
Proof.
  intros [refs Htx] Hlk HV HQ. destruct (tx_idx _ _ _ _ _ _ _ Htx _ _ Hlk) as (c & d' & Hr).
  pose proof (tx_view _ _ _ _ _ _ _ Htx bno) as Hv. unfold view in Hv. rewrite Hr, HV in Hv. injection Hv as ->.
  eapply wp_buf_read; [apply Htx|exact Hr|done].
Qed.

Lemma wp_rtx_brelse bno i pid L V bs lk (Q : unit → st sys → Prop) h r :
  rtxn r pid L V bs lk → lk !! bno = Some i →
  (∀ r', tstep r r' → rtxn r' pid L V bs (delete bno lk) → Q tt (St h r')) →
  wp (brelse i) Q (St h r).
Proof.
  intros [refs Htx] Hlk HQ. destruct Htx as [Hth HB Hm Hnd Hok Hcnt Hidx Hview Hclean].
  destruct (Hidx _ _ Hlk) as (c & d & Hr). assert (bno ∈ dom lk) as Hin by (by apply elem_of_dom_2 in Hlk).
  pose proof (Hview bno) as HV. unfold view in HV. rewrite Hr in HV.
  pose proof (Hcnt bno) as Hc. unfold cnt, bit at 2 in Hc. rewrite Hr, decide_True in Hc by done.
  eapply wp_brelse; [exact Hth|exact HB|exact Hr|done| |].
  { intros ->. rewrite <-Hclean, <-HV; [done|]. unfold bit in Hc. destruct (decide (bno ∈ bs)); [lia|done]. }
  intros r' Hs HB'. apply HQ; [by apply tstep_bstep|]. exists (unref refs bno).
  pose proof (bstep_disk _ _ Hs) as HD. pose proof (bstep_lg _ _ _ Hs) as HL.
  assert (unref refs bno !! bno = if decide (c = 1) then None else Some (i, c - 1, d)) as Hu.
  { unfold unref. rewrite Hr. destruct (decide (c = 1)); [apply lookup_delete_eq|apply lookup_insert_eq]. }
  split; rewrite ?HD, ?HL; try done.
  - by eapply thread_bstep.
  - by rewrite dom_delete_L, <-HD.
  - intros b. unfold cnt. destruct (decide (b = bno)) as [->|Hb].
    + rewrite Hu. unfold bit at 2. rewrite (decide_False (P := bno ∈ _)) by set_solver. destruct (decide (c = 1)); lia.
    + rewrite unref_lookup_ne by done. fold (cnt refs b). rewrite Hcnt. unfold bit at 2 4.
      rewrite dom_delete_L. repeat case_decide; set_solver.
  - intros b j. rewrite lookup_delete_Some. intros [Hb Hj]. rewrite unref_lookup_ne by done. by apply Hidx.
  - intros b. destruct (decide (b = bno)) as [->|Hb]; [|unfold view; rewrite unref_lookup_ne by done; apply Hview].
    unfold view. rewrite Hu. destruct (decide (c = 1)); [|by rewrite <-HV]. symmetry. apply Hclean.
    unfold bit in Hc. destruct (decide (bno ∈ bs)); [lia|done].
Qed.

Lemma wp_tx_bread bno d pid L V bs lk (Q : nat → st sys → Prop) h r :
  txn r pid L V bs lk → V !! bno = Some d → lk !! bno = None → (length bs + size lk < NBUF)%nat →
  (∀ i r', tstep r r' → txn r' pid L V bs (<[bno := i]> lk) → Q i (St h r')) →
  wp (bread ROOTDEV bno) Q (St h r).
Proof.
  intros Htx HV Hlk Hroom HQ. eapply wp_rtx_bread; [by destruct Htx|done|done|done|].
  intros i r' Hs Ht. apply HQ; [done|]. by eapply tstep_txn.
Qed.

Lemma wp_tx_get bno i d pid L V bs lk (Q : buf → st sys → Prop) h r :
  txn r pid L V bs lk → lk !! bno = Some i → V !! bno = Some d →
  (∀ b, b_data b = d → b_blockno b = bno → Q b (St h r)) → wp (buf_get i) Q (St h r).
Proof. intros [Htx _]. by eapply wp_rtx_get. Qed.

Lemma wp_tx_brelse bno i pid L V bs lk (Q : unit → st sys → Prop) h r :
  txn r pid L V bs lk → lk !! bno = Some i →
  (∀ r', tstep r r' → txn r' pid L V bs (delete bno lk) → Q tt (St h r')) →
  wp (brelse i) Q (St h r).
Proof.
  intros Htx Hlk HQ. eapply wp_rtx_brelse; [by destruct Htx|done|].
  intros r' Hs Ht. apply HQ; [done|]. by eapply tstep_txn.
Qed.

Lemma wp_tx_write {A} g bno i d pid L V bs lk (k : K A) (Q : A → st sys → Prop) h r :
  txn r pid L V bs lk → lk !! bno = Some i → V !! bno = Some d → blockno_ok bno → (length bs < NLOG)%nat →
  (∀ r', tstep r r' → txn r' pid L (<[bno := g d]> V) (addlog bs bno) lk → wp k Q (St h r')) →
  wp (buf_upd i (λ b, b <| b_data := g (b_data b) |>);; log_write i;; k) Q (St h r).
Proof.
  intros Htx0 Hlk HV Hbok Hn HQ. pose proof Htx0 as [[refs [Hth HB Hm Hnd Hok Hcnt Hidx Hview Hclean]] Ho].
  destruct (Hidx _ _ Hlk) as (c & d' & Hr). pose proof (Hview bno) as Hv. unfold view in Hv. rewrite Hr, HV in Hv.
  injection Hv as ->. pose proof (Hcnt bno) as Hc. unfold cnt in Hc. rewrite Hr in Hc.
  pose proof (bit_bound (bno ∈ bs)). pose proof (bit_bound (bno ∈ dom lk)).
  apply wp_bind. eapply wp_buf_data; [exact HB|exact Hr|]. intros B1 HB1. apply wp_bind.
  assert (∀ c' b, view (<[bno := (i, c', g d)]> refs) (disk r) b = <[bno := g d]> V !! b) as Hview'.
  { intros c' b. unfold view. destruct (decide (b = bno)) as [->|Hb]; [by rewrite !lookup_insert_eq|].
    rewrite !lookup_insert_ne by done. apply Hview. }
  assert (∀ c' b j, lk !! b = Some j → ∃ c0 d0, <[bno := (i, c', g d)]> refs !! b = Some (j, c0, d0)) as Hidx'.
  { intros c' b j Hj. destruct (decide (b = bno)) as [->|Hb]; [rewrite lookup_insert_eq; simplify_eq; by eexists _, _|].
    rewrite lookup_insert_ne by done. by apply Hidx. }
  unfold addlog in HQ. destruct (decide (bno ∈ bs)) as [Hin|Hin].
  - eapply wp_log_write_absorb; [by apply thread_bufs|exact HB1|exact Hm|apply lookup_insert_eq|done|done|done|done|].
    match goal with |- wp _ _ (St _ ?r1) => assert (tstep r r1) as HS by apply tstep_bstep, bstep_bufs end.
    apply HQ; [done|]. eapply tstep_txn; [exact HS|exact Htx0|]. exists (<[bno := (i, c, g d)]> refs). split; try done.
    + by apply thread_bufs.
    + intros b. unfold cnt. destruct (decide (b = bno)) as [->|Hb]; [by rewrite lookup_insert_eq|].
      rewrite lookup_insert_ne by done. apply Hcnt.
    + apply Hidx'.
    + intros b Hb. rewrite lookup_insert_ne by set_solver. by apply Hclean.
  - eapply wp_log_write_append; [by apply thread_bufs|exact HB1|exact Hm|apply lookup_insert_eq|done|done|done|done|lia|].
    intros B2 l2 HB2 Hm2 Ho2 Hc2. rewrite insert_insert_eq in HB2.
    match goal with |- wp _ _ (St _ ?r1) => assert (tstep r r1) as HS
      by (eapply tstep_trans; [apply tstep_bstep, bstep_bufs|by apply tstep_lg]) end.
    apply HQ; [done|]. eapply tstep_txn; [exact HS|exact Htx0|].
    exists (<[bno := (i, c + 1, g d)]> refs). split; try done.
    + by apply thread_lg, thread_bufs, thread_bufs.
    + apply NoDup_app. split_and!; [done|set_solver|apply NoDup_singleton].
    + apply Forall_app. by split; [|constructor].
    + intros b. unfold cnt. destruct (decide (b = bno)) as [->|Hb].
      * rewrite lookup_insert_eq, Hc. unfold bit at 1 3. rewrite decide_False by done. rewrite decide_True by set_solver. lia.
      * rewrite lookup_insert_ne by done. fold (cnt refs b). rewrite Hcnt. unfold bit at 1 3. repeat case_decide; set_solver.
    + apply Hidx'.
    + intros b Hb. rewrite lookup_insert_ne by set_solver. apply Hclean. set_solver.
Qed.
End ops.
