(* ===== verification/BlockSpec.v ===== *)
(** * The free map and the block allocator

    [used s V b]: the bit of block [b] in the free map, as the thread sees it in
    [V]. *)
From S2P Require Import Prelude.
From S2P Require Import Mem.
From S2P Require Import Params.
From S2P Require Import State.
From S2P Require Import Sched.
From S2P Require Import Console.
From S2P Require Import Bio.
From S2P Require Import Log.
From S2P Require Import Fs.
From S2P Require Import Wp.
From S2P Require Import SchedSpec.
From S2P Require Import ConsoleSpec.
From S2P Require Import BioSpec.
From S2P Require Import BioRef.
From S2P Require Import LogSpec.
From S2P Require Import FsTx.
#[local] Open Scope Z_scope.

(** ** Bits *)
Definition bit_on (d : list Z) (bi : Z) : bool := negb (bool_decide (Z.land (bit_byte d bi) (bit_mask bi) = 0)).

Lemma mask_test x k : 0 <= k → bool_decide (Z.land x (Z.shiftl 1 k) = 0) = negb (Z.testbit x k).
Proof.
  intros Hk. apply eq_true_iff_eq. rewrite bool_decide_eq_true, negb_true_iff. split.
  - intros E. apply (f_equal (λ y, Z.testbit y k)) in E. rewrite Z.land_spec, Z.shiftl_spec, Z.sub_diag, Z.bits_0 in E by lia.
    simpl in E. by rewrite andb_true_r in E.
  - intros E. apply Z.bits_inj_0. intros j. rewrite Z.land_spec. destruct (decide (j < 0)) as [?|Hj].
    { by rewrite Z.testbit_neg_r. }
    destruct (decide (j = k)) as [->|Hne]; [by rewrite E|]. rewrite Z.shiftl_spec by lia.
    destruct (decide (j < k)); [rewrite (Z.testbit_neg_r 1) by lia; apply andb_false_r|].
    replace (Z.testbit 1 (j - k)) with false; [apply andb_false_r|]. symmetry. apply (Z.bits_above_log2 1 (j - k)); simpl; lia.
Qed.

Lemma bit_on_test d bi : 0 <= bi → bit_on d bi = Z.testbit (bit_byte d bi) (bi mod 8).
Proof. intros Hb. unfold bit_on, bit_mask. rewrite mask_test by (apply Z.mod_pos_bound; lia). apply negb_involutive. Qed.

Lemma testbit_mask k j : 0 <= k → 0 <= j → Z.testbit (Z.shiftl 1 k) j = bool_decide (j = k).
Proof.
  intros Hk Hj. rewrite Z.shiftl_1_l, Z.pow2_bits_eqb by lia. apply eq_true_iff_eq.
  rewrite Z.eqb_eq, bool_decide_eq_true. split; congruence.
Qed.

Lemma u8_testbit x j : 0 <= j < 8 → Z.testbit (u8 x) j = Z.testbit x j.
Proof. intros Hj. unfold uN. by rewrite Z.mod_pow2_bits_low by lia. Qed.

Lemma byte_index a b : 0 <= a → 0 <= b → a / 8 = b / 8 → a mod 8 = b mod 8 → a = b.
Proof. intros Ha Hb Hd Hm. rewrite (Z.div_mod a 8), (Z.div_mod b 8) by lia. congruence. Qed.

(** Setting or clearing a bit changes that bit only. *)
Lemma bit_set_on d bi bj :
  0 <= bi < 8 * Z.of_nat (length d) → 0 <= bj →
  bit_on (bit_set d bi) bj = bool_decide (bj = bi) || bit_on d bj.
Proof.
  intros Hi Hj. rewrite !bit_on_test by lia. unfold bit_set. unfold bit_byte at 1.
  assert (0 <= bi / 8 < Z.of_nat (length d)) as Hq by (split; [apply Z.div_pos; lia|apply Z.div_lt_upper_bound; lia]).
  assert (0 <= bj / 8) by (apply Z.div_pos; lia).
  pose proof (Z.mod_pos_bound bi 8). pose proof (Z.mod_pos_bound bj 8).
  destruct (decide (bj / 8 = bi / 8)) as [E|Hne].
  - rewrite E, list_lookup_total_insert_eq by lia. rewrite u8_testbit by lia.
    rewrite Z.lor_spec. unfold bit_mask. rewrite testbit_mask by lia. unfold bit_byte at 2. rewrite E, orb_comm. f_equal.
    apply bool_decide_ext. split; [intros; symmetry; apply byte_index; try lia; congruence|congruence].
  - rewrite list_lookup_total_insert_ne by lia. rewrite bool_decide_eq_false_2 by congruence. done.
Qed.

Lemma bit_clear_on d bi bj :
  0 <= bi < 8 * Z.of_nat (length d) → 0 <= bj →
  bit_on (bit_clear d bi) bj = negb (bool_decide (bj = bi)) && bit_on d bj.
Proof.
  intros Hi Hj. rewrite !bit_on_test by lia. unfold bit_clear. unfold bit_byte at 1.
  assert (0 <= bi / 8 < Z.of_nat (length d)) as Hq by (split; [apply Z.div_pos; lia|apply Z.div_lt_upper_bound; lia]).
  assert (0 <= bj / 8) by (apply Z.div_pos; lia).
  pose proof (Z.mod_pos_bound bi 8). pose proof (Z.mod_pos_bound bj 8).
  destruct (decide (bj / 8 = bi / 8)) as [E|Hne].
  - rewrite E, list_lookup_total_insert_eq by lia. rewrite u8_testbit by lia.
    rewrite Z.land_spec, Z.lnot_spec by lia. unfold bit_mask. rewrite testbit_mask by lia. unfold bit_byte at 2.
    rewrite E, andb_comm. do 2 f_equal.
    apply bool_decide_ext. split; [intros; symmetry; apply byte_index; try lia; congruence|congruence].
  - rewrite list_lookup_total_insert_ne by lia. rewrite bool_decide_eq_false_2 by congruence. done.
Qed.

Lemma length_bit_set d bi : length (bit_set d bi) = length d.
Proof. apply length_insert. Qed.
Lemma length_bit_clear d bi : length (bit_clear d bi) = length d.
Proof. apply length_insert. Qed.

(** The scan finds the first bit that is off, below the ends of the block and of
    the file system. *)
Lemma balloc_scan_spec fuel d b bi size :
  BPB <= bi + Z.of_nat fuel → 0 <= bi →
  match balloc_scan fuel d b bi size with
  | Some k => bi <= k < BPB ∧ b + k < size ∧ bit_on d k = false ∧ ∀ j, bi <= j < k → bit_on d j = true
  | None => ∀ j, bi <= j < BPB → b + j < size → bit_on d j = true
  end.
Proof.
  revert bi; induction fuel as [|fuel IH]; intros bi Hf Hbi; cbn [balloc_scan]; [intros j Hj; lia|].
  case_bool_decide as Hin; [|intros j Hj Hs; lia]. case_bool_decide as Hz.
  - split_and!; try lia. unfold bit_on. by rewrite bool_decide_eq_true_2.
  - specialize (IH (bi + 1) ltac:(lia) ltac:(lia)).
    assert (bit_on d bi = true) as Hon by (unfold bit_on; by rewrite bool_decide_eq_false_2).
    destruct (balloc_scan fuel d b (bi + 1) size) as [k|].
    + destruct IH as (I1 & I2 & I3 & I4). split_and!; try lia; [done|]. intros j Hj.
      destruct (decide (j = bi)) as [->|]; [done|]. apply I4. lia.
    + intros j Hj Hs. destruct (decide (j = bi)) as [->|]; [done|]. apply IH; lia.
Qed.

(** ** The free map *)
Definition used (s : superblock) (V : gmap Z (list Z)) (b : Z) : bool :=
  match V !! BBLOCK b s with Some d => bit_on d (b mod BPB) | None => true end.

(** The blocks of the image are there, the free map lies in it, and it marks block
    0 and itself as used. *)
Record fs_ok (s : superblock) (V : gmap Z (list Z)) : Prop := {
  fo_size : 0 < sb_size s < 2 ^ 31;
  fo_bmap : 0 <= sb_bmapstart s ∧ sb_bmapstart s + sb_size s / BPB < sb_size s;
  fo_blocks : ∀ b, 0 <= b < sb_size s → ∃ d, V !! b = Some d ∧ length d = Z.to_nat BSIZE;
  fo_boot : used s V 0 = true;
  fo_meta : ∀ b, 0 <= b < sb_size s → used s V (BBLOCK b s) = true
}.

Lemma BPB_eq : BPB = 8 * BSIZE.
Proof. reflexivity. Qed.

Lemma BBLOCK_eq s V b : fs_ok s V → 0 <= b < sb_size s → BBLOCK b s = b / BPB + sb_bmapstart s.
Proof.
  intros [Hs [Hb0 Hb1] _ _ _] Hb. unfold BBLOCK. apply uN_small.
  pose proof (Z.div_pos b BPB ltac:(lia) ltac:(reflexivity)).
  pose proof (Z.div_le_mono b (sb_size s) BPB ltac:(reflexivity) ltac:(lia)). lia.
Qed.

Lemma BBLOCK_range s V b : fs_ok s V → 0 <= b < sb_size s → 0 <= BBLOCK b s < sb_size s.
Proof.
  intros Hok Hb. rewrite (BBLOCK_eq _ _ _ Hok Hb). destruct Hok as [Hs [Hb0 Hb1] _ _ _].
  pose proof (Z.div_pos b BPB ltac:(lia) ltac:(reflexivity)).
  pose proof (Z.div_le_mono b (sb_size s) BPB ltac:(reflexivity) ltac:(lia)). lia.
Qed.

(** Blocks with the same block of the free map. *)
Lemma BBLOCK_inj s V a b :
  fs_ok s V → 0 <= a < sb_size s → 0 <= b < sb_size s → BBLOCK a s = BBLOCK b s → a / BPB = b / BPB.
Proof. intros Hok Ha Hb. rewrite (BBLOCK_eq _ _ _ Hok Ha), (BBLOCK_eq _ _ _ Hok Hb). lia. Qed.

Lemma div_mod_eq a b : 0 <= a → 0 <= b → a / BPB = b / BPB → a mod BPB = b mod BPB → a = b.
Proof. intros Ha Hb Hd Hm. rewrite (Z.div_mod a BPB), (Z.div_mod b BPB) by (change BPB with 8192; lia). congruence. Qed.

(** Replacing the block of the free map that has the bit of [b]. *)
Lemma used_set_bit s V b d (f : list Z → Z → list Z) v :
  fs_ok s V → 0 <= b < sb_size s → V !! BBLOCK b s = Some d →
  (∀ j, 0 <= j → bit_on (f d (b mod BPB)) j = if decide (j = b mod BPB) then v else bit_on d j) →
  ∀ a, 0 <= a < sb_size s →
    used s (<[BBLOCK b s := f d (b mod BPB)]> V) a = if decide (a = b) then v else used s V a.
Proof.
  intros Hok Hb Hd Hf a Ha. unfold used.
  assert (BPB ≠ 0) as HB by (change BPB with 8192; lia).
  pose proof (Z.mod_pos_bound a BPB ltac:(reflexivity)).
  destruct (decide (BBLOCK a s = BBLOCK b s)) as [E|Hne].
  - rewrite E, lookup_insert_eq, Hd, Hf by lia. pose proof (BBLOCK_inj _ _ _ _ Hok Ha Hb E) as Eq.
    destruct (decide (a = b)) as [->|Hab]; [by rewrite decide_True|].
    rewrite decide_False; [done|]. intros Em. apply Hab. by apply div_mod_eq; try lia.
  - rewrite lookup_insert_ne by congruence. rewrite decide_False by congruence. done.
Qed.

Lemma bit_index_ok V s b d :
  fs_ok s V → 0 <= b < sb_size s → V !! BBLOCK b s = Some d → 0 <= b mod BPB < 8 * Z.of_nat (length d).
Proof.
  intros Hok Hb Hd. destruct (fo_blocks _ _ Hok _ (BBLOCK_range _ _ _ Hok Hb)) as (d' & Hd' & Hl).
  rewrite Hd in Hd'. injection Hd' as <-. rewrite Hl. pose proof (Z.mod_pos_bound b BPB ltac:(reflexivity)).
  rewrite BPB_eq in *. unfold BSIZE in *. lia.
Qed.

(** Changing the data of a block that the free map does not lie in. *)
Lemma used_data s V b x a :
  fs_ok s V → 0 <= a < sb_size s → used s V b = false → used s (<[b := x]> V) a = used s V a.
Proof.
  intros Hok Ha Hb. unfold used at 1 2. rewrite lookup_insert_ne; [done|]. intros ->.
  by rewrite (fo_meta _ _ Hok a Ha) in Hb.
Qed.

Section block.
Context `{Linker} `{Sched} `{BlockDevOk}.

Lemma tstep_sb r r' : tstep r r' → sb r' = sb r.
Proof. intros ((Hf & _) & _). apply (bf_sb _ _ Hf). Qed.

Lemma tstep_out r o : tstep r (out r o).
Proof. apply tstep_bstep. split_and!; [by frame_step|done|by rewrite app_nil_r]. Qed.

Lemma txn_out r o pid L V bs lk : txn r pid L V bs lk → txn (out r o) pid L V bs lk.
Proof. intros [[refs [[] ? ? ? ? ? ? ? ?]] ?]. split; [|done]. exists refs. by split. Qed.

Definition zeros : list Z := replicate (Z.to_nat BSIZE) 0.

Lemma wp_bzero b d pid L V bs lk (Q : unit → st sys → Prop) h r :
  txn r pid L V bs lk → V !! b = Some d → lk !! b = None → 0 <= b < 2 ^ 31 →
  (length bs < NLOG)%nat → (length bs + size lk < NBUF)%nat →
  (∀ r', tstep r r' → txn r' pid L (<[b := zeros]> V) (addlog bs b) lk → Q tt (St h r')) →
  wp (bzero ROOTDEV b) Q (St h r).
Proof.
  intros Htx HV Hlk Hb Hn Hroom HQ. unfold bzero. rewrite uN_small by lia.
  apply wp_bind. eapply wp_tx_bread; [exact Htx|done|done|done|]. intros i r1 S1 T1.
  eapply (wp_tx_write (λ _, zeros) b); [exact T1|apply lookup_insert_eq|exact HV|done|done|].
  intros r2 S2 T2. eapply wp_tx_brelse; [exact T2|apply lookup_insert_eq|]. intros r3 S3 T3.
  apply HQ; [by eapply tstep_trans; [|eapply tstep_trans]|]. by rewrite delete_insert_id in T3.
Qed.

(** Blocks that the thread has locked are in use and not part of the free map. *)
Definition locks_used (s : superblock) (V : gmap Z (list Z)) (lk : gmap Z nat) : Prop :=
  ∀ b, is_Some (lk !! b) → used s V b = true ∧ ∀ a, 0 <= a < sb_size s → BBLOCK a s ≠ b.

(** What a successful allocation of block [v] does. *)
Definition allocated (s : superblock) (V : gmap Z (list Z)) (v : Z) (V' : gmap Z (list Z)) : Prop :=
  ∃ d, V !! BBLOCK v s = Some d ∧ V' = <[v := zeros]> (<[BBLOCK v s := bit_set d (v mod BPB)]> V).

Lemma chunk_div k bi : 0 <= bi < BPB → (k * BPB + bi) / BPB = k ∧ (k * BPB + bi) mod BPB = bi.
Proof.
  intros Hb. assert (BPB ≠ 0) by (change BPB with 8192; lia). rewrite Z.add_comm. split.
  - rewrite Z.div_add by done. rewrite Z.div_small by done. lia.
  - rewrite Z.mod_add by done. by apply Z.mod_small.
Qed.

Lemma chunk_used s V k bi d :
  fs_ok s V → 0 <= k → 0 <= bi < BPB → k * BPB + bi < sb_size s → V !! BBLOCK (k * BPB) s = Some d →
  BBLOCK (k * BPB + bi) s = BBLOCK (k * BPB) s ∧ used s V (k * BPB + bi) = bit_on d bi.
Proof.
  intros Hok Hk Hbi Hsz Hd. destruct (chunk_div k bi Hbi) as [E1 E2].
  assert (BBLOCK (k * BPB + bi) s = BBLOCK (k * BPB) s) as E.
  { change BPB with 8192 in Hbi, Hsz. rewrite !(BBLOCK_eq _ _ _ Hok) by (change BPB with 8192; lia).
    by rewrite E1, Z.div_mul by done. }
  split; [done|]. unfold used. by rewrite E, Hd, E2.
Qed.

(** The round of the loop in which a free block is found. *)
Lemma wp_balloc_found k bi i d pid L V bs lk (Q : Z → st sys → Prop) h r :
  let s := sb r in let v := k * BPB + bi in
  txn r pid L V bs (<[BBLOCK v s := i]> lk) → fs_ok s V → locks_used s V lk →
  lk !! BBLOCK v s = None → V !! BBLOCK v s = Some d →
  (length bs + 2 <= NLOG)%nat → (length bs + size lk + 1 < NBUF)%nat →
  0 <= bi < BPB → 0 < v < sb_size s → used s V v = false →
  (∀ r' V', tstep r r' → allocated s V v V' → txn r' pid L V' (addlog (addlog bs (BBLOCK v s)) v) lk → Q v (St h r')) →
  wp (buf_upd i (λ x, x <| b_data := bit_set (b_data x) bi |>);; log_write i;; brelse i;; bzero ROOTDEV v;; mret v) Q (St h r).
Proof.
  intros s v Htx Hok Hlu Hnl Hd Hn Hroom Hbi Hv Hfree HQ.
  pose proof (BBLOCK_range _ _ v Hok ltac:(lia)) as Hbr. pose proof (fo_size _ _ Hok) as Hsz.
  assert (v ≠ BBLOCK v s) as Hne. { intros E. pose proof (fo_meta _ _ Hok v ltac:(lia)) as Hm. rewrite <-E in Hm. congruence. }
  assert (lk !! v = None) as Hlv.
  { destruct (lk !! v) eqn:E; [|done]. destruct (Hlu v) as [Hu _]; [by rewrite E|]. congruence. }
  destruct (fo_blocks _ _ Hok v ltac:(lia)) as (dv & Hdv & _).
  eapply (wp_tx_write (λ x, bit_set x bi) (BBLOCK v s)); [exact Htx|apply lookup_insert_eq|exact Hd|unfold blockno_ok; lia|lia|].
  intros r1 S1 T1. apply wp_bind. eapply wp_tx_brelse; [exact T1|apply lookup_insert_eq|]. intros r2 S2 T2.
  rewrite delete_insert_id in T2 by done.
  assert (length (addlog bs (BBLOCK v s)) <= S (length bs))%nat as Hal.
  { unfold addlog. case_decide; [lia|]. rewrite length_app. simpl. lia. }
  apply wp_bind. eapply wp_bzero; [exact T2|by rewrite lookup_insert_ne|done|lia|lia|lia|]. intros r3 S3 T3.
  apply wp_ret. apply (HQ _ (<[v := zeros]> (<[BBLOCK v s := bit_set d (v mod BPB)]> V))).
  - by eapply tstep_trans; [|eapply tstep_trans].
  - by exists d.
  - subst v. by rewrite (proj2 (chunk_div k bi Hbi)).
Qed.

Lemma wp_balloc_loop fuel k pid L V bs lk (Q : Z → st sys → Prop) h r :
  let s := sb r in
  txn r pid L V bs lk → fs_ok s V → locks_used s V lk → (length bs + 2 <= NLOG)%nat → (length bs + size lk + 1 < NBUF)%nat →
  0 <= k → (0 < fuel)%nat → sb_size s <= (k + Z.of_nat fuel - 1) * BPB →
  (∀ b, 0 <= b < k * BPB → b < sb_size s → used s V b = true) →
  (∀ v r' V', tstep r r' → 0 < v < sb_size s → used s V v = false → (∀ b, 0 <= b < v → used s V b = true) →
     allocated s V v V' → txn r' pid L V' (addlog (addlog bs (BBLOCK v s)) v) lk → Q v (St h r')) →
  (∀ r', tstep r r' → (∀ b, 0 <= b < sb_size s → used s V b = true) → txn r' pid L V bs lk → Q 0 (St h r')) →
  wp (balloc_loop fuel ROOTDEV (k * BPB)) Q (St h r).
Proof.
  intros s Htx Hok Hlu Hn Hroom. remember s as s0 eqn:Es. subst s.
  revert k r Es Htx; induction fuel as [|fuel IH]; intros k r Es Htx Hk Hf Hsz Hbelow HQ HQ0; [lia|].
  cbn [balloc_loop]. apply wp_bind, wp_rd. rewrite <-Es. case_bool_decide as Hb.
  - assert (0 <= k * BPB < sb_size s0) as Hkb by (change BPB with 8192 in *; lia).
    destruct (fo_blocks _ _ Hok _ (BBLOCK_range _ _ _ Hok Hkb)) as (d & Hd & _).
    assert (lk !! BBLOCK (k * BPB) s0 = None) as Hnl.
    { destruct (lk !! _) eqn:E; [|done]. destruct (Hlu _ (ex_intro _ _ E)) as [_ Hno]. by destruct (Hno _ Hkb). }
    apply wp_bind. eapply wp_tx_bread; [exact Htx|exact Hd|exact Hnl|lia|]. intros i r1 S1 T1.
    apply wp_bind. eapply wp_tx_get; [exact T1|apply lookup_insert_eq|exact Hd|]. intros x Hx _. rewrite Hx.
    pose proof (balloc_scan_spec (Z.to_nat BPB) d (k * BPB) 0 (sb_size s0) ltac:(change BPB with 8192; lia) ltac:(lia)) as Hscan.
    destruct (balloc_scan _ d _ 0 _) as [bi|].
    + destruct Hscan as (Hs1 & Hs2 & Hs3 & Hs4). destruct (chunk_used _ _ k bi d Hok Hk Hs1 Hs2 Hd) as [E1 E2].
      assert (∀ j, 0 <= j < k * BPB + bi → used s0 V j = true) as Hfirst.
      { intros j Hj. destruct (decide (j < k * BPB)); [apply Hbelow; lia|].
        destruct (chunk_used _ _ k (j - k * BPB) d Hok Hk ltac:(lia) ltac:(lia) Hd) as [_ E3].
        replace (k * BPB + (j - k * BPB)) with j in E3 by lia. rewrite E3. apply Hs4. lia. }
      assert (k * BPB + bi ≠ 0) as Hv0. { intros E0. rewrite E0 in E2. rewrite (fo_boot _ _ Hok) in E2. congruence. }
      rewrite <-E1 in T1, Hd, Hnl. pose proof (tstep_sb _ _ S1) as Esb. rewrite <-Es in Esb.
      eapply wp_balloc_found; rewrite ?Esb; try done; [lia|by rewrite E2|].
      intros r' V' S' Ha T'. eapply HQ; try done; [by eapply tstep_trans|lia|by rewrite E2].
    + apply wp_bind. eapply wp_tx_brelse; [exact T1|apply lookup_insert_eq|]. intros r2 S2 T2.
      rewrite delete_insert_id in T2 by done. pose proof (tstep_trans _ _ _ S1 S2) as S12.
      replace (k * BPB + BPB) with ((k + 1) * BPB) by lia.
      eapply IH; [by rewrite (tstep_sb _ _ S12)|exact T2|lia|change BPB with 8192 in *; lia|change BPB with 8192 in *; lia| | |].
      * intros j Hj Hjs. destruct (decide (j < k * BPB)); [apply Hbelow; lia|].
        destruct (chunk_used _ _ k (j - k * BPB) d Hok Hk ltac:(change BPB with 8192 in *; lia) ltac:(lia) Hd) as [_ E3].
        replace (k * BPB + (j - k * BPB)) with j in E3 by lia. rewrite E3. apply Hscan; change BPB with 8192 in *; lia.
      * intros v r' V' S' ? ? ? ? ?. eapply HQ; try done. by eapply tstep_trans.
      * intros r' S' ? ?. apply HQ0; try done. by eapply tstep_trans.
  - apply wp_bind. change (str "balloc: out of blocks" ++ [10]) with (flat_map spell (map Lit (str "balloc: out of blocks" ++ [10]))).
    eapply wp_printf; [apply (bool_decide_unpack _); vm_compute; exact I|reflexivity| |].
    { destruct Htx as [[refs [Hth _ _ _ _ _ _ _ _]] _]. rewrite (th_held _ _ Hth). apply not_elem_of_nil. }
    apply wp_ret. apply HQ0; [apply tstep_out| |by apply txn_out]. intros b Hbb. apply Hbelow; lia.
Qed.
End block.
