(* ===== verification/BlockThms.v ===== *)
(** * Block allocation inside a transaction: theorems *)
From S2P Require Import Prelude.
From S2P Require Import Mem.
From S2P Require Import Params.
From S2P Require Import State.
From S2P Require Import Sched.
From S2P Require Import Console.
From S2P Require Import Bio.
From S2P Require Import Log.
From S2P Require Import Fs.
From S2P Require Import Wp.
From S2P Require Import SchedSpec.
From S2P Require Import BioSpec.
From S2P Require Import BioRef.
From S2P Require Import LogSpec.
From S2P Require Import LogRecover.
From S2P Require Import FsTx.
From S2P Require Import BlockSpec.
From S2P Require Import Boot0.
#[local] Open Scope Z_scope.

Lemma set_bit_on d bi j :
  0 <= bi < 8 * Z.of_nat (length d) → 0 <= j → bit_on (bit_set d bi) j = if decide (j = bi) then true else bit_on d j.
Proof. intros Hb Hj. rewrite bit_set_on by done. case_bool_decide; by case_decide. Qed.

Lemma clear_bit_on d bi j :
  0 <= bi < 8 * Z.of_nat (length d) → 0 <= j → bit_on (bit_clear d bi) j = if decide (j = bi) then false else bit_on d j.
Proof. intros Hb Hj. rewrite bit_clear_on by done. case_bool_decide; by case_decide. Qed.

(** The free map after an allocation or a release differs in one bit. *)
Lemma allocated_used s V v V' :
  fs_ok s V → 0 < v < sb_size s → used s V v = false → allocated s V v V' →
  ∀ b, 0 <= b < sb_size s → used s V' b = if decide (b = v) then true else used s V b.
Proof.
  intros Hok Hv Hfree (d & Hd & ->) b Hb.
  pose proof (bit_index_ok _ _ v d Hok ltac:(lia) Hd) as Hi.
  assert (v ≠ BBLOCK b s) as Hne. { intros E. pose proof (fo_meta _ _ Hok b Hb) as Hm. rewrite <-E in Hm. congruence. }
  unfold used at 1. rewrite lookup_insert_ne by done.
  rewrite <-(used_set_bit s V v d bit_set true Hok ltac:(lia) Hd); [done| |done].
  intros j Hj. by apply set_bit_on.
Qed.

Lemma allocated_ok s V v V' : fs_ok s V → 0 < v < sb_size s → used s V v = false → allocated s V v V' → fs_ok s V'.
Proof.
  intros Hok Hv Hfree Ha. pose proof (allocated_used _ _ _ _ Hok Hv Hfree Ha) as Hu. destruct Ha as (d & Hd & E).
  destruct (Hok) as [Hs Hbm Hbl Hbo Hme]. split; try done.
  - intros b Hb. subst V'. destruct (decide (b = v)) as [->|Hne]; [exists zeros; by rewrite lookup_insert_eq|].
    rewrite lookup_insert_ne by done. destruct (Hbl b Hb) as (db & Hdb & Hl).
    destruct (decide (b = BBLOCK v s)) as [->|Hne2]; [|exists db; by rewrite lookup_insert_ne].
    rewrite lookup_insert_eq. eexists. split; [done|]. rewrite length_bit_set. congruence.
  - rewrite Hu by lia. case_decide; [lia|done].
  - intros b Hb. rewrite Hu by (by apply (BBLOCK_range _ _ _ Hok)). case_decide; [done|]. by apply Hme.
Qed.

Section block.
Context `{Linker} `{Sched} `{BlockDevOk}.

Lemma wp_balloc pid L V bs lk (Q : Z → st sys → Prop) h r :
  let s := sb r in
  txn r pid L V bs lk → fs_ok s V → locks_used s V lk → (length bs + 2 <= NLOG)%nat → (length bs + size lk + 1 < NBUF)%nat →
  (∀ v r' V', tstep r r' → 0 < v < sb_size s → used s V v = false → (∀ b, 0 <= b < v → used s V b = true) →
     allocated s V v V' → txn r' pid L V' (addlog (addlog bs (BBLOCK v s)) v) lk → Q v (St h r')) →
  (∀ r', tstep r r' → (∀ b, 0 <= b < sb_size s → used s V b = true) → txn r' pid L V bs lk → Q 0 (St h r')) →
  wp (balloc ROOTDEV) Q (St h r).
Proof.
  intros s Htx Hok Hlu Hn Hroom HQ HQ0. subst s. apply wp_bind, wp_rd. change 0 with (0 * BPB). pose proof (fo_size _ _ Hok).
  pose proof (Z.div_mod (sb_size (sb r)) BPB ltac:(done)). pose proof (Z.mod_pos_bound (sb_size (sb r)) BPB ltac:(done)).
  pose proof (Z.div_pos (sb_size (sb r)) BPB ltac:(lia) ltac:(done)).
  eapply wp_balloc_loop; try done; [lia|change BPB with 8192 in *; lia|intros b Hb; change BPB with 8192 in *; lia].
Qed.

(** C30. balloc inside a transaction with room for two more blocks returns the
    first block that the free map has as free, marked as used and filled with
    zeros, and nothing else changes: not the bit of any other block, nor the
    contents of any block but the new one and its block of the free map.  When
    every block is used it returns 0 and nothing changes.  In both cases only the
    transaction's view changes, not the disk. *)
Theorem balloc_correct (pid L : Z) (V : gmap Z (list Z)) (bs : list Z) (lk : gmap Z nat) (h : heap) (r : sys) :
  txn r pid L V bs lk → fs_ok (sb r) V → locks_used (sb r) V lk →
  (length bs + 2 <= NLOG)%nat → (length bs + size lk + 1 < NBUF)%nat →
  ∃ v r', balloc ROOTDEV (St h r) = Ok v (St h r') ∧ disk r' = disk r ∧ sb r' = sb r ∧
   ((∃ V' bs', 0 < v < sb_size (sb r) ∧ used (sb r) V v = false ∧ (∀ b, 0 <= b < v → used (sb r) V b = true) ∧
      txn r' pid L V' bs' lk ∧ fs_ok (sb r) V' ∧ V' !! v = Some zeros ∧
      (∀ b, 0 <= b < sb_size (sb r) → used (sb r) V' b = if decide (b = v) then true else used (sb r) V b) ∧
      (∀ b, b ≠ v → b ≠ BBLOCK v (sb r) → V' !! b = V !! b) ∧ (length bs' <= length bs + 2)%nat) ∨
    v = 0 ∧ (∀ b, 0 <= b < sb_size (sb r) → used (sb r) V b = true) ∧ txn r' pid L V bs lk).
Proof.
  intros Htx Hok Hlu Hn Hroom.
  assert (wp (balloc ROOTDEV) (λ v s, ∃ r', s = St h r' ∧ tstep r r' ∧
    ((∃ V', 0 < v < sb_size (sb r) ∧ used (sb r) V v = false ∧ (∀ b, 0 <= b < v → used (sb r) V b = true) ∧
       allocated (sb r) V v V' ∧ txn r' pid L V' (addlog (addlog bs (BBLOCK v (sb r))) v) lk) ∨
     v = 0 ∧ (∀ b, 0 <= b < sb_size (sb r) → used (sb r) V b = true) ∧ txn r' pid L V bs lk)) (St h r)) as Hw.
  { eapply wp_balloc; try done.
    - intros v r' V' HS ? ? ? ? ?. exists r'. split_and!; [done|done|]. left. by exists V'.
    - intros r' HS ? ?. exists r'. split_and!; [done|done|]. by right. }
  apply wp_ok in Hw as (v & s' & Hrun & r' & -> & HS & Hcase). exists v, r'. destruct (tstep_disk _ _ HS) as [HD _].
  split_and!; [done|done|by apply tstep_sb|]. destruct Hcase as [(V' & Hv & Hfree & Hfirst & Ha & Ht)|Hz]; [left|by right].
  exists V', (addlog (addlog bs (BBLOCK v (sb r))) v). split_and!; try done; try lia.
  - by eapply allocated_ok.
  - destruct Ha as (d & _ & ->). apply lookup_insert_eq.
  - by apply allocated_used.
  - intros b Hb Hb'. destruct Ha as (d & _ & ->). by rewrite !lookup_insert_ne by congruence.
  - unfold addlog. repeat case_decide; rewrite ?length_app; simpl; lia.
Qed.

(** bfree clears the bit of a used block and changes nothing else; freeing a
    block that is free is a panic. *)
Theorem bfree_correct (b pid L : Z) (V : gmap Z (list Z)) (bs : list Z) (lk : gmap Z nat) (h : heap) (r : sys) :
  txn r pid L V bs lk → fs_ok (sb r) V → 0 <= b < sb_size (sb r) → lk !! BBLOCK b (sb r) = None →
  (length bs < NLOG)%nat → (length bs + size lk < NBUF)%nat →
  if used (sb r) V b then
    ∃ r' V', bfree ROOTDEV b (St h r) = Ok tt (St h r') ∧ disk r' = disk r ∧
      txn r' pid L V' (addlog bs (BBLOCK b (sb r))) lk ∧
      (∀ a, 0 <= a < sb_size (sb r) → used (sb r) V' a = if decide (a = b) then false else used (sb r) V a) ∧
      (∀ a, a ≠ BBLOCK b (sb r) → V' !! a = V !! a)
  else bfree ROOTDEV b (St h r) = Panic "freeing free block".
Proof.
  intros Htx Hok Hb Hnl Hn Hroom. pose proof (BBLOCK_range _ _ _ Hok Hb) as Hr. pose proof (fo_size _ _ Hok).
  destruct (fo_blocks _ _ Hok _ Hr) as (d & Hd & _). pose proof (bit_index_ok _ _ b d Hok Hb Hd) as Hi.
  assert (∃ i r1, bread ROOTDEV (BBLOCK b (sb r)) (St h r) = Ok i (St h r1) ∧ tstep r r1 ∧
    txn r1 pid L V bs (<[BBLOCK b (sb r) := i]> lk)) as (i & r1 & Hrun1 & S1 & T1).
  { assert (wp (bread ROOTDEV (BBLOCK b (sb r))) (λ i s, ∃ r1, s = St h r1 ∧ tstep r r1 ∧
      txn r1 pid L V bs (<[BBLOCK b (sb r) := i]> lk)) (St h r)) as Hw.
    { eapply wp_tx_bread; [exact Htx|exact Hd|done|done|]. intros i r1 ? ?. by exists r1. }
    apply wp_ok in Hw as (i & s & Hrun & r1 & -> & ? & ?). by exists i, r1. }
  assert (∃ x, buf_get i (St h r1) = Ok x (St h r1) ∧ b_data x = d) as (x & Hrun2 & Hx).
  { assert (wp (buf_get i) (λ x s, s = St h r1 ∧ b_data x = d) (St h r1)) as Hw
      by (eapply wp_tx_get; [exact T1|apply lookup_insert_eq|exact Hd|done]).
    apply wp_ok in Hw as (x & s & Hrun & -> & ?). by exists x. }
  assert (bfree ROOTDEV b (St h r) =
    (if bool_decide (Z.land (bit_byte d (b mod BPB)) (bit_mask (b mod BPB)) = 0) then panic "freeing free block" else
     buf_upd i (λ x, x <| b_data := bit_clear (b_data x) (b mod BPB) |>);; log_write i;; brelse i) (St h r1)) as ->.
  { rewrite <-Hx. unfold bfree. unfold mbind at 1 2 3, M_bind at 1 2 3, rd. cbn [rest]. by rewrite Hrun1, Hrun2. }
  unfold used. rewrite Hd. unfold bit_on. case_bool_decide as Hz; cbn [negb]; [done|].
  assert (wp (buf_upd i (λ x, x <| b_data := bit_clear (b_data x) (b mod BPB) |>);; log_write i;; brelse i)
    (λ _ s, ∃ r', s = St h r' ∧ tstep r1 r' ∧
      txn r' pid L (<[BBLOCK b (sb r) := bit_clear d (b mod BPB)]> V) (addlog bs (BBLOCK b (sb r))) lk) (St h r1)) as Hw.
  { eapply (wp_tx_write (λ x, bit_clear x (b mod BPB)) (BBLOCK b (sb r)));
      [exact T1|apply lookup_insert_eq|exact Hd|unfold blockno_ok; lia|done|]. intros r2 S2 T2.
    eapply wp_tx_brelse; [exact T2|apply lookup_insert_eq|]. intros r3 S3 T3. exists r3.
    split_and!; [done|by eapply tstep_trans|by rewrite delete_insert_id in T3]. }
  apply wp_ok in Hw as ([] & s & Hrun & r' & -> & S' & T'). destruct (tstep_disk _ _ (tstep_trans _ _ _ S1 S')) as [HD _].
  exists r', (<[BBLOCK b (sb r) := bit_clear d (b mod BPB)]> V). split_and!; try done.
  - intros a Ha. apply (used_set_bit (sb r) V b d bit_clear false Hok Hb Hd); [|done]. intros j Hj. by apply clear_bit_on.
  - intros a Ha. by rewrite lookup_insert_ne.
Qed.
End block.

(** ** The theorems at a concrete state

    An image of 60 blocks whose free map, block 45, marks blocks 0 and 45 as
    used; process 1 is inside an operation that has logged nothing yet. *)
Definition image (m : list Z) : gmap Z (list Z) := <[45 := m]> disk0.
Definition sb1 : superblock := SuperBlock FSMAGIC 60 0 0 0 2 32 45.
Definition image_machine (m : list Z) : sys :=
  (machine (image m)) <| sb := sb1 |> <| lg := LogSt 2 1 false ROOTDEV 0 (replicate 30 0) |>.

Lemma thread_sb `{DevInv} r pid s : thread r pid → thread (r <| sb := s |>) pid.
Proof. by intros [Ha Hb Hc Hd He Hf]. Qed.

Lemma image_bmap b : 0 <= b < 60 → BBLOCK b sb1 = 45.
Proof.
  intros Hb. unfold BBLOCK. change (sb_bmapstart sb1) with 45. by rewrite Z.div_small by (change BPB with 8192; lia).
Qed.

Section image.
Context (m : list Z) (Hm : length m = Z.to_nat BSIZE).

Lemma image_range : in_range (image m).
Proof.
  intros b. unfold image. rewrite dom_insert_L. intros [->%elem_of_singleton|Hb]%elem_of_union; [lia|].
  by apply disk0_range.
Qed.

Lemma image_txn : txn (image_machine m) 1 2 (image m) [] ∅.
Proof.
  split; [|change (1 <= 1); lia]. exists ∅. split.
  - apply thread_lg, thread_sb, machine_thread, image_range.
  - rewrite dom_empty_L. apply bufs0_ok.
  - split; reflexivity.
  - constructor.
  - constructor.
  - intros b. unfold cnt. rewrite lookup_empty. unfold bit. rewrite !decide_False; [reflexivity| |]; [|apply not_elem_of_nil].
    rewrite dom_empty_L. apply not_elem_of_empty.
  - intros b i Hi. rewrite lookup_empty in Hi. discriminate Hi.
  - intros b. unfold view. rewrite lookup_empty. reflexivity.
  - intros b _. reflexivity.
Qed.

Lemma image_blocks b : 0 <= b < 60 → ∃ d, image m !! b = Some d ∧ length d = Z.to_nat BSIZE.
Proof.
  intros Hb. unfold image. destruct (decide (b = 45)) as [->|Hne].
  - exists m. split; [apply lookup_insert_eq|done].
  - exists zero_block. rewrite lookup_insert_ne by done. split; [by apply disk0_lookup|by vm_compute].
Qed.

Lemma image_used b : 0 <= b < 60 → used sb1 (image m) b = bit_on m b.
Proof.
  intros Hb. unfold used. rewrite image_bmap by done. unfold image. rewrite lookup_insert_eq. f_equal.
  apply Z.mod_small. change BPB with 8192. lia.
Qed.

Lemma image_ok : bit_on m 0 = true → bit_on m 45 = true → fs_ok sb1 (image m).
Proof.
  intros H0 H45. split.
  - by vm_compute.
  - by vm_compute.
  - exact image_blocks.
  - by rewrite image_used by lia.
  - intros b Hb. rewrite image_bmap by done. by rewrite image_used by lia.
Qed.
End image.

Definition map_block : list Z := <[5%nat := 32]> (<[0%nat := 1]> zero_block).
Definition disk1 : gmap Z (list Z) := image map_block.
Definition fs_machine : sys := image_machine map_block.

Lemma fs_machine_txn : txn fs_machine 1 2 disk1 [] ∅.
Proof. apply image_txn. by vm_compute. Qed.

Lemma fs_machine_ok : fs_ok sb1 disk1.
Proof. by apply image_ok; vm_compute. Qed.

Lemma balloc_correct_witness :
  ∃ v r', @balloc quiet ideal_dev ROOTDEV (St ∅ fs_machine) = Ok v (St ∅ r') ∧ disk r' = disk1.
Proof.
  destruct (@balloc_correct quiet ideal_dev ideal_inv ideal_dev_ok 1 2 disk1 [] ∅ ∅ fs_machine) as (v & r' & Hrun & HD & _).
  - exact fs_machine_txn.
  - exact fs_machine_ok.
  - intros b [i Hi]. rewrite lookup_empty in Hi. discriminate Hi.
  - vm_compute. lia.
  - rewrite map_size_empty. unfold NBUF. simpl. lia.
  - exists v, r'. split; [exact Hrun|exact HD].
Defined.

Lemma bfree_correct_witness :
  ∃ r', @bfree quiet ideal_dev ROOTDEV 0 (St ∅ fs_machine) = Ok tt (St ∅ r') ∧ disk r' = disk1.
Proof.
  pose proof (@bfree_correct quiet ideal_dev ideal_inv ideal_dev_ok 0 1 2 disk1 [] ∅ ∅ fs_machine
    fs_machine_txn fs_machine_ok) as Hf.
  change (sb fs_machine) with sb1 in Hf. rewrite (fo_boot _ _ fs_machine_ok) in Hf.
  destruct Hf as (r' & V' & Hrun & HD & _).
  - split; [lia|reflexivity].
  - apply lookup_empty.
  - vm_compute. lia.
  - rewrite map_size_empty. unfold NBUF. simpl. lia.
  - exists r'. split; [exact Hrun|exact HD].
Defined.
