(* ===== verification/ItableThms.v ===== *)
(** * The table of in-memory inodes

    What iget, idup and iput promise their clients: the table is a map from a
    device and an inode number to the one entry for it and the number of
    references to that entry.  [irefs t R] relates the table to this map and
    [istep] is the effect of an operation on it. *)
From S2P Require Import Prelude.
From S2P Require Import Mem.
From S2P Require Import Params.
From S2P Require Import State.
From S2P Require Import Sched.
From S2P Require Import Bio.
From S2P Require Import Fs.
From S2P Require Import Wp.
From S2P Require Import SchedSpec.
From S2P Require Import Boot0.
#[local] Open Scope Z_scope.

Abbreviation irmap := (gmap (Z * Z) (nat * Z)).

Record irefs (t : list inode) (R : irmap) : Prop := {
  ir_ref : ∀ i ip, t !! i = Some ip → 0 <= i_ref ip;
  ir_tab : ∀ i ip, t !! i = Some ip → 0 < i_ref ip → R !! (i_dev ip, i_inum ip) = Some (i, i_ref ip);
  ir_map : ∀ k i c, R !! k = Some (i, c) →
    ∃ ip, t !! i = Some ip ∧ k = (i_dev ip, i_inum ip) ∧ i_ref ip = c ∧ 0 < c
}.

(** ** The scan of iget *)
Inductive scan_spec (t : list inode) (dev inum : Z) : option nat * option nat → Prop :=
| scan_hit i ip e : t !! i = Some ip → 0 < i_ref ip → i_dev ip = dev → i_inum ip = inum →
    scan_spec t dev inum (Some i, e)
| scan_free i ip : t !! i = Some ip → i_ref ip = 0 →
    (∀ j jp, t !! j = Some jp → 0 < i_ref jp → (i_dev jp, i_inum jp) ≠ (dev, inum)) →
    scan_spec t dev inum (None, Some i)
| scan_full : (∀ j jp, t !! j = Some jp → i_ref jp ≠ 0) →
    (∀ j jp, t !! j = Some jp → 0 < i_ref jp → (i_dev jp, i_inum jp) ≠ (dev, inum)) →
    scan_spec t dev inum (None, None).

Lemma iget_scan_ok pre t dev inum e :
  (∀ j jp, pre !! j = Some jp → 0 < i_ref jp → (i_dev jp, i_inum jp) ≠ (dev, inum)) →
  match e with
  | Some i => ∃ ip, pre !! i = Some ip ∧ i_ref ip = 0
  | None => ∀ j jp, pre !! j = Some jp → i_ref jp ≠ 0
  end →
  scan_spec (pre ++ t) dev inum (iget_scan t (length pre) dev inum e).
Proof.
  revert pre e; induction t as [|ip t IH]; intros pre e Hpre He; simpl.
  { rewrite app_nil_r. destruct e as [i|]; [destruct He as (ip & ? & ?); by eapply scan_free|by apply scan_full]. }
  case_bool_decide as Hb.
  { destruct Hb as (? & ? & ?). eapply scan_hit; [by apply list_lookup_middle|done..]. }
  replace (pre ++ ip :: t) with ((pre ++ [ip]) ++ t) by by rewrite <-app_assoc.
  replace (S (length pre)) with (length (pre ++ [ip])) by (rewrite length_app; simpl; lia).
  apply IH.
  - intros j jp [[_ Hj]|[-> ->]]%lookup_snoc_Some Hr; [by eapply Hpre|]. intros [= ? ?]. naive_solver.
  - case_bool_decide as Hn.
    + exists ip. split; [by apply list_lookup_middle|tauto].
    + destruct e as [i|].
      * destruct He as (jp & Hj & ?). exists jp. split; [by apply lookup_app_l_Some|done].
      * intros j jp [[_ Hj]|[-> ->]]%lookup_snoc_Some; [by eapply He|naive_solver].
Qed.

Lemma iget_scan_spec t dev inum : scan_spec t dev inum (iget_scan t 0 dev inum None).
Proof. by apply (iget_scan_ok []). Qed.

(** ** The table as a map *)
Lemma irefs_inj t R : irefs t R → ∀ k k' i c c', R !! k = Some (i, c) → R !! k' = Some (i, c') → k = k'.
Proof.
  intros HR k k' i c c' Hk Hk'. destruct (ir_map _ _ HR _ _ _ Hk) as (ip & Hi & -> & _).
  destruct (ir_map _ _ HR _ _ _ Hk') as (ip' & Hi' & -> & _). congruence.
Qed.

(** Entry [i] gets [c] references, all from [k] if there are any. *)
Definition setref (R : irmap) (k : Z * Z) (i : nat) (c : Z) : irmap :=
  if decide (c = 0) then delete k R else <[k := (i, c)]> R.

Lemma irefs_set t R i ip ip' :
  irefs t R → t !! i = Some ip → 0 <= i_ref ip' →
  (0 < i_ref ip → (i_dev ip', i_inum ip') = (i_dev ip, i_inum ip)) →
  (i_ref ip = 0 → R !! (i_dev ip', i_inum ip') = None) →
  irefs (<[i := ip']> t) (setref R (i_dev ip', i_inum ip') i (i_ref ip')).
Proof.
  intros HR Hi Hc Hk Hn. pose proof (lookup_lt_Some _ _ _ Hi) as Hlt. unfold setref.
  assert (∀ j c, R !! (i_dev ip', i_inum ip') = Some (j, c) → j = i) as Hown.
  { intros j c Hj. pose proof (ir_ref _ _ HR _ _ Hi). destruct (decide (i_ref ip = 0)); [naive_solver|].
    rewrite Hk, (ir_tab _ _ HR i) in Hj by (done || lia). congruence. }
  split.
  - intros j jp [(-> & <- & _)|(? & Hj)]%list_lookup_insert_Some; [done|by eapply ir_ref].
  - intros j jp [(-> & <- & _)|(Hne & Hj)]%list_lookup_insert_Some Hr.
    + rewrite decide_False by lia. apply lookup_insert_eq.
    + pose proof (ir_tab _ _ HR _ _ Hj Hr) as Ht.
      assert ((i_dev ip', i_inum ip') ≠ (i_dev jp, i_inum jp)) by (intros E; rewrite <-E in Ht; by apply Hown in Ht).
      case_decide; [by rewrite lookup_delete_ne|by rewrite lookup_insert_ne].
  - intros k j c Hj.
    assert (k ≠ (i_dev ip', i_inum ip') → R !! k = Some (j, c) → ∃ ip0, <[i := ip']> t !! j = Some ip0 ∧
      k = (i_dev ip0, i_inum ip0) ∧ i_ref ip0 = c ∧ 0 < c) as Hold.
    { intros Hne Hr. destruct (ir_map _ _ HR _ _ _ Hr) as (jp & Hjp & -> & <- & Hpos). exists jp.
      rewrite list_lookup_insert_ne; [done|]. intros ->. rewrite Hi in Hjp. injection Hjp as ->.
      by rewrite Hk in Hne. }
    case_decide as Hz.
    + apply lookup_delete_Some in Hj as []. by apply Hold.
    + apply lookup_insert_Some in Hj as [[<- [= <- <-]]|[Hne Hj]]; [|by apply Hold].
      exists ip'. rewrite list_lookup_insert_eq by done. split_and!; [done..|lia].
Qed.

(** ** Operations and their effect on the map *)
Inductive iop : Type := Iget (dev inum : Z) | Idup (i : nat) | Iput (i : nat).

Definition irun `{Sched} `{BlockDev} (o : iop) : K (option nat) :=
  match o with
  | Iget dev inum => i ← iget dev inum; mret (Some i)
  | Idup i => j ← idup i; mret (Some j)
  | Iput i => iput i;; mret None
  end.

(** A client may duplicate and drop the references it has. *)
Inductive istep : irmap → iop → option nat → irmap → Prop :=
| istep_again R dev inum i c : R !! (dev, inum) = Some (i, c) →
    istep R (Iget dev inum) (Some i) (<[(dev, inum) := (i, c + 1)]> R)
| istep_new R dev inum i : R !! (dev, inum) = None → (∀ k c, R !! k ≠ Some (i, c)) →
    istep R (Iget dev inum) (Some i) (<[(dev, inum) := (i, 1)]> R)
| istep_dup R k i c : R !! k = Some (i, c) → istep R (Idup i) (Some i) (<[k := (i, c + 1)]> R)
| istep_put R k i c : R !! k = Some (i, c) → istep R (Iput i) None (setref R k i (c - 1)).

Definition ienabled (R : irmap) (o : iop) : Prop :=
  match o with
  | Iget _ _ => True
  | Idup i | Iput i => ∃ k c, R !! k = Some (i, c)
  end.

(** No entry is the last trace of an unlinked file: iput then also frees its
    blocks. *)
Definition linked (t : list inode) : Prop :=
  ∀ i ip, t !! i = Some ip → i_valid ip = true → i_nlink ip ≠ 0.

Section itable.
Context `{Sched} `{BlockDev}.

Lemma wp_ip_upd i ip g (Q : unit → st sys → Prop) h r :
  itable r !! i = Some ip →
  Q tt (St h (r <| itable := <[i := g ip]> (itable r) |>)) → wp (ip_upd i g) Q (St h r).
Proof. intros Hi HQ. apply wp_bind, wp_bind, wp_rd. rewrite Hi. apply wp_ret. by apply wp_upd. Qed.

Lemma wp_ip_get i ip (Q : inode → st sys → Prop) h r :
  itable r !! i = Some ip → Q ip (St h r) → wp (ip_get i) Q (St h r).
Proof. intros Hi HQ. apply wp_bind, wp_rd. rewrite Hi. by apply wp_ret. Qed.

Lemma itable_held (r : sys) lk t :
  r <| held := lk :: held r |> <| itable := t |> <| held := held r |> = r <| itable := t |>.
Proof. by destruct r. Qed.

(** Update entry [i] in a critical section. *)
Lemma wp_itable_section i ip g {A} (a : A) (Q : A → st sys → Prop) h r :
  itable r !! i = Some ip →
  Q a (St h (r <| itable := <[i := g ip]> (itable r) |>)) →
  wp (ip_upd i g;; release Litable;; mret a) Q (St h (r <| held := Litable :: held r |>)).
Proof.
  intros Hi HQ. apply wp_bind, (wp_ip_upd _ ip); [done|].
  apply wp_bind, (wp_release _ (held r)); [done|]. apply wp_ret. rsimpl. by rewrite itable_held.
Qed.

(** What an operation leaves of the entries: those in use keep everything but
    their reference count, and an entry that comes into use must be read from
    disk. *)
Definition ikept (t t' : list inode) : Prop :=
  ∀ j ip', t' !! j = Some ip' → ∃ ip, t !! j = Some ip ∧
    if decide (0 < i_ref ip) then ip' = ip <| i_ref := i_ref ip' |> else 0 < i_ref ip' → i_valid ip' = false.

Definition iop_ok (o : iop) (h : heap) (r : sys) (R : irmap) : Prop :=
  ∃ a t' R', irun o (St h r) = Ok a (St h (r <| itable := t' |>)) ∧
    istep R o a R' ∧ irefs t' R' ∧ linked t' ∧ ikept (itable r) t'.

Lemma linked_set t i ip' : linked t → (i_valid ip' = true → i_nlink ip' ≠ 0) → linked (<[i := ip']> t).
Proof. intros Hl Hi j jp [(-> & <- & _)|(_ & Hj)]%list_lookup_insert_Some; [done|by eapply Hl]. Qed.

Lemma ikept_set t i ip ip' :
  t !! i = Some ip →
  (if decide (0 < i_ref ip) then ip' = ip <| i_ref := i_ref ip' |> else i_valid ip' = false) →
  ikept t (<[i := ip']> t).
Proof.
  intros Hi Hk j jp [(-> & <- & _)|(_ & Hj)]%list_lookup_insert_Some.
  - exists ip. split; [done|]. by destruct (decide (0 < i_ref ip)).
  - exists jp. split; [done|]. destruct (decide (0 < i_ref jp)); [by destruct jp|done].
Qed.

(** An operation on an entry in use changes its count by [d]. *)
Lemma iref_change k i c d R h r o a :
  irefs (itable r) R → linked (itable r) → R !! k = Some (i, c) → 0 <= c + d →
  istep R o a (setref R k i (c + d)) →
  (∀ ip, itable r !! i = Some ip → k = (i_dev ip, i_inum ip) → 0 < i_ref ip →
    wp (irun o) (λ b s, b = a ∧ s = St h (r <| itable := <[i := ip <| i_ref := i_ref ip + d |>]> (itable r) |>)) (St h r)) →
  iop_ok o h r R.
Proof.
  intros HR Hl Hk Hd Hs Hrun. destruct (ir_map _ _ HR _ _ _ Hk) as (ip & Hi & -> & <- & Hpos).
  specialize (Hrun ip Hi eq_refl Hpos). apply wp_ok in Hrun as (b & s & Hrun & -> & ->).
  eexists a, _, _. split; [exact Hrun|]. split; [exact Hs|]. split_and!.
  - pose proof (irefs_set _ _ i ip (ip <| i_ref := i_ref ip + d |>) HR Hi) as Hset. rsimpl in Hset.
    apply Hset; [done|done|lia].
  - apply linked_set; [done|]. exact (Hl i ip Hi).
  - apply (ikept_set _ i ip); [done|by rewrite decide_True].
Qed.

Lemma setref_pos R k i c : 0 < c → setref R k i c = <[k := (i, c)]> R.
Proof. intros Hc. unfold setref. by rewrite decide_False by lia. Qed.

(** iget finds no entry and takes the free one [i]. *)
Lemma iget_new dev inum i ip e h r R :
  irefs (itable r) R → linked (itable r) → Litable ∉ held r → itable r !! i = Some ip → i_ref ip = 0 →
  R !! (dev, inum) = None → iget_scan (itable r) 0 dev inum None = (None, Some i) → e = Iget dev inum →
  iop_ok e h r R.
Proof.
  intros HR Hl Hlk Hi Hz Hn Hscan ->.
  set (ip' := ip <| i_dev := dev |> <| i_inum := inum |> <| i_ref := 1 |> <| i_valid := false |>).
  assert (wp (irun (Iget dev inum)) (λ a s, a = Some i ∧ s = St h (r <| itable := <[i := ip']> (itable r) |>)) (St h r)) as Hw.
  { apply wp_bind, wp_bind, wp_acquire; [done|]. apply wp_bind, wp_rd. rsimpl. rewrite Hscan.
    apply (wp_itable_section _ ip); [done|]. by apply wp_ret. }
  apply wp_ok in Hw as (a & s & Hrun & -> & ->). pose proof (irefs_set _ _ i ip ip' HR Hi) as Hset. rsimpl in Hset.
  eexists _, _, _. split; [exact Hrun|]. split_and!.
  - apply istep_new; [done|]. intros k c Hk. destruct (ir_map _ _ HR _ _ _ Hk) as (jp & Hj & _ & ? & ?).
    rewrite Hi in Hj. injection Hj as <-. lia.
  - rewrite <-(setref_pos _ _ _ 1) by lia. apply Hset; [done| |done]. intros. lia.
  - by apply linked_set.
  - apply (ikept_set _ i ip); [done|]. by rewrite decide_False by lia.
Qed.

End itable.

Lemma irefs_empty t : (∀ i ip, t !! i = Some ip → i_ref ip = 0) → irefs t ∅.
Proof.
  intros Hz. split.
  - intros i ip Hi. rewrite (Hz i ip Hi). lia.
  - intros i ip Hi Hr. rewrite (Hz i ip Hi) in Hr. lia.
  - intros k i c Hk. by rewrite lookup_empty in Hk.
Qed.

