(* ===== verification/InodeThms.v ===== *)
(** * Inodes on disk and in memory *)
From S2P Require Import Prelude.
From S2P Require Import Mem.
From S2P Require Import Params.
From S2P Require Import State.
From S2P Require Import Sched.
From S2P Require Import Bio.
From S2P Require Import Log.
From S2P Require Import Fs.
From S2P Require Import Wp.
From S2P Require Import SchedSpec.
From S2P Require Import BioSpec.
From S2P Require Import BioRef.
From S2P Require Import LogSpec.
From S2P Require Import LogRecover.
From S2P Require Import FsTx.
From S2P Require Import BlockSpec.
From S2P Require Import Boot0.
From S2P Require Import BlockThms.
From S2P Require Import ItableThms.
#[local] Open Scope Z_scope.

(** The fields fit their C types. *)
Record inode_ok (ip : inode) : Prop := {
  io_type : - 2 ^ 15 <= i_type ip < 2 ^ 15;
  io_major : - 2 ^ 15 <= i_major ip < 2 ^ 15;
  io_minor : - 2 ^ 15 <= i_minor ip < 2 ^ 15;
  io_nlink : - 2 ^ 15 <= i_nlink ip < 2 ^ 15;
  io_size : 0 <= i_size ip < 2 ^ 32;
  io_addrs : length (i_addrs ip) = 13%nat ∧ Forall (λ a, 0 <= a < 2 ^ 32) (i_addrs ip)
}.

(** The on-disk inode at offset [o], as ilock reads it. *)
Definition decode (d : list Z) (o : nat) : Z * Z * Z * Z * Z * list Z :=
  (di_type d o, di_major d o, di_minor d o, di_nlink d o, di_size d o, di_addrs d o).
Definition fields (ip : inode) : Z * Z * Z * Z * Z * list Z :=
  (i_type ip, i_major ip, i_minor ip, i_nlink ip, i_size ip, i_addrs ip).

Lemma s16_mod v : - 2 ^ 15 <= v < 2 ^ 15 → s16 (v mod 256 ^ Z.of_nat 2) = v.
Proof.
  intros Hv. change (256 ^ Z.of_nat 2) with (2 ^ 16). unfold sN. change (16 - 1) with 15.
  rewrite Zplus_mod_idemp_l. rewrite Z.mod_small; lia.
Qed.

Lemma length_put_addrs d o addrs :
  (o + 4 * length addrs <= length d)%nat → length (put_addrs d o addrs) = length d.
Proof.
  revert d o; induction addrs as [|a addrs IH]; intros d o Hl; simpl in *; [done|].
  rewrite IH; rewrite length_put_le; lia.
Qed.

Lemma put_addrs_other n d o addrs off :
  (o + 4 * length addrs <= length d)%nat → (off + n <= o ∨ o + 4 * length addrs <= off)%nat →
  get_le n (put_addrs d o addrs) off = get_le n d off.
Proof.
  revert d o; induction addrs as [|a addrs IH]; intros d o Hl Ho; simpl in *; [done|].
  rewrite IH; [|rewrite length_put_le; lia|lia]. apply get_put_other; lia.
Qed.

Lemma put_addrs_get d o addrs k a :
  (o + 4 * length addrs <= length d)%nat → addrs !! k = Some a → 0 <= a < 2 ^ 32 →
  get_le 4 (put_addrs d o addrs) (o + 4 * k) = a.
Proof.
  revert d o k; induction addrs as [|x addrs IH]; intros d o [|k] Hl Hk Ha; simpl in *; simplify_eq.
  - rewrite put_addrs_other; [|rewrite length_put_le; lia|lia]. rewrite Nat.add_0_r, get_put_same by lia.
    apply Z.mod_small. lia.
  - match goal with |- get_le 4 _ ?y = _ => replace y with ((o + 4) + (k + (k + (k + (k + 0)))))%nat by lia end.
    apply IH; [rewrite length_put_le; lia|done|done].
Qed.

(** The stages of put_dinode, with their lengths. *)
Lemma put_dinode_stages d o ip :
  (o + 64 <= length d)%nat →
  ∃ d1 d2 d3 d4 d5, d1 = put_le 2 d o (i_type ip) ∧ d2 = put_le 2 d1 (o + 2) (i_major ip) ∧
    d3 = put_le 2 d2 (o + 4) (i_minor ip) ∧ d4 = put_le 2 d3 (o + 6) (i_nlink ip) ∧ d5 = put_le 4 d4 (o + 8) (i_size ip) ∧
    put_dinode d o ip = put_addrs d5 (o + 12) (i_addrs ip) ∧
    length d1 = length d ∧ length d2 = length d ∧ length d3 = length d ∧ length d4 = length d ∧ length d5 = length d.
Proof.
  intros Ho. eexists _, _, _, _, _. do 6 (split; [reflexivity|]).
  assert (∀ n x off v, (off + n <= o + 64)%nat → length x = length d → length (put_le n x off v) = length d) as Hl.
  { intros n x off v Hn Hx. rewrite length_put_le; [done|]. lia. }
  split_and!; repeat (apply Hl; [lia|]); done.
Qed.

Lemma length_put_dinode d o ip :
  inode_ok ip → (o + 64 <= length d)%nat → length (put_dinode d o ip) = length d.
Proof.
  intros [_ _ _ _ _ [Hl _]] Ho. destruct (put_dinode_stages d o ip Ho) as (d1 & d2 & d3 & d4 & d5 & _ & _ & _ & _ & _ & -> & _ & _ & _ & _ & L5).
  rewrite length_put_addrs; [done|]. rewrite Hl. lia.
Qed.

(** What is outside of the 64 bytes is not touched. *)
Lemma put_dinode_other n d o ip off :
  inode_ok ip → (o + 64 <= length d)%nat → (off + n <= o ∨ o + 64 <= off)%nat →
  get_le n (put_dinode d o ip) off = get_le n d off.
Proof.
  intros [_ _ _ _ _ [Hl _]] Ho Hoff.
  destruct (put_dinode_stages d o ip Ho) as (d1 & d2 & d3 & d4 & d5 & E1 & E2 & E3 & E4 & E5 & -> & L1 & L2 & L3 & L4 & L5).
  rewrite put_addrs_other by (rewrite ?Hl; lia).
  rewrite E5, get_put_other, E4, get_put_other, E3, get_put_other, E2, get_put_other, E1, get_put_other by lia. done.
Qed.

Lemma decode_put d o ip : inode_ok ip → (o + 64 <= length d)%nat → decode (put_dinode d o ip) o = fields ip.
Proof.
  intros [Ht Hma Hmi Hnl Hsz [Hl Ha]] Ho.
  destruct (put_dinode_stages d o ip Ho) as (d1 & d2 & d3 & d4 & d5 & E1 & E2 & E3 & E4 & E5 & E & L1 & L2 & L3 & L4 & L5).
  assert (∀ n off, (off + n <= o + 12)%nat → get_le n (put_dinode d o ip) off = get_le n d5 off) as H5.
  { intros n off Hn. rewrite E. apply put_addrs_other; [rewrite Hl; lia|lia]. }
  unfold decode, fields, di_type, di_major, di_minor, di_nlink, di_size. rewrite !H5 by lia.
  rewrite E5, get_put_same, !get_put_other by lia. rewrite E4, get_put_same, !get_put_other by lia.
  rewrite E3, get_put_same, !get_put_other by lia. rewrite E2, get_put_same, !get_put_other by lia.
  rewrite E1, get_put_same by lia. rewrite !s16_mod by done.
  f_equal; [f_equal; by apply Z.mod_small|]. apply list_eq. intros k. unfold di_addrs. rewrite list_lookup_fmap.
  destruct (decide (k < 13)%nat) as [Hk|Hk].
  - rewrite lookup_seq_lt by done. destruct (lookup_lt_is_Some_2 (i_addrs ip) k) as [a Hak]; [lia|]. rewrite Hak. simpl. f_equal.
    rewrite E. apply put_addrs_get; [rewrite Hl; lia|done|]. by eapply (Forall_lookup_1 _ _ k a Ha).
  - rewrite lookup_seq_ge by lia. symmetry. apply lookup_ge_None. lia.
Qed.

(** Different inodes of a block do not overlap. *)
Lemma decode_put_other d o o' ip :
  inode_ok ip → (o + 64 <= length d)%nat → (o' + 64 <= o ∨ o + 64 <= o')%nat →
  decode (put_dinode d o ip) o' = decode d o'.
Proof.
  intros Hip Ho Hoo. unfold decode, di_type, di_major, di_minor, di_nlink, di_size.
  rewrite !put_dinode_other by (done || lia). f_equal. unfold di_addrs. apply list_fmap_ext. intros j k Hk.
  apply lookup_seq in Hk as [-> Hk]. apply put_dinode_other; [done|done|lia].
Qed.

Lemma dip_range inum : (dip inum + 64 <= Z.to_nat BSIZE)%nat.
Proof.
  unfold dip, dinode_size. pose proof (Z.mod_pos_bound inum IPB ltac:(reflexivity)). change IPB with 16 in *. change BSIZE with 1024. lia.
Qed.

Lemma dip_disjoint a b : dip a ≠ dip b → (dip b + 64 <= dip a ∨ dip a + 64 <= dip b)%nat.
Proof.
  unfold dip, dinode_size. pose proof (Z.mod_pos_bound a IPB ltac:(reflexivity)). pose proof (Z.mod_pos_bound b IPB ltac:(reflexivity)). lia.
Qed.

Section inode.
Context `{Linker} `{Sched} `{BlockDevOk}.

Lemma tstep_itable r r' : tstep r r' → itable r' = itable r.
Proof. intros ((Hf & _) & _). apply (bf_itable _ _ Hf). Qed.

Lemma wp_iupdate i ip d pid L V bs lk (Q : unit → st sys → Prop) h r :
  let b := IBLOCK (i_inum ip) (sb r) in
  txn r pid L V bs lk → itable r !! i = Some ip → i_dev ip = ROOTDEV → V !! b = Some d → b < 2 ^ 31 → lk !! b = None →
  (length bs < NLOG)%nat → (length bs + size lk < NBUF)%nat →
  (∀ r', tstep r r' → txn r' pid L (<[b := put_dinode d (dip (i_inum ip)) ip]> V) (addlog bs b) lk → Q tt (St h r')) →
  wp (iupdate i) Q (St h r).
Proof.
  intros b Htx Hi Hdev HV Hb Hnl Hn Hroom HQ. apply wp_bind, (wp_ip_get _ ip); [done|]. apply wp_bind, wp_rd. fold b. rewrite Hdev.
  apply wp_bind. eapply wp_tx_bread; [exact Htx|exact HV|done|done|]. intros j r1 S1 T1.
  eapply (wp_tx_write (λ x, put_dinode x (dip (i_inum ip)) ip) b); [exact T1|apply lookup_insert_eq|exact HV| |done|].
  { split; [|done]. apply Z.mod_pos_bound. lia. }
  intros r2 S2 T2. eapply wp_tx_brelse; [exact T2|apply lookup_insert_eq|]. intros r3 S3 T3.
  apply HQ; [by eapply tstep_trans; [|eapply tstep_trans]|by rewrite delete_insert_id in T3].
Qed.

(** iupdate writes the in-memory inode to its place in the inode block so
    that reading it back the way ilock does gives the same type, device numbers,
    link count, size and block addresses, and every other inode of the block reads
    as before; no other block changes. *)
Theorem iupdate_roundtrip (i : nat) (ip : inode) (d : list Z) (pid L : Z) (V : gmap Z (list Z)) (bs : list Z)
    (lk : gmap Z nat) (h : heap) (r : sys) :
  let b := IBLOCK (i_inum ip) (sb r) in
  txn r pid L V bs lk → itable r !! i = Some ip → inode_ok ip → i_dev ip = ROOTDEV →
  V !! b = Some d → length d = Z.to_nat BSIZE → b < 2 ^ 31 → lk !! b = None →
  (length bs < NLOG)%nat → (length bs + size lk < NBUF)%nat →
  ∃ r' d', iupdate i (St h r) = Ok tt (St h r') ∧ txn r' pid L (<[b := d']> V) (addlog bs b) lk ∧
    decode d' (dip (i_inum ip)) = fields ip ∧
    (∀ n, dip n ≠ dip (i_inum ip) → decode d' (dip n) = decode d (dip n)) ∧
    itable r' = itable r ∧ disk r' = disk r.
Proof.
  intros b Htx Hi Hok Hdev HV Hl Hb Hnl Hn Hroom.
  set (d' := put_dinode d (dip (i_inum ip)) ip).
  assert (wp (iupdate i) (λ _ s, ∃ r', s = St h r' ∧ tstep r r' ∧ txn r' pid L (<[b := d']> V) (addlog bs b) lk) (St h r)) as Hw.
  { eapply wp_iupdate; try done. intros r' S T. by exists r'. }
  apply wp_ok in Hw as ([] & s & Hrun & r' & -> & S & T). exists r', d'. pose proof (dip_range (i_inum ip)).
  split_and!; try done.
  - apply decode_put; [done|lia].
  - intros n Hne. apply decode_put_other; [done|lia|]. apply dip_disjoint in Hne. tauto.
  - by apply tstep_itable.
  - apply (tstep_disk _ _ S).
Qed.
End inode.

Definition root_inode : inode :=
  inode0 <| i_dev := ROOTDEV |> <| i_inum := 1 |> <| i_ref := 1 |> <| i_valid := true |> <| i_type := T_DIR |>
         <| i_nlink := 1 |> <| i_size := 32 |> <| i_addrs := 46 :: replicate 12 0 |>.
Definition inode_machine : sys := fs_machine <| itable := <[0%nat := root_inode]> (itable fs_machine) |>.

Lemma txn_itable `{DevInv} r pid L V bs lk t : txn r pid L V bs lk → txn (r <| itable := t |>) pid L V bs lk.
Proof. intros [[refs [[] ? ? ? ? ? ? ? ?]] ?]. split; [|done]. exists refs. by split. Qed.

Lemma iupdate_roundtrip_witness :
  ∃ r' d', @iupdate quiet ideal_dev 0 (St ∅ inode_machine) = Ok tt (St ∅ r') ∧
    decode d' (dip 1) = (T_DIR, 0, 0, 1, 32, 46 :: replicate 12 0).
Proof.
  destruct (@iupdate_roundtrip quiet ideal_dev ideal_inv ideal_dev_ok 0 root_inode zero_block 1 2 disk1 [] ∅ ∅ inode_machine)
    as (r' & d' & Hrun & _ & Hdec & _).
  - apply txn_itable, fs_machine_txn.
  - reflexivity.
  - split; try (split; reflexivity || discriminate). split; [reflexivity|].
    apply (bool_decide_unpack _). vm_compute. exact I.
  - reflexivity.
  - change (IBLOCK (i_inum root_inode) (sb inode_machine)) with 32. unfold disk1, image.
    rewrite lookup_insert_ne by discriminate. apply disk0_lookup. lia.
  - vm_compute. reflexivity.
  - reflexivity.
  - apply lookup_empty.
  - vm_compute. lia.
  - rewrite map_size_empty. unfold NBUF. simpl. lia.
  - exists r', d'. split; [exact Hrun|exact Hdec].
Defined.
