(* ===== verification/FileMap.v ===== *)
(** * The blocks and the bytes of a file

    [faddr ip V bn] is the disk block that holds block [bn] of the file, 0 when
    there is none, and [fbyte ip V off] the byte at an offset; what was never
    written reads as 0.  [V] is the contents of the blocks as the thread sees
    them. *)
From S2P Require Import Prelude.
From S2P Require Import Mem.
From S2P Require Import Params.
From S2P Require Import State.
From S2P Require Import Bio.
From S2P Require Import Log.
From S2P Require Import Fs.
From S2P Require Import LogSpec.
From S2P Require Import FsTx.
From S2P Require Import BlockSpec.
From S2P Require Import BlockThms.
#[local] Open Scope Z_scope.

Definition ind_ (ip : inode) : Z := i_addrs ip !!! Z.to_nat NDIRECT.

(** Entry [k] of the indirect block. *)
Definition ind_entry (V : gmap Z (list Z)) (a k : Z) : Z :=
  if bool_decide (a = 0) then 0 else match V !! a with Some d => get32 d (Z.to_nat (4 * k)) | None => 0 end.

Definition faddr (ip : inode) (V : gmap Z (list Z)) (bn : Z) : Z :=
  if bool_decide (bn < NDIRECT) then i_addrs ip !!! Z.to_nat bn else ind_entry V (ind_ ip) (bn - NDIRECT).

Definition block_byte (V : gmap Z (list Z)) (a : Z) (o : nat) : Z :=
  if bool_decide (a = 0) then 0 else match V !! a with Some d => d !!! o | None => 0 end.

Definition fbyte (ip : inode) (V : gmap Z (list Z)) (off : Z) : Z :=
  block_byte V (faddr ip V (off / BSIZE)) (Z.to_nat (off mod BSIZE)).

Definition fbytes (ip : inode) (V : gmap Z (list Z)) (off : Z) (n : nat) : list Z :=
  (λ k, fbyte ip V (off + Z.of_nat k)) <$> seq 0 n.

(** A block that belongs to some file: marked as used, and not part of the free
    map. *)
Definition owned (s : superblock) (V : gmap Z (list Z)) (a : Z) : Prop :=
  0 < a < sb_size s ∧ used s V a = true ∧ ∀ b, 0 <= b < sb_size s → BBLOCK b s ≠ a.

Abbreviation in_file bn := (0 <= bn < MAXFILE).

(** The blocks of a file belong to it and are different. *)
Record file_ok (s : superblock) (V : gmap Z (list Z)) (ip : inode) : Prop := {
  fl_len : length (i_addrs ip) = 13%nat;
  fl_blk : ∀ bn, in_file bn → faddr ip V bn ≠ 0 → owned s V (faddr ip V bn);
  fl_ind : ind_ ip ≠ 0 → owned s V (ind_ ip);
  fl_inj : ∀ a b, in_file a → in_file b → faddr ip V a = faddr ip V b → faddr ip V a ≠ 0 → a = b;
  fl_sep : ∀ bn, in_file bn → ind_ ip ≠ 0 → faddr ip V bn ≠ ind_ ip
}.

(** ** A new block *)
Section alloc.
Context (s : superblock) (V V' : gmap Z (list Z)) (v : Z).
Context (Hfs : fs_ok s V) (Hv : 0 < v < sb_size s) (Hfree : used s V v = false) (Ha : allocated s V v V').

Lemma alloc_other a : owned s V a → a ≠ v ∧ V' !! a = V !! a.
Proof.
  intros (_ & Hu & Hb). assert (a ≠ v) as Hne by congruence. split; [done|].
  destruct Ha as (d & _ & ->). rewrite !lookup_insert_ne; [done| |done]. apply Hb. lia.
Qed.

Lemma alloc_owned a : owned s V a → owned s V' a.
Proof.
  intros (Hr & Hu & Hb). split_and!; [lia|lia| |done].
  rewrite (allocated_used _ _ _ _ Hfs Hv Hfree Ha) by lia. by case_decide.
Qed.

Lemma alloc_new : owned s V' v ∧ V' !! v = Some zeros.
Proof.
  split; [|destruct Ha as (d & _ & ->); apply lookup_insert_eq]. split_and!; [lia|lia| |].
  - rewrite (allocated_used _ _ _ _ Hfs Hv Hfree Ha) by lia. by case_decide.
  - intros b Hb E. pose proof (fo_meta _ _ Hfs b Hb) as Hm. rewrite E in Hm. congruence.
Qed.

Lemma alloc_faddr ip bn : file_ok s V ip → faddr ip V' bn = faddr ip V bn.
Proof.
  intros Hf. unfold faddr. case_bool_decide; [done|]. unfold ind_entry. case_bool_decide as H0; [done|].
  by destruct (alloc_other _ (fl_ind _ _ _ Hf H0)) as [_ ->].
Qed.

Lemma alloc_file ip : file_ok s V ip → file_ok s V' ip.
Proof.
  intros Hf. pose proof (λ bn, alloc_faddr ip bn Hf) as E. destruct Hf as [Hl Hb Hi Hj Hs]. split; try done.
  - intros bn Hbn. rewrite E. intros H0. by apply alloc_owned, Hb.
  - intros H0. by apply alloc_owned, Hi.
  - intros a b Hx Hy. rewrite !E. by apply Hj.
  - intros bn Hbn. rewrite E. by apply Hs.
Qed.

(** None of the file's blocks is the new one. *)
Lemma alloc_fresh ip : file_ok s V ip → (∀ bn, in_file bn → faddr ip V bn ≠ v) ∧ ind_ ip ≠ v.
Proof.
  intros Hf. split.
  - intros bn Hbn E. destruct (alloc_other v) as [? _]; [|done]. rewrite <-E. apply (fl_blk _ _ _ Hf); [done|lia].
  - intros E. destruct (alloc_other v) as [? _]; [|done]. rewrite <-E. apply (fl_ind _ _ _ Hf). lia.
Qed.
End alloc.

(** ** A block that is not part of the free map is written *)
Section data.
Context (s : superblock) (V : gmap Z (list Z)) (x : Z) (y : list Z).
Context (Hx : ∀ b, 0 <= b < sb_size s → BBLOCK b s ≠ x).

Lemma data_used a : 0 <= a < sb_size s → used s (<[x := y]> V) a = used s V a.
Proof. intros Ha. unfold used. rewrite lookup_insert_ne; [done|]. intros E. by eapply Hx. Qed.

Lemma data_owned a : owned s (<[x := y]> V) a ↔ owned s V a.
Proof. unfold owned. split; intros (Ha & Hu & Hb); (split_and!; [lia..| |done]); by rewrite data_used in * by lia. Qed.

Lemma data_fs_ok : fs_ok s V → length y = Z.to_nat BSIZE → fs_ok s (<[x := y]> V).
Proof.
  intros Hfs Hy. destruct (Hfs) as [Hsz Hbm Hbl Hbo Hme]. split; try done.
  - intros b Hb. destruct (decide (b = x)) as [->|]; [exists y; by rewrite lookup_insert_eq|]. rewrite lookup_insert_ne by done. auto.
  - by rewrite data_used by lia.
  - intros b Hb. rewrite data_used by (by eapply BBLOCK_range). auto.
Qed.
End data.

(** ** Changing the map of a file *)

(** Block [k] of the file gets the disk block [v]. *)
Lemma file_ok_add s V ip V' ip' k v :
  file_ok s V ip → length (i_addrs ip') = 13%nat → ind_ ip' = ind_ ip → (∀ a, owned s V a → owned s V' a) →
  in_file k → owned s V' v → (∀ bn, in_file bn → faddr ip V bn ≠ v) → ind_ ip ≠ v →
  (∀ bn, in_file bn → faddr ip' V' bn = if decide (bn = k) then v else faddr ip V bn) → file_ok s V' ip'.
Proof.
  intros [Hl Hb Hi Hj Hs] Hl' Hind Hown Hk Hv Hfresh Hne E. split; [done|..].
  - intros bn Hbn. rewrite E by done. case_decide; [done|]. intros H0. by apply Hown, Hb.
  - rewrite Hind. intros H0. by apply Hown, Hi.
  - intros a b Ha Hb'. rewrite !E by done. repeat case_decide; subst; try done; [|intros F; by destruct (Hfresh a Ha)|by apply Hj].
    intros F. by destruct (Hfresh b Hb').
  - intros bn Hbn. rewrite Hind, E by done. case_decide; [congruence|]. by apply Hs.
Qed.

(** The file gets the indirect block [v]. *)
Lemma file_ok_ind s V ip ip' v :
  file_ok s V ip → length (i_addrs ip') = 13%nat → ind_ ip' = v → owned s V v →
  (∀ bn, in_file bn → faddr ip V bn ≠ v) → (∀ bn, in_file bn → faddr ip' V bn = faddr ip V bn) → file_ok s V ip'.
Proof.
  intros [Hl Hb Hi Hj Hs] Hl' Hind Hv Hfresh E. split; [done|..].
  - intros bn Hbn. rewrite E by done. auto.
  - rewrite Hind. done.
  - intros a b Ha Hb'. rewrite !E by done. auto.
  - intros bn Hbn. rewrite Hind, E by done. auto.
Qed.

Definition set_slot (k : nat) (v : Z) (ip : inode) : inode := ip <| i_addrs := <[k := v]> (i_addrs ip) |>.

Lemma NDIRECT_12 : NDIRECT = 12. Proof. reflexivity. Qed.

Lemma faddr_set_direct ip V k v bn :
  length (i_addrs ip) = 13%nat → 0 <= k < NDIRECT → 0 <= bn →
  faddr (set_slot (Z.to_nat k) v ip) V bn = if decide (bn = k) then v else faddr ip V bn.
Proof.
  rewrite NDIRECT_12. intros Hl Hk Hbn. unfold faddr, set_slot, ind_. rewrite NDIRECT_12. cbn [i_addrs].
  case_bool_decide as Hd; case_decide as Hbk; subst; try lia.
  - apply list_lookup_total_insert_eq. rewrite Hl. lia.
  - apply list_lookup_total_insert_ne. lia.
  - f_equal. apply list_lookup_total_insert_ne. lia.
Qed.

Lemma ind_set_direct ip k v : 0 <= k < NDIRECT → ind_ (set_slot (Z.to_nat k) v ip) = ind_ ip.
Proof. rewrite NDIRECT_12. intros Hk. unfold ind_, set_slot. cbn. apply list_lookup_total_insert_ne. rewrite NDIRECT_12. lia. Qed.

Lemma ind_set_ind ip v : length (i_addrs ip) = 13%nat → ind_ (set_slot (Z.to_nat NDIRECT) v ip) = v.
Proof. intros Hl. unfold ind_, set_slot. cbn. apply list_lookup_total_insert_eq. rewrite Hl, NDIRECT_12. lia. Qed.

Lemma get32_zeros o : get32 zeros o = 0.
Proof.
  unfold get_le, zeros. assert (∀ n, le_combine (replicate n 0) = 0) as H. { intros n. induction n as [|n IH]; [done|]. simpl. rewrite IH. done. }
  rewrite drop_replicate, take_replicate. apply H.
Qed.

(** A new indirect block has no entries. *)
Lemma faddr_set_ind ip V v bn :
  length (i_addrs ip) = 13%nat → ind_ ip = 0 → V !! v = Some zeros → 0 <= bn →
  faddr (set_slot (Z.to_nat NDIRECT) v ip) V bn = faddr ip V bn.
Proof.
  intros Hl H0 Hv Hbn. unfold faddr. rewrite ind_set_ind, H0 by done. case_bool_decide as Hd.
  - unfold set_slot. cbn. apply list_lookup_total_insert_ne. rewrite NDIRECT_12 in *. lia.
  - unfold ind_entry. rewrite Hv, get32_zeros. by case_bool_decide.
Qed.

(** Setting an entry of the indirect block. *)
Lemma faddr_put_ind ip V d k v bn :
  ind_ ip ≠ 0 → V !! ind_ ip = Some d → length d = Z.to_nat BSIZE → in_file k → NDIRECT <= k → 0 <= v < 2 ^ 32 → in_file bn →
  faddr ip (<[ind_ ip := put32 d (Z.to_nat (4 * (k - NDIRECT))) v]> V) bn = if decide (bn = k) then v else faddr ip V bn.
Proof.
  change MAXFILE with 268. rewrite NDIRECT_12. intros H0 Hd Hl Hk Hk' Hv Hbn. change (Z.to_nat BSIZE) with 1024%nat in Hl. unfold faddr. rewrite NDIRECT_12.
  case_bool_decide as Hb; [rewrite decide_False by lia; done|]. unfold ind_entry. rewrite bool_decide_eq_false_2 by done.
  rewrite lookup_insert_eq, Hd. case_decide as E; [subst|].
  - rewrite get_put_same by lia. apply Z.mod_small. lia.
  - apply get_put_other; lia.
Qed.

(** ** Growing a file

    The file may have more blocks, which hold zeros; no block that belonged to a
    file has changed, except this file's indirect block. *)
Record grown (s : superblock) (V : gmap Z (list Z)) (ip : inode) (V' : gmap Z (list Z)) (ip' : inode) : Prop := {
  gr_ip : ip' = ip <| i_addrs := i_addrs ip' |>;
  gr_fs : fs_ok s V';
  gr_file : file_ok s V' ip';
  gr_addr : ∀ bn, in_file bn → faddr ip V bn ≠ 0 → faddr ip' V' bn = faddr ip V bn;
  gr_new : ∀ bn, in_file bn → faddr ip V bn = 0 → faddr ip' V' bn ≠ 0 → V' !! faddr ip' V' bn = Some zeros;
  gr_fresh : ∀ bn, in_file bn → faddr ip V bn = 0 → faddr ip' V' bn ≠ 0 → ¬ owned s V (faddr ip' V' bn);
  gr_ind : ind_ ip' ≠ ind_ ip → ind_ ip = 0 ∧ ¬ owned s V (ind_ ip');
  gr_keep : ∀ b, owned s V b → b ≠ ind_ ip → V' !! b = V !! b;
  gr_owned : ∀ b, owned s V b → owned s V' b
}.

Lemma grown_refl s V ip : fs_ok s V → file_ok s V ip → grown s V ip V ip.
Proof. intros Hfs Hf. split; try done. by destruct ip. Qed.

Lemma grown_trans s V1 ip1 V2 ip2 V3 ip3 : grown s V1 ip1 V2 ip2 → grown s V2 ip2 V3 ip3 → grown s V1 ip1 V3 ip3.
Proof.
  intros [P1 F1 L1 A1 N1 X1 I1 K1 O1] [P2 F2 L2 A2 N2 X2 I2 K2 O2]. split; try done.
  - rewrite P2. rewrite P1 at 1. by destruct ip1.
  - intros bn Hbn H0. rewrite A2; [by apply A1|done|]. by rewrite A1.
  - intros bn Hbn H0 H3. destruct (decide (faddr ip2 V2 bn = 0)) as [E|E]; [by apply N2|].
    rewrite A2, K2; [by apply N1|by apply (fl_blk _ _ _ L1)| |done|done].
    destruct (decide (ind_ ip2 = 0)) as [->|]; [done|by apply (fl_sep _ _ _ L1)].
  - intros bn Hbn H0 H3. destruct (decide (faddr ip2 V2 bn = 0)) as [E|E]; [intros ?%O1; by eapply X2|].
    rewrite A2 by done. by apply X1.
  - intros Hne. destruct (decide (ind_ ip3 = ind_ ip2)) as [E3|E3]; [rewrite E3; apply I1; congruence|]. destruct (I2 E3) as [H2 Hn].
    split; [|by intros ?%O1]. destruct (decide (ind_ ip2 = ind_ ip1)) as [<-|E2]; [done|]. by apply I1.
  - intros b Hb Hne. rewrite K2; [by apply K1|by apply O1|]. intros ->.
    destruct (decide (ind_ ip2 = ind_ ip1)) as [E|E]; [congruence|]. by destruct (I1 E).
  - auto.
Qed.

(** Growing does not change what the file holds. *)
Lemma grown_byte s V ip V' ip' off : file_ok s V ip → grown s V ip V' ip' → in_file (off / BSIZE) → fbyte ip' V' off = fbyte ip V off.
Proof.
  intros Hf Hg Hb. unfold fbyte. destruct (decide (faddr ip V (off / BSIZE) = 0)) as [E|E].
  - rewrite E. unfold block_byte. rewrite (bool_decide_eq_true_2 (0 = 0)) by done. case_bool_decide as H0; [done|].
    rewrite (gr_new _ _ _ _ _ Hg) by done. apply lookup_total_replicate_2. pose proof (Z.mod_pos_bound off BSIZE ltac:(done)). lia.
  - rewrite (gr_addr _ _ _ _ _ Hg) by done. unfold block_byte. rewrite (gr_keep _ _ _ _ _ Hg); [done|by apply (fl_blk _ _ _ Hf)|].
    destruct (decide (ind_ ip = 0)) as [->|]; [done|by apply (fl_sep _ _ _ Hf)].
Qed.

(** The three ways in which bmap lets a file grow. *)
Section grow.
Context (s : superblock) (V V' : gmap Z (list Z)) (v : Z) (ip : inode).
Context (Hfs : fs_ok s V) (Hf : file_ok s V ip).
Context (Hv : 0 < v < sb_size s) (Hfree : used s V v = false) (Ha : allocated s V v V').

Lemma grow_fs : fs_ok s V'.
Proof. by eapply allocated_ok. Qed.

Lemma grow_not_owned : ¬ owned s V v.
Proof. intros (_ & Hu & _). congruence. Qed.

Lemma grow_direct k : 0 <= k < NDIRECT → faddr ip V k = 0 →
  grown s V ip V' (set_slot (Z.to_nat k) v ip) ∧ faddr (set_slot (Z.to_nat k) v ip) V' k = v.
Proof.
  intros Hk H0. destruct (alloc_new _ _ _ _ Hfs Hv Hfree Ha) as [Hown Hz].
  destruct (alloc_fresh _ _ _ _ Hv Hfree Ha _ Hf) as [Hfr Hfi].
  pose proof (fl_len _ _ _ Hf) as Hl. pose proof (λ bn, alloc_faddr _ _ _ _ Hv Hfree Ha ip bn Hf) as E.
  assert (∀ bn, in_file bn → faddr (set_slot (Z.to_nat k) v ip) V' bn = if decide (bn = k) then v else faddr ip V bn) as E'.
  { intros bn Hbn. rewrite faddr_set_direct, E by (done || lia). done. }
  assert (in_file k) as Hk' by (change MAXFILE with 268; change NDIRECT with 12 in Hk; lia).
  split; [|by rewrite E', decide_True]. split.
  - by destruct ip.
  - apply grow_fs.
  - eapply file_ok_add with (V := V) (ip := ip) (v := v) (k := k); try done.
    + unfold set_slot. cbn. by rewrite length_insert.
    + by apply ind_set_direct.
    + intros a. by apply alloc_owned with (v := v).
  - intros bn Hbn Hn. rewrite E' by done. case_decide; [by subst|done].
  - intros bn Hbn Hn. rewrite E' by done. by case_decide.
  - intros bn Hbn Hn. rewrite E' by done. case_decide; [intros _; apply grow_not_owned|done].
  - by rewrite ind_set_direct.
  - intros b Hb _. by destruct (alloc_other _ _ _ _ Hv Hfree Ha b Hb).
  - intros a. by apply alloc_owned with (v := v).
Qed.

Lemma grow_ind : ind_ ip = 0 →
  grown s V ip V' (set_slot (Z.to_nat NDIRECT) v ip) ∧ ind_ (set_slot (Z.to_nat NDIRECT) v ip) = v.
Proof.
  intros H0. destruct (alloc_new _ _ _ _ Hfs Hv Hfree Ha) as [Hown Hz].
  pose proof (fl_len _ _ _ Hf) as Hl. pose proof (λ bn, alloc_faddr _ _ _ _ Hv Hfree Ha ip bn Hf) as E.
  assert (∀ bn, in_file bn → faddr (set_slot (Z.to_nat NDIRECT) v ip) V' bn = faddr ip V bn) as E'.
  { intros bn Hbn. rewrite faddr_set_ind, E by (done || lia). done. }
  pose proof (alloc_file _ _ _ _ Hfs Hv Hfree Ha ip Hf) as Hf'.
  assert (∀ bn, in_file bn → faddr ip V' bn ≠ v) as Hfr.
  { intros bn Hbn. rewrite E. by apply (alloc_fresh _ _ _ _ Hv Hfree Ha _ Hf). }
  split; [|by apply ind_set_ind]. split.
  - by destruct ip.
  - apply grow_fs.
  - eapply file_ok_ind with (ip := ip) (v := v); try done.
    + unfold set_slot. cbn. by rewrite length_insert.
    + by apply ind_set_ind.
    + intros bn Hbn. by rewrite E', E.
  - intros bn Hbn Hn. by rewrite E'.
  - intros bn Hbn Hn. by rewrite E'.
  - intros bn Hbn Hn. by rewrite E'.
  - rewrite ind_set_ind by done. intros _. split; [done|]. apply grow_not_owned.
  - intros b Hb _. by destruct (alloc_other _ _ _ _ Hv Hfree Ha b Hb).
  - intros a. by apply alloc_owned with (v := v).
Qed.

Lemma grow_entry k d : NDIRECT <= k → in_file k → ind_ ip ≠ 0 → faddr ip V k = 0 → V' !! ind_ ip = Some d →
  let V2 := <[ind_ ip := put32 d (Z.to_nat (4 * (k - NDIRECT))) v]> V' in
  grown s V ip V2 ip ∧ faddr ip V2 k = v.
Proof.
  intros Hk Hk' H0 Hz Hd V2. destruct (alloc_new _ _ _ _ Hfs Hv Hfree Ha) as [Hown Hnew].
  destruct (alloc_fresh _ _ _ _ Hv Hfree Ha _ Hf) as [Hfr Hfi]. pose proof grow_fs as Hfs'.
  destruct (fl_ind _ _ _ Hf H0) as (Hi1 & _ & Hi2). destruct (fo_blocks _ _ Hfs' (ind_ ip)) as (d' & Hd' & Hl); [lia|].
  assert (d' = d) as -> by congruence. pose proof (fo_size _ _ Hfs) as Hsz.
  pose proof (λ bn, alloc_faddr _ _ _ _ Hv Hfree Ha ip bn Hf) as E.
  assert (∀ bn, in_file bn → faddr ip V2 bn = if decide (bn = k) then v else faddr ip V bn) as E'.
  { intros bn Hbn. unfold V2. rewrite faddr_put_ind, E by (done || lia). done. }
  assert (∀ a, owned s V a → owned s V2 a) as Ho.
  { intros a Hx. apply data_owned; [done|]. by apply alloc_owned with (v := v) (V := V). }
  split; [|by rewrite E', decide_True]. split; try done.
  - by destruct ip.
  - apply data_fs_ok; [done|done|]. rewrite length_put_le; [done|].
    change MAXFILE with 268 in Hk'. rewrite NDIRECT_12 in *. rewrite Hl. change (Z.to_nat BSIZE) with 1024%nat. lia.
  - eapply file_ok_add with (V := V) (ip := ip) (v := v) (k := k); try done; [apply Hf|]. by apply data_owned.
  - intros bn Hbn Hn. rewrite E' by done. case_decide; [by subst|done].
  - intros bn Hbn Hn. rewrite E' by done. case_decide; [|done]. intros _. unfold V2. by rewrite lookup_insert_ne.
  - intros bn Hbn Hn. rewrite E' by done. case_decide; [intros _; apply grow_not_owned|done].
  - intros b Hb Hne. unfold V2. rewrite lookup_insert_ne by done. by destruct (alloc_other _ _ _ _ Hv Hfree Ha b Hb).
Qed.
End grow.

(** ** Bytes *)
Lemma fbytes_length ip V off n : length (fbytes ip V off n) = n.
Proof. unfold fbytes. by rewrite length_fmap, length_seq. Qed.

Lemma fbytes_lookup ip V off n k : (k < n)%nat → fbytes ip V off n !! k = Some (fbyte ip V (off + Z.of_nat k)).
Proof. intros Hk. unfold fbytes. by rewrite list_lookup_fmap, lookup_seq_lt. Qed.

Lemma fbytes_app ip V off a b : fbytes ip V off (a + b) = fbytes ip V off a ++ fbytes ip V (off + Z.of_nat a) b.
Proof.
  unfold fbytes. rewrite seq_app, fmap_app. f_equal. simpl. rewrite <-(Nat.add_0_r a) at 1. rewrite <-fmap_add_seq, <-list_fmap_compose.
  apply list_fmap_ext. intros i k _. simpl. f_equal. lia.
Qed.

(** An offset inside a block. *)
Lemma block_offset off k : 0 <= off → 0 <= k → off mod BSIZE + k < BSIZE → (off + k) / BSIZE = off / BSIZE ∧ (off + k) mod BSIZE = off mod BSIZE + k.
Proof.
  change BSIZE with 1024. intros Ho Hk Hlt. Z.to_euclidean_division_equations. lia.
Qed.

Lemma fbytes_block ip V off m a d :
  0 <= off → faddr ip V (off / BSIZE) = a → a ≠ 0 → V !! a = Some d → length d = Z.to_nat BSIZE → off mod BSIZE + Z.of_nat m <= BSIZE →
  take m (drop (Z.to_nat (off mod BSIZE)) d) = fbytes ip V off m.
Proof.
  intros Ho Ha H0 Hd Hl Hm. pose proof (Z.mod_pos_bound off BSIZE ltac:(done)). apply list_eq. intros k.
  destruct (decide (k < m)%nat) as [Hk|Hk].
  - rewrite lookup_take_lt, lookup_drop, fbytes_lookup by done.
    destruct (block_offset off (Z.of_nat k)) as [E1 E2]; [lia..|]. unfold fbyte, block_byte.
    rewrite E1, E2, Ha, bool_decide_eq_false_2, Hd by done. rewrite list_lookup_lookup_total_lt by (rewrite Hl; lia).
    do 2 f_equal. lia.
  - rewrite lookup_take_ge by lia. symmetry. apply lookup_ge_None. rewrite fbytes_length. lia.
Qed.

(** ** Writing

    [data] is what the file holds at [off] afterwards; the rest of the file and all
    blocks of other files are as before. *)
Record wrote (s : superblock) (V : gmap Z (list Z)) (ip : inode) (V' : gmap Z (list Z)) (ip' : inode)
    (off : Z) (data : list Z) : Prop := {
  wr_ip : ip' = ip <| i_addrs := i_addrs ip' |>;
  wr_fs : fs_ok s V';
  wr_file : file_ok s V' ip';
  wr_addr : ∀ bn, in_file bn → faddr ip V bn ≠ 0 → faddr ip' V' bn = faddr ip V bn;
  wr_fresh : ∀ bn, in_file bn → faddr ip V bn = 0 → faddr ip' V' bn ≠ 0 → ¬ owned s V (faddr ip' V' bn);
  wr_ind : ind_ ip' ≠ ind_ ip → ind_ ip = 0 ∧ ¬ owned s V (ind_ ip');
  wr_map : ∀ o, off <= o < off + Z.of_nat (length data) → faddr ip' V' (o / BSIZE) ≠ 0;
  wr_byte : ∀ o, in_file (o / BSIZE) → fbyte ip' V' o =
    if decide (off <= o < off + Z.of_nat (length data)) then data !!! Z.to_nat (o - off) else fbyte ip V o;
  wr_keep : ∀ b, owned s V b → b ≠ ind_ ip → (∀ bn, in_file bn → faddr ip V bn ≠ b) → V' !! b = V !! b;
  wr_owned : ∀ b, owned s V b → owned s V' b
}.

Lemma wrote_nil s V ip V' ip' off : file_ok s V ip → grown s V ip V' ip' → wrote s V ip V' ip' off [].
Proof.
  intros Hf Hg. pose proof (λ o, grown_byte s V ip V' ip' o Hf Hg) as Hb. destruct Hg as [P F L A N X I K O]. split; try done.
  - intros o Ho. simpl in Ho. lia.
  - intros o Ho. rewrite decide_False by (simpl; lia). auto.
  - auto.
Qed.

Lemma wrote_app s V1 ip1 V2 ip2 V3 ip3 off d1 d2 :
  (∀ o, off <= o < off + Z.of_nat (length d1) → in_file (o / BSIZE)) →
  wrote s V1 ip1 V2 ip2 off d1 → wrote s V2 ip2 V3 ip3 (off + Z.of_nat (length d1)) d2 → wrote s V1 ip1 V3 ip3 off (d1 ++ d2).
Proof.
  intros Hin [P1 F1 L1 A1 X1 I1 M1 B1 K1 O1] [P2 F2 L2 A2 X2 I2 M2 B2 K2 O2]. split; try done.
  - rewrite P2. rewrite P1 at 1. by destruct ip1.
  - intros bn Hbn H0. rewrite A2; [by apply A1|done|]. by rewrite A1.
  - intros bn Hbn H0 H3. destruct (decide (faddr ip2 V2 bn = 0)) as [E|E]; [intros ?%O1; by eapply X2|].
    rewrite A2 by done. by apply X1.
  - intros Hne. destruct (decide (ind_ ip3 = ind_ ip2)) as [E3|E3]; [rewrite E3; apply I1; congruence|]. destruct (I2 E3) as [H2 Hn].
    split; [|by intros ?%O1]. destruct (decide (ind_ ip2 = ind_ ip1)) as [<-|E2]; [done|]. by apply I1.
  - intros o. rewrite length_app. intros Ho. destruct (decide (o < off + Z.of_nat (length d1))); [|apply M2; lia].
    rewrite A2; [apply M1; lia|apply Hin; lia|apply M1; lia].
  - intros o Ho. rewrite B2, length_app by done. case_decide as C2.
    + rewrite decide_True by lia. rewrite lookup_total_app_r by lia. f_equal. lia.
    + rewrite B1 by done. case_decide as C1; [rewrite decide_True by lia|by rewrite decide_False by lia].
      by rewrite lookup_total_app_l by lia.
  - intros b Hb Hi Hn. rewrite K2; [by apply K1|by apply O1| |].
    + intros ->. destruct (decide (ind_ ip2 = ind_ ip1)) as [E|E]; [congruence|]. by destruct (I1 E).
    + intros bn Hbn E. destruct (decide (faddr ip1 V1 bn = 0)) as [E0|E0].
      * destruct (decide (b = 0)) as [->|Hb0]; [destruct Hb; lia|]. destruct (X1 bn Hbn E0); congruence.
      * rewrite A1 in E by done. by destruct (Hn bn Hbn).
  - auto.
Qed.

Lemma length_splice d o bs : (o + length bs <= length d)%nat → length (splice d o bs) = length d.
Proof. intros Hl. unfold splice. rewrite !length_app, length_take, length_drop. lia. Qed.

Lemma splice_lookup d o bs k : (o + length bs <= length d)%nat →
  splice d o bs !!! k = if decide (o <= k < o + length bs)%nat then bs !!! (k - o)%nat else d !!! k.
Proof.
  intros Hl. unfold splice. assert (length (take o d) = o) as Ht by (rewrite length_take; lia).
  destruct (decide (k < o)%nat) as [Hk|Hk].
  - rewrite decide_False by lia. rewrite lookup_total_app_l by lia. by rewrite lookup_total_take, decide_True by lia.
  - rewrite lookup_total_app_r, Ht by lia. case_decide as Hc; [by rewrite lookup_total_app_l by lia|].
    rewrite lookup_total_app_r by lia. rewrite lookup_total_drop. f_equal. lia.
Qed.

Section write.
Context (s : superblock) (V : gmap Z (list Z)) (ip : inode) (off a : Z) (d data : list Z).
Context (Hfs : fs_ok s V) (Hf : file_ok s V ip) (Hoff : 0 <= off) (Hin : in_file (off / BSIZE)).
Context (Ha : faddr ip V (off / BSIZE) = a) (Ha0 : a ≠ 0) (Hd : V !! a = Some d).
Context (Hfit : off mod BSIZE + Z.of_nat (length data) <= BSIZE).

Let V2 := <[a := splice d (Z.to_nat (off mod BSIZE)) data]> V.

Lemma write_len : length d = Z.to_nat BSIZE ∧ (Z.to_nat (off mod BSIZE) + length data <= length d)%nat.
Proof.
  destruct (fl_blk _ _ _ Hf _ Hin) as (Hr & _ & _); [congruence|]. destruct (fo_blocks _ _ Hfs a) as (d' & Hd' & Hl); [subst a; lia|].
  assert (d' = d) as -> by congruence. split; [done|]. rewrite Hl. pose proof (Z.mod_pos_bound off BSIZE ltac:(done)). lia.
Qed.

Lemma write_faddr bn : faddr ip V2 bn = faddr ip V bn.
Proof.
  unfold faddr. case_bool_decide; [done|]. unfold ind_entry. case_bool_decide as H0; [done|].
  unfold V2. rewrite lookup_insert_ne; [done|]. rewrite <-Ha. by apply (fl_sep _ _ _ Hf).
Qed.

Lemma write_byte o : in_file (o / BSIZE) →
  fbyte ip V2 o = if decide (off <= o < off + Z.of_nat (length data)) then data !!! Z.to_nat (o - off) else fbyte ip V o.
Proof.
  intros Ho. destruct write_len as [Hl Hl2]. unfold fbyte. rewrite write_faddr. destruct (decide (o / BSIZE = off / BSIZE)) as [E|E].
  - rewrite E, Ha. unfold block_byte. rewrite bool_decide_eq_false_2 by done. unfold V2. rewrite lookup_insert_eq, Hd, splice_lookup by done.
    change BSIZE with 1024 in *. repeat case_decide; try done; [f_equal| |]; Z.to_euclidean_division_equations; lia.
  - rewrite decide_False. 
    + unfold block_byte. case_bool_decide as H0; [done|]. unfold V2. rewrite lookup_insert_ne; [done|].
      intros E2. apply E. apply (fl_inj _ _ _ Hf); [done|done|congruence|done].
    + intros Hc. apply E. change BSIZE with 1024 in *. Z.to_euclidean_division_equations. lia.
Qed.

Lemma wrote_data : wrote s V ip V2 ip off data.
Proof.
  destruct write_len as [Hl Hl2]. pose proof (fl_blk _ _ _ Hf _ Hin ltac:(congruence)) as Hown. rewrite Ha in Hown.
  assert (∀ b, owned s V b → owned s V2 b) as Ho by (intros b; apply data_owned, Hown).
  split; try done.
  - by destruct ip.
  - apply data_fs_ok; [apply Hown|done|]. by rewrite length_splice.
  - destruct Hf as [Fl Fb Fi Fj Fs]. split; [done|..].
    + intros bn Hbn. rewrite write_faddr. intros H0. by apply Ho, Fb.
    + intros H0. by apply Ho, Fi.
    + intros x y Hx Hy. rewrite !write_faddr. by apply Fj.
    + intros bn Hbn. rewrite write_faddr. by apply Fs.
  - intros bn Hbn _. apply write_faddr.
  - intros bn Hbn E. by rewrite write_faddr.
  - intros o Ho'. rewrite write_faddr. replace (o / BSIZE) with (off / BSIZE); [congruence|].
    change BSIZE with 1024 in *. Z.to_euclidean_division_equations. lia.
  - apply write_byte.
  - intros b Hb _ Hn. unfold V2. rewrite lookup_insert_ne; [done|]. rewrite <-Ha. by apply Hn.
Qed.
End write.

(** The file grows by the block that is to be written, and then it is written. *)
Lemma wrote_grown s V ip V1 ip1 V2 ip2 off data :
  file_ok s V ip → grown s V ip V1 ip1 → wrote s V1 ip1 V2 ip2 off data → wrote s V ip V2 ip2 off data.
Proof.
  intros Hf Hg Hw. apply (wrote_app s V ip V1 ip1 V2 ip2 off [] data); [simpl; lia|by apply wrote_nil|].
  simpl. by rewrite Z.add_0_r.
Qed.
