(* ===== verification/FileRun.v ===== *)
(** * bmap, readi and writei on the blocks of a file *)
From S2P Require Import Prelude.
From S2P Require Import Mem.
From S2P Require Import Params.
From S2P Require Import State.
From S2P Require Import Sched.
From S2P Require Import Bio.
From S2P Require Import Log.
From S2P Require Import Fs.
From S2P Require Import Wp.
From S2P Require Import SchedSpec.
From S2P Require Import BioSpec.
From S2P Require Import BioRef.
From S2P Require Import LogSpec.
From S2P Require Import FsTx.
From S2P Require Import BlockSpec.
From S2P Require Import BlockThms.
From S2P Require Import ItableThms.
From S2P Require Import InodeThms.
From S2P Require Import FileMap.
#[local] Open Scope Z_scope.

(** Of the inode table only entry [i] has changed, and the disk has not. *)
Record fstep (i : nat) (r r' : sys) : Prop := {
  fs_disk : disk r' = disk r;
  fs_sb : sb r' = sb r;
  fs_itable : ∀ j, j ≠ i → itable r' !! j = itable r !! j
}.

Lemma fstep_refl i r : fstep i r r.
Proof. by split. Qed.

Lemma fstep_trans i r1 r2 r3 : fstep i r1 r2 → fstep i r2 r3 → fstep i r1 r3.
Proof. intros [D1 S1 T1] [D2 S2 T2]. split; [congruence|congruence|]. intros j Hj. by rewrite T2, T1. Qed.

Lemma fstep_set i r ip : fstep i r (r <| itable := <[i := ip]> (itable r) |>).
Proof. split; [done|done|]. intros j Hj. rsimpl. by apply list_lookup_insert_ne. Qed.

Lemma addlog_length bs b : (length bs <= length (addlog bs b) <= length bs + 1)%nat.
Proof. unfold addlog. case_decide; rewrite ?length_app; simpl; lia. Qed.

Lemma locks_empty s V : locks_used s V ∅.
Proof. intros b [x Hx]. by rewrite lookup_empty in Hx. Qed.

(** There is no free block. *)
Definition full (s : superblock) (V : gmap Z (list Z)) : Prop := ∀ b, 0 <= b < sb_size s → used s V b = true.

Section run.
Context `{Linker} `{Sched} `{BlockDevOk}.

Lemma tstep_fstep i r r' : tstep r r' → fstep i r r'.
Proof. intros Hs. split; [by destruct (tstep_disk _ _ Hs)|by apply tstep_sb|]. intros j _. by rewrite (tstep_itable _ _ Hs). Qed.

Lemma wp_assoc {S A B C} (m : M S A) (n : A → M S B) (k : B → M S C) Q s :
  wp (m ≫= λ a, n a ≫= k) Q s → wp ((m ≫= n) ≫= k) Q s.
Proof. unfold wp, mbind, M_bind. by destruct (m s). Qed.

Lemma wp_bmap_slot i k ip pid L V bs (Q : Z → st sys → Prop) h r :
  let s := sb r in
  txn r pid L V bs ∅ → fs_ok s V → itable r !! i = Some ip → i_dev ip = ROOTDEV → (length bs + 2 <= NLOG)%nat → (length bs + 1 < NBUF)%nat →
  (i_addrs ip !!! k ≠ 0 → Q (i_addrs ip !!! k) (St h r)) →
  (∀ v r' V' bs', i_addrs ip !!! k = 0 → fstep i r r' → 0 < v < sb_size s → used s V v = false → allocated s V v V' →
     itable r' !! i = Some (set_slot k v ip) → (length bs' <= length bs + 2)%nat → txn r' pid L V' bs' ∅ → Q v (St h r')) →
  (∀ r', i_addrs ip !!! k = 0 → full s V → fstep i r r' → itable r' !! i = Some ip → txn r' pid L V bs ∅ → Q 0 (St h r')) →
  wp (bmap_slot i k) Q (St h r).
Proof.
  intros s Htx Hfs Hi Hdev Hn Hroom HQ HQa HQ0. unfold bmap_slot. apply wp_bind, (wp_ip_get _ ip); [done|].
  case_bool_decide as Hz; [|apply wp_ret; auto]. rewrite Hdev. apply wp_bind.
  eapply wp_balloc; [exact Htx|exact Hfs|apply locks_empty|done|rewrite map_size_empty; lia|..].
  - intros v r1 V1 S1 Hv Hfree _ Ha T1. rewrite bool_decide_eq_false_2 by lia. apply wp_bind.
    pose proof (tstep_itable _ _ S1) as Eit. eapply (wp_ip_upd _ ip); [by rewrite Eit|]. apply wp_ret.
    eapply (HQa v _ V1 (addlog (addlog bs (BBLOCK v s)) v)); try done.
    + eapply fstep_trans; [by apply tstep_fstep|apply fstep_set].
    + rsimpl. rewrite list_lookup_insert_eq; [done|]. rewrite Eit. by eapply lookup_lt_Some.
    + pose proof (addlog_length bs (BBLOCK v s)). pose proof (addlog_length (addlog bs (BBLOCK v s)) v). lia.
    + by apply txn_itable.
  - intros r1 S1 Hfull T1. rewrite bool_decide_eq_true_2 by done. apply wp_ret. apply HQ0; [done|done|by apply tstep_fstep| |done].
    by rewrite (tstep_itable _ _ S1).
Qed.

(** The entry of the indirect block: found, or filled with a new block. *)
Lemma wp_bmap_entry i bn ip pid L V bs (Q : Z → st sys → Prop) h r :
  let s := sb r in
  txn r pid L V bs ∅ → fs_ok s V → file_ok s V ip → itable r !! i = Some ip → i_dev ip = ROOTDEV →
  NDIRECT <= bn → in_file bn → ind_ ip ≠ 0 → (length bs + 3 <= NLOG)%nat → (length bs + 4 < NBUF)%nat →
  (∀ r' V' bs', fstep i r r' → grown s V ip V' ip → itable r' !! i = Some ip → (length bs' <= length bs + 3)%nat →
     (faddr ip V' bn = 0 → full s V') → txn r' pid L V' bs' ∅ → Q (faddr ip V' bn) (St h r')) →
  wp (ip0 ← ip_get i;
      bp ← bread (i_dev ip0) (ind_ ip);
      b ← buf_get bp;
      let addr := get32 (b_data b) (Z.to_nat (4 * (bn - NDIRECT))) in
      addr ← (if bool_decide (addr = 0) then
                addr ← balloc (i_dev ip0);
                when (bool_decide (addr ≠ 0))
                  (buf_upd bp (λ b, b <| b_data := put32 (b_data b) (Z.to_nat (4 * (bn - NDIRECT))) addr |>);;
                   log_write bp);;
                mret addr
              else mret addr);
      brelse bp;;
      mret addr) Q (St h r).
Proof.
  intros s Htx Hfs Hf Hi Hdev Hbn Hbn' Hind Hn Hroom HQ. subst s. apply wp_bind, (wp_ip_get _ ip); [done|]. rewrite Hdev.
  pose proof (fl_ind _ _ _ Hf Hind) as Hown. destruct (Hown) as (Hr & Hu & Hnm). pose proof (fo_size _ _ Hfs) as Hsz.
  destruct (fo_blocks _ _ Hfs (ind_ ip)) as (d & Hd & Hl); [lia|].
  apply wp_bind. eapply wp_tx_bread; [exact Htx|exact Hd|apply lookup_empty|rewrite map_size_empty; lia|]. intros bp r1 S1 T1.
  apply wp_bind. eapply wp_tx_get; [exact T1|apply lookup_insert_eq|exact Hd|]. intros x Hx _. rewrite Hx.
  pose proof (tstep_itable _ _ S1) as E1. pose proof (tstep_sb _ _ S1) as Esb1.
  assert (faddr ip V bn = get32 d (Z.to_nat (4 * (bn - NDIRECT)))) as Ef.
  { unfold faddr, ind_entry. rewrite bool_decide_eq_false_2 by lia. by rewrite bool_decide_eq_false_2, Hd. }
  apply wp_bind. case_bool_decide as Hz; last first.
  { apply wp_ret, wp_bind. eapply wp_tx_brelse; [exact T1|apply lookup_insert_eq|]. intros r2 S2 T2.
    rewrite delete_insert_id in T2 by apply lookup_empty. apply wp_ret. rewrite <-Ef. pose proof (tstep_trans _ _ _ S1 S2) as S12.
    eapply (HQ r2 V bs); [by apply tstep_fstep|by apply grown_refl|by rewrite (tstep_itable _ _ S12)|lia|congruence|exact T2]. }
  apply wp_bind. eapply wp_balloc; rewrite ?Esb1; [exact T1|exact Hfs| |lia|rewrite map_size_insert_None, map_size_empty by apply lookup_empty; lia|..].
  { intros b [j Hj]. rewrite lookup_insert_Some, lookup_empty in Hj. destruct Hj as [[<- _]|[_ [=]]]. done. }
  - intros v r2 V2 S2 Hv Hfree _ Ha T2. rewrite bool_decide_eq_true_2 by lia. cbn [when].
    destruct (alloc_other _ _ _ _ Hv Hfree Ha _ Hown) as [Hne Hd2]. rewrite Hd in Hd2.
    destruct (grow_entry _ _ _ _ _ Hfs Hf Hv Hfree Ha bn d Hbn Hbn' Hind) as [Hg Hfa]; [congruence|done|].
    pose proof (addlog_length bs (BBLOCK v (sb r))). pose proof (addlog_length (addlog bs (BBLOCK v (sb r))) v).
    apply wp_assoc. eapply (wp_tx_write (λ x, put32 x (Z.to_nat (4 * (bn - NDIRECT))) v) (ind_ ip));
      [exact T2|apply lookup_insert_eq|exact Hd2|unfold blockno_ok; lia|lia|]. intros r3 S3 T3. apply wp_ret, wp_bind.
    eapply wp_tx_brelse; [exact T3|apply lookup_insert_eq|]. intros r4 S4 T4.
    rewrite delete_insert_id in T4 by apply lookup_empty. apply wp_ret. rewrite <-Hfa.
    assert (tstep r r4) as S14 by (repeat (eapply tstep_trans; [eassumption|]); apply tstep_refl).
    eapply HQ; [by apply tstep_fstep|exact Hg|by rewrite (tstep_itable _ _ S14)| |rewrite Hfa; lia|exact T4].
    pose proof (addlog_length (addlog (addlog bs (BBLOCK v (sb r))) v) (ind_ ip)). lia.
  - intros r2 S2 Hfull T2. cbn. apply wp_ret, wp_bind. eapply wp_tx_brelse; [exact T2|apply lookup_insert_eq|]. intros r3 S3 T3.
    rewrite delete_insert_id in T3 by apply lookup_empty. apply wp_ret. rewrite <-Hz, <-Ef.
    assert (tstep r r3) as S13 by (repeat (eapply tstep_trans; [eassumption|]); apply tstep_refl).
    eapply (HQ r3 V bs); [by apply tstep_fstep|by apply grown_refl|by rewrite (tstep_itable _ _ S13)|lia|done|exact T3].
Qed.

Lemma in_file_u32 bn : NDIRECT <= bn → in_file bn → u32 (bn - NDIRECT) = bn - NDIRECT ∧ bn - NDIRECT < NINDIRECT.
Proof. change MAXFILE with 268. change NINDIRECT with 256. change NDIRECT with 12. intros ? ?. split; [apply uN_small; lia|lia]. Qed.

(** bmap returns the block's address; the file may have grown for it. *)
Lemma wp_bmap i bn ip pid L V bs (Q : Z → st sys → Prop) h r :
  let s := sb r in
  txn r pid L V bs ∅ → fs_ok s V → file_ok s V ip → itable r !! i = Some ip → i_dev ip = ROOTDEV → in_file bn →
  (length bs + 5 <= NLOG)%nat → (length bs + 6 < NBUF)%nat →
  (∀ r' V' ip' bs', fstep i r r' → grown s V ip V' ip' → itable r' !! i = Some ip' → (length bs' <= length bs + 5)%nat →
     (faddr ip' V' bn = 0 → full s V') → txn r' pid L V' bs' ∅ → Q (faddr ip' V' bn) (St h r')) →
  wp (bmap i bn) Q (St h r).
Proof.
  intros s Htx Hfs Hf Hi Hdev Hbn Hn Hroom HQ. subst s. unfold bmap. case_bool_decide as Hd.
  - assert (faddr ip V bn = i_addrs ip !!! Z.to_nat bn) as Ef by (unfold faddr; by rewrite bool_decide_eq_true_2).
    eapply wp_bmap_slot; [exact Htx|exact Hfs|exact Hi|done|lia|lia|..]; rewrite <-Ef.
    + intros Hz. eapply HQ; [apply fstep_refl|by apply grown_refl|done| | |exact Htx]; [lia|done].
    + intros v r1 V1 bs1 Hz S1 Hv Hfree Ha Hi1 Hl T1.
      destruct (grow_direct _ _ _ _ _ Hfs Hf Hv Hfree Ha bn) as [Hg Hfa]; [lia|done|]. rewrite <-Hfa at 1.
      eapply HQ; [done|exact Hg|done| | |exact T1]; [lia|rewrite Hfa; lia].
    + intros r1 Hz Hfull S1 Hi1 T1. rewrite <-Hz. eapply HQ; [done|by apply grown_refl|done| | |exact T1]; [lia|done].
  - destruct (in_file_u32 bn) as [Eu Hlt]; [lia|done|]. rewrite Eu, bool_decide_eq_true_2 by done. fold (ind_ ip).
    assert (ind_ ip = 0 → faddr ip V bn = 0) as Ef.
    { intros E. unfold faddr, ind_entry. rewrite bool_decide_eq_false_2 by done. by rewrite bool_decide_eq_true_2. }
    apply wp_bind. eapply wp_bmap_slot; [exact Htx|exact Hfs|exact Hi|done|lia|lia|..]; fold (ind_ ip).
    + intros Hz. rewrite bool_decide_eq_false_2 by done. eapply wp_bmap_entry; [exact Htx|exact Hfs|exact Hf|exact Hi|exact Hdev|lia|exact Hbn|exact Hz|lia|lia|].
      intros r1 V1 bs1 S1 Hg Hi1 Hl Hfl T1. eapply HQ; [done|exact Hg|done| | |exact T1]; [lia|done].
    + intros v r1 V1 bs1 Hz S1 Hv Hfree Ha Hi1 Hl T1. rewrite bool_decide_eq_false_2 by lia.
      destruct (grow_ind _ _ _ _ _ Hfs Hf Hv Hfree Ha Hz) as [Hg Ei].
      set (ip1 := set_slot (Z.to_nat NDIRECT) v ip) in *.
      assert (i_dev ip1 = ROOTDEV) as Hdev1 by done. clearbody ip1. subst v. pose proof (fs_sb _ _ _ S1) as Esb.
      eapply wp_bmap_entry; rewrite ?Esb; [exact T1|apply Hg|apply Hg|exact Hi1|exact Hdev1|lia|exact Hbn|lia|lia|lia|].
      intros r2 V2 bs2 S2 Hg2 Hi2 Hl2 Hfl T2.
      eapply HQ; [by eapply fstep_trans|by eapply grown_trans|exact Hi2| | |exact T2]; [lia|done].
    + intros r1 Hz Hfull S1 Hi1 T1. rewrite bool_decide_eq_true_2 by done. apply wp_ret. rewrite <-(Ef Hz) at 1.
      eapply HQ; [done|by apply grown_refl|done| | |exact T1]; [lia|done].
Qed.

(** A block that the file has is found without writing anything. *)
Lemma wp_bmap_mapped i bn ip pid L V bs (Q : Z → st sys → Prop) h r :
  let s := sb r in
  rtxn r pid L V bs ∅ → fs_ok s V → file_ok s V ip → itable r !! i = Some ip → i_dev ip = ROOTDEV → in_file bn →
  faddr ip V bn ≠ 0 → (length bs < NBUF)%nat →
  (∀ r', tstep r r' → rtxn r' pid L V bs ∅ → Q (faddr ip V bn) (St h r')) →
  wp (bmap i bn) Q (St h r).
Proof.
  intros s Htx Hfs Hf Hi Hdev Hbn Hnz Hroom HQ. unfold bmap. case_bool_decide as Hd.
  - assert (faddr ip V bn = i_addrs ip !!! Z.to_nat bn) as Ef by (unfold faddr; by rewrite bool_decide_eq_true_2).
    apply wp_bind, (wp_ip_get _ ip); [done|]. cbn zeta. rewrite <-Ef, bool_decide_eq_false_2 by done. apply wp_ret.
    apply HQ; [apply tstep_refl|done].
  - destruct (in_file_u32 bn) as [Eu Hlt]; [lia|done|]. rewrite Eu, bool_decide_eq_true_2 by done.
    assert (ind_ ip ≠ 0) as Hind.
    { intros E. apply Hnz. unfold faddr, ind_entry. rewrite bool_decide_eq_false_2 by done. by rewrite bool_decide_eq_true_2. }
    pose proof (fl_ind _ _ _ Hf Hind) as (Hr & _ & _). destruct (fo_blocks _ _ Hfs (ind_ ip)) as (d & Hd' & _); [lia|].
    assert (faddr ip V bn = get32 d (Z.to_nat (4 * (bn - NDIRECT)))) as Ef.
    { unfold faddr, ind_entry. rewrite bool_decide_eq_false_2 by done. by rewrite bool_decide_eq_false_2, Hd'. }
    apply wp_bind, wp_bind, (wp_ip_get _ ip); [done|]. cbn zeta. fold (ind_ ip). rewrite bool_decide_eq_false_2 by done. apply wp_ret.
    rewrite bool_decide_eq_false_2 by done. apply wp_bind, (wp_ip_get _ ip); [done|]. rewrite Hdev.
    apply wp_bind. eapply wp_rtx_bread; [exact Htx|exact Hd'|apply lookup_empty|rewrite map_size_empty; lia|]. intros bp r1 S1 T1.
    apply wp_bind. eapply wp_rtx_get; [exact T1|apply lookup_insert_eq|exact Hd'|]. intros x Hx _. rewrite Hx, <-Ef.
    apply wp_bind. rewrite bool_decide_eq_false_2 by done. apply wp_ret, wp_bind.
    eapply wp_rtx_brelse; [exact T1|apply lookup_insert_eq|]. intros r2 S2 T2.
    rewrite delete_insert_id in T2 by apply lookup_empty. apply wp_ret. apply HQ; [by eapply tstep_trans|done].
Qed.

(** ** readi *)

(** Every block below [n] is there. *)
Definition mapped (ip : inode) (V : gmap Z (list Z)) (n : Z) : Prop :=
  n <= MAXFILE * BSIZE ∧ ∀ o, 0 <= o < n → faddr ip V (o / BSIZE) ≠ 0.

Lemma in_file_div o n : 0 <= o < n → n <= MAXFILE * BSIZE → in_file (o / BSIZE).
Proof. change MAXFILE with 268. change BSIZE with 1024. intros. Z.to_euclidean_division_equations. lia. Qed.

(** What is left to copy fits the remaining rounds. *)
Definition enough (fuel : nat) (off left : Z) : Prop :=
  left <= 0 ∧ (0 < fuel)%nat ∨ off mod BSIZE + left <= BSIZE * (Z.of_nat fuel - 1).

Lemma enough_next fuel off left :
  0 <= off → 0 < left → enough (S fuel) off left →
  let m := Z.min left (BSIZE - off mod BSIZE) in enough fuel (off + m) (left - m) ∧ 0 < m ∧ off mod BSIZE + m <= BSIZE.
Proof.
  unfold enough. change BSIZE with 1024. intros Ho Hl [[? ?]|He]; [lia|]. cbn zeta. Z.to_euclidean_division_equations. lia.
Qed.

Lemma enough_rounds off n : 0 <= n → enough (rw_rounds n) off n.
Proof.
  intros Hn. right. unfold rw_rounds. change BSIZE with 1024. Z.to_euclidean_division_equations. lia.
Qed.

Lemma wp_readi_loop fuel i ip off n tot acc pid L V bs (Q : Z * list Z → st sys → Prop) h r :
  let s := sb r in
  rtxn r pid L V bs ∅ → fs_ok s V → file_ok s V ip → itable r !! i = Some ip → i_dev ip = ROOTDEV → (length bs < NBUF)%nat →
  0 <= off → tot <= n → mapped ip V (off + (n - tot)) → enough fuel off (n - tot) →
  (∀ r', tstep r r' → rtxn r' pid L V bs ∅ → Q (n, acc ++ fbytes ip V off (Z.to_nat (n - tot))) (St h r')) →
  wp (readi_loop fuel i DLocal off n tot acc) Q (St h r).
Proof.
  intros s Htx Hfs Hf Hi Hdev Hroom. remember s as s0 eqn:Es. subst s. revert off tot acc r Es Htx Hi.
  induction fuel as [|fuel IH]; intros off tot acc r Es Htx Hi Hoff Htot [Hmax Hmap] Hen HQ.
  { exfalso. destruct Hen as [[_ ?]|He]; [lia|]. change BSIZE with 1024 in He. Z.to_euclidean_division_equations. lia. }
  cbn [readi_loop]. case_bool_decide as Hlt; last first.
  { apply wp_ret. assert (n = tot) as -> by lia. rewrite Z.sub_diag in HQ. simpl in HQ. rewrite app_nil_r in HQ.
    apply HQ; [apply tstep_refl|done]. }
  destruct (enough_next fuel off (n - tot)) as (Hen' & Hm0 & Hmb); [done|lia|done|]. set (m := Z.min _ _) in *.
  assert (in_file (off / BSIZE)) as Hin by (apply (in_file_div off (off + (n - tot))); [lia|done]).
  pose proof (Hmap off ltac:(lia)) as Hnz. pose proof (fl_blk _ _ _ Hf _ Hin Hnz) as (Hr & _ & _).
  destruct (fo_blocks _ _ Hfs (faddr ip V (off / BSIZE))) as (d & Hd & Hl); [lia|].
  apply wp_bind. eapply wp_bmap_mapped; rewrite <-?Es; [exact Htx|exact Hfs|exact Hf|exact Hi|exact Hdev|exact Hin|exact Hnz|lia|].
  intros r1 S1 T1. rewrite bool_decide_eq_false_2 by done. pose proof (tstep_itable _ _ S1) as E1.
  apply wp_bind, (wp_ip_get _ ip); [by rewrite E1|]. rewrite Hdev.
  apply wp_bind. eapply wp_rtx_bread; [exact T1|exact Hd|apply lookup_empty|rewrite map_size_empty; lia|]. intros bp r2 S2 T2.
  apply wp_bind. eapply wp_rtx_get; [exact T2|apply lookup_insert_eq|exact Hd|]. intros x Hx _. rewrite Hx.
  rewrite (fbytes_block ip V off (Z.to_nat m) _ d) by (done || lia). apply wp_bind, wp_ret.
  rewrite bool_decide_eq_false_2 by done. apply wp_bind. eapply wp_rtx_brelse; [exact T2|apply lookup_insert_eq|]. intros r3 S3 T3.
  rewrite delete_insert_id in T3 by apply lookup_empty.
  assert (tstep r r3) as S13 by (repeat (eapply tstep_trans; [eassumption|]); apply tstep_refl).
  assert (u32 (off + m) = off + m) as ->.
  { apply uN_small. change MAXFILE with 268 in Hmax. change BSIZE with 1024 in Hmax. lia. }
  eapply IH; [by rewrite (tstep_sb _ _ S13)|exact T3|by rewrite (tstep_itable _ _ S13)|lia|lia| | |].
  - replace (off + m + (n - (tot + m))) with (off + (n - tot)) by lia. by split.
  - by replace (n - (tot + m)) with (n - tot - m) by lia.
  - intros r' S' T'. rewrite <-app_assoc.
    replace (fbytes ip V off (Z.to_nat m) ++ fbytes ip V (off + m) (Z.to_nat (n - (tot + m))))
      with (fbytes ip V off (Z.to_nat (n - tot))); [apply HQ; [by eapply tstep_trans|done]|].
    replace (Z.to_nat (n - tot)) with (Z.to_nat m + Z.to_nat (n - (tot + m)))%nat by lia. rewrite fbytes_app. do 2 f_equal. lia.
Qed.

(** ** writei *)
Lemma wp_write_block {A} a d o md pid L V bs (k : K A) (Q : A → st sys → Prop) h r :
  txn r pid L V bs ∅ → V !! a = Some d → blockno_ok a → (length bs < NLOG)%nat →
  (∀ r', tstep r r' → txn r' pid L (<[a := splice d o md]> V) (addlog bs a) ∅ → wp k Q (St h r')) →
  wp (bp ← bread ROOTDEV a; buf_upd bp (λ b, b <| b_data := splice (b_data b) o md |>);; log_write bp;; brelse bp;; k) Q (St h r).
Proof.
  intros Htx Hd Hok Hn HQ. apply wp_bind. eapply wp_tx_bread; [exact Htx|exact Hd|apply lookup_empty|rewrite map_size_empty|].
  { change NLOG with 30%nat in Hn. unfold NBUF. lia. }
  intros bp r2 S2 T2. eapply (wp_tx_write (λ x, splice x o md)); [exact T2|apply lookup_insert_eq|exact Hd|done|done|].
  intros r3 S3 T3. apply wp_bind. eapply wp_tx_brelse; [exact T3|apply lookup_insert_eq|]. intros r4 S4 T4.
  rewrite delete_insert_id in T4 by apply lookup_empty.
  apply HQ; [repeat (eapply tstep_trans; [eassumption|]); apply tstep_refl|done].
Qed.

Lemma wp_writei_loop fuel R i ip off n tot data pid L V bs (Q : Z * Z → st sys → Prop) h r :
  let s := sb r in
  txn r pid L V bs ∅ → fs_ok s V → file_ok s V ip → itable r !! i = Some ip → i_dev ip = ROOTDEV → (length bs + 6 * R < NLOG)%nat →
  0 <= off → Z.of_nat (length data) = n - tot → off + (n - tot) <= MAXFILE * BSIZE → enough fuel off (n - tot) → enough (S R) off (n - tot) →
  (∀ k r' V' ip' bs', (k <= length data)%nat → fstep i r r' → wrote s V ip V' ip' off (take k data) → itable r' !! i = Some ip' →
     k = length data ∨ full s V' → (length bs' <= length bs + 6 * R)%nat → txn r' pid L V' bs' ∅ →
     Q (tot + Z.of_nat k, off + Z.of_nat k) (St h r')) →
  wp (writei_loop fuel i (SLocal data) off n tot) Q (St h r).
Proof.
  intros s. remember s as s0 eqn:Es. subst s. revert R ip off tot data V bs r Es.
  induction fuel as [|fuel IH]; intros R ip off tot data V bs r Es Htx Hfs Hf Hi Hdev Hroom Hoff Hlen Hmax Hen HR HQ.
  { exfalso. destruct Hen as [[_ ?]|He]; [lia|]. change BSIZE with 1024 in He. Z.to_euclidean_division_equations. lia. }
  cbn [writei_loop]. case_bool_decide as Hlt; last first.
  { apply wp_ret. specialize (HQ 0%nat r V ip bs). rewrite !Z.add_0_r in HQ. apply HQ; [lia|apply fstep_refl| |done|left; lia|lia|done].
    apply wrote_nil; [done|by apply grown_refl]. }
  destruct (enough_next fuel off (n - tot)) as (Hen' & Hm0 & Hmb); [done|lia|done|]. set (m := Z.min _ _) in *.
  destruct (enough_next R off (n - tot)) as (HR' & _ & _); [done|lia|done|]. fold m in HR'.
  destruct R as [|R]; [exfalso; destruct HR as [[? _]|He]; [lia|]; change BSIZE with 1024 in He; Z.to_euclidean_division_equations; lia|].
  assert (in_file (off / BSIZE)) as Hin by (apply (in_file_div off (off + (n - tot))); [lia|done]).
  change NLOG with 30%nat in *.
  apply wp_bind. eapply wp_bmap; rewrite <-?Es; [exact Htx|exact Hfs|exact Hf|exact Hi|exact Hdev|exact Hin|change NLOG with 30%nat; lia|unfold NBUF; lia|].
  intros r1 V1 ip1 bs1 S1 Hg Hi1 Hl1 Hfull T1. case_bool_decide as Hz.
  { apply wp_ret. specialize (HQ 0%nat r1 V1 ip1 bs1). rewrite !Z.add_0_r in HQ. apply HQ; [lia|done|by apply wrote_nil|done|auto|lia|done]. }
  destruct (fl_blk _ _ _ (gr_file _ _ _ _ _ Hg) _ Hin Hz) as (Hr & _ & _). pose proof (fo_size _ _ Hfs) as Hsz.
  destruct (fo_blocks _ _ (gr_fs _ _ _ _ _ Hg) _ (conj (Z.lt_le_incl _ _ (proj1 Hr)) (proj2 Hr))) as (d & Hd & Hl).
  assert (i_dev ip1 = ROOTDEV) as Hdev1 by (by rewrite (gr_ip _ _ _ _ _ Hg)).
  apply wp_bind, (wp_ip_get _ ip1); [done|]. rewrite Hdev1.
  set (md := take (Z.to_nat m) data). assert (Z.of_nat (length md) = m) as Hmd by (unfold md; rewrite length_take; lia).
  change (either_copyin (SLocal data) (Z.to_nat m)) with (mret (M := M (st sys)) (0, md)).
  eapply (wp_write_block _ d (Z.to_nat (off mod BSIZE)) md); [exact T1|exact Hd|unfold blockno_ok; lia|change NLOG with 30%nat; lia|].
  intros r4 S14 T4.
  pose proof (fstep_trans _ _ _ _ S1 (tstep_fstep i _ _ S14)) as S04. pose proof (addlog_length bs1 (faddr ip1 V1 (off / BSIZE))).
  pose proof (wrote_data s0 V1 ip1 off _ d md (gr_fs _ _ _ _ _ Hg) (gr_file _ _ _ _ _ Hg) Hin eq_refl Hz Hd ltac:(lia)) as Hw.
  pose proof (wrote_grown _ _ _ _ _ _ _ _ _ Hf Hg Hw) as Hw0.
  assert (u32 (off + m) = off + m) as ->.
  { apply uN_small. change MAXFILE with 268 in Hmax. change BSIZE with 1024 in Hmax. lia. }
  eapply (IH R ip1); [by rewrite (fs_sb _ _ _ S04)|exact T4|apply Hw|apply Hw|by rewrite (tstep_itable _ _ S14)|done|lia|lia| |lia| | |].
  - rewrite length_drop. lia.
  - by replace (n - (tot + m)) with (n - tot - m) by lia.
  - by replace (n - (tot + m)) with (n - tot - m) by lia.
  - intros k r5 V5 ip5 bs5 Hk S5 Hw5 Hi5 Hfl Hl5 T5. rewrite length_drop in Hk, Hfl.
    replace (tot + m + Z.of_nat k) with (tot + Z.of_nat (length md + k)) by lia.
    replace (off + m + Z.of_nat k) with (off + Z.of_nat (length md + k)) by lia.
    eapply HQ; [lia|by eapply fstep_trans| |done|destruct Hfl; [left; lia|by right]| |exact T5]; [|lia].
    replace (take (length md + k) data) with (md ++ take k (drop (Z.to_nat m) data)).
    + eapply wrote_app; [|exact Hw0|by rewrite Hmd]. intros o Ho. apply (in_file_div o (off + (n - tot))); lia.
    + replace (length md) with (Z.to_nat m) by lia. apply take_take_drop.
Qed.
End run.
