(* ===== verification/FileThms.v ===== *)
(** * Reading and writing files *)
From S2P Require Import Prelude.
From S2P Require Import Mem.
From S2P Require Import Params.
From S2P Require Import State.
From S2P Require Import Sched.
From S2P Require Import Bio.
From S2P Require Import Log.
From S2P Require Import Fs.
From S2P Require Import Wp.
From S2P Require Import SchedSpec.
From S2P Require Import BioSpec.
From S2P Require Import BioRef.
From S2P Require Import LogSpec.
From S2P Require Import FsTx.
From S2P Require Import BlockSpec.
From S2P Require Import Boot0.
From S2P Require Import BlockThms.
From S2P Require Import ItableThms.
From S2P Require Import InodeThms.
From S2P Require Import FileMap.
From S2P Require Import FileRun.
#[local] Open Scope Z_scope.

Section file.
Context `{Linker} `{Sched} `{BlockDevOk}.

(** What readi returns, and what it stores, for a file with contents [f]. *)
Definition read_result (size : Z) (f : Z → nat → list Z) (off n : Z) : Z * list Z :=
  if decide (size < off ∨ 2 ^ 32 <= off + n) then (0, []) else
  let k := Z.min n (size - off) in (k, f off (Z.to_nat k)).

Lemma u32_overflow off n : 0 <= off < 2 ^ 32 → 0 <= n < 2 ^ 32 →
  (u32 (off + n) < off ↔ 2 ^ 32 <= off + n) ∧ (off + n < 2 ^ 32 → u32 (off + n) = off + n).
Proof.
  intros Ho Hn. unfold uN. split; [|intros; apply Z.mod_small; lia].
  destruct (decide (off + n < 2 ^ 32)); [rewrite Z.mod_small by lia; lia|].
  replace (off + n) with ((off + n - 2 ^ 32) + 1 * 2 ^ 32) by lia. rewrite Z.mod_add, Z.mod_small by lia. lia.
Qed.

Lemma s32_small x : 0 <= x < 2 ^ 31 → s32 x = x.
Proof. intros Hx. unfold sN. change (32 - 1) with 31. rewrite Z.mod_small; lia. Qed.

Lemma wp_readi i ip off n pid L V bs (Q : Z * list Z → st sys → Prop) h r :
  let s := sb r in
  rtxn r pid L V bs ∅ → fs_ok s V → file_ok s V ip → itable r !! i = Some ip → i_dev ip = ROOTDEV → (length bs < NBUF)%nat →
  0 <= off < 2 ^ 32 → 0 <= n < 2 ^ 32 → 0 <= i_size ip → mapped ip V (i_size ip) →
  (∀ r', tstep r r' → rtxn r' pid L V bs ∅ → Q (read_result (i_size ip) (fbytes ip V) off n) (St h r')) →
  wp (readi i DLocal off n) Q (St h r).
Proof.
  intros s Htx Hfs Hf Hi Hdev Hroom Hoff Hn Hsz [Hmax Hmap] HQ. unfold readi, read_result in *. apply wp_bind, (wp_ip_get _ ip); [done|].
  destruct (u32_overflow off n Hoff Hn) as [Ho1 Ho2]. assert (i_size ip < 2 ^ 31) by (change (MAXFILE * BSIZE) with 274432 in Hmax; lia).
  case_bool_decide as Hc; [rewrite decide_True in HQ by tauto; apply wp_ret, HQ; [apply tstep_refl|done]|].
  rewrite decide_False in HQ by tauto. rewrite Ho2 by lia. apply wp_bind.
  set (k := Z.min n (i_size ip - off)) in *.
  assert ((if bool_decide (i_size ip < off + n) then u32 (i_size ip - off) else n) = k) as ->.
  { case_bool_decide; [rewrite uN_small by lia|]; lia. }
  eapply wp_readi_loop; [exact Htx|exact Hfs|exact Hf|exact Hi|exact Hdev|done|lia|lia| |rewrite Z.sub_0_r; apply enough_rounds; lia|].
  { split; [lia|]. intros o Hol. apply Hmap. lia. }
  intros r' S' T'. rewrite Z.sub_0_r. cbn beta iota. apply wp_ret. rewrite s32_small by lia. by apply HQ.
Qed.


(** ** Writing *)

(** A block that no part of the file lies in. *)
Definition outside (ip : inode) (V : gmap Z (list Z)) (b : Z) : Prop :=
  b ≠ ind_ ip ∧ ∀ bn, in_file bn → faddr ip V bn ≠ b.

Lemma wrote_outside s V ip V' ip' off data b :
  wrote s V ip V' ip' off data → owned s V b → outside ip V b → outside ip' V' b ∧ V' !! b = V !! b.
Proof.
  intros Hw Hb [Hi Hn]. split; [split|by apply (wr_keep _ _ _ _ _ _ _ Hw)].
  - destruct (decide (ind_ ip' = ind_ ip)) as [->|E]; [done|]. intros ->. by destruct (wr_ind _ _ _ _ _ _ _ Hw E).
  - intros bn Hbn E. destruct (decide (faddr ip V bn = 0)) as [E0|E0].
    + assert (b ≠ 0) by (destruct Hb; lia). destruct (wr_fresh _ _ _ _ _ _ _ Hw bn Hbn E0); congruence.
    + rewrite (wr_addr _ _ _ _ _ _ _ Hw) in E by done. by destruct (Hn bn Hbn).
Qed.

(** Writing such a block leaves the file alone. *)
Lemma outside_write s V ip b x :
  file_ok s V ip → owned s V b → outside ip V b →
  (∀ bn, faddr ip (<[b := x]> V) bn = faddr ip V bn) ∧ file_ok s (<[b := x]> V) ip ∧
  ∀ o, in_file (o / BSIZE) → fbyte ip (<[b := x]> V) o = fbyte ip V o.
Proof.
  intros Hf Hb [Hi Hn]. assert (∀ bn, faddr ip (<[b := x]> V) bn = faddr ip V bn) as E.
  { intros bn. unfold faddr. case_bool_decide; [done|]. unfold ind_entry. case_bool_decide; [done|]. by rewrite lookup_insert_ne. }
  pose proof (λ a, data_owned s V b x (proj2 (proj2 Hb)) a) as Ho. split_and!; [done| |].
  - destruct Hf as [Fl Fb Fi Fj Fs]. split; [done|..].
    + intros bn Hbn. rewrite E. intros H0'. by apply Ho, Fb.
    + intros H0'. by apply Ho, Fi.
    + intros a c Ha Hc. rewrite !E. by apply Fj.
    + intros bn Hbn. rewrite E. by apply Fs.
  - intros o Hin. unfold fbyte. rewrite E. unfold block_byte. case_bool_decide; [done|]. rewrite lookup_insert_ne; [done|].
    apply not_eq_sym. by apply Hn.
Qed.

(** The addresses in the inode fit 32 bits. *)
Lemma file_inode_ok s V ip ip' :
  fs_ok s V → file_ok s V ip' → inode_ok ip → ip' = ip <| i_addrs := i_addrs ip' |> <| i_size := i_size ip' |> → 0 <= i_size ip' < 2 ^ 32 →
  inode_ok ip'.
Proof.
  intros Hfs Hf [Ht Hma Hmi Hnl Hsz _] E Hs. pose proof (fl_len _ _ _ Hf) as Hl. pose proof (fo_size _ _ Hfs).
  split; [by rewrite E|by rewrite E|by rewrite E|by rewrite E|done|]. split; [done|]. apply Forall_lookup. intros k a Hk.
  pose proof (lookup_lt_Some _ _ _ Hk) as Hk'. apply list_lookup_total_correct in Hk. subst a.
  destruct (decide (k = 12%nat)) as [->|Hne].
  - change (i_addrs ip' !!! 12%nat) with (ind_ ip'). destruct (decide (ind_ ip' = 0)) as [->|E0]; [lia|].
    destruct (fl_ind _ _ _ Hf E0) as (? & _). lia.
  - assert (faddr ip' V (Z.of_nat k) = i_addrs ip' !!! k) as Ef.
    { unfold faddr. rewrite bool_decide_eq_true_2 by (change NDIRECT with 12; lia). f_equal. lia. }
    rewrite <-Ef. destruct (decide (faddr ip' V (Z.of_nat k) = 0)) as [->|E0]; [lia|].
    destruct (fl_blk _ _ _ Hf (Z.of_nat k)) as (? & _); [change MAXFILE with 268; lia|done|]. lia.
Qed.

(** The file after [data] was written at [off], and the rest of the file system. *)
Record written (s : superblock) (V : gmap Z (list Z)) (ip : inode) (V' : gmap Z (list Z)) (ip' : inode)
    (off : Z) (data : list Z) : Prop := {
  wn_size : i_size ip' = Z.max (i_size ip) (off + Z.of_nat (length data));
  wn_ip : ip' = ip <| i_addrs := i_addrs ip' |> <| i_size := i_size ip' |>;
  wn_fs : fs_ok s V';
  wn_file : file_ok s V' ip';
  wn_mapped : mapped ip' V' (i_size ip');
  wn_bytes : ∀ o, in_file (o / BSIZE) → fbyte ip' V' o =
    if decide (off <= o < off + Z.of_nat (length data)) then data !!! Z.to_nat (o - off) else fbyte ip V o;
  wn_other : ∀ b, owned s V b → outside ip V b → b ≠ IBLOCK (i_inum ip) s → V' !! b = V !! b;
  wn_inode : ∃ d d', V !! IBLOCK (i_inum ip) s = Some d ∧ V' !! IBLOCK (i_inum ip) s = Some d' ∧
    decode d' (dip (i_inum ip)) = fields ip' ∧ ∀ m, dip m ≠ dip (i_inum ip) → decode d' (dip m) = decode d (dip m)
}.

Lemma file_ok_size s V ip x : file_ok s V ip → file_ok s V (ip <| i_size := x |>).
Proof. by intros [? ? ? ? ?]. Qed.

Lemma write_inode s V ip V1 ip1 off data d :
  let b := IBLOCK (i_inum ip) s in
  let ip2 := ip1 <| i_size := Z.max (i_size ip) (off + Z.of_nat (length data)) |> in
  fs_ok s V → inode_ok ip → mapped ip V (i_size ip) → off <= i_size ip → 0 <= off → off + Z.of_nat (length data) <= MAXFILE * BSIZE →
  wrote s V ip V1 ip1 off data → owned s V b → outside ip V b → V !! b = Some d →
  written s V ip (<[b := put_dinode d (dip (i_inum ip)) ip2]> V1) ip2 off data.
Proof.
  intros b ip2 Hfs Hip [Hmax Hmap] Hle Hoff Hend Hw Hb Hout Hd. destruct (wrote_outside _ _ _ _ _ _ _ _ Hw Hb Hout) as [Hout1 Hd1].
  pose proof (wr_owned _ _ _ _ _ _ _ Hw _ Hb) as Hb1. pose proof (wr_ip _ _ _ _ _ _ _ Hw) as Eip. pose proof (io_size _ Hip) as Hsz.
  change (MAXFILE * BSIZE) with 274432 in *. destruct (fo_blocks _ _ Hfs b) as (d0 & Hd0 & Hl); [destruct Hb; lia|].
  assert (d0 = d) as -> by congruence. pose proof (file_ok_size _ _ _ (i_size ip2) (wr_file _ _ _ _ _ _ _ Hw)) as Hf2.
  assert (ip2 = ip <| i_addrs := i_addrs ip2 |> <| i_size := i_size ip2 |>) as E2 by (unfold ip2; rewrite Eip at 1; by destruct ip).
  assert (inode_ok ip2) as Hip2.
  { eapply file_inode_ok; [apply Hw|exact Hf2|exact Hip|exact E2|]. unfold ip2. cbn. lia. }
  destruct (outside_write s V1 ip1 b (put_dinode d (dip (i_inum ip)) ip2) (wr_file _ _ _ _ _ _ _ Hw) Hb1 Hout1) as (Ef & Hf' & Hbytes).
  pose proof (dip_range (i_inum ip)). split.
  - done.
  - exact E2.
  - apply data_fs_ok; [apply Hb|apply Hw|]. rewrite length_put_dinode; [done|done|lia].
  - by apply file_ok_size.
  - split; [unfold ip2; cbn; change (MAXFILE * BSIZE) with 274432; lia|]. intros o Ho. change (faddr ip1 (<[b := put_dinode d (dip (i_inum ip)) ip2]> V1) (o / BSIZE) ≠ 0).
    rewrite Ef. destruct (decide (o < i_size ip)) as [Hos|Hos].
    + rewrite (wr_addr _ _ _ _ _ _ _ Hw); [apply Hmap; lia| |apply Hmap; lia]. apply (in_file_div o (i_size ip)); [lia|].
      change (MAXFILE * BSIZE) with 274432. lia.
    + apply (wr_map _ _ _ _ _ _ _ Hw). unfold ip2 in Ho. cbn in Ho. lia.
  - intros o Ho. rewrite <-(wr_byte _ _ _ _ _ _ _ Hw) by done. by apply Hbytes.
  - intros a Ha Ha' Hne. rewrite lookup_insert_ne by done. by destruct (wrote_outside _ _ _ _ _ _ _ _ Hw Ha Ha').
  - exists d, (put_dinode d (dip (i_inum ip)) ip2). split_and!; [done|apply lookup_insert_eq|apply decode_put; [done|lia]|].
    intros m Hm. apply decode_put_other; [done|lia|]. apply dip_disjoint in Hm. tauto.
Qed.

Lemma wp_isize i ip1 x r1 h pid L V bs :
  itable r1 !! i = Some ip1 → txn r1 pid L V bs ∅ →
  wp (when (bool_decide (i_size ip1 < x)) (ip_upd i (λ ip, ip <| i_size := x |>)))
    (λ _ s, ∃ r2, s = St h r2 ∧ fstep i r1 r2 ∧ itable r2 !! i = Some (ip1 <| i_size := Z.max (i_size ip1) x |>) ∧ txn r2 pid L V bs ∅)
    (St h r1).
Proof.
  intros Hi T. apply wp_when; intros Hc.
  - apply bool_decide_eq_true in Hc. apply (wp_ip_upd _ ip1); [done|]. eexists. split_and!; [done|apply fstep_set| |by apply txn_itable].
    rsimpl. rewrite list_lookup_insert_eq by (by eapply lookup_lt_Some). do 2 f_equal. by rewrite Z.max_r by lia.
  - apply bool_decide_eq_false in Hc. exists r1. split_and!; [done|apply fstep_refl| |done]. rewrite Hi, Z.max_l by lia. by destruct ip1.
Qed.

Lemma wp_writei R i ip off data pid L V bs (Q : Z → st sys → Prop) h r :
  let s := sb r in let n := Z.of_nat (length data) in let b := IBLOCK (i_inum ip) s in
  txn r pid L V bs ∅ → fs_ok s V → file_ok s V ip → inode_ok ip → itable r !! i = Some ip → i_dev ip = ROOTDEV →
  mapped ip V (i_size ip) → owned s V b → outside ip V b → 0 <= off < 2 ^ 32 → n < 2 ^ 32 →
  enough (S R) off n → (length bs + 6 * R < NLOG)%nat →
  (i_size ip < off ∨ MAXFILE * BSIZE < off + n → Q (-1) (St h r)) →
  (∀ k r' V' ip' bs', off <= i_size ip → off + n <= MAXFILE * BSIZE → (k <= length data)%nat → fstep i r r' →
     written s V ip V' ip' off (take k data) → itable r' !! i = Some ip' → k = length data ∨ full s V' →
     (length bs' <= length bs + 6 * R + 1)%nat → txn r' pid L V' bs' ∅ → Q (Z.of_nat k) (St h r')) →
  wp (writei i (SLocal data) off n) Q (St h r).
Proof.
  intros s n b Htx Hfs Hf Hip Hi Hdev Hmap Hb Hout Hoff Hn HR Hroom HQ1 HQ. unfold writei. apply wp_bind, (wp_ip_get _ ip); [done|].
  destruct (u32_overflow off n Hoff ltac:(lia)) as [Ho1 Ho2]. change (MAXFILE * BSIZE) with 274432 in *. pose proof (proj1 Hmap) as Hsz.
  change (MAXFILE * BSIZE) with 274432 in Hsz.
  case_bool_decide as Hc; [apply wp_ret, HQ1; lia|]. rewrite Ho2 by lia. case_bool_decide as Hc2; [apply wp_ret, HQ1; lia|].
  apply wp_bind. eapply (wp_writei_loop _ R); [exact Htx|exact Hfs|exact Hf|exact Hi|exact Hdev|done|lia|lia|rewrite Z.sub_0_r| | |];
    [change (MAXFILE * BSIZE) with 274432; lia|rewrite Z.sub_0_r; apply enough_rounds; lia|by rewrite Z.sub_0_r|].
  intros k r1 V1 ip1 bs1 Hk S1 Hw Hi1 Hfl Hl1 T1. cbn beta iota. apply wp_bind, (wp_ip_get _ ip1); [done|].
  assert (length (take k data) = k) as Hlk by (rewrite length_take; lia).
  pose proof (wr_ip _ _ _ _ _ _ _ Hw) as Eip. set (ip2 := ip1 <| i_size := Z.max (i_size ip) (off + Z.of_nat (length (take k data))) |>).
  apply wp_bind. eapply wp_mono; [eapply (wp_isize i ip1 (off + Z.of_nat k) r1 h); [exact Hi1|exact T1]|].
  intros [] st (r2 & -> & S2 & Hi2 & T2). 
  assert (i_size ip1 = i_size ip) as Es by (by rewrite Eip). rewrite Es, <-Hlk in Hi2. fold ip2 in Hi2.
  destruct (fo_blocks _ _ Hfs b) as (d & Hd & _); [destruct Hb; lia|].
  destruct (wrote_outside _ _ _ _ _ _ _ _ Hw Hb Hout) as [_ Hd1].
  assert (i_inum ip2 = i_inum ip ∧ i_dev ip2 = ROOTDEV) as [En Ed] by (unfold ip2; cbn; by rewrite Eip).
  assert (IBLOCK (i_inum ip2) (sb r2) = b) as Eb by (rewrite (fs_sb _ _ _ S2), (fs_sb _ _ _ S1), En; done).
  apply wp_bind. eapply (wp_iupdate i ip2 d); rewrite ?Eb; [exact T2|exact Hi2|exact Ed|by rewrite Hd1| |apply lookup_empty| | |].
  { pose proof (fo_size _ _ Hfs). destruct Hb. lia. } { lia. } { rewrite map_size_empty. change NLOG with 30%nat in Hroom. unfold NBUF. lia. }
  intros r3 S3 T3. rewrite En in T3. apply wp_ret. rewrite s32_small by lia.
  pose proof (addlog_length bs1 b).
  eapply HQ; [lia|lia|exact Hk| |apply write_inode; try done; [lia|lia|rewrite Hlk; change (MAXFILE * BSIZE) with 274432; lia]| | | |exact T3].
  - eapply fstep_trans; [exact S1|]. eapply fstep_trans; [exact S2|]. by apply tstep_fstep.
  - by rewrite (tstep_itable _ _ S3).
  - destruct Hfl as [?|Hfl]; [by left|right]. intros a Ha. rewrite data_used by (apply Hb || done). by apply Hfl.
  - lia.
Qed.

(** [data] at [off] over the contents [f]. *)
Definition overlay (f : Z → Z) (off : Z) (data : list Z) (o : Z) : Z :=
  if decide (off <= o < off + Z.of_nat (length data)) then data !!! Z.to_nat (o - off) else f o.

Definition bytes_of (f : Z → Z) (off : Z) (n : nat) : list Z := (λ k, f (off + Z.of_nat k)) <$> seq 0 n.

Lemma read_result_written s V ip V' ip' off data off' n :
  written s V ip V' ip' off data → 0 <= off' →
  read_result (i_size ip') (fbytes ip' V') off' n = read_result (i_size ip') (bytes_of (overlay (fbyte ip V) off data)) off' n.
Proof.
  intros Hw Hoff. unfold read_result. case_decide as Hc; [done|]. f_equal. unfold fbytes, bytes_of. apply list_fmap_ext.
  intros j k Hk. apply lookup_seq in Hk as [-> Hk]. apply (wn_bytes _ _ _ _ _ _ _ Hw).
  apply (in_file_div _ (i_size ip')); [lia|]. apply (wn_mapped _ _ _ _ _ _ _ Hw).
Qed.

End file.

(** ** At a concrete state

    An image whose free map marks the boot block, the inode block 32, the free map
    45 and block 46 as used; inode 1 has one block, 46, and 32 bytes. *)
Definition file_map : list Z := <[5%nat := 96]> (<[4%nat := 1]> (<[0%nat := 1]> zero_block)).
Definition file_machine : sys := (image_machine file_map) <| itable := <[0%nat := root_inode]> (itable (image_machine file_map)) |>.

Lemma file_map_length : length file_map = Z.to_nat BSIZE.
Proof. by vm_compute. Qed.

Lemma root_faddr V bn : in_file bn → faddr root_inode V bn = if decide (bn = 0) then 46 else 0.
Proof.
  intros Hbn. unfold faddr. case_bool_decide as Hd.
  - case_decide as H0; [by subst|]. change (i_addrs root_inode) with (46 :: replicate 12 0).
    rewrite lookup_total_cons_ne_0 by lia. apply lookup_total_replicate_2. change NDIRECT with 12 in Hd. lia.
  - case_decide; [subst; done|done].
Qed.

Lemma file_machine_owned b : b = 32 ∨ b = 46 → owned sb1 (image file_map) b.
Proof.
  intros Hb. split_and!; [destruct Hb as [-> | ->]; done..| |].
  - rewrite image_used by (apply file_map_length || lia). destruct Hb as [-> | ->]; by vm_compute.
  - intros a Ha. rewrite image_bmap by done. lia.
Qed.

Lemma file_machine_file : file_ok sb1 (image file_map) root_inode.
Proof.
  split.
  - reflexivity.
  - intros bn Hbn. rewrite root_faddr by done. case_decide; [|done]. intros _. apply file_machine_owned. by right.
  - done.
  - intros a c Ha Hc. rewrite !root_faddr by done. repeat case_decide; congruence.
  - done.
Qed.

Lemma file_machine_fs : fs_ok sb1 (image file_map).
Proof. apply image_ok; [apply file_map_length|by vm_compute..]. Qed.

Lemma file_machine_txn : txn file_machine 1 2 (image file_map) [] ∅.
Proof. apply txn_itable, image_txn, file_map_length. Qed.

Lemma root_mapped V : mapped root_inode V 32.
Proof.
  split; [done|]. intros o Ho. rewrite root_faddr by (apply (in_file_div o 32); done).
  rewrite decide_True; [done|]. apply Z.div_small. change BSIZE with 1024. lia.
Qed.

Lemma root_inode_ok : inode_ok root_inode.
Proof.
  split; try (split; reflexivity || discriminate). split; [reflexivity|]. apply (bool_decide_unpack _). vm_compute. exact I.
Qed.


