(* ===== verification/DirThms.v ===== *)
(** * Directories

    A directory is a file of entries of 16 bytes.  [dents ip V] are the entries;
    dirlookup finds the first one in use with the name, and dirlink stores a new
    entry in the first free place. *)
From S2P Require Import Prelude.
From S2P Require Import Mem.
From S2P Require Import Params.
From S2P Require Import State.
From S2P Require Import KString.
From S2P Require Import Sched.
From S2P Require Import Bio.
From S2P Require Import Log.
From S2P Require Import Fs.
From S2P Require Import Wp.
From S2P Require Import SchedSpec.
From S2P Require Import BioSpec.
From S2P Require Import BioRef.
From S2P Require Import LogSpec.
From S2P Require Import FsTx.
From S2P Require Import BlockSpec.
From S2P Require Import Boot0.
From S2P Require Import BlockThms.
From S2P Require Import ItableThms.
From S2P Require Import InodeThms.
From S2P Require Import FileMap.
From S2P Require Import FileRun.
From S2P Require Import FileThms.
#[local] Open Scope Z_scope.

Definition dent (ip : inode) (V : gmap Z (list Z)) (k : nat) : list Z := fbytes ip V (16 * Z.of_nat k) 16.
Definition dents (ip : inode) (V : gmap Z (list Z)) : list (list Z) := dent ip V <$> seq 0 (Z.to_nat (i_size ip / 16)).

(** The entry is in use and has the name, of which DIRSIZ characters count. *)
Definition has_name (name : list Z) (de : list Z) : Prop :=
  de_inum de ≠ 0 ∧ take 14 (cstr name) = take 14 (cstr (de_name de)).
#[local] Instance has_name_dec name de : Decision (has_name name de).
Proof. unfold has_name. apply _. Defined.

Definition dir_find (des : list (list Z)) (name : list Z) : option (nat * list Z) := list_find (has_name name) des.
Definition dir_free (des : list (list Z)) : nat := default (length des) (fst <$> list_find (λ de, de_inum de = 0) des).

Lemma namecmp_spec name de : namecmp name (de_name de) = 0 ↔ take 14 (cstr name) = take 14 (cstr (de_name de)).
Proof. apply strncmp_l_0. Qed.

Lemma dents_length ip V : length (dents ip V) = Z.to_nat (i_size ip / 16).
Proof. unfold dents. by rewrite length_fmap, length_seq. Qed.

Lemma dents_lookup ip V k : (k < Z.to_nat (i_size ip / 16))%nat → dents ip V !! k = Some (dent ip V k).
Proof. intros Hk. unfold dents. by rewrite list_lookup_fmap, lookup_seq_lt. Qed.

(** A search that has passed the first [k] elements. *)
Lemma find_here {A} (P : A → Prop) `{∀ x, Decision (P x)} l k x :
  l !! k = Some x → P x → (∀ j y, l !! j = Some y → (j < k)%nat → ¬ P y) → list_find P l = Some (k, x).
Proof. intros Hk HP Hb. apply list_find_Some. auto. Qed.

Lemma find_nowhere {A} (P : A → Prop) `{∀ x, Decision (P x)} l :
  (∀ j y, l !! j = Some y → ¬ P y) → list_find P l = None.
Proof. intros Hb. apply list_find_None, Forall_lookup. eauto. Qed.

(** The directory's inode: its blocks are there and it is made of whole entries. *)
Record dir_ok (s : superblock) (V : gmap Z (list Z)) (ip : inode) : Prop := {
  dr_file : file_ok s V ip;
  dr_dev : i_dev ip = ROOTDEV;
  dr_type : i_type ip = T_DIR;
  dr_size : 0 <= i_size ip ∧ i_size ip mod 16 = 0;
  dr_mapped : mapped ip V (i_size ip)
}.

Section dir.
Context `{Linker} `{Sched} `{BlockDevOk}.

(** Reading one entry. *)
Lemma wp_read_dent i ip k pid L V bs (Q : Z * list Z → st sys → Prop) h r :
  let s := sb r in
  rtxn r pid L V bs ∅ → fs_ok s V → dir_ok s V ip → itable r !! i = Some ip → (length bs < NBUF)%nat →
  16 * Z.of_nat k < i_size ip →
  (∀ r', tstep r r' → rtxn r' pid L V bs ∅ → Q (16, dent ip V k) (St h r')) →
  wp (readi i DLocal (16 * Z.of_nat k) dirent_size) Q (St h r).
Proof.
  intros s Htx Hfs [Hf Hdev _ [Hs0 Hs] Hm] Hi Hroom Hk HQ. pose proof (proj1 Hm) as Hmax. change (MAXFILE * BSIZE) with 274432 in Hmax.
  eapply wp_readi; try done; [lia|]. intros r' S T. unfold read_result. rewrite decide_False by (unfold dirent_size; lia).
  assert (Z.min dirent_size (i_size ip - 16 * Z.of_nat k) = 16) as ->.
  { unfold dirent_size. Z.to_euclidean_division_equations. lia. }
  by apply HQ.
Qed.

Lemma wp_dirlookup_loop fuel dp ip name k pid L V bs (Q : option (nat * Z) → st sys → Prop) h r :
  let s := sb r in
  rtxn r pid L V bs ∅ → fs_ok s V → dir_ok s V ip → itable r !! dp = Some ip → (length bs < NBUF)%nat →
  (length (dents ip V) < fuel + k)%nat → (k <= length (dents ip V))%nat →
  (∀ j de, dents ip V !! j = Some de → (j < k)%nat → ¬ has_name name de) →
  (∀ k' de r', tstep r r' → rtxn r' pid L V bs ∅ → dir_find (dents ip V) name = Some (k', de) →
     wp (i ← iget ROOTDEV (de_inum de); mret (Some (i, 16 * Z.of_nat k'))) Q (St h r')) →
  (∀ r', tstep r r' → rtxn r' pid L V bs ∅ → dir_find (dents ip V) name = None → Q None (St h r')) →
  wp (dirlookup_loop fuel dp name (16 * Z.of_nat k)) Q (St h r).
Proof.
  intros s. remember s as s0 eqn:Es. subst s. revert k r Es. induction fuel as [|fuel IH];
    intros k r Es Htx Hfs Hd Hi Hroom Hf Hk Hb HQ HQ0; [lia|]. cbn [dirlookup_loop]. apply wp_bind, (wp_ip_get _ ip); [done|].
  pose proof (dr_size _ _ _ Hd) as [Hs0 Hs]. rewrite dents_length in *. case_bool_decide as Hlt; last first.
  { apply wp_ret, HQ0; [apply tstep_refl|done|]. apply find_nowhere. intros j de Hj. apply (Hb j de Hj).
    apply lookup_lt_Some in Hj. rewrite dents_length in Hj. Z.to_euclidean_division_equations. lia. }
  assert (k < Z.to_nat (i_size ip / 16))%nat as Hk' by (Z.to_euclidean_division_equations; lia).
  pose proof (dents_lookup ip V k Hk') as Hde.
  apply wp_bind. eapply wp_read_dent; rewrite <-?Es; [exact Htx|done|done|done|done|done|]. intros r1 S1 T1. cbn beta iota.
  rewrite (bool_decide_eq_false_2 (16 ≠ dirent_size)) by (unfold dirent_size; lia).
  assert (u32 (16 * Z.of_nat k + dirent_size) = 16 * Z.of_nat (S k)) as ->.
  { pose proof (proj1 (dr_mapped _ _ _ Hd)) as Hmax. change (MAXFILE * BSIZE) with 274432 in Hmax. unfold dirent_size.
    rewrite uN_small; [lia|]. Z.to_euclidean_division_equations. lia. }
  assert (¬ has_name name (dent ip V k) → wp (dirlookup_loop fuel dp name (16 * Z.of_nat (S k))) Q (St h r1)) as Hnext.
  { intros Hno. eapply IH; [by rewrite (tstep_sb _ _ S1)|exact T1|done|done|by rewrite (tstep_itable _ _ S1)|done|lia|lia| | |].
    - intros j de Hj Hjk. destruct (decide (j = k)) as [->|]; [congruence|]. apply (Hb j de Hj). lia.
    - intros k' de r' S' T'. apply HQ; [by eapply tstep_trans|done].
    - intros r' S' T'. apply HQ0; [by eapply tstep_trans|done]. }
  case_bool_decide as Hz; [apply Hnext; by intros [? _]|].
  case_bool_decide as Hn; [|apply Hnext; intros [_ Hm]; by apply Hn, namecmp_spec].
  apply wp_bind, (wp_ip_get _ ip); [by rewrite (tstep_itable _ _ S1)|]. rewrite (dr_dev _ _ _ Hd).
  apply HQ; [done|done|]. apply find_here; [done| |done]. split; [done|by apply namecmp_spec].
Qed.

(** ** The inode that an entry names *)

(** iget's two ways to an entry of the inode table. *)
Definition got (t : list inode) (dev inum : Z) (i : nat) (t' : list inode) : Prop := ∃ ip, t !! i = Some ip ∧
  (0 < i_ref ip ∧ i_dev ip = dev ∧ i_inum ip = inum ∧ t' = <[i := ip <| i_ref := i_ref ip + 1 |>]> t ∨
   i_ref ip = 0 ∧ (∀ j jp, t !! j = Some jp → 0 < i_ref jp → (i_dev jp, i_inum jp) ≠ (dev, inum)) ∧
     t' = <[i := ip <| i_dev := dev |> <| i_inum := inum |> <| i_ref := 1 |> <| i_valid := false |>]> t).

(** There is an unused entry. *)
Definition iroom (t : list inode) : Prop := ∃ i ip, t !! i = Some ip ∧ i_ref ip = 0.

Lemma wp_iget dev inum (Q : nat → st sys → Prop) h r :
  Litable ∉ held r → iroom (itable r) →
  (∀ i t', got (itable r) dev inum i t' → Q i (St h (r <| itable := t' |>))) → wp (iget dev inum) Q (St h r).
Proof.
  intros Hl (f & fp & Hf & Hfz) HQ. unfold iget. apply wp_bind, wp_acquire; [done|]. apply wp_bind, wp_rd. rsimpl.
  pose proof (iget_scan_spec (itable r) dev inum) as Hsc. inversion Hsc as [i ip e Hi Hr Hd Hn E|i ip Hi Hr Hno E|Hfull _ E].
  - apply (wp_itable_section _ ip); [done|]. apply HQ. exists ip. split; [done|]. by left.
  - apply (wp_itable_section _ ip); [done|]. apply HQ. exists ip. split; [done|]. by right.
  - by destruct (Hfull f fp Hf).
Qed.

Lemma rtxn_held r pid L V bs lk : rtxn r pid L V bs lk → held r = [].
Proof. intros [refs [Hth _ _ _ _ _ _ _ _]]. apply (th_held _ _ Hth). Qed.

Lemma rtxn_itable r pid L V bs lk t : rtxn r pid L V bs lk → rtxn (r <| itable := t |>) pid L V bs lk.
Proof. intros [refs [[] ? ? ? ? ? ? ? ?]]. exists refs. by split. Qed.

Lemma wp_dirlookup dp ip name pid L V bs (Q : option (nat * Z) → st sys → Prop) h r :
  let s := sb r in
  rtxn r pid L V bs ∅ → fs_ok s V → dir_ok s V ip → itable r !! dp = Some ip → (length bs < NBUF)%nat → iroom (itable r) →
  (∀ k de i t' r', tstep r r' → dir_find (dents ip V) name = Some (k, de) → got (itable r) ROOTDEV (de_inum de) i t' →
     rtxn (r' <| itable := t' |>) pid L V bs ∅ → Q (Some (i, 16 * Z.of_nat k)) (St h (r' <| itable := t' |>))) →
  (∀ r', tstep r r' → rtxn r' pid L V bs ∅ → dir_find (dents ip V) name = None → Q None (St h r')) →
  wp (dirlookup dp name) Q (St h r).
Proof.
  intros s Htx Hfs Hd Hi Hroom Hir HQ HQ0. unfold dirlookup. apply wp_bind, (wp_ip_get _ ip); [done|].
  rewrite bool_decide_eq_false_2 by (intros E; by destruct (E (dr_type _ _ _ Hd))).
  pose proof (dr_size _ _ _ Hd). eapply (wp_dirlookup_loop _ dp ip name 0); [exact Htx|done|exact Hd|done|done| |lia|lia| |done].
  { rewrite dents_length. unfold dirent_size. lia. }
  intros k de r1 S1 T1 Hf. pose proof (tstep_itable _ _ S1) as E1. apply wp_bind. apply wp_iget.
  - rewrite (rtxn_held _ _ _ _ _ _ T1). apply not_elem_of_nil.
  - by rewrite E1.
  - intros i t' Hg. apply wp_ret. rewrite E1 in Hg. by eapply HQ; try done; apply rtxn_itable.
Qed.

(** C17. dirlookup finds the first entry in use that has the name, of which DIRSIZ
    characters count, and returns its offset and a reference to its inode: the
    table entry that the inode has, or an unused one that must be read from disk.
    It returns nothing exactly when no entry has the name. *)
Theorem dirlookup_correct dp ip name pid L V bs h r :
  rtxn r pid L V bs ∅ → fs_ok (sb r) V → dir_ok (sb r) V ip → itable r !! dp = Some ip → (length bs < NBUF)%nat → iroom (itable r) →
  match dir_find (dents ip V) name with
  | Some (k, de) => ∃ i r', dirlookup dp name (St h r) = Ok (Some (i, 16 * Z.of_nat k)) (St h r') ∧
      got (itable r) ROOTDEV (de_inum de) i (itable r') ∧ rtxn r' pid L V bs ∅
  | None => ∃ r', dirlookup dp name (St h r) = Ok None (St h r') ∧ itable r' = itable r ∧ rtxn r' pid L V bs ∅
  end.
Proof.
  intros Htx Hfs Hd Hi Hroom Hir. assert (wp (dirlookup dp name) (λ v s, ∃ r', s = St h r' ∧ rtxn r' pid L V bs ∅ ∧
    match dir_find (dents ip V) name with
    | Some (k, de) => ∃ i, v = Some (i, 16 * Z.of_nat k) ∧ got (itable r) ROOTDEV (de_inum de) i (itable r')
    | None => v = None ∧ itable r' = itable r
    end) (St h r)) as Hw.
  { eapply wp_dirlookup; try done.
    - intros k de i t' r' S Hf Hg T. rewrite Hf. eexists. split_and!; [done|done|]. exists i. by split.
    - intros r' S T Hf. rewrite Hf. exists r'. split_and!; [done|done|done|by apply tstep_itable]. }
  apply wp_ok in Hw as (v & st & Hrun & r' & -> & T & Hc). destruct (dir_find _ _) as [[k de]|].
  - destruct Hc as (i & -> & Hg). by exists i, r'.
  - destruct Hc as [-> Hit]. by exists r'.
Qed.
End dir.
