(* ===== verification/DirLink.v ===== *)
(** * dirlink: adding a directory entry *)
From S2P Require Import Prelude.
From S2P Require Import Mem.
From S2P Require Import Params.
From S2P Require Import State.
From S2P Require Import KString.
From S2P Require Import Sched.
From S2P Require Import Bio.
From S2P Require Import Log.
From S2P Require Import Fs.
From S2P Require Import Wp.
From S2P Require Import SchedSpec.
From S2P Require Import BioSpec.
From S2P Require Import BioRef.
From S2P Require Import LogSpec.
From S2P Require Import FsTx.
From S2P Require Import BlockSpec.
From S2P Require Import Boot0.
From S2P Require Import BlockThms.
From S2P Require Import ItableThms.
From S2P Require Import InodeThms.
From S2P Require Import FileMap.
From S2P Require Import FileRun.
From S2P Require Import FileThms.
From S2P Require Import DirThms.
#[local] Open Scope Z_scope.

(** The entries with [de] at place [k], which is at most their number. *)
Definition put_dent (des : list (list Z)) (k : nat) (de : list Z) : list (list Z) :=
  if decide (k < length des)%nat then <[k := de]> des else des ++ [de].

Definition new_dent (inum : Z) (name : list Z) : list Z := dirent (u16 inum) (strncpy_l name (Z.to_nat DIRSIZ)).

Lemma strncpy_l_length t n : length (strncpy_l t n) = n.
Proof. unfold strncpy_l. rewrite length_app, length_replicate, length_take. lia. Qed.

Lemma new_dent_length inum name : length (new_dent inum name) = 16%nat.
Proof. unfold new_dent, dirent. by rewrite length_app, length_le_split, strncpy_l_length. Qed.

Lemma de_inum_new inum name : de_inum (new_dent inum name) = u16 inum.
Proof.
  unfold de_inum, new_dent, dirent, get_le. rewrite drop_0, take_app_length' by (by rewrite length_le_split).
  rewrite le_combine_split. apply Z.mod_small. apply Z.mod_pos_bound. lia.
Qed.

Lemma de_name_new inum name : take 14 (cstr (de_name (new_dent inum name))) = take 14 (cstr name).
Proof.
  unfold de_name, new_dent, dirent. rewrite drop_app_length' by (by rewrite length_le_split).
  rewrite (take_ge (strncpy_l _ _)) by (by rewrite strncpy_l_length). by rewrite cstr_strncpy_l, take_take.
Qed.

(** ** The entries after an entry was put at the first free place *)
Lemma free_spec des k : dir_free des = k →
  (k <= length des)%nat ∧ (∀ de, des !! k = Some de → de_inum de = 0) ∧ (∀ j de, des !! j = Some de → (j < k)%nat → de_inum de ≠ 0).
Proof.
  unfold dir_free. intros <-. destruct (list_find _ des) as [[k de]|] eqn:E; simpl.
  - apply list_find_Some in E as (Hk & Hz & Hb). split_and!; [apply lookup_lt_Some in Hk; lia|congruence|done].
  - rewrite list_find_None, Forall_lookup in E. split_and!; [done|by intros de Hde%lookup_lt_Some; lia|eauto].
Qed.

Lemma put_dent_lookup des k de j : (k <= length des)%nat → put_dent des k de !! j = if decide (j = k) then Some de else des !! j.
Proof.
  intros Hk. unfold put_dent. case_decide as Hlt; case_decide as Hj; subst.
  - by apply list_lookup_insert_eq.
  - by apply list_lookup_insert_ne.
  - replace k with (length des) by lia. by rewrite list_lookup_middle.
  - destruct (decide (j < length des)%nat); [by rewrite lookup_app_l|].
    rewrite !lookup_ge_None_2; [done|lia|rewrite length_app; simpl; lia].
Qed.

(** Looking up the new name finds the entry, looking up another is as before. *)
Lemma find_put_same des k de name :
  dir_free des = k → dir_find des name = None → has_name name de → dir_find (put_dent des k de) name = Some (k, de).
Proof.
  intros Hk Hn Hde. apply free_spec in Hk as (Hle & _ & _). unfold dir_find in *. rewrite list_find_None, Forall_lookup in Hn.
  apply find_here; [by rewrite put_dent_lookup, decide_True|done|]. intros j y Hj Hlt. rewrite put_dent_lookup, decide_False in Hj by lia. eauto.
Qed.

Lemma find_put_other des k de name :
  dir_free des = k → ¬ has_name name de → dir_find (put_dent des k de) name = dir_find des name.
Proof.
  intros Hk Hde. apply free_spec in Hk as (Hle & Hz & _). unfold dir_find.
  assert (∀ j y, has_name name y → put_dent des k de !! j = Some y ↔ des !! j = Some y) as Hiff.
  { intros j y Hy. rewrite put_dent_lookup by done. case_decide; [subst|done]. split; [intros [= ->]; done|].
    intros Hj. destruct Hy as [Hy _]. by destruct (Hz y Hj). }
  destruct (list_find (has_name name) des) as [[j y]|] eqn:E.
  - apply list_find_Some in E as (Hj & Hy & Hb). apply find_here; [by apply Hiff|done|].
    intros j' y' Hj' Hlt Hy'. apply Hiff in Hj'; [|done]. by eapply Hb.
  - rewrite list_find_None, Forall_lookup in E. apply find_nowhere. intros j y Hj Hy. apply Hiff in Hj; [|done]. by eapply E.
Qed.

(** ** The entries of the file that was written *)
Lemma dents_written s V ip V' ip' k de :
  dir_ok s V ip → written s V ip V' ip' (16 * Z.of_nat k) de → length de = 16%nat → (k <= length (dents ip V))%nat →
  dents ip' V' = put_dent (dents ip V) k de ∧ dir_ok s V' ip'.
Proof.
  intros Hd Hw Hl Hk. pose proof (dr_size _ _ _ Hd) as [Hs0 Hs]. pose proof (wn_size _ _ _ _ _ _ _ Hw) as Hsz. rewrite Hl in Hsz.
  rewrite dents_length in Hk. pose proof (wn_mapped _ _ _ _ _ _ _ Hw) as Hm'.
  assert (i_size ip' mod 16 = 0) as Hs' by (Z.to_euclidean_division_equations; lia).
  split; [|split; [apply Hw| | |lia|done]; rewrite (wn_ip _ _ _ _ _ _ _ Hw); [exact (dr_dev _ _ _ Hd)|exact (dr_type _ _ _ Hd)]].
  apply list_eq. intros j. rewrite put_dent_lookup by (by rewrite dents_length).
  destruct (decide (j < Z.to_nat (i_size ip' / 16))%nat) as [Hj|Hj].
  - rewrite dents_lookup by done. assert (∀ n, (n < 16)%nat → in_file ((16 * Z.of_nat j + Z.of_nat n) / BSIZE)) as Hin.
    { intros n Hn. apply (in_file_div _ (i_size ip')); [|apply Hm']. Z.to_euclidean_division_equations. lia. }
    case_decide as Hjk; [subst j|].
    + f_equal. apply list_eq. intros n. destruct (decide (n < 16)%nat) as [Hn|Hn].
      * unfold dent. rewrite fbytes_lookup, (wn_bytes _ _ _ _ _ _ _ Hw), decide_True by (auto || lia).
        rewrite list_lookup_lookup_total_lt by lia. do 2 f_equal. lia.
      * rewrite !lookup_ge_None_2; [done|lia|unfold dent; rewrite fbytes_length; lia].
    + rewrite dents_lookup by (Z.to_euclidean_division_equations; lia). f_equal. unfold dent, fbytes. apply list_fmap_ext. intros x n Hn.
      apply lookup_seq in Hn as [-> Hn]. rewrite (wn_bytes _ _ _ _ _ _ _ Hw), decide_False by (auto || lia). done.
  - rewrite decide_False by (Z.to_euclidean_division_equations; lia).
    rewrite !lookup_ge_None_2; [done|rewrite dents_length; Z.to_euclidean_division_equations; lia|rewrite dents_length; lia].
Qed.

Lemma wp_result {A} (m : K A) (P : A → sys → Prop) h r :
  wp m (λ v s, ∃ r', s = St h r' ∧ P v r') (St h r) → ∃ v r', m (St h r) = Ok v (St h r') ∧ P v r'.
Proof. intros (v & s & Hrun & r' & -> & HP)%wp_ok. eauto. Qed.

Section link.
Context `{Linker} `{Sched} `{BlockDevOk}.

Lemma wp_dirlink_loop fuel dp ip k pid L V bs (Q : Z → st sys → Prop) h r :
  let s := sb r in
  rtxn r pid L V bs ∅ → fs_ok s V → dir_ok s V ip → itable r !! dp = Some ip → (length bs < NBUF)%nat →
  (length (dents ip V) < fuel + k)%nat → (k <= length (dents ip V))%nat →
  (∀ j de, dents ip V !! j = Some de → (j < k)%nat → de_inum de ≠ 0) →
  (∀ r', tstep r r' → rtxn r' pid L V bs ∅ → Q (16 * Z.of_nat (dir_free (dents ip V))) (St h r')) →
  wp (dirlink_loop fuel dp (16 * Z.of_nat k)) Q (St h r).
Proof.
  intros s. remember s as s0 eqn:Es. subst s. revert k r Es. induction fuel as [|fuel IH];
    intros k r Es Htx Hfs Hd Hi Hroom Hf Hk Hb HQ; [lia|]. cbn [dirlink_loop]. apply wp_bind, (wp_ip_get _ ip); [done|].
  pose proof (dr_size _ _ _ Hd) as [Hs0 Hs]. rewrite dents_length in *. case_bool_decide as Hlt; last first.
  { apply wp_ret. replace k with (dir_free (dents ip V)); [apply HQ; [apply tstep_refl|done]|]. unfold dir_free.
    rewrite find_nowhere; [simpl; rewrite dents_length; Z.to_euclidean_division_equations; lia|]. intros j de Hj. apply (Hb j de Hj).
    apply lookup_lt_Some in Hj. rewrite dents_length in Hj. Z.to_euclidean_division_equations. lia. }
  assert (k < Z.to_nat (i_size ip / 16))%nat as Hk' by (Z.to_euclidean_division_equations; lia).
  pose proof (dents_lookup ip V k Hk') as Hde.
  apply wp_bind. eapply wp_read_dent; rewrite <-?Es; [exact Htx|done|done|done|done|done|]. intros r1 S1 T1. cbn beta iota.
  rewrite (bool_decide_eq_false_2 (16 ≠ dirent_size)) by (unfold dirent_size; lia). case_bool_decide as Hz.
  - apply wp_ret. replace k with (dir_free (dents ip V)); [by apply HQ|]. unfold dir_free. by rewrite (find_here _ _ _ _ Hde Hz Hb).
  - replace (16 * Z.of_nat k + dirent_size) with (16 * Z.of_nat (S k)) by (unfold dirent_size; lia).
    eapply IH; [by rewrite (tstep_sb _ _ S1)|exact T1|done|done|by rewrite (tstep_itable _ _ S1)|done|lia|lia| |].
    + intros j de Hj Hjk. destruct (decide (j = k)) as [->|]; [congruence|]. apply (Hb j de Hj). lia.
    + intros r' S' T'. apply HQ; [by eapply tstep_trans|done].
Qed.

(** Giving back what iget returned does not free the inode. *)
Lemma wp_iput_back t dev inum i (Q : unit → st sys → Prop) h r :
  Litable ∉ held r → got t dev inum i (itable r) →
  (∀ t', (∀ j jp, t !! j = Some jp → 0 < i_ref jp → t' !! j = Some jp) → Q tt (St h (r <| itable := t' |>))) →
  wp (iput i) Q (St h r).
Proof.
  intros Hl (ip & Hi & Hg) HQ. pose proof (lookup_lt_Some _ _ _ Hi) as Hlt.
  assert (∃ ip1, itable r = <[i := ip1]> t ∧ (i_ref ip1 = 1 → i_valid ip1 = false) ∧ (0 < i_ref ip → ip1 <| i_ref := i_ref ip1 - 1 |> = ip))
    as (ip1 & Et & Hv & Hback).
  { destruct Hg as [(Hr & _ & _ & ->)|(Hr & _ & ->)]; eexists; (split; [done|]); split; try done; [cbn; lia| |lia].
    intros _. transitivity (ip <| i_ref := i_ref ip + 1 - 1 |>); [done|]. replace (i_ref ip + 1 - 1) with (i_ref ip) by lia. by destruct ip. }
  assert (itable r !! i = Some ip1) as Hi1 by (rewrite Et; by apply list_lookup_insert_eq).
  unfold iput. apply wp_bind, wp_acquire; [done|]. apply wp_bind, (wp_ip_get _ ip1); [done|]. apply wp_bind, wp_when.
  { intros [[Hr%bool_decide_eq_true Hval]%andb_true_iff _]%andb_true_iff. rewrite Hv in Hval by done. done. }
  intros _. apply wp_bind, (wp_ip_upd _ ip1); [done|]. apply (wp_release _ (held r)); [done|]. rsimpl. rewrite itable_held.
  apply HQ. intros j jp Hj Hr. rewrite Et, list_insert_insert_eq. destruct (decide (j = i)) as [->|Hne].
  - rewrite list_lookup_insert_eq by done. assert (jp = ip) as -> by congruence. by rewrite Hback.
  - by rewrite list_lookup_insert_ne.
Qed.

Lemma wp_dirlink dp ip name inum pid L V bs (Q : Z → st sys → Prop) h r :
  let s := sb r in let b := IBLOCK (i_inum ip) s in let k := dir_free (dents ip V) in
  txn r pid L V bs ∅ → fs_ok s V → dir_ok s V ip → inode_ok ip → itable r !! dp = Some ip → iroom (itable r) →
  owned s V b → outside ip V b → (length bs + 7 < NLOG)%nat →
  (∀ r', dir_find (dents ip V) name ≠ None → (∀ j jp, itable r !! j = Some jp → 0 < i_ref jp → itable r' !! j = Some jp) →
     txn r' pid L V bs ∅ → Q (-1) (St h r')) →
  (∀ r', dir_find (dents ip V) name = None → MAXFILE * BSIZE < 16 * Z.of_nat k + 16 → itable r' = itable r → txn r' pid L V bs ∅ → Q (-1) (St h r')) →
  (∀ n r' V' ip' bs', dir_find (dents ip V) name = None → (n <= 16)%nat → fstep dp r r' →
     written s V ip V' ip' (16 * Z.of_nat k) (take n (new_dent inum name)) → itable r' !! dp = Some ip' → n = 16%nat ∨ full s V' →
     txn r' pid L V' bs' ∅ → Q (if decide (n = 16%nat) then 0 else -1) (St h r')) →
  wp (dirlink dp name inum) Q (St h r).
Proof.
  intros s b k Htx Hfs Hd Hip Hi Hir Hb Hout Hroom HQ1 HQ2 HQ. unfold dirlink. change NLOG with 30%nat in Hroom. apply wp_bind.
  eapply wp_dirlookup; [apply Htx|exact Hfs|exact Hd|exact Hi|unfold NBUF; lia|done| |].
  { intros k' de i t' r1 S1 Hf Hg T1. apply wp_bind. eapply wp_iput_back; [|exact Hg|].
    { rewrite (rtxn_held _ _ _ _ _ _ T1). apply not_elem_of_nil. }
    intros t'' Hkeep. apply wp_ret. apply HQ1; [by rewrite Hf|done|].
    split; [exact (rtxn_itable _ _ _ _ _ _ t'' T1)|]. destruct S1 as (_ & Ho & _), Htx as [_ Hout']. rsimpl. by rewrite Ho. }
  intros r1 S1 T1 Hnone. pose proof (tstep_itable _ _ S1) as E1. pose proof (tstep_sb _ _ S1) as Esb.
  pose proof (dr_size _ _ _ Hd) as [Hs0 Hs].
  apply wp_bind, (wp_ip_get _ ip); [by rewrite E1|]. apply wp_bind.
  eapply (wp_dirlink_loop _ dp ip 0); rewrite ?Esb; [exact T1|exact Hfs|exact Hd|by rewrite E1|unfold NBUF; lia| |lia|lia|].
  { rewrite dents_length. unfold dirent_size. lia. }
  intros r2 S2 T2. fold k. pose proof (tstep_trans _ _ _ S1 S2) as S12. pose proof (tstep_itable _ _ S12) as E2. pose proof (tstep_sb _ _ S12) as Esb2.
  pose proof (tstep_txn _ _ _ _ _ _ _ _ _ _ S12 Htx T2) as T2'. destruct (free_spec _ k eq_refl) as (Hkl & _ & _). rewrite dents_length in Hkl.
  pose proof (new_dent_length inum name) as Hnl. pose proof (proj1 (dr_mapped _ _ _ Hd)) as Hmax. change (MAXFILE * BSIZE) with 274432 in *.
  fold (new_dent inum name). change dirent_size with (Z.of_nat 16). rewrite <-Hnl. apply wp_bind.
  assert (16 * Z.of_nat k <= i_size ip) as Hkle by (Z.to_euclidean_division_equations; lia).
  eapply (wp_writei 1 dp ip (16 * Z.of_nat k) (new_dent inum name)); rewrite ?Esb2;
    [exact T2'|exact Hfs|exact (dr_file _ _ _ Hd)|exact Hip|by rewrite E2|exact (dr_dev _ _ _ Hd)|exact (dr_mapped _ _ _ Hd)|exact Hb|exact Hout|lia|lia| |change NLOG with 30%nat; lia| |].
  - right. rewrite Hnl. change BSIZE with 1024. Z.to_euclidean_division_equations. lia.
  - rewrite Hnl. intros Hc. rewrite bool_decide_eq_true_2 by lia. apply wp_ret. change (MAXFILE * BSIZE) with 274432 in Hc.
    apply HQ2; [done|lia|done|done].
  - intros n r3 V3 ip3 bs3 _ _ Hn S3 Hw Hi3 Hfl _ T3. rewrite Hnl in *. specialize (HQ n r3 V3 ip3 bs3 Hnone Hn).
    assert (fstep dp r r3) as S13 by (eapply fstep_trans; [by apply tstep_fstep|done]). case_bool_decide as Hc; apply wp_ret.
    + rewrite decide_False in HQ by lia. by apply HQ.
    + rewrite decide_True in HQ by lia. by apply HQ.
Qed.

Lemma new_has_name inum name name' : u16 inum ≠ 0 → has_name name' (new_dent inum name) ↔ take 14 (cstr name') = take 14 (cstr name).
Proof. intros Hn. unfold has_name. rewrite de_inum_new, de_name_new. tauto. Qed.

(** C8. dirlink refuses a name that the directory has, returning -1 with the
    directory and the inodes in use unchanged.  Otherwise it stores the new entry
    in the first free place, or behind the last entry, and returns 0: the new name
    is then found there, and every other name is found where it was before.  It
    returns -1 also when the directory has no room for another entry or the disk
    is full. *)
Theorem dirlink_correct (dp : nat) (ip : inode) (name : list Z) (inum pid L : Z) (V : gmap Z (list Z)) (bs : list Z) (h : heap) (r : sys) :
  let b := IBLOCK (i_inum ip) (sb r) in let k := dir_free (dents ip V) in
  txn r pid L V bs ∅ → fs_ok (sb r) V → dir_ok (sb r) V ip → inode_ok ip → itable r !! dp = Some ip → iroom (itable r) →
  owned (sb r) V b → outside ip V b → (length bs + 7 < NLOG)%nat → u16 inum ≠ 0 →
  ∃ v r', dirlink dp name inum (St h r) = Ok v (St h r') ∧
   (dir_find (dents ip V) name ≠ None ∧ v = -1 ∧ txn r' pid L V bs ∅ ∧
      (∀ j jp, itable r !! j = Some jp → 0 < i_ref jp → itable r' !! j = Some jp) ∨
    (dir_find (dents ip V) name = None ∧ v = 0 ∧ ∃ V' ip' bs', txn r' pid L V' bs' ∅ ∧ itable r' !! dp = Some ip' ∧
      written (sb r) V ip V' ip' (16 * Z.of_nat k) (new_dent inum name) ∧ dir_ok (sb r) V' ip' ∧
      dents ip' V' = put_dent (dents ip V) k (new_dent inum name) ∧
      (∀ name', dir_find (dents ip' V') name' =
         if decide (take 14 (cstr name') = take 14 (cstr name)) then Some (k, new_dent inum name) else dir_find (dents ip V) name')) ∨
    dir_find (dents ip V) name = None ∧ v = -1 ∧
      (MAXFILE * BSIZE < 16 * Z.of_nat k + 16 ∨ ∃ V' bs', txn r' pid L V' bs' ∅ ∧ full (sb r) V')).
Proof.
  intros b k Htx Hfs Hd Hip Hi Hir Hb Hout Hroom Hin.
  apply wp_result. eapply wp_dirlink; [exact Htx|exact Hfs|exact Hd|exact Hip|exact Hi|exact Hir|exact Hb|exact Hout|exact Hroom|..].
  - intros r' Hf Hkeep T. eexists. split; [done|]. left. by split_and!.
  - intros r' Hf Hmax _ T. eexists. split; [done|]. right. right. split_and!; [done|done|by left].
  - intros n r' V' ip' bs' Hf Hn S Hw Hi' Hfl T. eexists. split; [done|]. right. case_decide as Hn16; [left|right]; last first.
    { split_and!; [done|done|]. right. exists V', bs'. split; [done|]. by destruct Hfl. }
    subst n. split_and!; [done|done|]. exists V', ip', bs'. pose proof (new_dent_length inum name) as Hnl.
    rewrite take_ge in Hw by lia. destruct (free_spec (dents ip V) k eq_refl) as (Hkl & _ & _).
    destruct (dents_written _ _ _ _ _ _ _ Hd Hw Hnl Hkl) as [Ed Hd']. split_and!; [done..|]. intros name'. rewrite Ed.
    case_decide as Hs; [|by apply find_put_other; [|rewrite new_has_name]].
    apply find_put_same; [done| |by apply new_has_name]. rewrite <-Hf. unfold dir_find. apply list_find_ext. intros x. unfold has_name. by rewrite Hs.
Qed.
End link.

(** ** At the concrete state of FileThms.v: a directory with two free entries *)
Lemma root_dir_ok : dir_ok sb1 (image file_map) root_inode.
Proof.
  split; [exact file_machine_file|reflexivity|reflexivity|split; [discriminate|reflexivity]|apply root_mapped].
Qed.

Lemma file_machine_room : iroom (itable file_machine).
Proof. exists 1%nat, inode0. split; reflexivity. Qed.

Lemma dirlookup_correct_witness :
  ∃ r', @dirlookup link0 quiet ideal_dev 0 (str "a") (St ∅ file_machine) = Ok None (St ∅ r').
Proof.
  pose proof (@dirlookup_correct link0 quiet ideal_dev ideal_inv ideal_dev_ok 0 root_inode (str "a") 1 2 (image file_map) [] ∅ file_machine
    (proj1 file_machine_txn) file_machine_fs root_dir_ok eq_refl ltac:(unfold NBUF; simpl; lia) file_machine_room) as Hc.
  assert (dir_find (dents root_inode (image file_map)) (str "a") = None) as E by (vm_compute; reflexivity).
  rewrite E in Hc. destruct Hc as (r' & Hrun & _). exists r'. exact Hrun.
Defined.

Lemma dirlink_correct_witness :
  ∃ v r', @dirlink link0 quiet ideal_dev 0 (str "a") 5 (St ∅ file_machine) = Ok v (St ∅ r').
Proof.
  destruct (@dirlink_correct link0 quiet ideal_dev ideal_inv ideal_dev_ok 0 root_inode (str "a") 5 1 2 (image file_map) [] ∅ file_machine)
    as (v & r' & Hrun & _).
  - exact file_machine_txn.
  - exact file_machine_fs.
  - exact root_dir_ok.
  - exact root_inode_ok.
  - reflexivity.
  - exact file_machine_room.
  - apply file_machine_owned. left. reflexivity.
  - split; [discriminate|]. intros bn Hbn. rewrite root_faddr by exact Hbn. case_decide; discriminate.
  - simpl. change NLOG with 30%nat. lia.
  - discriminate.
  - exists v, r'. exact Hrun.
Defined.
