(* ===== verification/PipeSpec.v ===== *)
(** * The queue in a pipe

    [pipe_ok p q] relates the ring buffer of a pipe with its free-running counters
    to the queue [q] of the bytes in it. *)
From S2P Require Import Prelude.
From S2P Require Import Mem.
From S2P Require Import Params.
From S2P Require Import State.
From S2P Require Import File.
From S2P Require Import Wp.
From S2P Require Import ConsoleThms.
#[local] Open Scope Z_scope.

Record pipe_ok (p : pipe) (q : list Z) : Prop := {
  pk_len : length (pi_data p) = Z.to_nat PIPESIZE;
  pk_read : 0 <= pi_nread p < 2 ^ 32;
  pk_room : Z.of_nat (length q) <= PIPESIZE;
  pk_write : pi_nwrite p = u32 (pi_nread p + Z.of_nat (length q));
  pk_ring : q = ring (pi_data p) PIPESIZE (pi_nread p) (length q)
}.

(** [pi->data[pi->nwrite++ % PIPESIZE] = c] *)
Definition pipe_push (c : Z) (p : pipe) : pipe :=
  p <| pi_data := <[Z.to_nat (pi_nwrite p mod PIPESIZE) := c]> (pi_data p) |>
    <| pi_nwrite := u32 (pi_nwrite p + 1) |>.

Lemma pipesize_divides : (PIPESIZE | 2 ^ 32).
Proof. by exists (2 ^ 23). Qed.

Lemma mod_pipesize x : u32 x mod PIPESIZE = x mod PIPESIZE.
Proof. apply Z.mod_mod_divide, pipesize_divides. Qed.

(** Arithmetic modulo [2 ^ 32]. *)
Ltac lia32 := unfold uN, PIPESIZE in *; change (2 ^ 32) with 4294967296 in *; Z.to_euclidean_division_equations; lia.

Lemma u32_cancel a b c : 0 <= b < 2 ^ 32 → 0 <= c < 2 ^ 32 → u32 (a + b) = u32 (a + c) → b = c.
Proof. intros. lia32. Qed.

Lemma pipe_empty p q : pipe_ok p q → pi_nread p = pi_nwrite p ↔ q = [].
Proof.
  intros [? Hr Hq Hw _]. rewrite Hw. split.
  - intros E. destruct q as [|c q]; [done|]. exfalso. simpl in *. lia32.
  - intros ->. simpl. lia32.
Qed.

Lemma pipe_full p q : pipe_ok p q → pi_nwrite p = u32 (pi_nread p + PIPESIZE) ↔ Z.of_nat (length q) = PIPESIZE.
Proof.
  intros [? Hr Hq Hw _]. rewrite Hw. split; [|by intros ->].
  intros E%u32_cancel; unfold PIPESIZE in *; lia.
Qed.

Lemma pipe_push_ok p q c : pipe_ok p q → Z.of_nat (length q) < PIPESIZE → pipe_ok (pipe_push c p) (q ++ [c]).
Proof.
  intros [Hl Hr Hq Hw Hring] Hlt. unfold pipe_push. split.
  - rsimpl. by rewrite length_insert.
  - done.
  - rewrite length_app. simpl. lia.
  - rsimpl. rewrite Hw, length_app. simpl. lia32.
  - rsimpl. rewrite Hw, mod_pipesize, length_app, Nat.add_1_r.
    rewrite ring_push; [by rewrite <-Hring|done|by rewrite Hl|done].
Qed.

Lemma pipe_pop_ok p c q :
  pipe_ok p (c :: q) →
  pi_data p !!! Z.to_nat (pi_nread p mod PIPESIZE) = c ∧ pipe_ok (p <| pi_nread := u32 (pi_nread p + 1) |>) q.
Proof.
  intros [Hl Hr Hq Hw Hring]. cbn [length] in *. rewrite ring_cons in Hring. injection Hring as Hc Hring.
  split; [done|]. split.
  - done.
  - rsimpl. lia32.
  - lia.
  - rsimpl. rewrite Hw. lia32.
  - rsimpl. unfold uN. rewrite ring_mod; [done|apply pipesize_divides|done|done].
Qed.
