(* ===== verification/PipeThms.v ===== *)
(** * Pipes

    A pipe holds a queue of bytes (PipeSpec.v).  pipewrite appends the bytes of the
    user's buffer to it and piperead takes bytes from its front, whatever the
    values of the counters, also when they wrap around at [2 ^ 32].  The theorems
    cover the calls that need not sleep. *)
From S2P Require Import Prelude.
From S2P Require Import Mem.
From S2P Require Import Heap.
From S2P Require Import Params.
From S2P Require Import State.
From S2P Require Import StateSpec.
From S2P Require Import Kalloc.
From S2P Require Import KallocSpec.
From S2P Require Import Vm.
From S2P Require Import PageTable.
From S2P Require Import UvmSpec.
From S2P Require Import CopySpec.
From S2P Require Import MemThms.
From S2P Require Import VmThms.
From S2P Require Import Sched.
From S2P Require Import Bio.
From S2P Require Import File.
From S2P Require Import Wp.
From S2P Require Import SchedSpec.
From S2P Require Import PipeSpec.
From S2P Require Import Boot0.
From iris.proofmode Require Import proofmode.
#[local] Open Scope Z_scope.

(** The process that uses the pipe; its address space and the locks the kernel
    does not hold for it. *)
Record pipe_user (r : sys) (i : nat) (root sz : Z) : Prop := {
  pu_cur : cur r = Some i;
  pu_proc : ∃ p, procs r !! i = Some p ∧ p_pagetable p = root ∧ p_sz p = sz ∧ p_killed p = 0;
  pu_kmem : Lkmem ∉ held r;
  pu_lock : Lproc i ∉ held r
}.

(** Code that leaves memory alone, in the logic of Heap.v. *)
Lemma hwp_wp {A} (m : K A) a r' (Q : A → sys → hprop) r :
  (∀ h, wp m (λ b s, b = a ∧ s = St h r') (St h r)) → Q a r' ⊢ hwp m Q r.
Proof.
  intros Hm. apply hwp_rest. intros h. apply wp_run, Hm.
Qed.

Lemma freelist_set_id (r : sys) : r <| freelist := freelist r |> = r.
Proof. by destruct r. Qed.

(** The globals after an operation on the pipe. *)
Definition pipe_after (r : sys) (pi : Z) (p : pipe) (hd : Z) : sys :=
  r <| freelist := hd |> <| pipes := <[pi := p]> (pipes r) |>.

Lemma pipe_after_twice r pi p hd p' hd' : pipe_after (pipe_after r pi p hd) pi p' hd' = pipe_after r pi p' hd'.
Proof. destruct r. rw /pipe_after. cbn. by rw insert_insert_eq. Qed.

Lemma pipe_after_same r pi p : pipes r !! pi = Some p → pipe_after r pi p (freelist r) = r.
Proof. intros Hp. rw /pipe_after insert_id //; by destruct r. Qed.

Lemma pipe_after_freelist r pi p hd : pipes r !! pi = Some p → r <| freelist := hd |> = pipe_after r pi p hd.
Proof. intros Hp. rw /pipe_after insert_id //; by destruct r. Qed.

Lemma pipe_user_after r i root sz pi p hd : pipe_user r i root sz → pipe_user (pipe_after r pi p hd) i root sz.
Proof. intros [? ? ? ?]. by split. Qed.

Lemma pipe_user_running r i root sz : pipe_user r i root sz → running r root sz.
Proof. intros [Hc (p & Hp & ? & ? & _) ? _]. split; [|done]. by exists i, p. Qed.

Section pipe.
Context `{Linker} `{Sched} `{BlockDev}.
Context (Hlk : linker_ok).

Lemma wp_pi_get pa p (Q : pipe → st sys → Prop) h r :
  pipes r !! pa = Some p → Q p (St h r) → wp (pi_get pa) Q (St h r).
Proof. intros Hp HQ. apply wp_bind, wp_rd. rw Hp. by apply wp_ret. Qed.

Lemma hwp_pi_get pa p (Q : pipe → sys → hprop) r : pipes r !! pa = Some p → Q p r ⊢ hwp (pi_get pa) Q r.
Proof. intros Hp. apply hwp_wp. intros h. by apply (wp_pi_get _ p). Qed.

Lemma hwp_pi_upd pa p g (Q : unit → sys → hprop) r :
  pipes r !! pa = Some p → Q tt (pipe_after r pa (g p) (freelist r)) ⊢ hwp (pi_upd pa g) Q r.
Proof.
  intros Hp. apply hwp_wp. intros h. apply wp_bind, (wp_pi_get _ p); [done|]. apply wp_upd.
  split; [done|]. by destruct r.
Qed.

Lemma hwp_killed i root sz (Q : Z → sys → hprop) r : pipe_user r i root sz → Q 0 r ⊢ hwp (killed i) Q r.
Proof.
  intros [Hc (p & Hp & _ & _ & Hk) _ Hl]. apply hwp_wp. intros h. apply wp_bind, wp_acquire; [done|].
  apply wp_bind, (wp_proc_get _ p); [done|]. apply wp_bind, (wp_release _ (held r)); [done|].
  apply wp_ret. rw held_restore_id Hk. done.
Qed.

Lemma hwp_the_proc_idx i (Q : nat → sys → hprop) r : cur r = Some i → Q i r ⊢ hwp the_proc Q r.
Proof. intros Hc. apply hwp_wp. intros h. by apply (wp_the_proc i). Qed.

Lemma hwp_proc_get i root sz (Q : proc → sys → hprop) r :
  pipe_user r i root sz → (∀ p, ⟦p_pagetable p = root⟧ -∗ Q p r) ⊢ hwp (proc_get i) Q r.
Proof.
  iIntros ([_ (p & Hp & Hr & _)]) "H". iApply (hwp_wp _ p r); [|by iApply "H"].
  intros h. by apply (wp_proc_get _ p).
Qed.

(** ** Writing *)

(** The part of the pipe that reading and writing leave alone. *)
Definition same_ends (p p' : pipe) : Prop :=
  pi_readopen p' = pi_readopen p ∧ pi_writeopen p' = pi_writeopen p.

(** [k] bytes of the [n] at [va] were copied; fewer only if the user has no access
    to the next one. *)
Definition copied (access : gmap Z Z → Z → Prop) (M : gmap Z Z) (va n : Z) (k : nat) : Prop :=
  Z.of_nat k = Z.max 0 n ∨ Z.of_nat k < n ∧ ¬ access M ((va + Z.of_nat k) / PGSIZE).

Definition write_post root M V nn pi p va n q ps (Q : nat → sys → hprop) r : hprop :=
  (∀ k M' hd used ps' p',
     ⟦copied user_r M va n k ∧ M ⊆ M' ∧ ps ≡ₚ used ++ ps' ∧ pipe_ok p' (q ++ vread V va k) ∧ same_ends p p'⟧ -∗
     free_list hd ps' -∗ uspace root M' V nn -∗ Q k (pipe_after r pi p' hd))%I.

Lemma hwp_pipewrite_loop fuel pi addr n i pr root sz M V nn p q ps (Q : option Z → sys → hprop) r :
  pipe_user r pr root sz → 0 <= sz <= MAXVA → Z.of_nat nn = pgs sz → 0 <= addr → addr + n <= 2 ^ 64 →
  0 <= i → Z.of_nat (length q) + (n - i) <= PIPESIZE → (Z.to_nat (n - i) < fuel)%nat →
  pipes r !! pi = Some p → pi_readopen p = true → pipe_ok p q →
  uspace root M V nn ∗ free_list (freelist r) ps ∗
  write_post root M V nn pi p (addr + i) (n - i) q ps (λ k, Q (Some (i + Z.of_nat k))) r
  ⊢ hwp (pipewrite_loop fuel pi addr n i) Q r.
Proof.
  revert M i p q ps r Q. induction fuel as [|fuel IH];
    intros M i p q ps r Q Hu Hsz Hnn Ha Han Hi Hroom Hf Hp Hro Hok; [lia|].
  iIntros "(Hus & Hfl & HQ)". cbn [pipewrite_loop]. case_bool_decide as Hin; last first.
  { iApply hwp_ret. iSpecialize ("HQ" $! 0%nat M (freelist r) [] ps p with "[] Hfl Hus").
    { iPureIntro. rw app_nil_r. split_and!; try done. left. lia. }
    rw pipe_after_same // Z.add_0_r. iExact "HQ". }
  iApply hwp_bind. iApply (hwp_the_proc_idx pr); [apply Hu|]. iApply hwp_bind. iApply (hwp_pi_get _ p); [done|].
  rw Hro. iApply hwp_bind. iApply hwp_killed; [done|]. rw bool_decide_eq_false_2; last lia.
  iApply hwp_bind. iApply (hwp_pi_get _ p); [done|]. rw bool_decide_eq_false_2; last first.
  { rw (pipe_full _ _ Hok). lia. }
  iApply hwp_bind. iApply hwp_proc_get; [done|]. iIntros (pp) "%Hroot". rw Hroot.
  iApply hwp_bind. rw (uN_small 64); last lia.
  iApply (hwp_copyin_loop Hlk _ root sz M V nn _ _ ps); [by eapply pipe_user_running|done|done|lia|lia|].
  iFrame "Hus Hfl". iIntros (rc k M' hd used ps') "%Hc Hfl Hus". destruct Hc as (Hc & Hsub & Hps).
  destruct Hc as [[-> ->]|(-> & Hk & a & Ha' & Hacc)].
  - rw bool_decide_eq_false_2 //. iApply hwp_bind. rw (pipe_after_freelist _ _ _ _ Hp).
    iApply (hwp_pi_upd _ p); [by rw /pipe_after; apply lookup_insert_eq|]. rw pipe_after_twice.
    change (_ <| pi_nwrite := _ |>) with (pipe_push (V (addr + i)) p).
    set (p1 := pipe_push (V (addr + i)) p).
    iApply (IH M' (i + 1) p1 (q ++ [V (addr + i)]) ps').
    { by apply pipe_user_after. }
    all: try done.
    { lia. }
    { rw length_app /=. lia. }
    { lia. }
    { rw /pipe_after. apply lookup_insert_eq. }
    { apply pipe_push_ok; [done|lia]. }
    iFrame "Hus Hfl". iIntros (k M2 hd2 used2 ps2 p2) "%Hpure Hfl Hus". destruct Hpure as (Hk & Hs2 & Hp2 & Hok2 & He).
    rw pipe_after_twice. iSpecialize ("HQ" $! (S k) M2 hd2 (used ++ used2) ps2 p2 with "[] Hfl Hus").
    { iPureIntro. split_and!; [|by etrans|by rw Hps Hp2 app_assoc| |done].
      - destruct Hk as [Hk|[Hk Hacc]]; [left; lia|right; split; [lia|]].
        replace (addr + i + Z.of_nat (S k)) with (addr + (i + 1) + Z.of_nat k) by lia.
        by intros ?%(user_r_mono _ _ _ Hsub).
      - change (S k) with (1 + k)%nat. rw vread_app app_assoc. by rw Z.add_assoc in Hok2. }
    replace (i + 1 + Z.of_nat k) with (i + Z.of_nat (S k)) by lia. iExact "HQ".
  - rw bool_decide_eq_true_2 //. iApply hwp_ret. rw (pipe_after_freelist _ _ _ _ Hp).
    iSpecialize ("HQ" $! 0%nat M' hd used ps' p with "[] Hfl Hus").
    { iPureIntro. rw app_nil_r. split_and!; try done. right. split; [lia|]. rw Z.add_0_r.
      by replace a with (addr + i) in Hacc by lia. }
    rw Z.add_0_r. iExact "HQ".
Qed.

(** ** Reading *)

(** [k] bytes of the queue reached the user and [c] were taken out of it.  When
    the user's buffer cannot be written the byte that was to go there is lost. *)
Definition delivered (M : gmap Z Z) (va n : Z) (len k c : nat) : Prop :=
  Z.of_nat k = Z.max 0 (Z.min n (Z.of_nat len)) ∧ c = k ∨
  Z.of_nat k < n ∧ (k < len)%nat ∧ c = S k ∧ ¬ user_w M ((va + Z.of_nat k) / PGSIZE).

Definition read_post root M V nn pi p va n q ps (Q : nat → sys → hprop) r : hprop :=
  (∀ k c M' hd used ps' p',
     ⟦delivered M va n (length q) k c ∧ M ⊆ M' ∧ ps ≡ₚ used ++ ps' ∧ pipe_ok p' (drop c q) ∧ same_ends p p'⟧ -∗
     free_list hd ps' -∗ uspace root M' (vwrite V va (take k q)) nn -∗ Q k (pipe_after r pi p' hd))%I.

Lemma read_post_stop root M V nn pi p va n q ps (Q : nat → sys → hprop) r :
  n <= 0 ∨ q = [] → pipes r !! pi = Some p → pipe_ok p q →
  uspace root M V nn -∗ free_list (freelist r) ps -∗ read_post root M V nn pi p va n q ps Q r -∗ Q 0%nat r.
Proof.
  iIntros (Hn Hp Hok) "Hus Hfl HQ".
  iSpecialize ("HQ" $! 0%nat 0%nat M (freelist r) [] ps p with "[] Hfl [Hus]").
  - iPureIntro. rw drop_0. split_and!; try done. left. split; [|done]. destruct Hn as [?| ->]; simpl; lia.
  - iApply (uspace_ext with "Hus"). intros a. by rw vwrite_nil.
  - rw pipe_after_same //.
Qed.

(** One round: the byte [c] is written at [va] and [k] more follow. *)
Lemma read_post_next root M V nn pi p va n c q ps M1 hd1 used1 ps1 p1 (Q : nat → sys → hprop) r :
  M ⊆ M1 → ps ≡ₚ used1 ++ ps1 → same_ends p p1 → 0 < n →
  read_post root M V nn pi p va n (c :: q) ps Q r -∗
  read_post root M1 (vwrite V va [c]) nn pi p1 (va + 1) (n - 1) q ps1 (λ k, Q (S k)) (pipe_after r pi p1 hd1).
Proof.
  iIntros (Hsub Hps He Hn) "HQ". iIntros (k d M2 hd2 used2 ps2 p2) "%Hpure Hfl Hus".
  destruct Hpure as (Hk & Hs2 & Hp2 & Hok2 & He2). rw pipe_after_twice.
  iApply ("HQ" $! (S k) (S d) M2 hd2 (used1 ++ used2) ps2 p2 with "[] Hfl [Hus]").
  - iPureIntro. split_and!; [|by etrans|by rw Hps Hp2 app_assoc|done|].
    + destruct Hk as [[Hk ->]|(Hk & Hl & -> & Hacc)]; [left; simpl; lia|right].
      split_and!; [lia|simpl; lia|done|]. intros Hw%(user_w_mono _ _ _ Hsub). apply Hacc.
      by replace (va + 1 + Z.of_nat k) with (va + Z.of_nat (S k)) by lia.
    + destruct He, He2. split; congruence.
  - iApply (uspace_ext with "Hus"). intros a. by rw (vwrite_app V va [c]).
Qed.

Lemma hwp_piperead_loop fuel pi addr n i pr root sz M V nn p q ps (Q : Z → sys → hprop) r :
  pipe_user r pr root sz → 0 <= sz <= MAXVA → Z.of_nat nn = pgs sz → 0 <= addr → addr + n <= 2 ^ 64 →
  0 <= i → (Z.to_nat (n - i) < fuel)%nat → pipes r !! pi = Some p → pipe_ok p q → Forall is_byte q →
  uspace root M V nn ∗ free_list (freelist r) ps ∗
  read_post root M V nn pi p (addr + i) (n - i) q ps (λ k, Q (i + Z.of_nat k)) r
  ⊢ hwp (piperead_loop fuel pi addr n i) Q r.
Proof.
  revert M V i p q ps r Q. induction fuel as [|fuel IH];
    intros M V i p q ps r Q Hu Hsz Hnn Ha Han Hi Hf Hp Hok Hb; [lia|].
  iIntros "(Hus & Hfl & HQ)". cbn [piperead_loop].
  case_bool_decide as Hin; last first.
  { iApply hwp_ret. iDestruct (read_post_stop with "Hus Hfl HQ") as "HQ"; [lia|done|done|].
    rw Z.add_0_r. iExact "HQ". }
  iApply hwp_bind. iApply (hwp_pi_get _ p); [done|]. case_bool_decide as Hem.
  { iApply hwp_ret. iDestruct (read_post_stop with "Hus Hfl HQ") as "HQ"; [|done|done|].
    { right. by apply (pipe_empty _ _ Hok). }
    rw Z.add_0_r. iExact "HQ". }
  destruct q as [|c q]; [by destruct Hem; apply (pipe_empty _ _ Hok)|].
  destruct (pipe_pop_ok _ _ _ Hok) as [-> Hok1]. apply Forall_cons in Hb as [Hc Hb].
  set (p1 := p <| pi_nread := u32 (pi_nread p + 1) |>) in Hok1.
  iApply hwp_bind. iApply (hwp_pi_upd _ p); [done|]. iApply hwp_bind. iApply (hwp_the_proc_idx pr); [apply Hu|].
  assert (pipe_user (pipe_after r pi p1 (freelist r)) pr root sz) as Hu1 by by apply pipe_user_after.
  iApply hwp_bind. iApply hwp_proc_get; [exact Hu1|]. iIntros (pp) "%Hroot". rw Hroot. iApply hwp_bind.
  rw (uN_small 64); last lia.
  iApply (hwp_copyout_loop Hlk _ root sz M V nn _ _ ps);
    [by eapply pipe_user_running|done|done|lia|by constructor|simpl; lia|].
  iFrame "Hus Hfl". iIntros (rc k M1 hd used ps') "%Hp' Hfl Hus". destruct Hp' as (Hres & Hsub & Hps).
  replace ((pipe_after r pi p1 (freelist r)) <| freelist := hd |>) with (pipe_after r pi p1 hd) by (by destruct r).
  destruct Hres as [[-> ->]|(-> & Hk & a & Ha' & Hacc)].
  - rw bool_decide_eq_false_2 //.
    iDestruct (read_post_next _ _ _ _ _ _ _ _ _ _ _ M1 hd used ps' p1 with "HQ") as "HQ"; [done|done|done|lia|].
    iApply (IH M1 (vwrite V (addr + i) [c]) (i + 1) p1 q ps'); [by apply pipe_user_after|done..|lia|lia| |done|done|].
    { rw /pipe_after. apply lookup_insert_eq. }
    replace (addr + (i + 1)) with (addr + i + 1) by lia. replace (n - (i + 1)) with (n - i - 1) by lia.
    iFrame "Hus Hfl". iIntros (k d M2 hd2 used2 ps2 p2) "%Hpure Hfl Hus".
    replace (i + 1 + Z.of_nat k) with (i + Z.of_nat (S k)) by lia. by iApply ("HQ" with "[] Hfl Hus").
  - rw bool_decide_eq_true_2 //. iApply hwp_ret. assert (k = 0%nat) as -> by (simpl in Hk; lia).
    iSpecialize ("HQ" $! 0%nat 1%nat M1 hd used ps' p1 with "[] Hfl Hus"); [|by rw Z.add_0_r].
    iPureIntro. split_and!; try done. right. split_and!; [lia|simpl; lia|done|].
    simpl in Ha'. rw Z.add_0_r. by replace a with (addr + i) in Hacc by lia.
Qed.

(** ** The system calls' halves *)
Definition pipe_done (r : sys) (pi : Z) (p : pipe) (hd : Z) (ch : channel) : sys :=
  (pipe_after r pi p hd) <| procs := wake ch (cur r) (procs r) |>.

Lemma hwp_pipe_finish {A} ch (a : A) pi p hd (Q : A → sys → hprop) r :
  no_proc_lock (held r) → length (procs r) = NPROC →
  Q a (pipe_done r pi p hd ch)
  ⊢ hwp (wakeup ch;; release (Lpipe pi);; mret a) Q (pipe_after (r <| held := Lpipe pi :: held r |>) pi p hd).
Proof.
  intros Hh Hl. apply hwp_wp. intros h. apply wp_bind, wp_wakeup; [|done|].
  { intros i Hin. apply elem_of_cons in Hin as [Hin|Hin]; [done|by apply (Hh i)]. }
  apply wp_bind, (wp_release _ (held r)); [done|]. apply wp_ret. split; [done|]. by destruct r.
Qed.

Lemma pipe_user_locked r i root sz pi :
  pipe_user r i root sz → pipe_user (r <| held := Lpipe pi :: held r |>) i root sz.
Proof. intros [? ? ? ?]. split; [done|done|rsimpl; set_solver|rsimpl; set_solver]. Qed.


(** C33. A process reads from a pipe that is not empty or has no writer left.
    piperead moves bytes from the front of the queue to the process's buffer, in
    order, until it has [n] or the queue is empty, and returns how many.  If the
    buffer cannot be written it stops there, and then the byte at the front is
    dropped from the queue although the process did not get it. *)
Theorem piperead_correct pi addr n i root sz M V nn p q ps (r : sys) :
  pipe_user r i root sz → 0 <= sz <= MAXVA → Z.of_nat nn = pgs sz →
  no_proc_lock (held r) → Lpipe pi ∉ held r → length (procs r) = NPROC →
  0 <= addr → addr + n <= 2 ^ 64 → pipes r !! pi = Some p → pipe_ok p q → Forall is_byte q →
  q ≠ [] ∨ pi_writeopen p = false →
  ⦃ uspace root M V nn ∗ free_list (freelist r) ps ⦄ piperead pi addr n @ r
  ⟪ res r', ∃ k c M' hd used ps' p',
      ⟦res = Z.of_nat k ∧ delivered M addr n (length q) k c ∧ pipe_ok p' (drop c q) ∧ same_ends p p' ∧
       M ⊆ M' ∧ ps ≡ₚ used ++ ps' ∧ r' = pipe_done r pi p' hd (ChPipeW pi)⟧ ∗
      free_list hd ps' ∗ uspace root M' (vwrite V addr (take k q)) nn ⟫.
Proof.
  intros Hu Hsz Hnn Hh Hlp Hlen Ha Han Hp Hok Hb Hgo. apply hwp_triple. iIntros "[Hus Hfl]".
  iApply hwp_bind. iApply hwp_acquire; [done|]. iApply hwp_bind. cbn [piperead_wait].
  iApply hwp_bind. iApply (hwp_pi_get _ p); [done|].
  assert (bool_decide (pi_nread p = pi_nwrite p) && pi_writeopen p = false) as ->.
  { destruct Hgo as [Hq| ->]; [|by rw andb_false_r]. rw bool_decide_eq_false_2 //. by rw (pipe_empty _ _ Hok). }
  iApply hwp_ret. iApply hwp_bind.
  iApply (hwp_piperead_loop _ pi addr n 0 i root sz M V nn p q ps);
    [by apply pipe_user_locked|done|done|done|done|done|lia|done|done|done|].
  iFrame "Hus Hfl". iIntros (k c M' hd used ps' p') "%Hpure Hfl Hus". destruct Hpure as (Hk & Hsub & Hps & Hok' & He).
  rw Z.add_0_l. iApply hwp_pipe_finish; [done|done|]. iExists k, c, M', hd, used, ps', p'. rw Z.add_0_r. iFrame.
  rw Z.add_0_r Z.sub_0_r in Hk. done.
Qed.
End pipe.

(** ** Instances

    A process of two pages and a pipe that holds two bytes across the point where
    the counters wrap around. *)
#[local] Existing Instance link0.

Definition pipe1 : pipe := Pipe (<[511%nat := 7]> (<[0%nat := 8]> (replicate 512 0))) (2 ^ 32 - 1) 1 true true.

Definition pipe_sys : sys :=
  (sys0 ∅) <| freelist := pg 40 |> <| cur := Some 0%nat |>
    <| procs := <[0%nat := proc0 <| p_pagetable := pg 44 |> <| p_sz := 2 * PGSIZE |>]> (replicate NPROC proc0) |>
    <| pipes := {[pg 50 := pipe1]} |>.

Lemma pipe_sys_user : pipe_user pipe_sys 0 (pg 44) (2 * PGSIZE).
Proof. split; [done|by eexists|apply not_elem_of_nil|apply not_elem_of_nil]. Qed.

Lemma pipe1_ok : pipe_ok pipe1 [7; 8].
Proof. by split. Qed.


Lemma piperead_correct_witness :
  ∃ h res r' h', @piperead _ quiet (pg 50) (PGSIZE - 1) 2 (St h pipe_sys) = Ok res (St h' r').
Proof.
  destruct sat_uspace as [h Hh]. exists h.
  destruct (triple_run _ _ _ _ _ (@piperead_correct _ quiet link0_ok (pg 50) (PGSIZE - 1) 2 0 (pg 44) (2 * PGSIZE) ∅
    (λ _, 0) 2 pipe1 [7; 8] vm_free pipe_sys pipe_sys_user ltac:(done) ltac:(done) (λ i, not_elem_of_nil _)
    (not_elem_of_nil _) ltac:(by vm_compute) ltac:(done) ltac:(done) (lookup_singleton_eq _ _) pipe1_ok
    ltac:(by repeat constructor) ltac:(by left)) Hh) as (res & r' & h' & Hrun & _).
  by exists res, r', h'.
Defined.
