(* ===== verification/ProcThms.v ===== *)
(** * Killing processes and growing them *)
From S2P Require Import Prelude.
From S2P Require Import Mem.
From S2P Require Import Params.
From S2P Require Import State.
From S2P Require Import Kalloc.
From S2P Require Import Vm.
From S2P Require Import Sched.
From S2P Require Import Bio.
From S2P Require Import Proc.
From S2P Require Import Sysfile.
From S2P Require Import Syscall.
From S2P Require Import Wp.
From S2P Require Import SchedSpec.
From S2P Require Import Boot0.
From S2P Require Import MemThms.
#[local] Open Scope Z_scope.

(** ** kill *)

(** A process after it was killed: marked, and no longer asleep. *)
Definition kill1 (p : proc) : proc :=
  p <| p_killed := 1 |> <| p_state := if bool_decide (p_state p = SLEEPING) then RUNNABLE else p_state p |>.

(** Slot [i] is the first with property [P]. *)
Definition first_slot (P : proc → Prop) (ps : list proc) (i : nat) (p : proc) : Prop :=
  ps !! i = Some p ∧ P p ∧ ∀ j q, (j < i)%nat → ps !! j = Some q → ¬ P q.

(** Free slots have process id 0, as procinit and freeproc leave them. *)
Definition slots_ok (ps : list proc) : Prop :=
  ∀ i p, ps !! i = Some p → p_state p = UNUSED ↔ p_pid p = 0.

Section kill.
Context `{Sched}.

(** Slot [j] is locked, looked at, and unlocked again. *)
Lemma wp_skip_slot {A} j p (P : proc → Prop) `{!∀ q, Decision (P q)} (m : proc → K (option A)) Q h r :
  procs r !! j = Some p → Lproc j ∉ held r → ¬ P p → Q None (St h r) →
  wp (acquire (Lproc j);; q ← proc_get j; if bool_decide (P q) then m q else release (Lproc j);; mret None) Q (St h r).
Proof.
  intros Hp Hl Hn HQ. apply wp_bind, wp_acquire; [done|]. apply wp_bind, (wp_proc_get _ p); [done|].
  rewrite bool_decide_eq_false_2 by done. apply wp_bind, (wp_release _ (held r)); [done|].
  apply wp_ret. by rewrite held_same.
Qed.

Lemma procs_again (r : sys) i p q hl :
  r <| held := hl |> <| procs := <[i := p]> (procs (r <| held := hl |>)) |>
    <| procs := <[i := q]> (procs (r <| held := hl |> <| procs := <[i := p]> (procs (r <| held := hl |>)) |>)) |>
    <| held := held r |> = r <| procs := <[i := q]> (procs r) |>.
Proof. destruct r. cbn. by rewrite list_insert_insert_eq. Qed.

Lemma wp_kkill_hit pid i p (Q : Z → st sys → Prop) h r :
  no_proc_lock (held r) → length (procs r) = NPROC → first_slot (λ p, p_pid p = pid) (procs r) i p →
  Q 0 (St h (r <| procs := <[i := kill1 p]> (procs r) |>)) → wp (kkill pid) Q (St h r).
Proof.
  intros Hh Hlen (Hp & Hpid & Hfirst) HQ. pose proof (lookup_lt_Some _ _ _ Hp) as Hi. apply wp_bind.
  apply (wp_for (λ j s, s = St h r ∧ (j <= i)%nat)); [split; [done|lia]| |intros s [-> ?]; lia].
  intros j s Hj [-> Hji]. destruct (decide (j = i)) as [->|Hne].
  - apply wp_bind, wp_acquire; [apply Hh|]. apply wp_bind, (wp_proc_get _ p); [done|].
    rewrite bool_decide_eq_true_2 by done. apply wp_bind, (wp_proc_upd _ p); [done|].
    apply wp_bind, wp_when; intros Hb.
    + eapply wp_proc_upd; [rsimpl; by apply list_lookup_insert_eq|].
      apply wp_bind, (wp_release _ (held r)); [done|]. apply wp_ret, wp_ret. unfold kill1 in HQ.
      rewrite Hb in HQ. by rewrite (procs_again r).
    + apply wp_bind, (wp_release _ (held r)); [done|]. apply wp_ret, wp_ret. unfold kill1 in HQ.
      rewrite Hb in HQ. destruct r, p. exact HQ.
  - destruct (lookup_lt_is_Some_2 (procs r) j) as [q Hq]; [lia|]. eapply (wp_skip_slot _ q (λ q, p_pid q = pid)); [done|apply Hh| |].
    + apply (Hfirst j q); [lia|done].
    + split; [done|lia].
Qed.

Lemma wp_kkill_miss pid (Q : Z → st sys → Prop) h r :
  no_proc_lock (held r) → length (procs r) = NPROC → (∀ i p, procs r !! i = Some p → p_pid p ≠ pid) →
  Q (-1) (St h r) → wp (kkill pid) Q (St h r).
Proof.
  intros Hh Hlen Hno HQ. apply wp_bind. apply (wp_for (λ j s, s = St h r)); [done| |by intros s ->].
  intros j s Hj ->. destruct (lookup_lt_is_Some_2 (procs r) j) as [q Hq]; [lia|].
  eapply (wp_skip_slot _ q (λ q, p_pid q = pid)); [done|apply Hh|by apply (Hno j)|done].
Qed.

(** allocproc's search takes the first free slot and leaves it locked. *)
Lemma wp_find_unused i p (Q : option nat → st sys → Prop) h r :
  no_proc_lock (held r) → length (procs r) = NPROC → first_slot (λ p, p_state p = UNUSED) (procs r) i p →
  Q (Some i) (St h (r <| held := Lproc i :: held r |>)) → wp find_unused Q (St h r).
Proof.
  intros Hh Hlen (Hp & Hun & Hfirst) HQ. pose proof (lookup_lt_Some _ _ _ Hp) as Hi.
  apply (wp_for (λ j s, s = St h r ∧ (j <= i)%nat)); [split; [done|lia]| |intros s [-> ?]; lia].
  intros j s Hj [-> Hji]. destruct (decide (j = i)) as [->|Hne].
  - apply wp_bind, wp_acquire; [apply Hh|]. apply wp_bind, (wp_proc_get _ p); [done|].
    rewrite bool_decide_eq_true_2 by done. by apply wp_ret.
  - destruct (lookup_lt_is_Some_2 (procs r) j) as [q Hq]; [lia|].
    eapply (wp_skip_slot _ q (λ q, p_state q = UNUSED)); [done|apply Hh| |].
    + apply (Hfirst j q); [lia|done].
    + split; [done|lia].
Qed.
End kill.

Section kill_thms.
Context `{Sched}.

(** kill marks the first process with the given id as killed and makes it
    runnable if it sleeps; no other slot changes.  If there is none it returns -1
    and changes nothing. *)
Theorem kkill_correct (pid : Z) (h : heap) (r : sys) :
  no_proc_lock (held r) → length (procs r) = NPROC →
  (∀ i p, first_slot (λ p, p_pid p = pid) (procs r) i p →
     kkill pid (St h r) = Ok 0 (St h (r <| procs := <[i := kill1 p]> (procs r) |>))) ∧
  ((∀ i p, procs r !! i = Some p → p_pid p ≠ pid) → kkill pid (St h r) = Ok (-1) (St h r)).
Proof.
  intros Hh Hlen. split.
  - intros i p Hf. apply wp_run. by apply (wp_kkill_hit pid i p).
  - intros Hno. apply wp_run. by apply wp_kkill_miss.
Qed.

(** C34. kill(0) succeeds although no process has id 0: it marks the first free
    slot as killed, and that is the slot in which allocproc makes the next process,
    which therefore starts out killed. *)
Theorem kill_zero_marks_free_slot (i : nat) (p : proc) (h : heap) (r : sys) :
  no_proc_lock (held r) → length (procs r) = NPROC → slots_ok (procs r) →
  first_slot (λ p, p_state p = UNUSED) (procs r) i p →
  (kkill 0 ≫= λ rc, u ← find_unused; mret (rc, u)) (St h r) =
    Ok (0, Some i) (St h (r <| procs := <[i := p <| p_killed := 1 |>]> (procs r) |> <| held := Lproc i :: held r |>)).
Proof.
  intros Hh Hlen Hok (Hp & Hun & Hfirst).
  assert (kill1 p = p <| p_killed := 1 |>) as Hk1.
  { unfold kill1. rewrite bool_decide_eq_false_2 by (rewrite Hun; done). by destruct p. }
  assert (first_slot (λ p, p_pid p = 0) (procs r) i p) as Hf.
  { split_and!; [done|by apply (Hok i)|]. intros j q Hj Hq Hz. apply (Hfirst j q Hj Hq). by apply (Hok j). }
  apply wp_run. apply wp_bind, (wp_kkill_hit 0 i p); [done..|]. rewrite Hk1.
  apply wp_bind, (wp_find_unused i (p <| p_killed := 1 |>)); [done|by rsimpl; rewrite length_insert| |by apply wp_ret].
  rsimpl. split_and!; [apply list_lookup_insert_eq; by eapply lookup_lt_Some|done|].
  intros j q Hj. rewrite list_lookup_insert_ne by lia. by apply Hfirst.
Qed.
End kill_thms.

(** ** sbrk *)
Section sbrk.
Context `{Linker} `{Sched} `{BlockDev} `{TextSyms}.

(** C35. A lazy sbrk has no upper bound on the size of the process.  Once it is
    larger than the largest user address, a page fault between the two makes the
    kernel panic. *)
Theorem lazy_sbrk_panics (i : nat) (p : proc) (n va : Z) (rd : bool) (h : heap) (r : sys) :
  cur r = Some i → procs r !! i = Some p →
  argint 0 (St h r) = Ok n (St h r) → argint 1 (St h r) = Ok SBRK_LAZY (St h r) →
  0 <= n → 0 <= p_sz p → p_sz p + n < 2 ^ 64 → MAXVA <= va < p_sz p + n →
  let grown := St h (r <| procs := <[i := p <| p_sz := p_sz p + n |>]> (procs r) |>) in
  sys_sbrk (St h r) = Ok (p_sz p) grown ∧ vmfault (p_pagetable p) va rd grown = Panic "walk".
Proof.
  intros Hc Hp Ha0 Ha1 Hn Hsz Hmax Hva grown. assert (u64 (p_sz p + n) = p_sz p + n) as Hu by (apply uN_small; lia).
  pose proof (lookup_lt_Some _ _ _ Hp) as Hi. split.
  - apply wp_run. apply wp_bind. unfold wp at 1. rewrite Ha0. apply wp_bind. unfold wp at 1. rewrite Ha1.
    apply wp_bind, (wp_the_proc i); [done|]. apply wp_bind, (wp_proc_get _ p); [done|].
    rewrite bool_decide_eq_false_2 by (unfold SBRK_LAZY, SBRK_EAGER; lia). rewrite bool_decide_eq_false_2 by lia.
    apply wp_bind, (wp_proc_upd _ p); [done|]. apply wp_ret. by rewrite Hu.
  - unfold vmfault, grown. rewrite (bind_run _ _ i _ grown) by (apply wp_run; by apply (wp_the_proc i)).
    rewrite (bind_run _ _ (p <| p_sz := p_sz p + n |>) _ grown).
    2:{ apply wp_run, (wp_proc_get _ (p <| p_sz := p_sz p + n |>)); [|done]. rsimpl. by apply list_lookup_insert_eq. }
    rsimpl. rewrite bool_decide_eq_false_2 by lia. rewrite PGROUNDDOWN_spec by (assert (0 < MAXVA) by done; lia).
    unfold ismapped, walk, mbind, M_bind. rewrite bool_decide_eq_true_2; [done|].
    change MAXVA with (MAXVA / PGSIZE * PGSIZE). apply Z.mul_le_mono_nonneg_r; [done|]. apply Z.div_le_mono; [done|lia].
Qed.
End sbrk.

(** ** Instances *)
#[local] Existing Instance link0.
#[local] Existing Instance quiet.
#[local] Instance syms0 : TextSyms := {| forkret_sym := KERNBASE; usertrap_sym := KERNBASE; kernelvec_sym := KERNBASE; uservec_off := 0; userret_off := 0 |}.

(** Process 1 runs in slot 0 and the other slots are free. *)
Lemma machine_slots : slots_ok (procs (machine ∅)).
Proof.
  intros i p Hp. unfold machine in Hp. rsimpl in Hp.
  apply list_lookup_insert_Some in Hp as [(_ & <- & _)|(_ & [-> _]%lookup_replicate)]; done.
Qed.

Lemma machine_locks : no_proc_lock (held (machine ∅)).
Proof. intros i. apply not_elem_of_nil. Qed.

Lemma kkill_correct_witness :
  kkill 1 (St ∅ (machine ∅)) =
    Ok 0 (St ∅ ((machine ∅) <| procs := <[0%nat := kill1 proc1]> (procs (machine ∅)) |>)).
Proof.
  apply (kkill_correct 1 ∅ (machine ∅)).
  - exact machine_locks.
  - vm_compute. reflexivity.
  - split_and!; [reflexivity|reflexivity|]. intros j q Hj. lia.
Defined.

Lemma kill_zero_marks_free_slot_witness :
  (kkill 0 ≫= λ rc, u ← find_unused; mret (rc, u)) (St ∅ (machine ∅)) =
    Ok (0, Some 1%nat) (St ∅ ((machine ∅) <| procs := <[1%nat := proc0 <| p_killed := 1 |>]> (procs (machine ∅)) |>
      <| held := [Lproc 1] |>)).
Proof.
  apply (kill_zero_marks_free_slot 1 proc0 ∅ (machine ∅)).
  - exact machine_locks.
  - vm_compute. reflexivity.
  - exact machine_slots.
  - split_and!; [reflexivity|reflexivity|]. intros j q Hj Hq. assert (j = 0%nat) as -> by lia.
    injection Hq as <-. discriminate.
Defined.

(** A process just below the largest user address asks for 64 more bytes; its
    trap frame is at [pg 40]. *)
Definition sbrk_mem : heap :=
  list_to_map (zip (seqZ (pg 40 + tf_a 0) 16) (le_split 8 64 ++ le_split 8 SBRK_LAZY)).

Definition sbrk_sys : sys :=
  (sys0 ∅) <| cur := Some 0%nat |>
    <| procs := [proc0 <| p_pagetable := pg 44 |> <| p_sz := MAXVA - 8 |> <| p_trapframe := pg 40 |>] |>.

Lemma lazy_sbrk_panics_witness :
  ∃ s, sys_sbrk (St sbrk_mem sbrk_sys) = Ok (MAXVA - 8) s ∧ vmfault (pg 44) (MAXVA + 16) true s = Panic "walk".
Proof.
  eexists. refine (lazy_sbrk_panics 0 (proc0 <| p_pagetable := pg 44 |> <| p_sz := MAXVA - 8 |> <| p_trapframe := pg 40 |>)
    64 (MAXVA + 16) true sbrk_mem sbrk_sys _ _ _ _ _ _ _ _).
  - reflexivity.
  - reflexivity.
  - vm_compute. reflexivity.
  - vm_compute. reflexivity.
  - lia.
  - vm_compute. discriminate.
  - vm_compute. reflexivity.
  - vm_compute. split; [discriminate|reflexivity].
Defined.
