(* ===== verification/Grep.v ===== *)
(** * user/grep.c: what its patterns mean, and what it prints *)
From S2P Require Import Prelude.
#[local] Open Scope Z_scope.

(** ** user/grep.c: regular expressions and grep

    A C string is the list of its characters without the terminating NUL, and a
    pointer into it the rest of the list, so [*text == 0] is [text = []]. *)

Definition star : Z := 42.
Definition dot : Z := 46.
Definition dollar : Z := 36.
Definition caret : Z := 94.
Definition newline : Z := 10.

(** The do-while loop of matchstar(c, re, text); [mh] is matchhere(re, .). *)
Fixpoint matchstar (mh : list Z → bool) (c : Z) (text : list Z) : bool :=
  if mh text then true else
  match text with
  | [] => false
  | x :: text' => if bool_decide (x = c ∨ c = dot) then matchstar mh c text' else false
  end.

Fixpoint matchhere (re text : list Z) : bool :=
  match re with
  | [] => true
  | c :: re1 =>
      match re1 with
      | s :: re2 => if bool_decide (s = star) then matchstar (matchhere re2) c text else
          match text with
          | [] => false
          | x :: text' => if bool_decide (c = dot ∨ c = x) then matchhere re1 text' else false
          end
      | [] =>
          if bool_decide (c = dollar) then bool_decide (text = []) else
          match text with
          | [] => false
          | x :: text' => if bool_decide (c = dot ∨ c = x) then matchhere re1 text' else false
          end
      end
  end.

(** [do { ... } while( *text++ != 0)] *)
Fixpoint match_any (re text : list Z) : bool :=
  if matchhere re text then true else
  match text with [] => false | _ :: text' => match_any re text' end.

Definition match_ (re text : list Z) : bool :=
  match re with
  | c :: re' => if bool_decide (c = caret) then matchhere re' text else match_any re text
  | [] => match_any re text
  end.

(** user/ulib.c strchr: the offset of the first [c], before any NUL *)
Fixpoint strchr (s : list Z) (c : Z) : option nat :=
  match s with
  | [] => None
  | x :: s' => if bool_decide (x = 0) then None else if bool_decide (x = c) then Some 0%nat else S <$> strchr s' c
  end.

(** [while((q = strchr(p, '\n')) != 0)]: what is written, and p at the end.  The
    line that match sees ends at q, where a NUL was stored. *)
Fixpoint grep_lines (fuel : nat) (pattern p : list Z) : option (list Z * list Z) :=
  match fuel with
  | O => None
  | S fuel' =>
      match strchr p newline with
      | None => Some ([], p)
      | Some q =>
          '(out, p') ← grep_lines fuel' pattern (drop (S q) p);
          Some ((if match_ pattern (take q p) then take q p ++ [newline] else []) ++ out, p')
      end
  end.

(** sizeof(buf) *)
Definition grep_bufsize : nat := 1024.

(** [while((n = read(fd, buf+m, sizeof(buf)-m-1)) > 0)]: [buf] holds the first m
    bytes of the buffer.  A read of [k] bytes may return fewer: [short] tells how
    many the next reads return at most. *)
Fixpoint grep_loop (fuel : nat) (pattern buf : list Z) (short : nat → nat) (input : list Z) : option (list Z) :=
  match fuel with
  | O => None
  | S fuel' =>
      let n := Nat.min (grep_bufsize - length buf - 1) (Nat.min (short 0%nat) (length input)) in
      if bool_decide (n = 0%nat) then Some [] else
      let buf := buf ++ take n input in
      '(out, p) ← grep_lines (S (length buf)) pattern buf;
      rest ← grep_loop fuel' pattern p (λ i, short (S i)) (drop n input);
      Some (out ++ rest)
  end.

Definition grep (pattern : list Z) (short : nat → nat) (input : list Z) : option (list Z) :=
  grep_loop (S (length input)) pattern [] short input.

(** ** Patterns

    A pattern is a sequence of items, one character or a starred character, and
    may end in [$]. *)
Inductive item : Type := One (c : Z) | Star (c : Z).

Fixpoint re_items (re : list Z) : list item :=
  match re with
  | [] => []
  | c :: re1 =>
      match re1 with
      | s :: re2 => if bool_decide (s = star) then Star c :: re_items re2 else One c :: re_items re1
      | [] => if bool_decide (c = dollar) then [] else [One c]
      end
  end.

(** The pattern ends in a [$] that is not starred. *)
Fixpoint re_end (re : list Z) : bool :=
  match re with
  | [] => false
  | c :: re1 =>
      match re1 with
      | s :: re2 => if bool_decide (s = star) then re_end re2 else re_end re1
      | [] => bool_decide (c = dollar)
      end
  end.

Definition char_matches (c x : Z) : Prop := c = dot ∨ c = x.

(** The strings that a sequence of items describes. *)
Inductive denotes : list item → list Z → Prop :=
| denotes_nil : denotes [] []
| denotes_one c x l s : char_matches c x → denotes l s → denotes (One c :: l) (x :: s)
| denotes_star c l s1 s2 : Forall (char_matches c) s1 → denotes l s2 → denotes (Star c :: l) (s1 ++ s2).

(** [text] starts with a string of the pattern, and is one if [last]. *)
Definition prefix_matches (l : list item) (last : bool) (text : list Z) : Prop :=
  ∃ s t, text = s ++ t ∧ denotes l s ∧ (last = true → t = []).

Lemma prefix_one c l last text :
  prefix_matches (One c :: l) last text ↔ ∃ x text', text = x :: text' ∧ char_matches c x ∧ prefix_matches l last text'.
Proof.
  split.
  - intros (s & t & -> & Hd & Ht). inversion Hd as [|? x ? s' Hc Hd'|]; subst. exists x, (s' ++ t).
    split_and!; [done|done|]. by exists s', t.
  - intros (x & text' & -> & Hc & s & t & -> & Hd & Ht). exists (x :: s), t. split_and!; [done|by constructor|done].
Qed.

Lemma prefix_star c l last text :
  prefix_matches (Star c :: l) last text ↔
  ∃ s1 text', text = s1 ++ text' ∧ Forall (char_matches c) s1 ∧ prefix_matches l last text'.
Proof.
  split.
  - intros (s & t & -> & Hd & Ht). inversion Hd as [| |? ? s1 s2 Hc Hd']; subst. exists s1, (s2 ++ t).
    split_and!; [by rewrite app_assoc|done|]. by exists s2, t.
  - intros (s1 & text' & -> & Hc & s & t & -> & Hd & Ht). exists (s1 ++ s), t.
    split_and!; [by rewrite app_assoc|by constructor|done].
Qed.

Lemma matchstar_spec mh c text :
  matchstar mh c text = true ↔ ∃ s1 text', text = s1 ++ text' ∧ Forall (char_matches c) s1 ∧ mh text' = true.
Proof.
  induction text as [|x text IH]; cbn [matchstar].
  - destruct (mh []) eqn:E; split; [by exists [], []|done|done|].
    intros (s1 & text' & Heq & _ & Hm). symmetry in Heq. apply app_eq_nil in Heq as [-> ->]. congruence.
  - destruct (mh (x :: text)) eqn:E; [split; [by exists [], (x :: text)|done]|].
    transitivity (char_matches c x ∧ matchstar mh c text = true).
    { case_bool_decide as Hx; unfold char_matches; naive_solver. }
    rewrite IH. split.
    + intros (Hc & s1 & text' & -> & Hf & Hm). exists (x :: s1), text'. split_and!; [done|by constructor|done].
    + intros ([|y s1] & text' & Heq & Hf & Hm); simpl in Heq; [congruence|]. injection Heq as -> ->.
      apply Forall_cons in Hf as [Hc Hf]. split; [done|]. by exists s1, text'.
Qed.

Lemma match_one_spec c text (m : list Z → bool) l last :
  (∀ t, m t = true ↔ prefix_matches l last t) →
  match text with [] => false | x :: text' => if bool_decide (c = dot ∨ c = x) then m text' else false end = true ↔
  prefix_matches (One c :: l) last text.
Proof.
  intros Hm. rewrite prefix_one. destruct text as [|x text].
  { split; [done|]. by intros (? & ? & ? & _). }
  case_bool_decide as Hc; [rewrite Hm|].
  - split; [by eauto|]. intros (? & ? & [= <- <-] & _ & ?). done.
  - split; [done|]. intros (? & ? & [= <- <-] & ? & _). done.
Qed.

Lemma matchhere_spec re text : matchhere re text = true ↔ prefix_matches (re_items re) (re_end re) text.
Proof.
  revert text. induction re as [re IH] using (induction_ltof1 _ length). unfold ltof in IH. intros text.
  destruct re as [|c [|x re]]; cbn [matchhere re_items re_end].
  - split; [|done]. intros _. exists [], text. split_and!; [done|constructor|done].
  - case_bool_decide as Hc.
    + rewrite bool_decide_eq_true. split.
      * intros ->. exists [], []. split_and!; [done|constructor|done].
      * intros (s & t & -> & Hd & Ht). inversion Hd; subst. by apply Ht.
    + apply match_one_spec. apply (IH []). simpl. lia.
  - case_bool_decide as Hs.
    + rewrite prefix_star, matchstar_spec.
      assert (∀ t, matchhere re t = true ↔ prefix_matches (re_items re) (re_end re) t) as Hre by (apply IH; simpl; lia).
      split; intros (s1 & t & ? & ? & ?); exists s1, t; split_and!; try done; by apply Hre.
    + apply (match_one_spec c text (matchhere (x :: re)) (re_items (x :: re)) (re_end (x :: re))).
      apply (IH (x :: re)). simpl. lia.
Qed.

Lemma match_any_spec re text :
  match_any re text = true ↔ ∃ s t, text = s ++ t ∧ prefix_matches (re_items re) (re_end re) t.
Proof.
  induction text as [|x text IH]; cbn [match_any].
  - destruct (matchhere re []) eqn:E.
    + split; [|done]. intros _. exists [], []. split; [done|by apply matchhere_spec].
    + split; [done|]. intros (s & t & Heq & Hp). symmetry in Heq. apply app_eq_nil in Heq as [-> ->].
      apply matchhere_spec in Hp. congruence.
  - destruct (matchhere re (x :: text)) eqn:E.
    + split; [|done]. intros _. exists [], (x :: text). split; [done|by apply matchhere_spec].
    + rewrite IH. split.
      * intros (s & t & -> & Hp). by exists (x :: s), t.
      * intros ([|y s] & t & Heq & Hp); simpl in Heq.
        { subst t. apply matchhere_spec in Hp. congruence. }
        injection Heq as -> ->. by exists s, t.
Qed.

(** A pattern that starts with [^] must match at the start of the line. *)
Definition re_start (re : list Z) : bool := match re with c :: _ => bool_decide (c = caret) | [] => false end.
Definition re_body (re : list Z) : list Z := if re_start re then tail re else re.

(** C36. match decides whether a line contains a string that the pattern
    describes: [^] ties it to the start of the line, [$] to its end, [.] is any
    character and [c*] any number of [c]. *)
Theorem match_correct (re text : list Z) :
  match_ re text = true ↔
  ∃ a s b, text = a ++ s ++ b ∧ denotes (re_items (re_body re)) s ∧
    (re_start re = true → a = []) ∧ (re_end (re_body re) = true → b = []).
Proof.
  transitivity (if re_start re then prefix_matches (re_items (re_body re)) (re_end (re_body re)) text
                else ∃ a t, text = a ++ t ∧ prefix_matches (re_items (re_body re)) (re_end (re_body re)) t).
  - unfold match_, re_body, re_start. destruct re as [|c re]; [apply match_any_spec|].
    case_bool_decide; [apply matchhere_spec|apply match_any_spec].
  - destruct (re_start re).
    + split; [intros (s & b & -> & ? & ?); by exists [], s, b|]. intros (a & s & b & -> & ? & Ha & ?).
      rewrite Ha by done. by exists s, b.
    + split; [intros (a & t & -> & s & b & -> & ? & ?); by exists a, s, b|].
      intros (a & s & b & -> & ? & _ & ?). exists a, (s ++ b). split; [done|]. by exists s, b.
Qed.

(** ** grep *)

(** A line without its newline: no newline and no NUL in it. *)
Definition line_ok (l : list Z) : Prop := Forall (λ x, x ≠ 0 ∧ x ≠ newline) l.
Definition with_newline (l : list Z) : list Z := l ++ [newline].
Definition text_of (ls : list (list Z)) : list Z := concat (with_newline <$> ls).

Lemma text_of_cons l ls : text_of (l :: ls) = l ++ newline :: text_of ls.
Proof. unfold text_of, with_newline. simpl. by rewrite <-app_assoc. Qed.

Lemma strchr_line l s : line_ok l → strchr (l ++ newline :: s) newline = Some (length l).
Proof.
  induction l as [|x l IH]; intros Hl; simpl; [done|]. apply Forall_cons in Hl as [[? ?] Hl].
  rewrite !bool_decide_eq_false_2 by done. by rewrite IH.
Qed.

Lemma strchr_none p : line_ok p → strchr p newline = None.
Proof.
  induction p as [|x p IH]; intros Hl; simpl; [done|]. apply Forall_cons in Hl as [[? ?] Hl].
  rewrite !bool_decide_eq_false_2 by done. by rewrite IH.
Qed.

Lemma grep_lines_spec fuel pattern ls p :
  Forall line_ok ls → line_ok p → (length ls < fuel)%nat →
  grep_lines fuel pattern (text_of ls ++ p) = Some (text_of (filter (λ l, match_ pattern l = true) ls), p).
Proof.
  revert fuel; induction ls as [|l ls IH]; intros [|fuel] Hls Hp Hf; cbn [grep_lines]; simpl in Hf; try lia.
  - simpl. by rewrite strchr_none.
  - apply Forall_cons in Hls as [Hl Hls].
    rewrite text_of_cons, <-app_assoc. cbn [app]. rewrite strchr_line by done. replace (drop (S (length l)) _) with (text_of ls ++ p).
    2:{ rewrite drop_app_ge by lia. by replace (S (length l) - length l)%nat with 1%nat by lia. }
    rewrite IH by (done || lia). rewrite take_app_length. cbn [mbind option_bind]. f_equal. f_equal.
    rewrite filter_cons. unfold text_of. destruct (match_ pattern l); [rewrite decide_True by done|rewrite decide_False by done]; done.
Qed.

(** Where the end of the buffer cuts the text. *)
Lemma text_split buf more ls rest :
  Forall line_ok ls → line_ok rest → buf ++ more = text_of ls ++ rest →
  ∃ ls1 ls2 p, ls = ls1 ++ ls2 ∧ buf = text_of ls1 ++ p ∧ line_ok p ∧ p ++ more = text_of ls2 ++ rest.
Proof.
  revert buf; induction ls as [|l ls IH]; intros buf Hls Hr Heq.
  - exists [], [], buf. split_and!; try done. simpl in Heq. subst rest. unfold line_ok in *.
    by apply Forall_app in Hr as [? _].
  - apply Forall_cons in Hls as [Hl Hls].
    assert (text_of (l :: ls) ++ rest = with_newline l ++ text_of ls ++ rest) as Ht by (unfold text_of; simpl; by rewrite app_assoc).
    destruct (decide (length buf <= length l)%nat) as [Hle|Hgt].
    + exists [], (l :: ls), buf. split_and!; try done. rewrite Ht in Heq. unfold with_newline in Heq.
      rewrite <-app_assoc in Heq. assert (buf = take (length buf) l) as ->.
      { apply (f_equal (take (length buf))) in Heq. rewrite take_app_length, take_app_le in Heq by lia. done. }
      by apply Forall_take.
    + destruct (IH (drop (S (length l)) buf)) as (ls1 & ls2 & p & -> & Hb & Hp & Hm); [done|done| |].
      { apply (f_equal (drop (S (length l)))) in Heq. rewrite drop_app_le in Heq by lia. rewrite Heq, Ht.
        unfold with_newline. rewrite drop_app_ge by (rewrite length_app; simpl; lia).
        rewrite length_app. simpl. by replace (S (length l) - (length l + 1))%nat with 0%nat by lia. }
      exists (l :: ls1), ls2, p. split_and!; [done| |done|done].
      rewrite <-(take_drop (S (length l)) buf), Hb. apply (f_equal (take (S (length l)))) in Heq.
      rewrite take_app_le, Ht, take_app_le in Heq by (unfold with_newline; rewrite ?length_app; simpl; lia).
      rewrite Heq, take_ge by (unfold with_newline; rewrite length_app; simpl; lia).
      unfold text_of. simpl. by rewrite app_assoc.
Qed.

Lemma text_of_length ls : (length ls <= length (text_of ls))%nat.
Proof.
  induction ls as [|l ls IH]; [done|]. rewrite text_of_cons, length_app. simpl. lia.
Qed.

(** The buffer holds no more than the start of the first line. *)
Lemma partial_line buf input l t : line_ok buf → buf ++ input = l ++ newline :: t → (length buf <= length l)%nat.
Proof.
  intros Hb Heq. destruct (decide (length buf <= length l)%nat) as [|Hgt]; [done|exfalso].
  assert (buf !! length l = Some newline) as Hn.
  { rewrite <-(lookup_app_l buf input), Heq by lia. by apply list_lookup_middle. }
  apply (proj1 (Forall_lookup _ _) Hb) in Hn as [_ Hn]. done.
Qed.

Lemma grep_loop_spec fuel pattern buf short input ls rest :
  (∀ i, (0 < short i)%nat) → Forall line_ok ls → Forall (λ l, (S (length l) < grep_bufsize)%nat) ls →
  line_ok rest → line_ok buf → buf ++ input = text_of ls ++ rest → (length input < fuel)%nat →
  grep_loop fuel pattern buf short input = Some (text_of (filter (λ l, match_ pattern l = true) ls)).
Proof.
  revert buf short input ls; induction fuel as [|fuel IH]; intros buf short input ls Hs Hls Hlen Hr Hb Heq Hf; [lia|].
  cbn [grep_loop]. pose proof (Hs 0%nat) as Hs0. set (n := Nat.min _ _). case_bool_decide as Hn.
  - destruct ls as [|l ls]; [done|]. exfalso. apply Forall_cons in Hlen as [Hlen _].
    rewrite text_of_cons, <-app_assoc in Heq. cbn [app] in Heq. pose proof (partial_line _ _ _ _ Hb Heq).
    apply (f_equal length) in Heq. rewrite !length_app in Heq. simpl in Heq. unfold n, grep_bufsize in *. lia.
  - destruct (text_split (buf ++ take n input) (drop n input) ls rest) as (ls1 & ls2 & p & -> & Hb' & Hp & Hm); [done|done| |].
    { by rewrite <-app_assoc, take_drop. }
    apply Forall_app in Hls as [Hls1 Hls2]. apply Forall_app in Hlen as [_ Hlen2]. rewrite Hb'.
    rewrite grep_lines_spec; [|done|done|rewrite length_app; pose proof (text_of_length ls1); lia].
    cbn [mbind option_bind]. rewrite (IH p _ _ ls2); try done.
    + cbn. f_equal. unfold text_of. by rewrite filter_app, fmap_app, concat_app.
    + rewrite length_drop. unfold n. lia.
Qed.

(** C37. grep prints exactly the lines of its input that match the pattern, in
    order, however the input arrives: every read may return fewer bytes than asked
    for.  The lines fit in the buffer, the input has no NUL, and what follows the
    last newline is not looked at. *)
Theorem grep_correct (pattern : list Z) (short : nat → nat) (ls : list (list Z)) (rest : list Z) :
  (∀ i, (0 < short i)%nat) → Forall line_ok ls → Forall (λ l, (S (length l) < grep_bufsize)%nat) ls → line_ok rest →
  grep pattern short (text_of ls ++ rest) = Some (text_of (filter (λ l, match_ pattern l = true) ls)).
Proof. intros Hs Hls Hlen Hr. apply (grep_loop_spec _ _ [] _ _ ls rest); try done; [constructor|lia]. Qed.

Lemma grep_correct_witness :
  grep (str "a.*c$") (λ i, S (i mod 3)) (text_of [str "xabbc"; str "ac"; str "cab"] ++ str "abc") =
    Some (text_of [str "xabbc"; str "ac"]).
Proof.
  rewrite (grep_correct (str "a.*c$") (λ i, S (i mod 3)) [str "xabbc"; str "ac"; str "cab"] (str "abc")).
  - vm_compute. reflexivity.
  - intros i. lia.
  - apply (bool_decide_unpack _). vm_compute. exact I.
  - apply (bool_decide_unpack _). vm_compute. exact I.
  - apply (bool_decide_unpack _). vm_compute. exact I.
Defined.
