(* ===== verification/Umalloc.v ===== *)
(** * user/umalloc.c: the allocator of user programs

    Memory is kept as the headers in it: [u_mem] maps an address to the union
    header that is stored there.  [base_sym] is the address of the static [base];
    the heap starts above it and ends at the break [u_brk].  Whether the kernel
    has memory to raise the break is a parameter. *)
From S2P Require Import Prelude.
From S2P Require Import Params.
#[local] Open Scope Z_scope.

(** union header; the pointer 0 is null *)
Record hdr : Type := Hdr { h_ptr : Z; h_size : Z }.

Record ustate : Type := UState {
  u_mem : gmap Z hdr;
  u_freep : Z;
  u_brk : Z
}.

Class UserSyms := {
  base_sym : Z;
  sbrk_avail : Z → Z → bool   (* break, increment *)
}.

(** sizeof(Header) *)
Definition hsize : Z := 16.

Definition uget : M ustate ustate := λ s, Ok s s.
Definition uput (s : ustate) : M ustate unit := λ _, Ok tt s.

(** The pages below the break are mapped. *)
Definition mapped (s : ustate) (a : Z) : bool := bool_decide (a + hsize <= PGROUNDUP (u_brk s)).

(** Memory that was never written is zero. *)
Definition hdr_get (a : Z) : M ustate hdr :=
  s ← uget;
  if mapped s a then mret (default (Hdr 0 0) (u_mem s !! a)) else fault.

Definition hdr_set (a : Z) (h : hdr) : M ustate unit :=
  s ← uget;
  if mapped s a then uput (UState (<[a := h]> (u_mem s)) (u_freep s) (u_brk s)) else fault.

(** [a->s.size = n], [a->s.ptr = p] *)
Definition set_size (a n : Z) : M ustate unit := h ← hdr_get a; hdr_set a (Hdr (h_ptr h) n).
Definition set_ptr (a p : Z) : M ustate unit := h ← hdr_get a; hdr_set a (Hdr p (h_size h)).
Definition set_freep (p : Z) : M ustate unit := s ← uget; uput (UState (u_mem s) p (u_brk s)).

(** [a + n] for a [Header *a] *)
Definition padd (a n : Z) : Z := a + hsize * n.

Section umalloc.
Context `{UserSyms}.

(** sbrk of user/ulib.c: sys_sbrk(n, SBRK_EAGER) of the kernel, that is growproc *)
Definition sbrk (n : Z) : M ustate Z :=
  s ← uget;
  let addr := u_brk s in
  if bool_decide (0 < n) then
    if sbrk_avail addr n then uput (UState (u_mem s) (u_freep s) (addr + n));; mret addr else mret (-1)
  else
    (* uvmdealloc keeps the size if the new one is not smaller *)
    uput (UState (u_mem s) (u_freep s) (if bool_decide (u64 (addr + n) < addr) then u64 (addr + n) else addr));;
    mret addr.

(** [for(p = freep; !(bp > p && bp < p->s.ptr); p = p->s.ptr)] *)
Fixpoint free_find (fuel : nat) (bp p : Z) : M ustate Z :=
  match fuel with
  | O => stuck
  | S fuel' =>
      h ← hdr_get p;
      if bool_decide (p < bp ∧ bp < h_ptr h) then mret p else
      if bool_decide (h_ptr h <= p ∧ (p < bp ∨ bp < h_ptr h)) then mret p else
      free_find fuel' bp (h_ptr h)
  end.

(** Bound on the rounds around the free list: its nodes are distinct headers. *)
Definition ring_fuel : M ustate nat := s ← uget; mret (2 * size (u_mem s) + 2)%nat.

Definition free (ap : Z) : M ustate unit :=
  let bp := padd ap (-1) in
  s ← uget;
  fuel ← ring_fuel;
  p ← free_find fuel bp (u_freep s);
  hb ← hdr_get bp;
  hp ← hdr_get p;
  (if bool_decide (padd bp (h_size hb) = h_ptr hp) then
     hn ← hdr_get (h_ptr hp);
     set_size bp (u32 (h_size hb + h_size hn));;
     set_ptr bp (h_ptr hn)
   else set_ptr bp (h_ptr hp));;
  hp ← hdr_get p;
  hb ← hdr_get bp;
  (if bool_decide (padd p (h_size hp) = bp) then
     set_size p (u32 (h_size hp + h_size hb));;
     set_ptr p (h_ptr hb)
   else set_ptr p bp);;
  set_freep p.

Definition morecore (nu : Z) : M ustate Z :=
  let nu := if bool_decide (nu < 4096) then 4096 else nu in
  p ← sbrk (s32 (nu * hsize));
  if bool_decide (p = -1) then mret 0 else
  set_size p nu;;
  free (padd p 1);;
  s ← uget;
  mret (u_freep s).

(** [for(p = prevp->s.ptr; ; prevp = p, p = p->s.ptr)] *)
Fixpoint malloc_loop (fuel : nat) (nunits prevp p : Z) : M ustate Z :=
  match fuel with
  | O => stuck
  | S fuel' =>
      h ← hdr_get p;
      if bool_decide (nunits <= h_size h) then
        p' ← (if bool_decide (h_size h = nunits) then set_ptr prevp (h_ptr h);; mret p
              else
                let left := u32 (h_size h - nunits) in
                set_size p left;;
                set_size (padd p left) nunits;;
                mret (padd p left));
        set_freep prevp;;
        mret (padd p' 1)
      else
        s ← uget;
        if bool_decide (p = u_freep s) then
          q ← morecore nunits;
          if bool_decide (q = 0) then mret 0 else
          h ← hdr_get q;
          malloc_loop fuel' nunits q (h_ptr h)
        else malloc_loop fuel' nunits p (h_ptr h)
  end.

(** sizeof is 64 bits wide, so only the assignment to nunits truncates. *)
Definition malloc (nbytes : Z) : M ustate Z :=
  let nunits := u32 ((nbytes + hsize - 1) / hsize + 1) in
  s ← uget;
  prevp ← (if bool_decide (u_freep s = 0) then
             set_ptr base_sym base_sym;; set_freep base_sym;; set_size base_sym 0;; mret base_sym
           else mret (u_freep s));
  h ← hdr_get prevp;
  fuel ← ring_fuel;
  malloc_loop fuel nunits prevp (h_ptr h).
End umalloc.
