(* ===== verification/UmallocRun.v ===== *)
(** * Runs of free and malloc on the ring of free blocks *)
From Stdlib Require Import Sorting.Sorted.
From S2P Require Import Prelude.
From S2P Require Import Params.
From S2P Require Import Wp.
From S2P Require Import Umalloc.
#[local] Open Scope Z_scope.

(** ** The free list of the allocator

    [chain m a l b]: following the pointers from [a] one meets the headers [l],
    addresses with sizes, and arrives at [b].  The free list is a ring through
    [base] in the order of addresses. *)

Abbreviation block := (Z * Z)%type.

Fixpoint chain (m : gmap Z hdr) (a : Z) (l : list block) (b : Z) : Prop :=
  match l with
  | [] => a = b
  | (x, s) :: l' => x = a ∧ ∃ n, m !! a = Some (Hdr n s) ∧ chain m n l' b
  end.

Lemma chain_app m a l1 l2 b : chain m a (l1 ++ l2) b ↔ ∃ c, chain m a l1 c ∧ chain m c l2 b.
Proof.
  revert a; induction l1 as [|[x s] l1 IH]; intros a; simpl; [naive_solver|].
  split.
  - intros (-> & n & Hn & (c & ? & ?)%IH). exists c. split; [|done]. split; [done|]. by exists n.
  - intros (c & (-> & n & Hn & ?) & ?). split; [done|]. exists n. split; [done|]. apply IH. by exists c.
Qed.

Lemma chain_insert m a l b x h : x ∉ l.*1 → chain m a l b → chain (<[x := h]> m) a l b.
Proof.
  revert a; induction l as [|[y s] l IH]; intros a Hx; simpl; [done|].
  apply not_elem_of_cons in Hx as [Hx Hl]. intros (-> & n & Hn & Hc). split; [done|]. exists n.
  simpl in Hx. rewrite lookup_insert_ne by done. auto.
Qed.

Lemma chain_lookup m a l b x s : chain m a l b → (x, s) ∈ l → ∃ n, m !! x = Some (Hdr n s).
Proof.
  revert a; induction l as [|[y t] l IH]; intros a Hc Hx; [by apply elem_of_nil in Hx|].
  destruct Hc as (-> & n & Hn & Hc). apply elem_of_cons in Hx as [[= -> ->]|Hx]; eauto.
Qed.

(** The ring is no longer than the number of headers. *)
Lemma chain_length m a l b : chain m a l b → NoDup l.*1 → (length l <= size m)%nat.
Proof.
  intros Hc Hnd. rewrite <-size_dom, <-(length_fmap fst l), <-(size_list_to_set (C := gset Z)) by done.
  apply subseteq_size. intros x Hx. apply elem_of_list_to_set, list_elem_of_fmap in Hx as ([y s] & -> & Hx).
  destruct (chain_lookup _ _ _ _ _ _ Hc Hx) as [n Hn]. apply elem_of_dom. eauto.
Qed.

(** ** Blocks in the order of addresses, with a gap between any two *)
Definition fin (b : block) : Z := padd b.1 b.2.

Fixpoint sorted (lo : Z) (l : list block) (hi : Z) : Prop :=
  match l with
  | [] => True
  | b :: l' => lo <= b.1 ∧ 1 <= b.2 ∧ fin b <= hi ∧ sorted (fin b + 1) l' hi
  end.

Definition disj (b c : block) : Prop := fin b <= c.1 ∨ fin c <= b.1.

Lemma disj_sym b c : disj b c → disj c b.
Proof. unfold disj. tauto. Qed.

Lemma sorted_lo lo lo' l hi : lo' <= lo → sorted lo l hi → sorted lo' l hi.
Proof. destruct l; simpl; [done|]. intros ? (? & ?). split; [lia|done]. Qed.

Lemma sorted_hi lo l hi hi' : hi <= hi' → sorted lo l hi → sorted lo l hi'.
Proof.
  revert lo; induction l as [|b l IH]; intros lo Hh; simpl; [done|]. intros (? & ? & ? & ?). split_and!; [done|done|lia|eauto].
Qed.

Lemma fin_lt b : 1 <= b.2 → b.1 + hsize <= fin b.
Proof. unfold fin, padd, hsize. lia. Qed.

Lemma sorted_elem lo l hi b : sorted lo l hi → b ∈ l → lo <= b.1 ∧ 1 <= b.2 ∧ fin b <= hi.
Proof.
  revert lo; induction l as [|c l IH]; intros lo Hs Hb; [by apply elem_of_nil in Hb|].
  destruct Hs as (? & ? & ? & Hs). apply elem_of_cons in Hb as [->|Hb]; [done|].
  destruct (IH _ Hs Hb) as (? & ? & ?). pose proof (fin_lt c). unfold hsize in *. split_and!; lia.
Qed.

Lemma sorted_NoDup lo l hi : sorted lo l hi → NoDup l.*1.
Proof.
  revert lo; induction l as [|c l IH]; intros lo; simpl; [constructor|]. intros (? & ? & ? & Hs).
  constructor; [|by eapply IH]. intros ([x s] & Hx & Hin)%list_elem_of_fmap.
  pose proof (sorted_elem _ _ _ _ Hs Hin) as (? & _). simpl in *. pose proof (fin_lt c). unfold hsize in *. lia.
Qed.

Lemma sorted_app lo l1 l2 hi :
  sorted lo (l1 ++ l2) hi ↔ sorted lo l1 hi ∧ sorted (match last l1 with Some b => fin b + 1 | None => lo end) l2 hi.
Proof.
  revert lo; induction l1 as [|b l1 IH]; intros lo; [simpl; tauto|].
  cbn [app sorted]. rewrite IH. destruct l1 as [|c l1]; [simpl; tauto|].
  change (last (b :: c :: l1)) with (last (c :: l1)). destruct (last (c :: l1)) eqn:E; [tauto|].
  by apply last_None in E.
Qed.

(** ** Putting a block into the list

    It is joined with the block after it and with the one before it where they
    touch. *)
Definition join_next (b : block) (l : list block) : list block :=
  match l with
  | c :: l' => if bool_decide (fin b = c.1) then (b.1, b.2 + c.2) :: l' else b :: l
  | [] => [b]
  end.

Definition insert_block (l1 : list block) (b : block) (l2 : list block) : list block :=
  match last l1 with
  | Some p => if bool_decide (fin p = b.1) then removelast l1 ++ join_next (p.1, p.2 + b.2) l2 else l1 ++ join_next b l2
  | None => join_next b l2
  end.

Lemma fin_join b c : fin b = c.1 → fin (b.1, b.2 + c.2) = fin c.
Proof. unfold fin, padd. simpl. lia. Qed.

Lemma sorted_join lo b l hi :
  lo <= b.1 → 1 <= b.2 → fin b <= hi → sorted (fin b) l hi → sorted lo (join_next b l) hi.
Proof.
  intros Hlo Hb Hf Hs. destruct l as [|c l]; [done|]. destruct Hs as (Hc & Hc2 & Hcf & Hs). cbn [join_next].
  case_bool_decide as E; cbn [sorted].
  - rewrite (fin_join _ _ E). simpl. split_and!; [done|lia|done|done].
  - split_and!; [done|done|done|lia|done|done|done].
Qed.

Lemma insert_block_snoc l1 p b l2 :
  insert_block (l1 ++ [p]) b l2 =
    l1 ++ if bool_decide (fin p = b.1) then join_next (p.1, p.2 + b.2) l2 else p :: join_next b l2.
Proof.
  unfold insert_block. rewrite last_snoc. case_bool_decide; [by rewrite removelast_last|by rewrite <-app_assoc].
Qed.

(** The block fits between the two parts of the list. *)
Definition fits (lo : Z) (l1 : list block) (b : block) (l2 : list block) (hi : Z) : Prop :=
  sorted lo (l1 ++ l2) hi ∧ lo <= b.1 ∧ 1 <= b.2 ∧ fin b <= hi ∧
  (∀ c, c ∈ l1 → fin c <= b.1) ∧ (∀ c, c ∈ l2 → fin b <= c.1).

Lemma sorted_weaken lo lo' l hi : sorted lo l hi → (∀ c, c ∈ l → lo' <= c.1) → sorted lo' l hi.
Proof.
  destruct l as [|c l]; [done|]. intros (_ & ?) Hc. split; [|done]. apply Hc. by constructor.
Qed.

Lemma insert_sorted lo l1 b l2 hi : fits lo l1 b l2 hi → sorted lo (insert_block l1 b l2) hi.
Proof.
  intros (Hs & Hlo & Hb & Hf & H1 & H2).
  destruct l1 as [|p l1 _] using rev_ind.
  { apply sorted_join; [done..|]. by apply (sorted_weaken lo). }
  rewrite insert_block_snoc. rewrite <-app_assoc in Hs. apply sorted_app in Hs as [Hs1 Hs]. cbn [app sorted] in Hs.
  destruct Hs as (Hp & Hp2 & Hpf & Hs). assert (fin p <= b.1) as Hpb by (apply H1, elem_of_app; right; by constructor).
  apply sorted_app. split; [done|]. case_bool_decide as E.
  - apply sorted_join; simpl; rewrite ?(fin_join _ _ E); [done|lia|done|by apply (sorted_weaken (fin p + 1))].
  - split_and!; [done..|]. apply sorted_join; [lia|done|done|by apply (sorted_weaken (fin p + 1))].
Qed.

Lemma disj_join c b n : 1 <= c.2 → fin b = n.1 → disj c b → disj c n → disj c (b.1, b.2 + n.2).
Proof.
  intros Hc E Hb Hn. unfold disj in *. rewrite (fin_join _ _ E). pose proof (fin_lt c Hc). unfold hsize in *. simpl. lia.
Qed.

Lemma disj_join_next c b l : 1 <= c.2 → disj c b → Forall (disj c) l → Forall (disj c) (join_next b l).
Proof.
  intros Hc Hb Hl. destruct l as [|n l]; [by constructor|]. apply Forall_cons in Hl as [Hn Hl]. cbn [join_next].
  case_bool_decide as E; constructor; try done; [by apply (disj_join c b n)|by constructor].
Qed.

Lemma disj_insert c l1 b l2 :
  1 <= c.2 → disj c b → Forall (disj c) (l1 ++ l2) → Forall (disj c) (insert_block l1 b l2).
Proof.
  intros Hc Hb [H1 H2]%Forall_app. destruct l1 as [|p l1 _] using rev_ind; [by apply disj_join_next|].
  rewrite insert_block_snoc. apply Forall_app in H1 as [H1 Hp]. rewrite Forall_singleton in Hp. apply Forall_app. split; [done|].
  case_bool_decide as E; [apply disj_join_next; [done|by apply (disj_join c p b)|done]|]. constructor; [done|by apply disj_join_next].
Qed.

(** ** Taking a block out of the list *)
Lemma sorted_remove lo l1 c l2 hi : sorted lo (l1 ++ c :: l2) hi → sorted lo (l1 ++ l2) hi.
Proof.
  rewrite !sorted_app. intros [H1 (Hc & Hc2 & _ & H2)]. split; [done|]. eapply sorted_lo; [|exact H2].
  pose proof (fin_lt c Hc2). unfold hsize in *. lia.
Qed.

Lemma sorted_shrink lo l1 c k l2 hi :
  1 <= k <= c.2 → sorted lo (l1 ++ c :: l2) hi → sorted lo (l1 ++ (c.1, k) :: l2) hi.
Proof.
  intros Hk. rewrite !sorted_app. intros [H1 (Hc & Hc2 & Hf & H2)]. split; [done|].
  assert (fin (c.1, k) <= fin c) by (unfold fin, padd, hsize; simpl; lia).
  cbn [sorted]. split_and!; [done|simpl; lia|lia|]. eapply sorted_lo; [|exact H2]. lia.
Qed.

Lemma sorted_disj lo l1 c l2 hi : sorted lo (l1 ++ c :: l2) hi → Forall (disj c) (l1 ++ l2).
Proof.
  intros Hs. apply Forall_app. split; apply Forall_forall; intros x Hx.
  - apply list_elem_of_split in Hx as (a & b & ->). rewrite <-app_assoc in Hs. apply sorted_app in Hs as [_ Hs].
    cbn [app sorted] in Hs. destruct Hs as (_ & _ & _ & Hs).
    assert (c ∈ b ++ c :: l2) as Hc by (apply elem_of_app; right; constructor).
    destruct (sorted_elem _ _ _ _ Hs Hc) as [? _]. right. lia.
  - apply sorted_app in Hs as [_ (_ & _ & _ & Hs)]. destruct (sorted_elem _ _ _ _ Hs Hx) as [? _]. left. lia.
Qed.

(** A part of a block. *)
Definition inside (b c : block) : Prop := c.1 <= b.1 ∧ fin b <= fin c.

Lemma disj_inside x b c : inside b c → disj x c → disj x b.
Proof. unfold inside, disj. lia. Qed.

Lemma Forall_disj_inside b c l : inside b c → Forall (disj c) l → Forall (disj b) l.
Proof.
  intros Hi Hl. eapply Forall_impl; [exact Hl|]. intros x Hx. apply disj_sym, (disj_inside _ _ c), disj_sym; done.
Qed.

Lemma length_insert_block l1 b l2 : (length (insert_block l1 b l2) <= S (length (l1 ++ l2)))%nat.
Proof.
  assert (∀ b l, (length (join_next b l) <= S (length l))%nat) as Hj.
  { intros c l. destruct l as [|d l]; simpl; [lia|]. case_bool_decide; simpl; lia. }
  destruct l1 as [|p l1 _] using rev_ind; [apply Hj|]. rewrite insert_block_snoc, !length_app. simpl.
  case_bool_decide; [pose proof (Hj (p.1, p.2 + b.2) l2)|pose proof (Hj b l2)]; simpl; lia.
Qed.

(** Largest break for which the 32-bit sizes cannot wrap around. *)
Definition max_brk : Z := 2 ^ 36.

Lemma mapped_below (s : ustate) a : 0 <= u_brk s <= max_brk → a + hsize <= u_brk s → mapped s a = true.
Proof.
  unfold mapped, max_brk. intros Hb Ha. apply bool_decide_eq_true. rewrite PGROUNDUP_spec by (unfold PGSIZE; lia).
  unfold PGSIZE. Z.to_euclidean_division_equations. lia.
Qed.

Section rules.
Implicit Types s : ustate.

Lemma wp_uget (Q : ustate → ustate → Prop) s : Q s s → wp uget Q s.
Proof. done. Qed.

Lemma wp_uput s' (Q : unit → ustate → Prop) s : Q tt s' → wp (uput s') Q s.
Proof. done. Qed.

Lemma wp_hdr_get a (Q : hdr → ustate → Prop) s :
  mapped s a = true → Q (default (Hdr 0 0) (u_mem s !! a)) s → wp (hdr_get a) Q s.
Proof. intros Ha HQ. apply wp_bind, wp_uget. rewrite Ha. by apply wp_ret. Qed.

Lemma wp_set_size a n (Q : unit → ustate → Prop) s :
  mapped s a = true →
  Q tt (UState (<[a := Hdr (h_ptr (default (Hdr 0 0) (u_mem s !! a))) n]> (u_mem s)) (u_freep s) (u_brk s)) →
  wp (set_size a n) Q s.
Proof. intros Ha HQ. apply wp_bind, wp_hdr_get; [done|]. apply wp_bind, wp_uget. rewrite Ha. exact HQ. Qed.

Lemma wp_set_ptr a p (Q : unit → ustate → Prop) s :
  mapped s a = true →
  Q tt (UState (<[a := Hdr p (h_size (default (Hdr 0 0) (u_mem s !! a)))]> (u_mem s)) (u_freep s) (u_brk s)) →
  wp (set_ptr a p) Q s.
Proof. intros Ha HQ. apply wp_bind, wp_hdr_get; [done|]. apply wp_bind, wp_uget. rewrite Ha. exact HQ. Qed.

Lemma wp_set_freep p (Q : unit → ustate → Prop) s : Q tt (UState (u_mem s) p (u_brk s)) → wp (set_freep p) Q s.
Proof. done. Qed.
End rules.

(** ** The search of free *)

(** free moves on from [x], whose successor is [y]. *)
Definition skips (bp x y : Z) : Prop := ¬ (x < bp ∧ bp < y) ∧ ¬ (y <= x ∧ (x < bp ∨ bp < y)).

Fixpoint skip_all (bp : Z) (l : list Z) (b : Z) : Prop :=
  match l with
  | [] => True
  | x :: l' => skips bp x (default b (head l')) ∧ skip_all bp l' b
  end.

Lemma skip_low bp l p : StronglySorted Z.lt (l ++ [p]) → p < bp → skip_all bp l p.
Proof.
  induction l as [|x l IH]; intros Hs Hp; [done|]. cbn [app] in Hs. apply StronglySorted_inv in Hs as [Hs Hx]. split; [|by apply IH].
  assert (x < default p (head l) ∧ default p (head l) <= p) as [? ?].
  { destruct l as [|y l]; simpl in *; [apply Forall_cons in Hx as [? _]; lia|].
    apply Forall_cons in Hx as [? _]. apply StronglySorted_inv in Hs as [_ Hy]. apply Forall_app in Hy as [_ Hy].
    apply Forall_cons in Hy as [? _]. lia. }
  unfold skips. lia.
Qed.

Lemma skip_high bp l b : StronglySorted Z.lt l → Forall (λ x, bp < x) l → b < bp → skip_all bp l b.
Proof.
  induction l as [|x l IH]; intros Hs Hl Hb; [done|]. apply StronglySorted_inv in Hs as [Hs Hx].
  apply Forall_cons in Hl as [Hlx Hl]. split; [|by apply IH].
  destruct l as [|y l]; simpl; unfold skips; [lia|]. apply Forall_cons in Hx as [? _]. lia.
Qed.

Lemma chain_head m a l b : chain m a l b → a = default b (head l.*1).
Proof. destruct l as [|[x s] l]; simpl; [done|]. by intros (-> & _). Qed.

Lemma wp_free_walk fuel bp a l b (Q : Z → ustate → Prop) s :
  chain (u_mem s) a l b → skip_all bp l.*1 b → Forall (λ x, mapped s x = true) l.*1 →
  wp (free_find fuel bp b) Q s → wp (free_find (length l + fuel) bp a) Q s.
Proof.
  revert a; induction l as [|[x sz] l IH]; intros a Hc Hs Hm HQ; [by rewrite Hc|].
  destruct Hc as (-> & n & Hn & Hc). destruct Hs as [Hsk Hs].
  change (skips bp a (default b (head l.*1))) in Hsk. rewrite <-(chain_head _ _ _ _ Hc) in Hsk. destruct Hsk as [H1 H2].
  apply Forall_cons in Hm as [Hx Hm].
  cbn [length Nat.add free_find]. apply wp_bind, wp_hdr_get; [done|]. rewrite Hn. cbn [default h_ptr].
  rewrite !bool_decide_eq_false_2 by done. by apply IH.
Qed.

(** The free list with a node [p] in it singled out. *)
Record ring_at `{UserSyms} (s : ustate) (l1 : list block) (p : block) (l2 : list block) : Prop := {
  rg_chain : chain (u_mem s) base_sym (l1 ++ p :: l2) base_sym;
  rg_sorted : StronglySorted Z.lt (l1 ++ p :: l2).*1;
  rg_mapped : Forall (λ x, mapped s x = true) (l1 ++ p :: l2).*1;
  rg_freep : u_freep s ∈ (l1 ++ p :: l2).*1
}.

Lemma StronglySorted_app_inv (l1 l2 : list Z) :
  StronglySorted Z.lt (l1 ++ l2) →
  StronglySorted Z.lt l1 ∧ StronglySorted Z.lt l2 ∧ ∀ x y, x ∈ l1 → y ∈ l2 → x < y.
Proof.
  induction l1 as [|a l1 IH]; cbn [app].
  { intros Hs. split_and!; [constructor|done|]. by intros x y Hx%elem_of_nil. }
  intros [Hs Ha]%StronglySorted_inv. destruct (IH Hs) as (H1 & H2 & H12). rewrite Forall_app in Ha. destruct Ha as [Ha1 Ha2].
  split_and!; [by constructor|done|]. intros x y [->|Hx]%elem_of_cons Hy; [|by apply H12].
  rewrite Forall_forall in Ha2. by apply Ha2.
Qed.

Section find.
Context `{UserSyms}.

Lemma ring_parts s l1 p l2 :
  ring_at s l1 p l2 →
  ∃ n, chain (u_mem s) base_sym l1 p.1 ∧ u_mem s !! p.1 = Some (Hdr n p.2) ∧ chain (u_mem s) n l2 base_sym.
Proof.
  intros [Hc _ _ _]. apply chain_app in Hc as (c & H1 & H2). destruct p as [a sz]. destruct H2 as (-> & n & Hn & H2).
  by exists n.
Qed.

Lemma ring_base_le s l1 p l2 : ring_at s l1 p l2 → base_sym <= p.1.
Proof.
  intros [Hc Hs _ _]. destruct l1 as [|[x sz] l1]; cbn [app] in *.
  - destruct p. destruct Hc as [-> _]. done.
  - destruct Hc as [-> _]. rewrite fmap_cons in Hs. apply StronglySorted_inv in Hs as [_ Hf]. simpl in Hf.
    rewrite fmap_app, Forall_app, fmap_cons in Hf. destruct Hf as [_ Hf]. apply Forall_cons in Hf as [? _]. lia.
Qed.

(** The search stops at the node before [bp]. *)
Lemma wp_free_stop fuel bp s l1 p l2 (Q : Z → ustate → Prop) :
  ring_at s l1 p l2 → p.1 < bp → Forall (λ x, bp < x) l2.*1 → Q p.1 s → wp (free_find (S fuel) bp p.1) Q s.
Proof.
  intros Hr Hp Hl HQ. destruct (ring_parts _ _ _ _ Hr) as (n & _ & Hn & Hc). pose proof (ring_base_le _ _ _ _ Hr).
  cbn [free_find]. apply wp_bind, wp_hdr_get.
  { destruct Hr as [_ _ Hm _]. rewrite fmap_app, fmap_cons in Hm. rewrite Forall_app, Forall_cons in Hm. tauto. }
  rewrite Hn. cbn [default from_option id h_ptr].
  pose proof (chain_head _ _ _ _ Hc) as Hh. destruct l2 as [|[y sy] l2]; simpl in Hh; subst n.
  - rewrite bool_decide_eq_false_2 by lia. rewrite bool_decide_eq_true_2 by lia. by apply wp_ret.
  - rewrite fmap_cons in Hl. apply Forall_cons in Hl as [? _]. simpl in *.
    rewrite bool_decide_eq_true_2 by lia. by apply wp_ret.
Qed.

Lemma wp_free_find fuel bp s l1 p l2 (Q : Z → ustate → Prop) :
  ring_at s l1 p l2 → p.1 < bp → Forall (λ x, bp < x) l2.*1 → (length (l1 ++ p :: l2) < fuel)%nat →
  Q p.1 s → wp (free_find fuel bp (u_freep s)) Q s.
Proof.
  intros Hr Hp Hl Hf HQ. pose proof (ring_base_le _ _ _ _ Hr) as Hb. destruct (ring_parts _ _ _ _ Hr) as (n & Hc1 & Hn & Hc2).
  pose proof Hr as [Hc Hs Hm Hfp]. rewrite length_app in Hf. cbn [length] in Hf.
  rewrite fmap_app, fmap_cons in Hs, Hm, Hfp. pose proof (StronglySorted_app_inv _ _ Hs) as (Hs1 & Hs2 & _).
  rewrite Forall_app, Forall_cons in Hm. destruct Hm as (Hm1 & _ & Hm2).
  assert (∀ fuel a c, chain (u_mem s) a c p.1 → (∃ d, l1 = d ++ c) → (length c < fuel)%nat → wp (free_find fuel bp a) Q s) as Hlow.
  { intros fuel' a c Hca [d ->] Hfu. replace fuel' with (length c + S (fuel' - length c - 1))%nat by lia.
    rewrite fmap_app in Hs1, Hs, Hm1. rewrite Forall_app in Hm1. destruct Hm1 as [_ Hmc].
    apply (wp_free_walk _ _ _ _ p.1); [done| |done|by eapply wp_free_stop].
    apply skip_low; [|done]. rewrite <-app_assoc in Hs. apply StronglySorted_app_inv in Hs as (_ & Hs & _).
    rewrite cons_middle, app_assoc in Hs. by apply StronglySorted_app_inv in Hs as (? & _). }
  apply elem_of_app in Hfp as [Hfp|Hfp]; [|apply elem_of_cons in Hfp as [->|Hfp]].
  - apply list_elem_of_fmap in Hfp as ([f sf] & Hff & (d & c & ->)%list_elem_of_split). simpl in Hff.
    apply chain_app in Hc1 as (c0 & _ & Hc1). pose proof Hc1 as [-> _]. rewrite Hff.
    eapply Hlow; [exact Hc1|by exists d|]. rewrite length_app in Hf. lia.
  - eapply (Hlow _ _ []); [done|by exists l1; rewrite app_nil_r|simpl; lia].
  - apply list_elem_of_fmap in Hfp as ([f sf] & Hff & (d & c & ->)%list_elem_of_split). simpl in Hff.
    apply chain_app in Hc2 as (c0 & _ & Hc2). pose proof Hc2 as [-> _]. rewrite Hff. rewrite length_app in Hf. cbn [length] in Hf.
    replace fuel with (length ((c0, sf) :: c) + (fuel - length ((c0, sf) :: c)))%nat by (simpl; lia).
    rewrite fmap_app in Hs2, Hm2, Hl. rewrite Forall_app in Hm2, Hl. destruct Hm2 as [_ Hm2], Hl as [_ Hl].
    apply (wp_free_walk _ _ _ _ base_sym); [done| |done|].
    + apply skip_high; [|done|lia]. by apply (StronglySorted_app_inv (p.1 :: d.*1)) in Hs2 as (_ & ? & _).
    + eapply Hlow; [exact Hc1|by exists []|]. simpl. lia.
Qed.

(** What free stores for the block at [bp] and its neighbours. *)
Definition joined (p b : block) (l : list block) : list block :=
  if bool_decide (fin p = b.1) then join_next (p.1, p.2 + b.2) l else p :: join_next b l.

Lemma joined_spec p b l :
  ∃ b' l', join_next b l = b' :: l' ∧ b'.1 = b.1 ∧
    joined p b l = if bool_decide (fin p = b.1) then (p.1, p.2 + b'.2) :: l' else p :: b' :: l'.
Proof.
  unfold joined. destruct l as [|c l]; cbn [join_next].
  - exists b, []. by case_bool_decide.
  - destruct (decide (fin b = c.1)) as [E|E].
    + exists (b.1, b.2 + c.2), l. rewrite bool_decide_eq_true_2 by done. split_and!; [done|done|].
      case_bool_decide as Ep; [|done]. rewrite bool_decide_eq_true_2; [simpl; by rewrite Z.add_assoc|].
      by rewrite (fin_join _ _ Ep).
    + exists b, (c :: l). rewrite bool_decide_eq_false_2 by done. split_and!; [done|done|].
      case_bool_decide as Ep; [|done]. rewrite bool_decide_eq_false_2; [done|]. by rewrite (fin_join _ _ Ep).
Qed.

(** Joining [bp] with the block after it. *)
Lemma wp_join_next (b : block) g n l (Q : unit → ustate → Prop) s :
  u_mem s !! b.1 = Some (Hdr g b.2) → mapped s b.1 = true → chain (u_mem s) n l base_sym →
  Forall (λ x, mapped s x = true) l.*1 → base_sym < b.1 → 0 <= b.2 → Forall (λ c, 0 <= c.2 ∧ b.2 + c.2 < 2 ^ 32) l →
  (∀ b' l' n', join_next b l = b' :: l' → chain (u_mem s) n' l' base_sym → b'.1 = b.1 →
     Q tt (UState (<[b.1 := Hdr n' b'.2]> (u_mem s)) (u_freep s) (u_brk s))) →
  wp (if bool_decide (padd b.1 b.2 = n) then
        hn ← hdr_get n; set_size b.1 (u32 (b.2 + h_size hn));; set_ptr b.1 (h_ptr hn)
      else set_ptr b.1 n) Q s.
Proof.
  intros Hb Hm Hc Hl Hbase Hb2 Hsz HQ. change (padd b.1 b.2) with (fin b).
  destruct l as [|[c sc] l]; cbn [join_next] in HQ.
  - simpl in Hc. subst n. rewrite bool_decide_eq_false_2.
    2:{ pose proof (Z.mul_nonneg_nonneg hsize b.2 ltac:(done) Hb2). unfold fin, padd. lia. }
    apply wp_set_ptr; [done|]. rewrite Hb. by apply (HQ b []).
  - pose proof Hc as (<- & n2 & Hn & Hc'). apply Forall_cons in Hsz as [[? ?] _]. simpl in *.
    case_bool_decide as E.
    + apply Forall_cons in Hl as [Hmc _]. apply wp_bind, wp_hdr_get; [done|]. rewrite Hn. cbn.
      apply wp_bind, wp_set_size; [done|]. rewrite uN_small by lia.
      apply wp_set_ptr; [done|]. cbn. rewrite lookup_insert_eq, insert_insert_eq. cbn. by apply (HQ (b.1, b.2 + sc) l n2).
    + apply wp_set_ptr; [done|]. rewrite Hb. cbn. by apply (HQ b ((c, sc) :: l) c).
Qed.

Lemma StronglySorted_NoDup (l : list Z) : StronglySorted Z.lt l → NoDup l.
Proof.
  induction l as [|x l IH]; [constructor|]. intros [Hs Hx]%StronglySorted_inv. constructor; [|by apply IH].
  intros Hin. rewrite Forall_forall in Hx. specialize (Hx x Hin). lia.
Qed.

Lemma ring_length s l1 p l2 : ring_at s l1 p l2 → (length (l1 ++ p :: l2) <= size (u_mem s))%nat.
Proof. intros [Hc Hs _ _]. eapply chain_length; [exact Hc|by apply StronglySorted_NoDup]. Qed.

(** Joining with the block before: the ring afterwards. *)
Lemma ring_joined m l1 (p b : block) l2 b' l' n' :
  chain m base_sym l1 p.1 → StronglySorted Z.lt (l1 ++ p :: l2).*1 → p.1 < b.1 → Forall (λ x, b.1 < x) l2.*1 →
  join_next b l2 = b' :: l' → b'.1 = b.1 → chain m n' l' base_sym →
  let m1 := <[b.1 := Hdr n' b'.2]> m in
  chain (if bool_decide (fin p = b.1) then <[p.1 := Hdr n' (p.2 + b'.2)]> m1 else <[p.1 := Hdr b.1 p.2]> m1)
    base_sym (l1 ++ joined p b l2) base_sym.
Proof.
  intros Hc1 Hs Hp Hl Hj Hb' Hc2 m1. rewrite fmap_app, fmap_cons in Hs.
  apply StronglySorted_app_inv in Hs as (_ & Hs2 & H12). apply StronglySorted_inv in Hs2 as [Hs2 Hp2].
  assert (∀ x, x ∈ l1.*1 → x < p.1) as Hlt by (intros x Hx; apply H12; [done|constructor]).
  assert (∀ x, x ∈ l'.*1 → b.1 < x) as Hgt.
  { intros x Hx. rewrite Forall_forall in Hl. apply Hl. destruct l2 as [|c l2]; cbn [join_next] in Hj.
    - injection Hj as <- <-. by apply elem_of_nil in Hx.
    - case_bool_decide; injection Hj as <- <-; [rewrite fmap_cons; by constructor|done]. }
  assert (∀ h, chain (<[p.1 := h]> m1) base_sym l1 p.1) as Hc1'.
  { intros h. apply chain_insert; [intros Hx; specialize (Hlt _ Hx); lia|].
    apply chain_insert; [intros Hx; specialize (Hlt _ Hx); lia|done]. }
  assert (∀ h, chain (<[p.1 := h]> m1) n' l' base_sym) as Hc2'.
  { intros h. apply chain_insert; [intros Hx; specialize (Hgt _ Hx); lia|].
    apply chain_insert; [intros Hx; specialize (Hgt _ Hx); lia|done]. }
  destruct (joined_spec p b l2) as (b2 & l2' & Hj2 & _ & ->). rewrite Hj in Hj2. injection Hj2 as <- <-.
  apply chain_app. exists p.1. destruct p as [a sz], b' as [ab sb]. simpl in *. subst ab.
  case_bool_decide; (split; [apply Hc1'|]); (split; [done|]).
  - exists n'. split; [apply lookup_insert_eq|apply Hc2'].
  - exists b.1. split; [apply lookup_insert_eq|]. split; [done|]. exists n'. split; [|apply Hc2'].
    rewrite lookup_insert_ne by lia. apply lookup_insert_eq.
Qed.

(** Sizes that can be added up in 32 bits. *)
Definition sizes_ok (p b : block) (l : list block) : Prop :=
  0 <= p.2 ∧ 0 <= b.2 ∧ p.2 + b.2 < 2 ^ 32 ∧ Forall (λ c, 0 <= c.2 ∧ p.2 + b.2 + c.2 < 2 ^ 32) l.

Lemma wp_free (b : block) g s l1 p l2 (Q : unit → ustate → Prop) :
  ring_at s l1 p l2 → u_mem s !! b.1 = Some (Hdr g b.2) → mapped s b.1 = true →
  p.1 < b.1 → Forall (λ x, b.1 < x) l2.*1 → sizes_ok p b l2 →
  (∀ m', chain m' base_sym (l1 ++ joined p b l2) base_sym →
     (∀ x, x ≠ p.1 → x ≠ b.1 → m' !! x = u_mem s !! x) → Q tt (UState m' p.1 (u_brk s))) →
  wp (free (padd b.1 1)) Q s.
Proof.
  intros Hr Hb Hm Hp Hl (Hp0 & Hb0 & Hpb & Hsz) HQ. destruct (ring_parts _ _ _ _ Hr) as (n & Hc1 & Hn & Hc2).
  pose proof (ring_length _ _ _ _ Hr). pose proof (ring_base_le _ _ _ _ Hr). pose proof Hr as [_ Hs Hmm _].
  rewrite fmap_app, fmap_cons, Forall_app, Forall_cons in Hmm. destruct Hmm as (_ & Hmp & Hm2).
  unfold free. replace (padd (padd b.1 1) (-1)) with b.1 by (unfold padd, hsize; lia).
  apply wp_bind, wp_uget. apply wp_bind, wp_bind, wp_uget, wp_ret.
  apply wp_bind, (wp_free_find _ _ s l1 p l2); [done|done|done|lia|].
  apply wp_bind, wp_hdr_get; [done|]. rewrite Hb. apply wp_bind, wp_hdr_get; [done|]. rewrite Hn. cbn [default from_option id h_ptr h_size].
  apply wp_bind, (wp_join_next b g n l2); [done|done|done|done|lia|done| |].
  { eapply Forall_impl; [exact Hsz|]. intros c ?. simpl in *. lia. }
  intros b' l' n' Hj Hc' Hb'.
  assert (0 <= b'.2 ∧ p.2 + b'.2 < 2 ^ 32) as [? ?].
  { destruct l2 as [|c l2]; cbn [join_next] in Hj; [injection Hj as <- <-; lia|].
    apply Forall_cons in Hsz as [? _]. case_bool_decide; injection Hj as <- <-; simpl; lia. }
  pose proof (ring_joined _ _ _ _ _ _ _ _ Hc1 Hs Hp Hl Hj Hb' Hc') as Hring. cbv zeta in Hring.
  apply wp_bind, wp_hdr_get; [exact Hmp|]. cbn [u_mem]. rewrite lookup_insert_ne by lia. rewrite Hn.
  apply wp_bind, wp_hdr_get; [exact Hm|]. cbn [u_mem]. rewrite lookup_insert_eq. cbn [default from_option id h_ptr h_size].
  change (padd p.1 p.2) with (fin p). revert Hring. case_bool_decide; intros Hring.
  - apply wp_bind, wp_bind, wp_set_size; [exact Hmp|]. rewrite uN_small by lia. apply wp_set_ptr; [exact Hmp|].
    cbn [u_mem u_freep u_brk]. rewrite lookup_insert_eq, insert_insert_eq. cbn [default from_option id h_size].
    apply wp_set_freep, HQ; [exact Hring|]. intros x Hx Hxb. cbn [u_mem]. by rewrite !lookup_insert_ne by done.
  - apply wp_bind, wp_set_ptr; [exact Hmp|]. cbn [u_mem u_freep u_brk]. rewrite lookup_insert_ne by lia. rewrite Hn.
    cbn [default from_option id h_size].
    apply wp_set_freep, HQ; [exact Hring|]. intros x Hx Hxb. cbn [u_mem]. by rewrite !lookup_insert_ne by done.
Qed.
End find.
