(* ===== verification/UmallocThms.v ===== *)
(** * malloc and free

    The client's view of the allocator: a set of blocks that do not overlap.
    malloc adds a block, free removes one that malloc returned, and the client may
    write to the blocks it has in between. *)
From Stdlib Require Import Sorting.Sorted.
From S2P Require Import Prelude.
From S2P Require Import Params.
From S2P Require Import Wp.
From S2P Require Import Umalloc.
From S2P Require Import UmallocRun.
#[local] Open Scope Z_scope.

(** ** The heap of a user program

    [uheap s T A]: the free blocks are [T] and the allocated ones [A], a map from
    the address of a header to its size.  They do not overlap, and the free list
    holds exactly [T]. *)

Record uheap `{UserSyms} (s : ustate) (T : list block) (A : gmap Z Z) : Prop := {
  uh_base : 0 < base_sym;
  uh_brk : base_sym + hsize <= u_brk s <= max_brk;
  uh_chain : chain (u_mem s) base_sym ((base_sym, 0) :: T) base_sym;
  uh_sorted : sorted (base_sym + hsize) T (u_brk s);
  uh_freep : u_freep s ∈ base_sym :: T.*1;
  uh_alloc : ∀ bp sz, A !! bp = Some sz →
    base_sym + hsize <= bp ∧ 1 <= sz ∧ fin (bp, sz) <= u_brk s ∧
    (∃ g, u_mem s !! bp = Some (Hdr g sz)) ∧ Forall (disj (bp, sz)) T;
  uh_disj : ∀ b1 s1 b2 s2, A !! b1 = Some s1 → A !! b2 = Some s2 → b1 ≠ b2 → disj (b1, s1) (b2, s2)
}.

Lemma sorted_StronglySorted lo l hi : sorted lo l hi → StronglySorted Z.lt l.*1 ∧ Forall (λ x, lo <= x) l.*1.
Proof.
  revert lo; induction l as [|b l IH]; intros lo; [by split; constructor|]. intros (Hlo & Hb & _ & Hs).
  destruct (IH _ Hs) as [Hss Hf]. pose proof (fin_lt b Hb). unfold hsize in *. rewrite fmap_cons. split; constructor; try done.
  - eapply Forall_impl; [exact Hf|]. simpl. lia.
  - eapply Forall_impl; [exact Hf|]. simpl. lia.
Qed.

(** The number of units below the largest break fits in 32 bits. *)
Lemma fin_size b : 0 < b.1 → fin b <= max_brk → b.2 < 2 ^ 32.
Proof. unfold fin, padd, hsize, max_brk. lia. Qed.

Section heap.
Context `{UserSyms}.

Lemma uheap_mapped s T A x : uheap s T A → x + hsize <= u_brk s → mapped s x = true.
Proof. intros [Hb0 Hbrk _ _ _ _ _] Hx. apply mapped_below; [|done]. unfold hsize in *. lia. Qed.

(** Any node of the free list singled out. *)
Lemma uheap_ring s T A l1 p l2 : uheap s T A → (base_sym, 0) :: T = l1 ++ p :: l2 → ring_at s l1 p l2.
Proof.
  intros Hu HL. pose proof Hu as [Hb0 Hbrk Hc Hs Hf _ _].
  destruct (sorted_StronglySorted _ _ _ Hs) as [Hss Hlo]. split; rewrite <-HL; [done| | |done].
  - constructor; [done|]. eapply Forall_impl; [exact Hlo|]. unfold hsize. simpl. lia.
  - constructor; [eapply uheap_mapped; [done|simpl; lia]|]. apply Forall_fmap, Forall_forall. intros b Hb.
    destruct (sorted_elem _ _ _ _ Hs Hb) as (_ & Hb1 & Hb2). pose proof (fin_lt b Hb1).
    simpl. eapply uheap_mapped; [done|lia].
Qed.

(** The free blocks before and after an allocated one. *)
Lemma free_split lo T hi b :
  sorted lo T hi → 1 <= b.2 → Forall (disj b) T →
  ∃ X Y, T = X ++ Y ∧ (∀ c, c ∈ X → fin c <= b.1) ∧ (∀ c, c ∈ Y → fin b <= c.1).
Proof.
  revert lo; induction T as [|c T IH]; intros lo Hs Hb Hd.
  { exists [], []. split_and!; [done|by intros c Hc%elem_of_nil..]. }
  destruct Hs as (Hlo & Hc & Hf & Hs). apply Forall_cons in Hd as [Hdc Hd]. destruct (IH _ Hs Hb Hd) as (X & Y & -> & HX & HY).
  pose proof (fin_lt b Hb). pose proof (fin_lt c Hc). unfold hsize in *.
  destruct Hdc as [Hdc|Hdc].
  - exists [], (c :: X ++ Y). split_and!; [done|by intros x Hx%elem_of_nil|].
    intros x [->|Hx]%elem_of_cons; [done|]. destruct (sorted_elem _ _ _ _ Hs Hx) as [? _]. lia.
  - exists (c :: X), Y. split_and!; [done| |done]. intros x [->|Hx]%elem_of_cons; [done|by apply HX].
Qed.

(** The list without base after free: [p] is the node before the block. *)
Lemma joined_insert X l1 p b Y :
  (base_sym, 0) :: X = l1 ++ [p] → base_sym < b.1 →
  l1 ++ joined p b Y = (base_sym, 0) :: insert_block X b Y.
Proof.
  intros HL Hb. destruct X as [|x X _] using rev_ind.
  - destruct l1 as [|? [|]]; simplify_eq/=. unfold joined. rewrite bool_decide_eq_false_2; [done|].
    unfold fin, padd. simpl. lia.
  - rewrite app_comm_cons in HL. apply app_inj_tail in HL as [<- <-]. rewrite insert_block_snoc. done.
Qed.

(** Freeing leaves a free block at least as large. *)
Lemma join_next_big b l : Forall (λ c : block, 1 <= c.2) l → ∃ c l', join_next b l = c :: l' ∧ b.2 <= c.2.
Proof.
  intros Hl. destruct l as [|c l]; cbn [join_next]; [by exists b, []|]. apply Forall_cons in Hl as [? _].
  case_bool_decide; [exists (b.1, b.2 + c.2), l|exists b, (c :: l)]; split; try done; simpl; lia.
Qed.

Lemma insert_block_big X b Y lo hi : sorted lo (X ++ Y) hi → ∃ c, c ∈ insert_block X b Y ∧ b.2 <= c.2.
Proof.
  intros Hs. assert (Forall (λ c : block, 1 <= c.2) (X ++ Y)) as Hall.
  { apply Forall_forall. intros c Hc. by destruct (sorted_elem _ _ _ _ Hs Hc) as (_ & ? & _). }
  rewrite Forall_app in Hall. destruct Hall as [HX HY]. destruct X as [|p X _] using rev_ind.
  - destruct (join_next_big b Y HY) as (c & l & E & ?). exists c. unfold insert_block. simpl. rewrite E. split; [constructor|done].
  - rewrite insert_block_snoc. rewrite Forall_app, Forall_singleton in HX. destruct HX as [_ Hp]. case_bool_decide.
    + destruct (join_next_big (p.1, p.2 + b.2) Y HY) as (c & l & -> & Hc). exists c. simpl in Hc.
      split; [apply elem_of_app; right; constructor|lia].
    + destruct (join_next_big b Y HY) as (c & l & -> & ?). exists c. split; [|done].
      apply elem_of_app. right. right. constructor.
Qed.

Lemma joined_head p b l : ∃ s' l', joined p b l = (p.1, s') :: l'.
Proof. destruct (joined_spec p b l) as (b' & l' & _ & _ & ->). case_bool_decide; destruct p; eauto. Qed.

(** An allocated header is none of the list. *)
Lemma alloc_not_free s T A bp sz x : uheap s T A → A !! bp = Some sz → x ∈ base_sym :: T.*1 → bp ≠ x.
Proof.
  intros Hu Ha Hx ->. destruct (uh_alloc _ _ _ Hu _ _ Ha) as (Hlo & Hsz & _ & _ & Hd).
  apply elem_of_cons in Hx as [->|Hx]; [unfold hsize in *; lia|].
  apply list_elem_of_fmap in Hx as (c & -> & Hc). rewrite Forall_forall in Hd. specialize (Hd c Hc).
  destruct (sorted_elem _ _ _ _ (uh_sorted _ _ _ Hu) Hc) as (_ & Hc2 & _).
  pose proof (fin_lt c Hc2). pose proof (fin_lt (c.1, sz) Hsz). unfold disj, hsize in *. simpl in *. lia.
Qed.

(** The node before the block at [b], and the sizes around it. *)
Lemma free_place s T A b :
  uheap s T A → A !! b.1 = Some b.2 →
  ∃ X Y l1 p, T = X ++ Y ∧ (base_sym, 0) :: X = l1 ++ [p] ∧ fits (base_sym + hsize) X b Y (u_brk s) ∧
    p.1 < b.1 ∧ Forall (λ x, b.1 < x) Y.*1 ∧ sizes_ok p b Y.
Proof.
  intros Hu Ha. destruct (uh_alloc _ _ _ Hu _ _ Ha) as (Hlo & Hsz & Hf & _ & Hd).
  rewrite <-surjective_pairing in Hf, Hd.
  pose proof Hu as [Hb0 Hbrk _ Hs _ _ _]. destruct (free_split _ _ _ _ Hs Hsz Hd) as (X & Y & -> & HX & HY).
  assert (∃ l1 p, (base_sym, 0) :: X = l1 ++ [p]) as (l1 & p & HL).
  { destruct X as [|x X _] using rev_ind; [by exists [], (base_sym, 0)|]. by exists ((base_sym, 0) :: X), x. }
  exists X, Y, l1, p. pose proof (fin_lt b Hsz) as Hfb.
  assert (0 < p.1 ∧ 0 <= p.2 ∧ p.1 < b.1 ∧ fin p <= b.1) as (Hp0 & Hp1 & Hp2 & Hp3).
  { assert (p ∈ (base_sym, 0) :: X) as [->|Hp]%elem_of_cons by (rewrite HL; apply elem_of_app; right; constructor).
    { unfold fin, padd, hsize in *. simpl in *. lia. }
    specialize (HX p Hp). destruct (sorted_elem _ _ _ p Hs) as (? & Hp2 & ?); [apply elem_of_app; by left|].
    pose proof (fin_lt p Hp2). unfold hsize in *. lia. }
  split_and!; [done|done| |done| |].
  - by split_and!.
  - apply Forall_fmap, Forall_forall. intros c Hc. specialize (HY c Hc). simpl. unfold hsize in *. lia.
  - unfold sizes_ok, max_brk in *. split_and!; [done|lia|unfold fin, padd, hsize in *; lia|].
    apply Forall_forall. intros c Hc. specialize (HY c Hc).
    destruct (sorted_elem _ _ _ c Hs) as (? & ? & ?); [apply elem_of_app; by right|]. unfold fin, padd, hsize in *. lia.
Qed.

Lemma wp_free_heap b s T A (Q : unit → ustate → Prop) :
  uheap s T A → A !! b.1 = Some b.2 →
  (∀ s' T', uheap s' T' (delete b.1 A) → u_brk s' = u_brk s → (∃ c, c ∈ T' ∧ b.2 <= c.2) →
     (length T' <= S (length T))%nat → Q tt s') →
  wp (free (padd b.1 1)) Q s.
Proof.
  intros Hu Ha HQ. destruct (free_place _ _ _ _ Hu Ha) as (X & Y & l1 & p & -> & HL & Hfit & Hp & HY & Hsz).
  destruct (uh_alloc _ _ _ Hu _ _ Ha) as (Hlo & Hb & Hf & (g & Hg) & Hd).
  assert ((base_sym, 0) :: X ++ Y = l1 ++ p :: Y) as HL' by (rewrite app_comm_cons, HL, <-app_assoc; done).
  apply (wp_free b g s l1 p Y); [by eapply uheap_ring|done| |done|done|done|].
  { eapply uheap_mapped; [done|]. pose proof (fin_lt (b.1, b.2) Hb). simpl in *. lia. }
  intros m' Hc Hm. assert (base_sym < b.1) as Hbb by (unfold hsize in *; lia). rewrite (joined_insert _ _ _ _ _ HL Hbb) in Hc.
  apply (HQ _ (insert_block X b Y)); [|done|eapply insert_block_big; apply Hfit|apply length_insert_block].
  assert (p.1 ∈ base_sym :: (X ++ Y).*1) as Hpin.
  { change (p.1 ∈ ((base_sym, 0) :: X ++ Y).*1). rewrite HL'. apply list_elem_of_fmap_2, elem_of_app. right. constructor. }
  pose proof Hu as [Hb0 Hbrk _ Hs _ Hal Hdj]. split; cbn [u_mem u_brk u_freep]; try done.
  - by apply insert_sorted.
  - change (p.1 ∈ ((base_sym, 0) :: insert_block X b Y).*1). rewrite <-(joined_insert _ _ _ _ _ HL Hbb).
    destruct (joined_head p b Y) as (s' & l' & ->). rewrite fmap_app. apply elem_of_app. right. constructor.
  - intros bp sz [Hne Hx]%lookup_delete_Some. destruct (Hal _ _ Hx) as (? & ? & ? & (g' & Hg') & ?).
    split_and!; [done..| |].
    + exists g'. rewrite Hm; [done|by eapply alloc_not_free|done].
    + apply disj_insert; [done| |done]. rewrite (surjective_pairing b). by apply Hdj.
  - intros b1 s1 b2 s2 [_ H1]%lookup_delete_Some [_ H2]%lookup_delete_Some. by apply Hdj.
Qed.

(** ** Allocation *)

(** What is left of the free list when [b] is taken out of [c]. *)
Definition remains (X : list block) (c b : block) (l2 T' : list block) : Prop :=
  T' = X ++ l2 ∨ ∃ k, T' = X ++ (c.1, k) :: l2 ∧ 1 <= k <= c.2 ∧ padd c.1 k <= b.1.

Lemma remains_sorted lo X c b l2 T' hi : sorted lo (X ++ c :: l2) hi → remains X c b l2 T' → sorted lo T' hi.
Proof. intros Hs [->|(k & -> & Hk & _)]; [by eapply sorted_remove|by apply sorted_shrink]. Qed.

Lemma remains_disj X c b l2 T' x :
  Forall (disj x) (X ++ c :: l2) → remains X c b l2 T' → Forall (disj x) T'.
Proof.
  rewrite Forall_app, Forall_cons. intros (H1 & Hc & H2) [->|(k & -> & Hk & _)]; rewrite Forall_app, ?Forall_cons; [done|].
  split_and!; [done| |done]. apply (disj_inside _ _ c); [|done]. split; [done|]. unfold fin, padd, hsize. simpl. lia.
Qed.

Lemma inside_not_disj b c x : inside b c → 1 <= b.2 → 1 <= x.2 → disj c x → b.1 ≠ x.1.
Proof.
  intros [? ?] Hb Hx Hd E. pose proof (fin_lt b Hb). pose proof (fin_lt x Hx). unfold disj, hsize in *. lia.
Qed.

Lemma uheap_take s T A X c l2 b T' m' f' :
  uheap s T A → T = X ++ c :: l2 → inside b c → 1 <= b.2 → remains X c b l2 T' →
  chain m' base_sym ((base_sym, 0) :: T') base_sym → f' ∈ base_sym :: T'.*1 →
  (∃ g, m' !! b.1 = Some (Hdr g b.2)) → (∀ x y, A !! x = Some y → m' !! x = u_mem s !! x) →
  uheap (UState m' f' (u_brk s)) T' (<[b.1 := b.2]> A) ∧ A !! b.1 = None.
Proof.
  intros Hu -> Hin Hb Hrem Hc Hf Hg Hm. pose proof Hu as [Hb0 Hbrk _ Hs _ Hal Hdj].
  assert (c ∈ X ++ c :: l2) as Hcin by (apply elem_of_app; right; constructor).
  destruct (sorted_elem _ _ _ _ Hs Hcin) as (Hclo & Hc2 & Hchi). pose proof (sorted_disj _ _ _ _ _ Hs) as Hcd.
  assert (∀ x y, A !! x = Some y → disj c (x, y)) as HcA.
  { intros x y Hx. apply disj_sym. destruct (Hal _ _ Hx) as (_ & _ & _ & _ & Hd). rewrite Forall_forall in Hd. by apply Hd. }
  assert (A !! b.1 = None) as Hnone.
  { destruct (A !! b.1) as [y|] eqn:E; [exfalso|done]. destruct (Hal _ _ E) as (_ & Hy & _).
    by apply (inside_not_disj b c (b.1, y) Hin Hb Hy (HcA _ _ E)). }
  split; [|done]. destruct Hin as [Hi1 Hi2]. split; cbn [u_mem u_brk u_freep]; try done.
  - by eapply remains_sorted.
  - intros x y [[<- <-]|[Hne Hx]]%lookup_insert_Some.
    + rewrite <-surjective_pairing. split_and!; [lia|done|lia|done|].
      destruct Hrem as [->|(k & -> & Hk & Hkb)]; [by apply (Forall_disj_inside _ c)|].
      rewrite Forall_app, Forall_cons. apply (Forall_disj_inside b c) in Hcd; [|done]. rewrite Forall_app in Hcd.
      destruct Hcd. split_and!; [done| |done]. right. done.
    + destruct (Hal _ _ Hx) as (? & ? & ? & (g' & Hg') & ?). split_and!; [done..| |by eapply remains_disj].
      exists g'. by rewrite (Hm _ _ Hx).
  - intros b1 s1 b2 s2 [[<- <-]|[Hne1 H1]]%lookup_insert_Some [[<- <-]|[Hne2 H2]]%lookup_insert_Some Hne; [done| | |by apply Hdj].
    + rewrite <-surjective_pairing. apply disj_sym, (disj_inside _ _ c); [done|]. by apply disj_sym, HcA.
    + rewrite <-surjective_pairing. apply (disj_inside _ _ c); [done|]. by apply disj_sym, HcA.
Qed.
End heap.

Section malloc.
Context `{UserSyms}.

(** ** A block that is large enough *)
Definition malloc_post (n : Z) (s : ustate) (A : gmap Z Z) (Q : Z → ustate → Prop) : Prop :=
  ∀ s' T' bp, uheap s' T' (<[bp := n]> A) → A !! bp = None → u_brk s' = u_brk s → Q (padd bp 1) s'.

(** The chain through [pv] and [c], cut at both. *)
Lemma chain_two m l1 pv c l2 b :
  chain m base_sym (l1 ++ pv :: c :: l2) b →
  ∃ n, chain m base_sym l1 pv.1 ∧ m !! pv.1 = Some (Hdr c.1 pv.2) ∧ m !! c.1 = Some (Hdr n c.2) ∧ chain m n l2 b.
Proof.
  rewrite chain_app. destruct pv, c. intros (a & H1 & -> & n1 & Hn1 & -> & n2 & Hn2 & H2). exists n2. by split_and!.
Qed.

Lemma nodes_sorted s T A l : uheap s T A → (base_sym, 0) :: T = l → StronglySorted Z.lt l.*1.
Proof.
  intros Hu <-. destruct (sorted_StronglySorted _ _ _ (uh_sorted _ _ _ Hu)) as [Hs Hlo]. rewrite fmap_cons.
  constructor; [done|]. eapply Forall_impl; [exact Hlo|]. simpl. unfold hsize. lia.
Qed.

Lemma sorted_cut (l1 : list block) p l2 x :
  StronglySorted Z.lt (l1 ++ p :: l2).*1 → (x ∈ l1.*1 → x < p.1) ∧ (x ∈ l2.*1 → p.1 < x).
Proof.
  rewrite fmap_app, fmap_cons. intros (_ & Hs & H12)%StronglySorted_app_inv. apply StronglySorted_inv in Hs as [_ Hp].
  rewrite Forall_forall in Hp. split; [|by apply Hp]. intros Hx. apply H12; [done|constructor].
Qed.

(** The whole of [c] is taken. *)
Lemma wp_malloc_exact s T A l1 pv c l2 X (Q : Z → ustate → Prop) :
  uheap s T A → (base_sym, 0) :: T = l1 ++ pv :: c :: l2 → (base_sym, 0) :: X = l1 ++ [pv] → T = X ++ c :: l2 →
  malloc_post c.2 s A Q →
  wp (p' ← (set_ptr pv.1 (h_ptr (default (Hdr 0 0) (u_mem s !! c.1)));; mret c.1);
      set_freep pv.1;; mret (padd p' 1)) Q s.
Proof.
  intros Hu HL HX HT HQ. pose proof (uh_chain _ _ _ Hu) as Hc. rewrite HL in Hc.
  destruct (chain_two _ _ _ _ _ _ Hc) as (n & Hc1 & Hpv & Hcc & Hc2). pose proof (nodes_sorted _ _ _ _ Hu HL) as Hs.
  pose proof (uheap_ring _ _ _ _ _ _ Hu HL) as Hring. pose proof Hring as [_ _ Hm _].
  rewrite fmap_app, fmap_cons, Forall_app, Forall_cons in Hm. destruct Hm as (_ & Hm & _).
  apply wp_bind, wp_bind, wp_set_ptr; [done|]. apply wp_ret. rewrite Hpv, Hcc. apply wp_bind, wp_set_freep, wp_ret.
  cbn [u_mem u_freep u_brk default from_option id h_ptr h_size].
  assert (c ∈ T) as Hcin by (rewrite HT; apply elem_of_app; right; constructor).
  destruct (sorted_elem _ _ _ _ (uh_sorted _ _ _ Hu) Hcin) as (_ & Hc2' & _).
  assert (pv.1 < c.1) as Hlt by (apply (sorted_cut l1 pv (c :: l2)); [done|rewrite fmap_cons; constructor]).
  destruct (uheap_take s T A X c l2 c (X ++ l2) (<[pv.1 := Hdr n pv.2]> (u_mem s)) pv.1) as [Hu' Hn];
    [done|done|by split|done|by left| | | | |].
  - rewrite app_comm_cons, HX, <-app_assoc. cbn [app]. apply chain_app. exists pv.1. split.
    + apply chain_insert; [|done]. intros Hx%(sorted_cut _ _ _ _ Hs). lia.
    + destruct pv as [a sz]. split; [done|]. exists n. split; [apply lookup_insert_eq|]. apply chain_insert; [|done].
      intros Hx. assert (a < a); [|lia]. apply (sorted_cut l1 (a, sz) (c :: l2)); [done|]. rewrite fmap_cons. by constructor.
  - change (pv.1 ∈ ((base_sym, 0) :: X ++ l2).*1). rewrite app_comm_cons, HX.
    apply list_elem_of_fmap_2, elem_of_app. left. apply elem_of_app. right. constructor.
  - exists n. by rewrite lookup_insert_ne by lia.
  - intros x y Hx. rewrite lookup_insert_ne; [done|]. intros <-. eapply (alloc_not_free _ _ _ pv.1 y pv.1); [done|done| |done].
    change (pv.1 ∈ ((base_sym, 0) :: T).*1). rewrite HL. apply list_elem_of_fmap_2, elem_of_app. right. constructor.
  - by apply (HQ _ _ c.1 Hu').
Qed.

(** A header inside a free block is not a node of the list. *)
Lemma inside_not_node s T A X c l2 b x :
  uheap s T A → T = X ++ c :: l2 → inside b c → 1 <= b.2 → c.1 < b.1 → x ∈ ((base_sym, 0) :: T).*1 → x ≠ b.1.
Proof.
  intros Hu HT Hin Hb Hcb Hx ->. pose proof (uh_sorted _ _ _ Hu) as Hs.
  assert (∀ y, y ∈ X ++ l2 → b.1 ≠ y.1) as Hxy.
  { intros y Hy. pose proof Hs as Hd. rewrite HT in Hd. apply sorted_disj in Hd. rewrite Forall_forall in Hd.
    eapply (inside_not_disj b c); [done|done| |by apply Hd]. destruct (sorted_elem _ _ _ y Hs) as (_ & ? & _); [|done].
    rewrite HT. apply elem_of_app in Hy as [?|?]; apply elem_of_app; [by left|right; by constructor]. }
  assert (c ∈ T) as Hcin by (rewrite HT; apply elem_of_app; right; constructor).
  destruct (sorted_elem _ _ _ _ Hs Hcin) as (Hclo & _ & _).
  rewrite HT, app_comm_cons, fmap_app, fmap_cons in Hx.
  apply elem_of_app in Hx as [Hx|Hx]; apply elem_of_cons in Hx as [Hx|Hx]; simpl in *; unfold hsize in *; try lia;
    apply list_elem_of_fmap in Hx as (y & Hy & Hyin); by apply (Hxy y); [apply elem_of_app; auto|].
Qed.

Lemma chain_shrink m l1 pv c l2 nx k :
  chain m base_sym l1 pv.1 → m !! pv.1 = Some (Hdr c.1 pv.2) → chain m nx l2 base_sym →
  StronglySorted Z.lt (l1 ++ pv :: c :: l2).*1 →
  chain (<[c.1 := Hdr nx k]> m) base_sym (l1 ++ pv :: (c.1, k) :: l2) base_sym.
Proof.
  intros Hc1 Hpv Hc2 Hs. assert (pv.1 < c.1) by (apply (sorted_cut _ _ _ _ Hs); rewrite fmap_cons; constructor).
  rewrite cons_middle, app_assoc in Hs. apply chain_app. exists pv.1. split.
  - apply chain_insert; [|done]. intros Hx. assert (c.1 < c.1); [|lia].
    apply (proj1 (sorted_cut (l1 ++ [pv]) c l2 _ Hs)). rewrite fmap_app. apply elem_of_app. by left.
  - destruct pv as [a sz]. split; [done|]. exists c.1. simpl in *. rewrite lookup_insert_ne by lia.
    split; [done|]. split; [done|]. exists nx. split; [apply lookup_insert_eq|]. apply chain_insert; [|done].
    intros Hx%(sorted_cut _ _ _ _ Hs). lia.
Qed.

(** The end of [c] is taken and the rest stays in the list. *)
Lemma wp_malloc_tail n s T A l1 pv c l2 X (Q : Z → ustate → Prop) :
  uheap s T A → (base_sym, 0) :: T = l1 ++ pv :: c :: l2 → (base_sym, 0) :: X = l1 ++ [pv] → T = X ++ c :: l2 →
  1 <= n < c.2 → malloc_post n s A Q →
  let left := u32 (c.2 - n) in
  wp (p' ← (set_size c.1 left;; set_size (padd c.1 left) n;; mret (padd c.1 left)); set_freep pv.1;; mret (padd p' 1)) Q s.
Proof.
  intros Hu HL HX HT Hn HQ left. pose proof (uh_chain _ _ _ Hu) as Hc. rewrite HL in Hc.
  destruct (chain_two _ _ _ _ _ _ Hc) as (nx & Hc1 & Hpv & Hcc & Hc2). pose proof (nodes_sorted _ _ _ _ Hu HL) as Hs.
  assert (c ∈ T) as Hcin by (rewrite HT; apply elem_of_app; right; constructor).
  destruct (sorted_elem _ _ _ _ (uh_sorted _ _ _ Hu) Hcin) as (Hclo & Hc2' & Hchi). pose proof Hu as [Hb0 Hbrk _ _ _ _ _].
  assert (c.2 < 2 ^ 32) as H32 by (apply fin_size; unfold hsize in *; lia).
  assert (left = c.2 - n) as Hleft by (apply uN_small; lia). set (b := (padd c.1 left, n)).
  assert (inside b c) as Hin by (unfold inside, b, fin, padd, hsize; simpl; lia).
  assert (c.1 < b.1 ∧ b.1 + hsize <= u_brk s) as [Hcb Hbb] by (unfold b, fin, padd, hsize in *; simpl; lia).
  assert (∀ x, x ∈ ((base_sym, 0) :: T).*1 → x ≠ b.1) as Hbn by (intros x; eapply inside_not_node; [done|done|done|simpl; lia|done]).
  assert ((l1 ++ pv :: (c.1, left) :: l2).*1 = ((base_sym, 0) :: T).*1) as Hnodes by (rewrite HL, !fmap_app; done).
  assert ((base_sym, 0) :: X ++ (c.1, left) :: l2 = l1 ++ pv :: (c.1, left) :: l2) as HL'.
  { by rewrite app_comm_cons, HX, <-app_assoc. }
  apply wp_bind, wp_bind, wp_set_size; [eapply uheap_mapped; [done|]; pose proof (fin_lt c Hc2'); lia|].
  apply wp_bind, wp_set_size; [apply mapped_below; cbn [u_brk]; [unfold hsize in *; lia|exact Hbb]|].
  apply wp_ret. apply wp_bind, wp_set_freep, wp_ret. cbn [u_mem u_freep u_brk]. rewrite Hcc. cbn [default from_option id h_ptr].
  set (g := h_ptr _). set (m' := <[b.1 := Hdr g n]> (<[c.1 := Hdr nx left]> (u_mem s))).
  destruct (uheap_take s T A X c l2 b (X ++ (c.1, left) :: l2) m' pv.1) as [Hu' Hnone]; [done|done|done|simpl; lia| | | | | |].
  - right. exists left. split_and!; [done|lia|lia|done].
  - rewrite HL'. apply chain_insert; [rewrite Hnodes; by intros ?%Hbn|]. by apply chain_shrink.
  - change (pv.1 ∈ ((base_sym, 0) :: X ++ (c.1, left) :: l2).*1). rewrite HL'.
    apply list_elem_of_fmap_2, elem_of_app. right. constructor.
  - exists g. apply lookup_insert_eq.
  - intros x y Hx. assert (x ≠ c.1).
    { eapply (alloc_not_free _ _ _ x y c.1); [done|done|]. constructor. by apply list_elem_of_fmap_2. }
    destruct (decide (x = b.1)) as [->|Hne]; [|by unfold m'; rewrite !lookup_insert_ne by done]. exfalso.
    destruct (uh_alloc _ _ _ Hu _ _ Hx) as (_ & Hy & _ & _ & Hd). rewrite Forall_forall in Hd.
    apply (inside_not_disj b c (b.1, y) Hin); [simpl; lia|done|by apply disj_sym, Hd|done].
  - by apply (HQ _ _ b.1 Hu').
Qed.

Lemma wp_malloc_hit fuel n s T A l1 pv c l2 (Q : Z → ustate → Prop) :
  uheap s T A → (base_sym, 0) :: T = l1 ++ pv :: c :: l2 → 1 <= n <= c.2 → malloc_post n s A Q →
  wp (malloc_loop (S fuel) n pv.1 c.1) Q s.
Proof.
  intros Hu HL Hn HQ. assert (∃ X, (base_sym, 0) :: X = l1 ++ [pv] ∧ T = X ++ c :: l2) as (X & HX & HT).
  { destruct l1 as [|a l1]; cbn [app] in *; injection HL as <- ->; [by exists []|].
    exists (l1 ++ [pv]). by rewrite <-app_assoc. }
  pose proof (uh_chain _ _ _ Hu) as Hc. rewrite HL in Hc. destruct (chain_two _ _ _ _ _ _ Hc) as (nx & _ & _ & Hcc & _).
  assert (c ∈ T) as Hcin by (rewrite HT; apply elem_of_app; right; constructor).
  destruct (sorted_elem _ _ _ _ (uh_sorted _ _ _ Hu) Hcin) as (_ & Hc2 & Hchi).
  cbn [malloc_loop]. apply wp_bind, wp_hdr_get; [eapply uheap_mapped; [done|]; pose proof (fin_lt c Hc2); lia|].
  rewrite Hcc. cbn [default from_option id h_size]. rewrite bool_decide_eq_true_2 by lia.
  case_bool_decide as E.
  - subst n. pose proof (wp_malloc_exact s T A l1 pv c l2 X Q Hu HL HX HT HQ) as Hw. by rewrite Hcc in Hw.
  - apply (wp_malloc_tail n s T A l1 pv c l2 X); [done..|lia|done].
Qed.

(** ** More memory *)
Context (Havail : ∀ b n, sbrk_avail b n = true → b + n <= max_brk).

Lemma uheap_below s T A x : uheap s T A → x ∈ ((base_sym, 0) :: T).*1 ∨ is_Some (A !! x) → x < u_brk s.
Proof.
  intros Hu Hx. pose proof Hu as [Hb0 Hbrk _ Hs _ Hal _]. destruct Hx as [Hx|[y Hy]].
  - rewrite fmap_cons in Hx. apply elem_of_cons in Hx as [->|Hx]; [unfold hsize in *; simpl; lia|].
    apply list_elem_of_fmap in Hx as (b & -> & Hb). destruct (sorted_elem _ _ _ _ Hs Hb) as (_ & Hb2 & ?).
    pose proof (fin_lt b Hb2). unfold hsize in *. lia.
  - destruct (Hal _ _ Hy) as (_ & Hy2 & ? & _). pose proof (fin_lt (x, y) Hy2). unfold hsize in *. simpl in *. lia.
Qed.

(** The new memory as an allocated block. *)
Lemma uheap_grow s T A g nu :
  uheap s T A → 1 <= nu → u_brk s + hsize * nu <= max_brk →
  uheap (UState (<[u_brk s := Hdr g nu]> (u_mem s)) (u_freep s) (u_brk s + hsize * nu)) T (<[u_brk s := nu]> A) ∧
  A !! u_brk s = None.
Proof.
  intros Hu Hnu Hmax. pose proof Hu as [Hb0 Hbrk Hc Hs Hf Hal Hdj].
  assert (A !! u_brk s = None) as Hnone.
  { destruct (A !! u_brk s) eqn:E; [|done]. assert (u_brk s < u_brk s); [|lia]. eapply uheap_below; [done|right; eauto]. }
  assert (∀ x y, A !! x = Some y → disj (u_brk s, nu) (x, y)) as Hd.
  { intros x y Hx. destruct (Hal _ _ Hx) as (_ & _ & ? & _). by right. }
  split; [|done]. split; cbn [u_mem u_brk u_freep]; try done.
  - unfold hsize in *. lia.
  - apply chain_insert; [|done]. intros Hx. assert (u_brk s < u_brk s); [|lia]. eapply uheap_below; [done|by left].
  - eapply sorted_hi; [|exact Hs]. unfold hsize in *. lia.
  - intros x y [[<- <-]|[Hne Hx]]%lookup_insert_Some.
    + split_and!; [lia|done|done|by exists g; apply lookup_insert_eq|]. apply Forall_forall. intros c Hcin.
      destruct (sorted_elem _ _ _ _ Hs Hcin) as (_ & _ & ?). by right.
    + destruct (Hal _ _ Hx) as (? & ? & ? & (g' & Hg') & ?). split_and!; [done|done|unfold hsize in *; lia| |done].
      exists g'. by rewrite lookup_insert_ne.
  - intros b1 s1 b2 s2 [[<- <-]|[Hne1 H1]]%lookup_insert_Some [[<- <-]|[Hne2 H2]]%lookup_insert_Some Hne; [done|by apply Hd| |by apply Hdj].
    by apply disj_sym, Hd.
Qed.

Lemma wp_morecore nu s T A (Q : Z → ustate → Prop) :
  uheap s T A → 1 <= nu < 2 ^ 27 → (sbrk_avail (u_brk s) (hsize * Z.max 4096 nu) = false → Q 0 s) →
  (∀ s' T', uheap s' T' A → u_brk s <= u_brk s' → (∃ c, c ∈ T' ∧ nu <= c.2) →
     (length T' <= S (length T))%nat → Q (u_freep s') s') →
  wp (morecore nu) Q s.
Proof.
  intros Hu Hnu H0 HQ. unfold morecore. set (k := if bool_decide (nu < 4096) then 4096 else nu).
  assert (nu <= k < 2 ^ 27 ∧ k = Z.max 4096 nu) as [Hk Hmax] by (unfold k; case_bool_decide; lia).
  assert (s32 (k * hsize) = hsize * k) as Hs32.
  { unfold sN, hsize. rewrite Z.mod_small by lia. lia. }
  rewrite Hs32. pose proof Hu as [Hb0 Hbrk _ _ _ _ _]. apply wp_bind. unfold sbrk. apply wp_bind, wp_uget.
  rewrite bool_decide_eq_true_2 by (unfold hsize; lia). destruct (sbrk_avail (u_brk s) (hsize * k)) eqn:Hav.
  2:{ apply wp_ret. rewrite bool_decide_eq_true_2 by done. apply wp_ret, H0. by rewrite <-Hmax. }
  apply Havail in Hav. apply wp_bind, wp_uput, wp_ret. rewrite bool_decide_eq_false_2 by (unfold hsize in *; lia).
  apply wp_bind, wp_set_size; [apply mapped_below; cbn [u_brk]; unfold hsize in *; lia|]. cbn [u_mem u_freep u_brk].
  set (g := h_ptr _). destruct (uheap_grow s T A g k Hu ltac:(lia) Hav) as [Hu1 Hnone].
  apply wp_bind, (wp_free_heap (u_brk s, k) _ T (<[u_brk s := k]> A)); [done|apply lookup_insert_eq|].
  intros s' T' Hu' Hb' (c & Hc & Hck) Hlen. simpl in *. rewrite delete_insert_id in Hu' by done.
  apply wp_bind, wp_uget, wp_ret. apply (HQ s' T'); [done|rewrite Hb'; unfold hsize; lia| |done]. exists c. split; [done|lia].
Qed.

(** ** The search of malloc *)
Lemma first_big n (l : list block) :
  Forall (λ c : block, c.2 < n) l ∨
  ∃ l1 c l2, l = l1 ++ c :: l2 ∧ n <= c.2 ∧ Forall (λ c : block, c.2 < n) l1.
Proof.
  induction l as [|b l IH]; [by left|]. destruct (decide (n <= b.2)).
  - right. by exists [], b, l.
  - destruct IH as [IH|(l1 & c & l2 & -> & Hc & Hl)]; [left; constructor; [lia|done]|right].
    exists (b :: l1), c, l2. split_and!; [done|done|]. constructor; [lia|done].
Qed.

(** Blocks that are too small are passed over. *)
Lemma wp_malloc_walk fuel n pv a l b (Q : Z → ustate → Prop) s :
  chain (u_mem s) a l b → Forall (λ c, c.2 < n) l → u_freep s ∉ l.*1 → Forall (λ x, mapped s x = true) l.*1 →
  wp (malloc_loop fuel n (default pv (last l.*1)) b) Q s → wp (malloc_loop (length l + fuel) n pv a) Q s.
Proof.
  revert pv a; induction l as [|[x sz] l IH]; intros pv a Hc Hsm Hf Hm HQ; [by rewrite Hc|].
  destruct Hc as (-> & nx & Hn & Hc). apply Forall_cons in Hsm as [Hs Hsm]. apply Forall_cons in Hm as [Hx Hm].
  rewrite fmap_cons in Hf, HQ. apply not_elem_of_cons in Hf as [Hfx Hf]. simpl in *.
  apply wp_bind, wp_hdr_get; [done|]. rewrite Hn. cbn [default from_option id h_size h_ptr].
  rewrite bool_decide_eq_false_2 by lia. apply wp_bind, wp_uget. rewrite bool_decide_eq_false_2 by done.
  apply IH; [done..|]. destruct (last l.*1) eqn:E; [|apply last_None in E; by rewrite E in HQ].
  destruct l.*1 as [|y l0] eqn:E'; [done|]. change (last (a :: y :: l0)) with (last (y :: l0)) in HQ. by rewrite E in HQ.
Qed.

Lemma last_split (x : block) l : ∃ l1 p, x :: l = l1 ++ [p] ∧ default x.1 (last l.*1) = p.1.
Proof.
  destruct l as [|p l _] using rev_ind; [by exists [], x|]. exists (x :: l), p. split; [done|].
  rewrite fmap_app. simpl. by rewrite last_snoc.
Qed.

(** The ring as malloc goes around it from [freep]. *)
Lemma uheap_freep s T A :
  uheap s T A → ∃ l1 f l2 n, (base_sym, 0) :: T = l1 ++ f :: l2 ∧ f.1 = u_freep s ∧
    u_mem s !! f.1 = Some (Hdr n f.2) ∧ chain (u_mem s) base_sym l1 f.1 ∧ chain (u_mem s) n l2 base_sym ∧
    (u_freep s ∉ l1.*1) ∧ (u_freep s ∉ l2.*1) ∧
    Forall (λ x, mapped s x = true) l1.*1 ∧ Forall (λ x, mapped s x = true) (f :: l2).*1.
Proof.
  intros Hu. pose proof (uh_freep _ _ _ Hu) as Hf. change (base_sym :: T.*1) with ((base_sym, 0) :: T).*1 in Hf.
  apply list_elem_of_fmap in Hf as (f & Hff & (l1 & l2 & HL)%list_elem_of_split).
  pose proof (uheap_ring _ _ _ _ _ _ Hu HL) as Hr. destruct (ring_parts _ _ _ _ Hr) as (n & Hc1 & Hn & Hc2).
  exists l1, f, l2, n. destruct Hr as [_ Hs Hm _]. rewrite fmap_app, Forall_app in Hm. destruct Hm as [Hm1 Hm2].
  split_and!; try done.
  - rewrite Hff. intros Hx%(sorted_cut _ _ _ _ Hs). lia.
  - rewrite Hff. intros Hx. assert (f.1 < f.1); [|lia]. by apply (proj2 (sorted_cut _ _ _ f.1 Hs)).
Qed.

(** The first large block is met before [freep] comes round again. *)
Lemma wp_malloc_ahead fuel n s T A l1 x V1 c V2 nx (Q : Z → ustate → Prop) :
  uheap s T A → (base_sym, 0) :: T = l1 ++ x :: V1 ++ c :: V2 → chain (u_mem s) nx V1 c.1 →
  1 <= n <= c.2 → Forall (λ c, c.2 < n) V1 → u_freep s ∉ V1.*1 → Forall (λ x, mapped s x = true) V1.*1 →
  (length V1 < fuel)%nat → malloc_post n s A Q → wp (malloc_loop fuel n x.1 nx) Q s.
Proof.
  intros Hu HL Hc Hn Hsm Hf Hm Hfuel HQ. replace fuel with (length V1 + S (fuel - length V1 - 1))%nat by lia.
  apply (wp_malloc_walk _ _ _ _ V1 c.1); [done..|]. destruct (last_split x V1) as (l' & pv & Hpv & ->).
  apply (wp_malloc_hit _ n s T A (l1 ++ l') pv c V2); [done| |done|done].
  by rewrite HL, app_comm_cons, Hpv, <-!app_assoc.
Qed.

(** The same when malloc comes to [base] first. *)
Lemma wp_malloc_wrap fuel n s T A V1 c W pv (Q : Z → ustate → Prop) :
  uheap s T A → (base_sym, 0) :: T = (base_sym, 0) :: V1 ++ c :: W → chain (u_mem s) base_sym ((base_sym, 0) :: V1) c.1 →
  1 <= n <= c.2 → Forall (λ c, c.2 < n) V1 → u_freep s ∉ ((base_sym, 0) :: V1).*1 →
  Forall (λ x, mapped s x = true) ((base_sym, 0) :: V1).*1 → (S (length V1) < fuel)%nat →
  malloc_post n s A Q → wp (malloc_loop fuel n pv base_sym) Q s.
Proof.
  intros Hu HL (_ & nx & Hnx & Hc) Hn Hsm Hf Hm Hfuel HQ. rewrite fmap_cons in Hf, Hm.
  apply not_elem_of_cons in Hf as [Hfb Hf]. apply Forall_cons in Hm as [Hmb Hm].
  replace fuel with (length [(base_sym, 0)] + (fuel - 1))%nat by (simpl; lia).
  apply (wp_malloc_walk _ _ _ _ [(base_sym, 0)] nx).
  - split; [done|]. by exists nx.
  - constructor; [simpl; lia|done].
  - by intros Hx%list_elem_of_singleton.
  - by constructor.
  - apply (wp_malloc_ahead _ n s T A [] (base_sym, 0) V1 c W); try done. lia.
Qed.

Lemma wp_malloc_scan_hit fuel n s T A f nx (Q : Z → ustate → Prop) :
  uheap s T A → u_mem s !! u_freep s = Some (Hdr nx f) → 1 <= n → (∃ c, c ∈ T ∧ n <= c.2) → (S (length T) <= fuel)%nat →
  malloc_post n s A Q → wp (malloc_loop fuel n (u_freep s) nx) Q s.
Proof.
  intros Hu Hnx Hn (c0 & Hc0 & Hbig) Hfuel HQ.
  destruct (uheap_freep _ _ _ Hu) as (l1 & [fa fs] & l2 & nx' & HL & Hff & Hn' & Hc1 & Hc2 & Hf1 & Hf2 & Hm1 & Hm2).
  simpl in *. subst fa. rewrite Hnx in Hn'. injection Hn' as <- <-. apply Forall_cons in Hm2 as [_ Hm2].
  assert (S (length T) = length l1 + S (length l2))%nat as Hlen by (apply (f_equal length) in HL; rewrite length_app in HL; done).
  destruct (first_big n l2) as [Hsm2|(V1 & c & V2 & -> & Hc & Hsm)].
  - replace fuel with (length l2 + (fuel - length l2))%nat by lia. apply (wp_malloc_walk _ _ _ _ l2 base_sym); [done..|].
    assert (∃ V1 c W, l1 ++ (u_freep s, f) :: l2 = (base_sym, 0) :: V1 ++ c :: W ∧ n <= c.2 ∧
      Forall (λ c, c.2 < n) V1 ∧ chain (u_mem s) base_sym ((base_sym, 0) :: V1) c.1 ∧ ∃ W', l1 = (base_sym, 0) :: V1 ++ W')
      as (V1 & c & W & HV & Hc & Hsm & Hch & W' & ->).
    { destruct l1 as [|x l1]; cbn [app] in HL; injection HL as E1 E2.
      { subst. rewrite Forall_forall in Hsm2. specialize (Hsm2 _ Hc0). simpl in Hsm2. lia. }
      subst x. destruct (first_big n l1) as [Hsm1|(V1 & c & V2 & -> & Hc & Hsm)].
      - exists l1, (u_freep s, f), l2. split_and!; [done| |done|done|by exists []; rewrite app_nil_r].
        subst T. rewrite Forall_forall in Hsm1, Hsm2. apply elem_of_app in Hc0 as [Hin|Hin]; [specialize (Hsm1 _ Hin); simpl in *; lia|].
        apply elem_of_cons in Hin as [->|Hin]; [done|specialize (Hsm2 _ Hin); simpl in *; lia].
      - exists V1, c, (V2 ++ (u_freep s, f) :: l2). split_and!; [by cbn; rewrite <-app_assoc|done|done| |by eauto].
        rewrite app_comm_cons in Hc1. apply chain_app in Hc1 as (a & Hc1 & Hc3). by assert (a = c.1) as -> by (destruct c; by destruct Hc3). }
    rewrite app_comm_cons, fmap_app in Hf1, Hm1. rewrite Forall_app in Hm1. rewrite HV in HL.
    apply (wp_malloc_wrap _ n s T A V1 c W); try done; [set_solver|tauto|]. simpl in Hlen. rewrite length_app in Hlen. lia.
  - apply chain_app in Hc2 as (a & Hc2 & Hc3). assert (a = c.1) as -> by (destruct c; by destruct Hc3).
    rewrite fmap_app, Forall_app in Hm2. rewrite fmap_app in Hf2. rewrite length_app in Hlen. simpl in Hlen.
    apply (wp_malloc_ahead _ n s T A l1 (u_freep s, f) V1 c V2); try done; [set_solver|tauto|lia].
Qed.

(** No block is large enough: malloc asks for more memory and searches again. *)
Lemma wp_malloc_loop fuel n s T A f nx (Q : Z → ustate → Prop) :
  uheap s T A → u_mem s !! u_freep s = Some (Hdr nx f) → 1 <= n < 2 ^ 27 → (2 * length T + 3 <= fuel)%nat →
  (sbrk_avail (u_brk s) (hsize * Z.max 4096 n) = false → Q 0 s) →
  (∀ s' T' bp, uheap s' T' (<[bp := n]> A) → A !! bp = None → u_brk s <= u_brk s' → Q (padd bp 1) s') →
  wp (malloc_loop fuel n (u_freep s) nx) Q s.
Proof.
  intros Hu Hnx Hn Hfuel H0 HQ. destruct (first_big n T) as [Hsm|(X & c & Y & HT & Hc & _)].
  2:{ apply (wp_malloc_scan_hit _ n s T A f); [done|done|lia| |lia|].
      - exists c. split; [|done]. rewrite HT. apply elem_of_app. right. constructor.
      - intros s' T' bp Hu' Hbp Hb. apply (HQ s' T'); [done|done|lia]. }
  destruct (uheap_freep _ _ _ Hu) as (l1 & [fa fs] & l2 & nx' & HL & Hff & Hn' & Hc1 & Hc2 & Hf1 & Hf2 & Hm1 & Hm2).
  simpl in *. subst fa. rewrite Hnx in Hn'. injection Hn' as <- <-. apply Forall_cons in Hm2 as [Hmf Hm2].
  assert (S (length T) = length l1 + S (length l2))%nat as Hlen by (apply (f_equal length) in HL; rewrite length_app in HL; done).
  assert (Forall (λ c, c.2 < n) (l1 ++ (u_freep s, f) :: l2)) as Hall by (rewrite <-HL; constructor; [simpl; lia|done]).
  rewrite Forall_app, Forall_cons in Hall. destruct Hall as (Hs1 & Hsf & Hs2).
  replace fuel with (length l2 + (length l1 + S (fuel - length l2 - length l1 - 1)))%nat by lia.
  apply (wp_malloc_walk _ _ _ _ l2 base_sym); [done..|]. apply (wp_malloc_walk _ _ _ _ l1 (u_freep s)); [done..|].
  cbn [malloc_loop]. apply wp_bind, wp_hdr_get; [done|]. rewrite Hnx. cbn [default from_option id h_size h_ptr].
  simpl in Hsf. rewrite bool_decide_eq_false_2 by lia. apply wp_bind, wp_uget. rewrite bool_decide_eq_true_2 by done.
  apply wp_bind, (wp_morecore n s T A); [done|done| |].
  { intros Hno. rewrite bool_decide_eq_true_2 by done. by apply wp_ret, H0. }
  intros s' T' Hu' Hb' Hbig Hlen'. pose proof Hu' as [Hb0 _ _ Hs' Hf' _ _].
  destruct (uheap_freep _ _ _ Hu') as (l1' & [fa fs] & l2' & nx' & HL' & Hff & Hn' & _ & _ & _ & _ & _ & Hm2').
  simpl in *. subst fa. apply Forall_cons in Hm2' as [Hmf' _].
  assert (u_freep s' ≠ 0) as Hne.
  { apply elem_of_cons in Hf' as [->|Hf']; [lia|]. apply list_elem_of_fmap in Hf' as (b & -> & Hb).
    destruct (sorted_elem _ _ _ _ Hs' Hb) as (? & _). unfold hsize in *. lia. }
  rewrite bool_decide_eq_false_2 by done. apply wp_bind, wp_hdr_get; [done|]. rewrite Hn'. cbn [default from_option id h_ptr].
  apply (wp_malloc_scan_hit _ n s' T' A fs); [done|done|lia|done|lia|].
  intros s2 T2 bp Hu2 Hbp Hb2. apply (HQ s2 T2); [done|done|lia].
Qed.

(** ** The interface *)

(** The client's blocks: inside the heap, and no two overlap. *)
Definition valid_blocks (A : gmap Z Z) (brk : Z) : Prop :=
  (∀ bp sz, A !! bp = Some sz → base_sym + hsize <= bp ∧ fin (bp, sz) <= brk) ∧
  (∀ b1 s1 b2 s2, A !! b1 = Some s1 → A !! b2 = Some s2 → b1 ≠ b2 → disj (b1, s1) (b2, s2)).

(** The heap with blocks [A], possibly before the first call of malloc. *)
Definition heap_inv (s : ustate) (A : gmap Z Z) : Prop :=
  (∃ T, uheap s T A) ∨
  u_freep s = 0 ∧ A = ∅ ∧ 0 < base_sym ∧ base_sym + hsize <= u_brk s <= max_brk.

Inductive uop : Type := Malloc (nbytes : Z) | Free (ap : Z) | Store (a : Z) (h : hdr).

Definition urun (o : uop) : M ustate Z :=
  match o with
  | Malloc n => malloc n
  | Free ap => free ap;; mret 0
  | Store a h => hdr_set a h;; mret 0
  end.

Definition uenabled (A : gmap Z Z) (o : uop) : Prop :=
  match o with
  | Malloc n => 0 <= n <= 2 ^ 31 - 32
  | Free ap => ∃ bp sz, ap = padd bp 1 ∧ A !! bp = Some sz
  | Store a h => ∃ bp sz, A !! bp = Some sz ∧ bp + hsize <= a ∧ a + hsize <= fin (bp, sz)
  end.

(** malloc returns the address after the header of a new block with room for
    [n] bytes; it returns 0 only if the kernel has no more memory. *)
Inductive ustep (brk : Z) (A : gmap Z Z) : uop → Z → gmap Z Z → Prop :=
| ustep_malloc n bp sz : A !! bp = None → n <= hsize * (sz - 1) →
    ustep brk A (Malloc n) (padd bp 1) (<[bp := sz]> A)
| ustep_null n k : sbrk_avail brk k = false → ustep brk A (Malloc n) 0 A
| ustep_free bp : ustep brk A (Free (padd bp 1)) 0 (delete bp A)
| ustep_store a h : ustep brk A (Store a h) 0 A.

Lemma heap_inv_valid s A : heap_inv s A → valid_blocks A (u_brk s).
Proof.
  intros [[T Hu]|(_ & -> & _)].
  - split; [|apply (uh_disj _ _ _ Hu)]. intros bp sz Hx. destruct (uh_alloc _ _ _ Hu _ _ Hx) as (? & _ & ? & _). done.
  - split; intros *; by rewrite lookup_empty.
Qed.

(** The list after the initialisation: only [base]. *)
Lemma uheap_init s m :
  0 < base_sym → base_sym + hsize <= u_brk s <= max_brk → m !! base_sym = Some (Hdr base_sym 0) →
  uheap (UState m base_sym (u_brk s)) [] ∅.
Proof.
  intros Hb Hbrk Hm. split; cbn [u_mem u_freep u_brk]; try done.
  - split; [done|]. by exists base_sym.
  - constructor.
Qed.

(** malloc once the list is there. *)
Lemma wp_malloc_list n s T A (Q : Z → ustate → Prop) :
  uheap s T A → 0 <= n <= 2 ^ 31 - 32 →
  (∀ k, sbrk_avail (u_brk s) k = false → Q 0 s) →
  (∀ s' T' bp sz, uheap s' T' (<[bp := sz]> A) → A !! bp = None → n <= hsize * (sz - 1) → Q (padd bp 1) s') →
  wp (h ← hdr_get (u_freep s); fuel ← ring_fuel; malloc_loop fuel (u32 ((n + hsize - 1) / hsize + 1)) (u_freep s) (h_ptr h)) Q s.
Proof.
  intros Hu Hn H0 HQ. destruct (uheap_freep _ _ _ Hu) as (l1 & f & l2 & nx & HL & Hff & Hnx & _ & _ & _ & _ & _ & Hm).
  apply Forall_cons in Hm as [Hm _]. rewrite Hff in *.
  pose proof (ring_length _ _ _ _ (uheap_ring _ _ _ _ _ _ Hu HL)) as Hlen. rewrite <-HL in Hlen. simpl in Hlen.
  apply wp_bind, wp_hdr_get; [done|]. rewrite Hnx. apply wp_bind, wp_bind, wp_uget, wp_ret.
  assert (1 <= (n + hsize - 1) / hsize + 1 < 2 ^ 27 ∧ n <= hsize * ((n + hsize - 1) / hsize)) as [Hu1 Hroom].
  { unfold hsize. Z.to_euclidean_division_equations. lia. }
  rewrite uN_small by lia. apply (wp_malloc_loop _ _ s T A f.2); [done|done|done|lia|apply H0|].
  intros s' T' bp Hu' Hbp _. apply (HQ s' T' _ _ Hu'); [done|]. by rewrite Z.add_simpl_r.
Qed.

Lemma wp_malloc n s A (Q : Z → ustate → Prop) :
  heap_inv s A → 0 <= n <= 2 ^ 31 - 32 →
  (∀ k s', sbrk_avail (u_brk s) k = false → heap_inv s' A → Q 0 s') →
  (∀ s' bp sz, heap_inv s' (<[bp := sz]> A) → A !! bp = None → n <= hsize * (sz - 1) → Q (padd bp 1) s') →
  wp (malloc n) Q s.
Proof.
  intros Hinv Hn H0 HQ. unfold malloc. apply wp_bind, wp_uget. destruct Hinv as [[T Hu]|(Hf & -> & Hb & Hbrk)].
  - assert (u_freep s ≠ 0) as Hne.
    { pose proof Hu as [Hb0 _ _ Hs' Hf' _ _]. apply elem_of_cons in Hf' as [->|Hf']; [lia|].
      apply list_elem_of_fmap in Hf' as (b & -> & Hb). destruct (sorted_elem _ _ _ _ Hs' Hb) as (? & _). unfold hsize in *. lia. }
    rewrite bool_decide_eq_false_2 by done. apply wp_bind, wp_ret. apply (wp_malloc_list n s T A); [done|done| |].
    + intros k Hk. apply (H0 k); [done|]. left. by exists T.
    + intros s' T' bp sz Hu'. apply HQ. left. by exists T'.
  - rewrite bool_decide_eq_true_2 by done.
    assert (∀ m, mapped (UState m (u_freep s) (u_brk s)) base_sym = true) as Hm by (intros m; apply mapped_below; unfold hsize in *; simpl; lia).
    apply wp_bind, wp_bind, wp_set_ptr; [apply (Hm (u_mem s))|]. apply wp_bind, wp_set_freep.
    apply wp_bind, wp_set_size; [exact (Hm ∅)|]. apply wp_ret. cbn [u_mem u_freep u_brk].
    rewrite lookup_insert_eq, insert_insert_eq. cbn [default from_option id h_ptr].
    set (s1 := UState _ _ _). assert (uheap s1 [] ∅) as Hu by (apply uheap_init; [done|done|apply lookup_insert_eq]).
    apply (wp_malloc_list n s1 [] ∅); [done|done| |].
    + intros k Hk. apply (H0 k); [done|]. left. by exists [].
    + intros s' T' bp sz Hu'. apply HQ. left. by exists T'.
Qed.

(** A client that writes inside its block leaves the heap intact. *)
Lemma uheap_store s T A bp sz a h :
  uheap s T A → A !! bp = Some sz → bp + hsize <= a → a + hsize <= fin (bp, sz) →
  uheap (UState (<[a := h]> (u_mem s)) (u_freep s) (u_brk s)) T A.
Proof.
  intros Hu Hbp Hlo Hhi. pose proof Hu as [Hb0 Hbrk Hc Hs Hf Hal Hdj]. destruct (Hal _ _ Hbp) as (Hb1 & Hb2 & Hb3 & _ & Hd).
  split; cbn [u_mem u_freep u_brk]; try done.
  - apply chain_insert; [|done]. rewrite fmap_cons. intros [Hx|Hx]%elem_of_cons; [simpl in Hx; unfold hsize in *; lia|].
    apply list_elem_of_fmap in Hx as (c & -> & Hcin). rewrite Forall_forall in Hd. specialize (Hd c Hcin).
    destruct (sorted_elem _ _ _ _ Hs Hcin) as (_ & Hc2 & _). pose proof (fin_lt c Hc2). unfold disj, hsize in *. simpl in *. lia.
  - intros x y Hx. destruct (Hal _ _ Hx) as (? & Hy & ? & (g & Hg) & ?). split_and!; try done. exists g.
    rewrite lookup_insert_ne; [done|]. intros ->. destruct (decide (bp = x)) as [->|Hne]; [unfold hsize in *; lia|].
    specialize (Hdj _ _ _ _ Hbp Hx Hne). pose proof (fin_lt (x, y) Hy). unfold disj, hsize in *. simpl in *. lia.
Qed.

End malloc.

(** ** Instances: a program with 128 megabytes of memory *)
Definition user_syms : UserSyms := {| base_sym := 8192; sbrk_avail := λ b n, bool_decide (b + n <= 2 ^ 27) |}.

Definition fresh_heap : ustate := UState ∅ 0 16384.


