(* ===== verification/Sh.v ===== *)
(** * user/sh.c: the shell's parser

    [*ps] is the rest of the command line that is still to be parsed; it is the
    state of the parsing functions.  A pointer into the line is kept as its
    distance to the end [es], so that a word is a pair of the distances of [q] and
    [eq].  Commands are polymorphic in the representation of words: the parser
    makes [cmd ptrs], and [cmd (list Z)] has the strings. *)
From S2P Require Import Prelude.
From S2P Require Import Sysfile.
#[local] Open Scope Z_scope.

Definition MAXARGS : nat := 10.

(** struct cmd and its variants *)
Inductive cmd (W : Type) : Type :=
| EXEC (argv : list W)
| REDIR (c : cmd W) (file : W) (mode fd : Z)
| PIPE (left right : cmd W)
| LIST (left right : cmd W)
| BACK (c : cmd W).
Arguments EXEC {W} argv.
Arguments REDIR {W} c file mode fd.
Arguments PIPE {W} left right.
Arguments LIST {W} left right.
Arguments BACK {W} c.

Definition ptrs : Type := nat * nat.

Definition whitespace : list Z := [32; 9; 13; 10; 11].
Definition symbols : list Z := str "<|>&;()".

(** [while(s < es && strchr(whitespace, *s)) s++] *)
Fixpoint skip_ws (s : list Z) : list Z :=
  match s with
  | c :: s' => if bool_decide (c ∈ whitespace) then skip_ws s' else s
  | [] => []
  end.

(** [while(s < es && !strchr(whitespace, *s) && !strchr(symbols, *s)) s++] *)
Fixpoint skip_word (s : list Z) : list Z :=
  match s with
  | c :: s' => if bool_decide (c ∈ whitespace ∨ c ∈ symbols) then s else skip_word s'
  | [] => []
  end.

(** The switch of gettoken: the token's code, and s after it.  0 is the end of
    the line, 97 ('a') a word and 43 ('+') the operator >>. *)
Definition token (s : list Z) : Z * list Z :=
  match s with
  | [] => (0, [])
  | c :: s' =>
      if bool_decide (c ∈ str "|();&<") then (c, s') else
      if bool_decide (c = 62) then
        match s' with
        | d :: s'' => if bool_decide (d = 62) then (43, s'') else (62, s')
        | [] => (62, s')
        end
      else (97, skip_word s)
  end.

Definition gettoken : M (list Z) (Z * ptrs) := λ s,
  let q := skip_ws s in
  let '(ret, eq) := token q in
  Ok (ret, (length q, length eq)) (skip_ws eq).

Definition peek (toks : list Z) : M (list Z) bool := λ s,
  let s := skip_ws s in
  Ok (match s with c :: _ => bool_decide (c ∈ toks) | [] => false end) s.

(** The redirections that parseredirs puts around a command, in order. *)
Definition redir (W : Type) : Type := W * Z * Z.
Definition redircmd {W} (c : cmd W) (r : redir W) : cmd W := let '(f, mode, fd) := r in REDIR c f mode fd.

Fixpoint parseredirs_loop (fuel : nat) : M (list Z) (list (redir ptrs)) :=
  match fuel with
  | O => stuck
  | S fuel' =>
      b ← peek (str "<>");
      if b : bool then
        '(tok, _) ← gettoken;
        '(w, f) ← gettoken;
        if bool_decide (w ≠ 97) then panic "missing file for redirection" else
        let r := if bool_decide (tok = 60) then (f, O_RDONLY, 0)
                 else if bool_decide (tok = 62) then (f, Z.lor (Z.lor O_WRONLY O_CREATE) O_TRUNC, 1)
                 else (f, Z.lor O_WRONLY O_CREATE, 1) in
        rs ← parseredirs_loop fuel'; mret (r :: rs)
      else mret []
  end.

(** Each round of a loop takes at least one character. *)
Definition rounds {A} (loop : nat → M (list Z) A) : M (list Z) A := λ s, loop (S (length s)) s.

Definition parseredirs : M (list Z) (list (redir ptrs)) := rounds parseredirs_loop.

(** [while(!peek(ps, es, "|)&;"))] of parseexec: arguments and redirections *)
Fixpoint parseargs_loop (argc : nat) (fuel : nat) : M (list Z) (list ptrs * list (redir ptrs)) :=
  match fuel with
  | O => stuck
  | S fuel' =>
      b ← peek (str "|)&;");
      if b : bool then mret ([], []) else
      '(tok, w) ← gettoken;
      if bool_decide (tok = 0) then mret ([], []) else
      if bool_decide (tok ≠ 97) then panic "syntax" else
      if bool_decide (MAXARGS <= S argc)%nat then panic "too many args" else
      rs ← parseredirs;
      '(ws, rs') ← parseargs_loop (S argc) fuel';
      mret (w :: ws, rs ++ rs')
  end.

(** [while(peek(ps, es, "&"))] of parseline *)
Fixpoint parseback_loop (c : cmd ptrs) (fuel : nat) : M (list Z) (cmd ptrs) :=
  match fuel with
  | O => stuck
  | S fuel' =>
      b ← peek (str "&");
      if b : bool then gettoken;; parseback_loop (BACK c) fuel' else mret c
  end.

(** The functions of the grammar call each other: each takes the ones that it calls,
    and [parseline] below ties them together. *)
Definition parseline_body (parsepipe parseline : M (list Z) (cmd ptrs)) : M (list Z) (cmd ptrs) :=
  c ← parsepipe;
  c ← rounds (parseback_loop c);
  b ← peek (str ";");
  if b : bool then gettoken;; r ← parseline; mret (LIST c r) else mret c.

Definition parsepipe_body (parseexec parsepipe : M (list Z) (cmd ptrs)) : M (list Z) (cmd ptrs) :=
  c ← parseexec;
  b ← peek (str "|");
  if b : bool then gettoken;; r ← parsepipe; mret (PIPE c r) else mret c.

(** parseredirs is called with ret, whose innermost command is the execcmd that
    the loop still fills; the commands are put together at the end. *)
Definition parseexec_body (parseblock : M (list Z) (cmd ptrs)) : M (list Z) (cmd ptrs) :=
  b ← peek (str "(");
  if b : bool then parseblock else
  rs ← parseredirs;
  '(ws, rs') ← rounds (parseargs_loop 0);
  mret (foldl redircmd (EXEC ws) (rs ++ rs')).

Definition parseblock_body (parseline : M (list Z) (cmd ptrs)) : M (list Z) (cmd ptrs) :=
  b ← peek (str "(");
  if negb b then panic "parseblock" else
  gettoken;;
  c ← parseline;
  b ← peek (str ")");
  if negb b then panic "syntax - missing )" else
  gettoken;;
  rs ← parseredirs;
  mret (foldl redircmd c rs).

Fixpoint parseline (fuel : nat) : M (list Z) (cmd ptrs) :=
  match fuel with O => stuck | S fuel' => parseline_body (parsepipe fuel') (parseline fuel') end
with parsepipe (fuel : nat) : M (list Z) (cmd ptrs) :=
  match fuel with O => stuck | S fuel' => parsepipe_body (parseexec fuel') (parsepipe fuel') end
with parseexec (fuel : nat) : M (list Z) (cmd ptrs) :=
  match fuel with O => stuck | S fuel' => parseexec_body (parseblock fuel') end
with parseblock (fuel : nat) : M (list Z) (cmd ptrs) :=
  match fuel with O => stuck | S fuel' => parseblock_body (parseline fuel') end.

(** [*eq = 0]; [mem] is the line with its NUL *)
Definition put_nul (w : ptrs) (mem : list Z) : list Z := <[(length mem - 1 - w.2)%nat := 0]> mem.

Fixpoint nulterminate (c : cmd ptrs) (mem : list Z) : list Z :=
  match c with
  | EXEC argv => foldl (λ mem w, put_nul w mem) mem argv
  | REDIR c f _ _ => put_nul f (nulterminate c mem)
  | PIPE l r => nulterminate r (nulterminate l mem)
  | LIST l r => nulterminate r (nulterminate l mem)
  | BACK c => nulterminate c mem
  end.

(** The command and the buffer after parsing. *)
Definition parsecmd (s : list Z) : outcome (list Z) (cmd ptrs * list Z) :=
  (c ← parseline (4 * length s + 4);
   peek [];;
   rest ← (λ s, Ok s s);
   if bool_decide (rest ≠ []) then panic "syntax" else
   mret (c, nulterminate c (s ++ [0]))) s.
