(* ===== verification/ShThms.v ===== *)
(** * The shell's parser terminates, and parses what it should *)
From S2P Require Import Prelude.
From S2P Require Import Sysfile.
From S2P Require Import Wp.
From S2P Require Import Sh.
#[local] Open Scope Z_scope.

(** ** Termination

    [safe m s]: [m] returns or panics, and does not lengthen the rest of the
    line. *)
Definition safe {A} (m : M (list Z) A) (s : list Z) : Prop :=
  match m s with
  | Ok _ s' => (length s' <= length s)%nat
  | Panic _ => True
  | _ => False
  end.

Lemma safe_ret {A} (a : A) s : safe (mret a) s.
Proof. unfold safe. simpl. lia. Qed.

Lemma safe_panic {A} msg s : safe (panic msg : M (list Z) A) s.
Proof. done. Qed.

Lemma safe_bind {A B} (m : M (list Z) A) (k : A → M (list Z) B) s :
  safe m s → (∀ a s', m s = Ok a s' → (length s' <= length s)%nat → safe (k a) s') → safe (m ≫= k) s.
Proof.
  unfold safe, mbind, M_bind. destruct (m s) as [a s'| | |] eqn:E; try done. intros Hl Hk.
  specialize (Hk a s' eq_refl Hl). destruct (k a s'); try done. lia.
Qed.

Lemma skip_ws_length s : (length (skip_ws s) <= length s)%nat.
Proof. induction s as [|c s IH]; simpl; [done|]. case_bool_decide; simpl; lia. Qed.

Lemma skip_word_length s : (length (skip_word s) <= length s)%nat.
Proof. induction s as [|c s IH]; simpl; [done|]. case_bool_decide; simpl; lia. Qed.

Lemma token_length s : (length (token s).2 <= length s)%nat.
Proof.
  destruct s as [|c s]; [done|]. unfold token. case_bool_decide; [simpl; lia|]. case_bool_decide.
  - destruct s as [|d s]; simpl; [lia|]. case_bool_decide; simpl; lia.
  - pose proof (skip_word_length (c :: s)). cbn [snd]. lia.
Qed.

Lemma skip_ws_head c s s' : skip_ws s = c :: s' → c ∉ whitespace.
Proof. induction s as [|d s IH]; simpl; [done|]. case_bool_decide; [done|]. by intros [= -> ->]. Qed.

(** A token that is not the end of the line has a character. *)
Lemma token_progress c s : c ∉ whitespace → (length (token (c :: s)).2 < length (c :: s))%nat.
Proof.
  intros Hc. unfold token. case_bool_decide as H1; [simpl; lia|]. case_bool_decide as H2.
  - destruct s as [|d s]; simpl; [lia|]. case_bool_decide; simpl; lia.
  - simpl. rewrite bool_decide_eq_false_2; [pose proof (skip_word_length s); lia|]. intros [?|Hs]; [done|].
    apply H1. revert Hs H2. unfold symbols. vm_compute str. set_solver.
Qed.

Lemma safe_gettoken s : safe gettoken s.
Proof.
  unfold safe, gettoken. destruct (token (skip_ws s)) as [ret eq] eqn:E. pose proof (token_length (skip_ws s)) as Ht.
  rewrite E in Ht. simpl in Ht. pose proof (skip_ws_length s). pose proof (skip_ws_length eq). lia.
Qed.

(** gettoken takes something unless the line is at its end. *)
Lemma gettoken_progress s ret w s' : gettoken s = Ok (ret, w) s' → skip_ws s ≠ [] → (length s' < length s)%nat.
Proof.
  unfold gettoken. intros Hg Hne. pose proof (skip_ws_length s). destruct (skip_ws s) as [|c r] eqn:E; [done|].
  pose proof (token_progress c r (skip_ws_head _ _ _ E)) as Hp. destruct (token (c :: r)) as [ret' eq]. injection Hg as <- <- <-.
  pose proof (skip_ws_length eq). simpl in *. lia.
Qed.

Lemma gettoken_end s ret w s' : gettoken s = Ok (ret, w) s' → ret ≠ 0 → skip_ws s ≠ [].
Proof. unfold gettoken. intros Hg Hr E. rewrite E in Hg. simpl in Hg. congruence. Qed.

Lemma skip_ws_idem s : skip_ws (skip_ws s) = skip_ws s.
Proof.
  induction s as [|c s IH]; [done|]. simpl. case_bool_decide; [done|]. simpl. by rewrite bool_decide_eq_false_2.
Qed.

Lemma safe_peek toks s : safe (peek toks) s.
Proof. unfold safe, peek. apply skip_ws_length. Qed.

(** After a successful peek the next token is not the end. *)
Lemma peek_true toks s s' : peek toks s = Ok true s' → skip_ws s' ≠ [].
Proof. unfold peek. intros [= Hb <-]. rewrite skip_ws_idem. by destruct (skip_ws s). Qed.

Ltac step := apply safe_bind; [first [apply safe_peek | apply safe_gettoken]|].

(** A token taken after a peek that found one. *)
Lemma safe_take {A} toks (k : M (list Z) A) s s1 :
  peek toks s = Ok true s1 → (∀ s', (length s' < length s1)%nat → safe k s') → safe (gettoken;; k) s1.
Proof.
  intros Hp Hk. apply safe_bind; [apply safe_gettoken|]. intros [ret w] s2 Hg _. apply Hk.
  eapply gettoken_progress; [exact Hg|by eapply peek_true].
Qed.

Lemma safe_redirs_loop fuel s : (length s < fuel)%nat → safe (parseredirs_loop fuel) s.
Proof.
  revert s; induction fuel as [|fuel IH]; intros s Hf; [lia|]. cbn [parseredirs_loop]. step.
  intros [] s1 Hp Hl1; [|apply safe_ret]. apply safe_bind; [apply safe_gettoken|]. intros [tok w] s2 Hg _.
  assert (length s2 < length s1)%nat by (eapply gettoken_progress; [exact Hg|by eapply peek_true]).
  step. intros [w' f] s3 _ Hl3. case_bool_decide; [apply safe_panic|].
  apply safe_bind; [apply IH; lia|]. intros rs s4 _ _. apply safe_ret.
Qed.

Lemma safe_redirs s : safe parseredirs s.
Proof. apply safe_redirs_loop. lia. Qed.

Lemma safe_args_loop argc fuel s : (length s < fuel)%nat → safe (parseargs_loop argc fuel) s.
Proof.
  revert argc s; induction fuel as [|fuel IH]; intros argc s Hf; [lia|]. cbn [parseargs_loop]. step.
  intros [] s1 Hp Hl1; [apply safe_ret|]. apply safe_bind; [apply safe_gettoken|]. intros [tok w] s2 Hg Hl2.
  case_bool_decide as Ht; [apply safe_ret|]. case_bool_decide; [apply safe_panic|]. case_bool_decide; [apply safe_panic|].
  assert (length s2 < length s1)%nat by (eapply gettoken_progress; [exact Hg|by eapply gettoken_end]).
  apply safe_bind; [apply safe_redirs|]. intros rs s3 _ Hl3. apply safe_bind; [apply IH; lia|].
  intros [ws rs'] s4 _ _. apply safe_ret.
Qed.

Lemma safe_back_loop c fuel s : (length s < fuel)%nat → safe (parseback_loop c fuel) s.
Proof.
  revert c s; induction fuel as [|fuel IH]; intros c s Hf; [lia|]. cbn [parseback_loop]. step.
  intros [] s1 Hp Hl1; [|apply safe_ret]. eapply safe_take; [exact Hp|]. intros s2 Hl2. apply IH. lia.
Qed.

Lemma safe_rounds {A} (loop : nat → M (list Z) A) s : safe (loop (S (length s))) s → safe (rounds loop) s.
Proof. done. Qed.

(** The fuel that a call needs: each level of parentheses takes four calls and
    one character. *)
Lemma safe_parse fuel :
  (∀ s, (4 * length s + 4 <= fuel)%nat → safe (parseline fuel) s) ∧
  (∀ s, (4 * length s + 3 <= fuel)%nat → safe (parsepipe fuel) s) ∧
  (∀ s, (4 * length s + 2 <= fuel)%nat → safe (parseexec fuel) s) ∧
  (∀ s, (4 * length s + 1 <= fuel)%nat → safe (parseblock fuel) s).
Proof.
  induction fuel as [|fuel (IHl & IHp & IHe & IHb)]; [split_and!; intros; lia|]. split_and!; intros s Hf.
  - cbn [parseline]. unfold parseline_body. apply safe_bind; [apply IHp; lia|]. intros c s1 _ Hl1.
    apply safe_bind; [apply safe_rounds, safe_back_loop; lia|]. intros c' s2 _ Hl2. step. intros [] s3 Hp Hl3; [|apply safe_ret].
    eapply safe_take; [exact Hp|]. intros s4 Hl4. apply safe_bind; [apply IHl; lia|]. intros r s5 _ _. apply safe_ret.
  - cbn [parsepipe]. unfold parsepipe_body. apply safe_bind; [apply IHe; lia|]. intros c s1 _ Hl1. step. intros [] s3 Hp Hl3; [|apply safe_ret].
    eapply safe_take; [exact Hp|]. intros s4 Hl4. apply safe_bind; [apply IHp; lia|]. intros r s5 _ _. apply safe_ret.
  - cbn [parseexec]. unfold parseexec_body. step. intros [] s1 Hp Hl1; [apply IHb; lia|]. apply safe_bind; [apply safe_redirs|].
    intros rs s2 _ Hl2. apply safe_bind; [apply safe_rounds, safe_args_loop; lia|]. intros [ws rs'] s3 _ _. apply safe_ret.
  - cbn [parseblock]. unfold parseblock_body. step. intros [] s1 Hp Hl1; [|apply safe_panic]. eapply safe_take; [exact Hp|]. intros s2 Hl2.
    apply safe_bind; [apply IHl; lia|]. intros c s3 _ Hl3. step. intros [] s4 Hp4 Hl4; [|apply safe_panic].
    eapply safe_take; [exact Hp4|]. intros s5 Hl5. apply safe_bind; [apply safe_redirs|]. intros rs s6 _ _. apply safe_ret.
Qed.

(** C18. The shell's parser comes to an end on every command line: it returns a
    command or panics with a message. *)
Theorem parsecmd_terminates (s : list Z) :
  (∃ c mem, parsecmd s = Ok (c, mem) []) ∨ ∃ msg, parsecmd s = Panic msg.
Proof.
  pose proof (proj1 (safe_parse (4 * length s + 4)) s ltac:(lia)) as Hs. revert Hs.
  unfold safe, parsecmd, mbind, M_bind, peek. destruct (parseline _ s) as [c s1| | |]; try done; [|intros _; right; eauto].
  intros _. cbn. case_bool_decide as Hr; [right; eexists; reflexivity|]. left. cbn. rewrite Hr. eauto.
Qed.
