(* ===== verification/ShRun.v ===== *)
(** * user/sh.c: runcmd, the system calls it makes and the main loop

    [prog] are the system calls of a process that runs a command; a call's result
    chooses how the process continues.  [run] gives the programs that are started,
    each with its file descriptors, when the kernel gives out the lowest free
    descriptor and a child starts with a copy of its parent's table.  Any call may
    fail: calls are named by their place in the run, 0 for what follows a call and
    1 for the child of a fork, and an oracle says which of them fail. *)
From S2P Require Import Prelude.
From S2P Require Import Params.
From S2P Require Import KString.
From S2P Require Import Sysfile.
From S2P Require Import Sh.
#[local] Open Scope Z_scope.

Inductive prog : Type :=
| Exit (status : Z)
| Exec (argv : list (list Z)) (k : prog)
| Close (fd : nat) (k : prog)
| Open (file : list Z) (mode : Z) (k : option nat → prog)
| Dup (fd : nat) (k : prog)
| Pipe (k : option (nat * nat) → prog)
| Fork (k : option Z → prog)
| Wait (k : prog)
| Fprintf (fd : nat) (s : list Z) (k : prog).

Definition sh_panic (s : list Z) : prog := Fprintf 2 (s ++ [10]) (Exit 1).

(** The child continues with 0. *)
Definition fork1 (k : Z → prog) : prog :=
  Fork (λ pid, match pid with None => sh_panic (str "fork") | Some pid => k pid end).

Fixpoint runcmd (c : cmd (list Z)) : prog :=
  match c with
  | EXEC argv =>
      match argv with
      | [] => Exit 1
      | arg0 :: _ => Exec argv (Fprintf 2 (str "exec " ++ arg0 ++ str " failed" ++ [10]) (Exit 0))
      end
  | REDIR c file mode fd =>
      Close (Z.to_nat fd) (Open file mode (λ r,
        match r with
        | None => Fprintf 2 (str "open " ++ file ++ str " failed" ++ [10]) (Exit 1)
        | Some _ => runcmd c
        end))
  | LIST l r =>
      fork1 (λ pid, if bool_decide (pid = 0) then runcmd l else Wait (runcmd r))
  | PIPE l r =>
      Pipe (λ p, match p with
      | None => sh_panic (str "pipe")
      | Some (p0, p1) =>
          fork1 (λ pid, if bool_decide (pid = 0) then
            Close 1 (Dup p1 (Close p0 (Close p1 (runcmd l))))
          else fork1 (λ pid, if bool_decide (pid = 0) then
            Close 0 (Dup p0 (Close p0 (Close p1 (runcmd r))))
          else Close p0 (Close p1 (Wait (Wait (Exit 0))))))
      end)
  | BACK c => fork1 (λ pid, if bool_decide (pid = 0) then runcmd c else Exit 0)
  end.

(** ** What the calls do *)
Abbreviation place := (list nat).

(** An open file: one of those the shell started with, a file opened by a
    redirection, or an end of a pipe. *)
Inductive ofile : Type :=
| Inherited (n : nat)
| Opened (at_ : place) (file : list Z) (mode : Z)
| PipeR (at_ : place)
| PipeW (at_ : place).

Abbreviation fdtable := (gmap nat ofile).

Definition fd_alloc (t : fdtable) : option nat := snd <$> list_find (λ fd, t !! fd = None) (seq 0 NOFILE).

Definition job : Type := list (list Z) * fdtable.

Section run.
Context (fails : place → bool).

(** The programs started, in the order of the forks. *)
Fixpoint run (at_ : place) (p : prog) (t : fdtable) : list job :=
  match p with
  | Exit _ => []
  | Exec argv k => if fails at_ then run (0%nat :: at_) k t else [(argv, t)]
  | Close fd k => run at_ k (delete fd t)
  | Open file mode k =>
      match (if fails at_ then None else fd_alloc t) with
      | None => run (0%nat :: at_) (k None) t
      | Some fd => run (0%nat :: at_) (k (Some fd)) (<[fd := Opened at_ file mode]> t)
      end
  | Dup fd k =>
      match t !! fd, fd_alloc t with
      | Some f, Some fd' => run at_ k (<[fd' := f]> t)
      | _, _ => run at_ k t
      end
  | Pipe k =>
      match (if fails at_ then None else fd_alloc t) with
      | None => run (0%nat :: at_) (k None) t
      | Some p0 =>
          match fd_alloc (<[p0 := PipeR at_]> t) with
          | None => run (0%nat :: at_) (k None) t
          | Some p1 => run (0%nat :: at_) (k (Some (p0, p1))) (<[p1 := PipeW at_]> (<[p0 := PipeR at_]> t))
          end
      end
  | Fork k =>
      if fails at_ then run (0%nat :: at_) (k None) t
      else run (1%nat :: at_) (k (Some 0)) t ++ run (0%nat :: at_) (k (Some 1)) t
  | Wait k => run at_ k t
  | Fprintf _ _ k => run at_ k t
  end.
End run.

(** The first loop of main: open the console until descriptors 0, 1 and 2 are
    open.  At most NOFILE opens succeed. *)
Fixpoint open_console (fuel : nat) (fails : place → bool) (at_ : place) (t : fdtable) : fdtable :=
  match fuel with
  | O => t
  | S fuel' =>
      match (if fails at_ then None else fd_alloc t) with
      | None => t
      | Some fd =>
          if bool_decide (3 <= fd)%nat then t
          else open_console fuel' fails (0%nat :: at_) (<[fd := Opened at_ (str "console") O_RDWR]> t)
      end
  end.

(** ** The parsed command

    runcmd follows the pointers of the command into the line. *)
Fixpoint cmd_map {V W} (f : V → W) (c : cmd V) : cmd W :=
  match c with
  | EXEC ws => EXEC (f <$> ws)
  | REDIR c w mode fd => REDIR (cmd_map f c) (f w) mode fd
  | PIPE l r => PIPE (cmd_map f l) (cmd_map f r)
  | LIST l r => LIST (cmd_map f l) (cmd_map f r)
  | BACK c => BACK (cmd_map f c)
  end.

(** The C string that a word's pointer points to. *)
Definition read_word (mem : list Z) (w : ptrs) : list Z := cstr (drop (length mem - 1 - w.1) mem).

(** ** The lines *)

(** gets of user/ulib.c: the line and the rest of the input.  [max] is the size of
    the buffer, which ends with a NUL. *)
Fixpoint gets_loop (n : nat) (input : list Z) : list Z * list Z :=
  match n, input with
  | S n', c :: input' =>
      if bool_decide (c = 10 ∨ c = 13) then ([c], input') else
      let '(l, rest) := gets_loop n' input' in (c :: l, rest)
  | _, _ => ([], input)
  end.
Definition gets (max : nat) (input : list Z) : list Z * list Z := gets_loop (max - 1) input.

Definition sh_bufsize : nat := 100.

(** [getcmd(buf, sizeof(buf)) >= 0]; [None] is the end of the input.  [buf] was
    cleared, so the string in it is what gets read, up to a NUL. *)
Definition getcmd (input : list Z) : option (list Z * list Z) :=
  let '(l, rest) := gets sh_bufsize input in
  match cstr l with [] => None | l' => Some (l', rest) end.

Inductive action : Type :=
| Blank
| Chdir (dir : list Z)
| Run (line : list Z)
| NoFork.

(** [while ( *cmd == ' ' || *cmd == '\t') cmd++] *)
Fixpoint skip_blanks (s : list Z) : list Z :=
  match s with
  | c :: s' => if bool_decide (c = 32 ∨ c = 9) then skip_blanks s' else s
  | [] => []
  end.

(** The body of main's loop.  [removelast] is [cmd[strlen(cmd)-1] = 0]. *)
Definition command (buf : list Z) : action :=
  let cmd := skip_blanks buf in
  if bool_decide (head cmd = Some 10) then Blank else
  if bool_decide (take 3 cmd = str "cd ") then Chdir (drop 3 (removelast cmd)) else Run cmd.

(** [runcmd(parsecmd(cmd))] in the child, for a shell with the descriptors [t]. *)
Definition exec_line (fails : place → bool) (t : fdtable) (line : list Z) : list job :=
  match parsecmd line with
  | Ok (c, mem) _ => run fails [] (runcmd (cmd_map (read_word mem) c)) t
  | _ => []
  end.

(** What main does with its input, line by line; [no_fork n] says whether the fork
    for the line that [n] lines precede fails, which ends the shell. *)
Fixpoint sh_loop (no_fork : nat → bool) (n fuel : nat) (input : list Z) : list action :=
  match fuel with
  | O => []
  | S fuel' =>
      match getcmd input with
      | None => []
      | Some (buf, rest) =>
          match command buf with
          | Run line => if no_fork n then [NoFork] else Run line :: sh_loop no_fork (S n) fuel' rest
          | a => a :: sh_loop no_fork (S n) fuel' rest
          end
      end
  end.

(** Every line takes at least one character. *)
Definition sh_main (no_fork : nat → bool) (input : list Z) : list action := sh_loop no_fork 0 (S (length input)) input.
