(* ===== verification/ShRound.v ===== *)
(** * The shell's parser reads back every command it can be given

    nulterminate puts a NUL after each word.  The printed line has a space there,
    and so the strings that the parsed command points to are the words of the
    command that was printed. *)
From S2P Require Import Prelude.
From S2P Require Import KString.
From S2P Require Import Sysfile.
From S2P Require Import Wp.
From S2P Require Import Sh.
From S2P Require Import ShRun.
#[local] Open Scope Z_scope.

(** ** The parser on printed commands *)

(** ** Commands as text, and the tokens of the shell

    [toks lvl c] are the tokens of a command line for [c]; every token is written
    with a space after it, and the line ends with a newline.  The levels are those of the grammar: 0 a line, 1 a
    pipeline with [&], 2 a pipeline, 3 what stands between bars. *)

Inductive tok : Type := TWord (w : list Z) | TSym (c : Z) | TApp.

#[global] Instance tok_eq_dec : EqDecision tok.
Proof. solve_decision. Defined.

Definition space : Z := 32.

Definition tok_chars (t : tok) : list Z :=
  match t with TWord w => w | TSym c => [c] | TApp => [62; 62] end.

Definition tok_code (t : tok) : Z := match t with TWord _ => 97 | TSym c => c | TApp => 43 end.

Definition first_char (t : tok) : Z := default 0 (head (tok_chars t)).

Definition word_char (c : Z) : Prop := (c ∉ whitespace) ∧ (c ∉ symbols) ∧ c ≠ 0.
Definition word_ok (w : list Z) : Prop := w ≠ [] ∧ Forall word_char w.

Definition tok_ok (t : tok) : Prop :=
  match t with TWord w => word_ok w | TSym c => c ∈ symbols | TApp => True end.

Definition newline : Z := 10.

Fixpoint text (ts : list tok) : list Z :=
  match ts with
  | [] => []
  | [t] => tok_chars t ++ [space; newline]
  | t :: ts' => tok_chars t ++ space :: text ts'
  end.

(** What follows the space after a token. *)
Definition rest (ts : list tok) : list Z := match ts with [] => [newline] | _ => text ts end.

Lemma text_cons t ts : text (t :: ts) = tok_chars t ++ space :: rest ts.
Proof. by destruct ts. Qed.

Lemma rest_length ts : (length (text ts) <= length (rest ts))%nat.
Proof. destruct ts; simpl; lia. Qed.

Lemma text_suffix ts1 ts2 : ∃ pre, text (ts1 ++ ts2) = pre ++ text ts2.
Proof.
  induction ts1 as [|t ts1 [pre IH]]; [by exists []|]. simpl app. rewrite text_cons. unfold rest.
  destruct (ts1 ++ ts2) as [|t' ts] eqn:E.
  - apply app_eq_nil in E as [-> ->]. eexists. by rewrite app_nil_r.
  - exists (tok_chars t ++ space :: pre). by rewrite IH, <-app_assoc.
Qed.

Lemma text_suffix_length ts1 ts2 : (length (text ts2) <= length (text (ts1 ++ ts2)))%nat.
Proof. destruct (text_suffix ts1 ts2) as [pre ->]. rewrite length_app. lia. Qed.

Lemma tok_chars_cons t : tok_ok t → ∃ c l, tok_chars t = c :: l ∧ first_char t = c ∧ c ∉ whitespace.
Proof.
  destruct t as [[|c w]|c|]; simpl; intros Ht.
  - by destruct Ht.
  - exists c, w. destruct Ht as [_ [[? _] _]%Forall_cons]. done.
  - exists c, []. split_and!; [done|done|]. revert Ht. unfold symbols, whitespace. vm_compute str. set_solver by lia.
  - exists 62, [62]. split_and!; [done|done|]. apply (bool_decide_unpack _). vm_compute. exact I.
Qed.

Lemma text_length t ts : tok_ok t → (2 + length (text ts) <= length (text (t :: ts)))%nat.
Proof.
  intros (c & l & E & _)%tok_chars_cons. pose proof (rest_length ts). rewrite text_cons, E. simpl.
  rewrite length_app. simpl. lia.
Qed.

Lemma tokens_length ts : Forall tok_ok ts → (length ts <= length (text ts))%nat.
Proof.
  induction ts as [|t ts IH]; [done|]. intros [Ht Hts]%Forall_cons. pose proof (text_length t ts Ht). specialize (IH Hts).
  cbn [length]. lia.
Qed.

Lemma skip_ws_text ts : Forall tok_ok ts → skip_ws (text ts) = text ts.
Proof.
  destruct ts as [|t ts]; [done|]. intros [Ht _]%Forall_cons. destruct (tok_chars_cons t Ht) as (c & l & E & _ & Hc).
  rewrite text_cons, E. simpl. by rewrite bool_decide_eq_false_2.
Qed.

Lemma skip_word_text w s : Forall word_char w → skip_word (w ++ space :: s) = space :: s.
Proof.
  induction w as [|c w IH]; simpl; [done|]. intros [[Hw [Hs _]] Hf]%Forall_cons. rewrite bool_decide_eq_false_2 by tauto. by apply IH.
Qed.

Lemma token_text t s : tok_ok t → token (tok_chars t ++ space :: s) = (tok_code t, space :: s).
Proof.
  destruct t as [w|c|]; intros Ht; [|simpl..].
  - destruct Ht as [Hne Hw]. destruct w as [|c w]; [done|]. cbn [tok_chars tok_code]. unfold token. cbn [app].
    pose proof Hw as [[_ [Hs _]] _]%Forall_cons.
    rewrite bool_decide_eq_false_2 by (revert Hs; unfold symbols; vm_compute str; set_solver).
    rewrite bool_decide_eq_false_2 by (intros ->; apply Hs; apply (bool_decide_unpack _); vm_compute; exact I).
    change (c :: w ++ space :: s) with ((c :: w) ++ space :: s). by rewrite skip_word_text.
  - destruct (decide (c = 62)) as [->|Hc]; [done|]. rewrite bool_decide_eq_true_2; [done|].
    revert Ht Hc. simpl. unfold symbols. vm_compute str. set_solver.
  - done.
Qed.

Lemma gettoken_text t ts :
  Forall tok_ok (t :: ts) →
  gettoken (text (t :: ts)) = Ok (tok_code t, (length (text (t :: ts)), length (space :: rest ts))) (text ts).
Proof.
  intros Hts. pose proof Hts as [Ht Hts']%Forall_cons. unfold gettoken. rewrite (skip_ws_text (t :: ts)) by done.
  rewrite text_cons at 1. rewrite token_text by done. f_equal. simpl. destruct ts; [done|]. by apply skip_ws_text.
Qed.

(** The next token starts with one of the characters. *)
Definition starts (chars : list Z) (ts : list tok) : bool :=
  match ts with t :: _ => bool_decide (first_char t ∈ chars) | [] => false end.

Lemma peek_text chars ts : Forall tok_ok ts → peek chars (text ts) = Ok (starts chars ts) (text ts).
Proof.
  intros Hts. unfold peek. rewrite skip_ws_text by done. destruct ts as [|t ts]; [done|].
  apply Forall_cons in Hts as [Ht _]. destruct (tok_chars_cons t Ht) as (c & l & E & Hf & _).
  rewrite text_cons, E. cbn [app]. unfold starts. by rewrite Hf.
Qed.

(** ** Printing *)
Abbreviation scmd := (cmd (list Z)).
Abbreviation sredir := (redir (list Z)).

Definition O_OUT : Z := Z.lor (Z.lor O_WRONLY O_CREATE) O_TRUNC.
Definition O_APPEND : Z := Z.lor O_WRONLY O_CREATE.

Definition redir_op (mode : Z) : tok :=
  if bool_decide (mode = O_RDONLY) then TSym 60 else if bool_decide (mode = O_OUT) then TSym 62 else TApp.

Definition redir_toks (r : sredir) : list tok := let '(f, mode, _) := r in [redir_op mode; TWord f].

(** [<], [>] and [>>] *)
Definition redir_ok (r : sredir) : Prop :=
  let '(f, mode, fd) := r in
  word_ok f ∧ (mode = O_RDONLY ∧ fd = 0 ∨ mode = O_OUT ∧ fd = 1 ∨ mode = O_APPEND ∧ fd = 1).

Definition rtoks (rs : list sredir) : list tok := rs ≫= redir_toks.

Definition paren (b : bool) (ts : list tok) : list tok := if b then TSym 40 :: ts ++ [TSym 41] else ts.

Fixpoint toks (lvl : nat) (c : scmd) : list tok :=
  match c with
  | EXEC ws => TWord <$> ws
  | REDIR c f mode fd => toks 3 c ++ redir_toks (f, mode, fd)
  | PIPE l r => paren (bool_decide (2 < lvl)%nat) (toks 3 l ++ TSym 124 :: toks 2 r)
  | LIST l r => paren (bool_decide (0 < lvl)%nat) (toks 1 l ++ TSym 59 :: toks 0 r)
  | BACK c => paren (bool_decide (1 < lvl)%nat) (toks 1 c ++ [TSym 38])
  end.

Fixpoint cmd_ok (c : scmd) : Prop :=
  match c with
  | EXEC ws => Forall word_ok ws ∧ (length ws < MAXARGS)%nat
  | REDIR c f mode fd => cmd_ok c ∧ redir_ok (f, mode, fd)
  | PIPE l r | LIST l r => cmd_ok l ∧ cmd_ok r
  | BACK c => cmd_ok c
  end.

Definition print (c : scmd) : list Z := text (toks 0 c).

Lemma redir_toks_ok r : redir_ok r → Forall tok_ok (redir_toks r).
Proof.
  destruct r as [[f mode] fd]. intros [Hf _]. constructor; [|by constructor]. unfold redir_op.
  repeat case_bool_decide; simpl; apply (bool_decide_unpack _); vm_compute; exact I.
Qed.

Lemma rtoks_ok rs : Forall redir_ok rs → Forall tok_ok (rtoks rs).
Proof.
  induction rs as [|r rs IH]; [constructor|]. intros [Hr Hrs]%Forall_cons. apply Forall_app.
  split; [by apply redir_toks_ok|by apply IH].
Qed.

Lemma paren_ok b ts : Forall tok_ok ts → Forall tok_ok (paren b ts).
Proof.
  intros Hts. destruct b; [|done]. constructor; [apply (bool_decide_unpack _); vm_compute; exact I|].
  apply Forall_app. split; [done|]. constructor; [apply (bool_decide_unpack _); vm_compute; exact I|constructor].
Qed.

Lemma toks_ok lvl c : cmd_ok c → Forall tok_ok (toks lvl c).
Proof.
  assert (tok_ok (TSym 124) ∧ tok_ok (TSym 59) ∧ tok_ok (TSym 38)) as (H1 & H2 & H3).
  { split_and!; apply (bool_decide_unpack _); vm_compute; exact I. }
  revert lvl; induction c as [ws|c IH f mode fd|l IHl r IHr|l IHl r IHr|c IH]; intros lvl; cbn [toks cmd_ok].
  - intros [Hws _]. by apply Forall_fmap.
  - intros [Hc Hr]. apply Forall_app. split; [by apply IH|by apply redir_toks_ok].
  - intros [Hl Hr]. apply paren_ok, Forall_app. split; [by apply IHl|]. constructor; [done|by apply IHr].
  - intros [Hl Hr]. apply paren_ok, Forall_app. split; [by apply IHl|]. constructor; [done|by apply IHr].
  - intros Hc. apply paren_ok, Forall_app. split; [by apply IH|]. by constructor.
Qed.

(** ** What the parser makes of a word *)
Definition ptr_rel (buf : list Z) (p : ptrs) (w : list Z) : Prop :=
  word_ok w ∧ ∃ pre r, buf = pre ++ w ++ space :: r ∧ p = (length (w ++ space :: r), length (space :: r)).

Inductive cmd_rel (R : ptrs → list Z → Prop) : cmd ptrs → scmd → Prop :=
| rel_exec ps ws : Forall2 R ps ws → cmd_rel R (EXEC ps) (EXEC ws)
| rel_redir t c p f mode fd : cmd_rel R t c → R p f → cmd_rel R (REDIR t p mode fd) (REDIR c f mode fd)
| rel_pipe t c t' c' : cmd_rel R t c → cmd_rel R t' c' → cmd_rel R (PIPE t t') (PIPE c c')
| rel_list t c t' c' : cmd_rel R t c → cmd_rel R t' c' → cmd_rel R (LIST t t') (LIST c c')
| rel_back t c : cmd_rel R t c → cmd_rel R (BACK t) (BACK c).

Definition redir_rel (R : ptrs → list Z → Prop) (r : redir ptrs) (r' : sredir) : Prop :=
  R r.1.1 r'.1.1 ∧ r.1.2 = r'.1.2 ∧ r.2 = r'.2.

Lemma rel_redirs R t c rs rs' :
  cmd_rel R t c → Forall2 (redir_rel R) rs rs' → cmd_rel R (foldl redircmd t rs) (foldl redircmd c rs').
Proof.
  intros Ht Hrs. revert t c Ht. induction Hrs as [|[[p m] fd] [[f m'] fd'] rs rs' (Hr & Hm & Hfd) _ IH]; intros t c Ht; [done|].
  simpl in *. subst. apply IH. by constructor.
Qed.

(** Run the next operation, which is known to succeed. *)
Tactic Notation "run" tactic3(t) := erewrite bind_run by (t); lazy beta iota.

Section parse.
Context (buf : list Z).

Abbreviation R := (ptr_rel buf).

(** The tokens are at the end of the line. *)
Definition sfx (ts : list tok) : Prop := ∃ pre, buf = pre ++ text ts.

Lemma sfx_app ts1 ts2 : sfx (ts1 ++ ts2) → sfx ts2.
Proof. intros [pre E]. destruct (text_suffix ts1 ts2) as [pre' E']. exists (pre ++ pre'). by rewrite E, E', app_assoc. Qed.

Lemma sfx_cons t ts : sfx (t :: ts) → sfx ts.
Proof. apply (sfx_app [t]). Qed.

Lemma sfx_word w ts :
  sfx (TWord w :: ts) → word_ok w → R (length (text (TWord w :: ts)), length (space :: rest ts)) w.
Proof. intros [pre E] Hw. split; [done|]. exists pre, (rest ts). by rewrite E, text_cons. Qed.

(** A character that is in one list of constants and not in another. *)
Lemma starts_word chars w ts : word_ok w → (∀ c, c ∈ chars → c ∈ symbols) → starts chars (TWord w :: ts) = false.
Proof.
  intros [Hne Hw] Hch. destruct w as [|c w]; [done|]. apply Forall_cons in Hw as [[_ [Hs _]] _].
  unfold starts, first_char. simpl. apply bool_decide_eq_false. auto.
Qed.


(** ** Redirections *)
Lemma redir_op_code mode fd f :
  redir_ok (f, mode, fd) →
  starts (str "<>") [redir_op mode] = true ∧
  ∀ p : ptrs, (if bool_decide (tok_code (redir_op mode) = 60) then (p, O_RDONLY, 0)
     else if bool_decide (tok_code (redir_op mode) = 62) then (p, Z.lor (Z.lor O_WRONLY O_CREATE) O_TRUNC, 1)
     else (p, Z.lor O_WRONLY O_CREATE, 1)) = (p, mode, fd).
Proof. intros [_ [[-> ->]|[[-> ->]|[-> ->]]]]; split; by vm_compute. Qed.

Lemma parse_redirs_loop fuel rs ts :
  Forall redir_ok rs → Forall tok_ok ts → starts (str "<>") ts = false → sfx (rtoks rs ++ ts) → (length rs < fuel)%nat →
  ∃ rs', parseredirs_loop fuel (text (rtoks rs ++ ts)) = Ok rs' (text ts) ∧ Forall2 (redir_rel R) rs' rs.
Proof.
  revert fuel; induction rs as [|[[f mode] fd] rs IH]; intros [|fuel] Hrs Hts Hst Hsfx Hf; simpl in Hf; try lia; cbn [parseredirs_loop].
  - exists []. split; [|constructor]. cbn [rtoks mbind list_bind app]. run (by apply peek_text). by rewrite Hst.
  - apply Forall_cons in Hrs as [Hr Hrs]. destruct (redir_op_code _ _ _ Hr) as [Hop Hcode].
    change (rtoks ((f, mode, fd) :: rs) ++ ts) with (redir_op mode :: TWord f :: (rtoks rs ++ ts)) in *.
    assert (Forall tok_ok (redir_op mode :: TWord f :: (rtoks rs ++ ts))) as Hall.
    { change (Forall tok_ok (redir_toks (f, mode, fd) ++ (rtoks rs ++ ts))). rewrite !Forall_app.
      split_and!; [by apply redir_toks_ok|by apply rtoks_ok|done]. }
    pose proof Hall as [_ Hall1]%Forall_cons. pose proof Hall1 as [Hw _]%Forall_cons.
    run (by apply peek_text). change (starts _ (_ :: _)) with (starts (str "<>") [redir_op mode]). rewrite Hop. lazy iota.
    run (by apply gettoken_text). run (by apply gettoken_text).
    cbn [tok_code]. rewrite bool_decide_eq_false_2 by lia.
    destruct (IH fuel) as (rs' & Hrun & Hrel); [done|done|done|by apply sfx_cons, sfx_cons in Hsfx|lia|].
    run (exact Hrun). eexists. split; [done|]. constructor; [|done].
    rewrite Hcode. split_and!; [|done|done]. simpl. apply sfx_word; [by apply sfx_cons in Hsfx|done].
Qed.

Lemma rtoks_length rs : (length rs <= length (rtoks rs))%nat.
Proof.
  induction rs as [|[[f mode] fd] rs IH]; [done|].
  change (rtoks ((f, mode, fd) :: rs)) with (redir_op mode :: TWord f :: rtoks rs). cbn [length]. lia.
Qed.

Lemma parse_redirs rs ts :
  Forall redir_ok rs → Forall tok_ok ts → starts (str "<>") ts = false → sfx (rtoks rs ++ ts) →
  ∃ rs', parseredirs (text (rtoks rs ++ ts)) = Ok rs' (text ts) ∧ Forall2 (redir_rel R) rs' rs.
Proof.
  intros Hrs Hts Hst Hsfx. apply (parse_redirs_loop (S (length (text (rtoks rs ++ ts))))); try done.
  pose proof (tokens_length (rtoks rs ++ ts)) as Hl. rewrite length_app, Forall_app in Hl.
  specialize (Hl (conj (rtoks_ok _ Hrs) Hts)). pose proof (rtoks_length rs). lia.
Qed.

(** ** Arguments *)

(** What may follow at each level: the end of the line or one of the characters. *)
Definition follow (chars : list Z) (ts : list tok) : Prop := ts = [] ∨ starts chars ts = true.

Lemma follow_mono chars chars' ts : (∀ c, c ∈ chars → c ∈ chars') → follow chars ts → follow chars' ts.
Proof.
  intros Hc [->|Hs]; [by left|]. right. destruct ts as [|t ts]; [done|]. unfold starts in *.
  rewrite bool_decide_eq_true in *. auto.
Qed.

Lemma follow_not chars chars' ts : (∀ c, c ∈ chars → c ∉ chars') → follow chars ts → starts chars' ts = false.
Proof.
  intros Hc [->|Hs]; [done|]. destruct ts as [|t ts]; [done|]. unfold starts in *.
  apply bool_decide_eq_false. apply Hc. by rewrite bool_decide_eq_true in Hs.
Qed.

(** No word starts with a symbol. *)
Ltac consts := let c := fresh in intros c; unfold symbols; vm_compute str; set_solver.

Lemma gettoken_end_text : gettoken (text []) = Ok (0, (0, 0)%nat) (text []).
Proof. done. Qed.

Lemma parse_args_none argc fuel ts :
  Forall tok_ok ts → follow (str "|)&;") ts → parseargs_loop argc (S fuel) (text ts) = Ok ([], []) (text ts).
Proof.
  intros Hts Hf. cbn [parseargs_loop]. run (by apply peek_text). destruct Hf as [->| ->]; [|done].
  cbn [starts]. lazy iota. by run (by apply gettoken_end_text).
Qed.

(** The words, the last of which the redirections follow. *)
Lemma parse_args argc fuel w ws rs ts :
  Forall word_ok (w :: ws) → Forall redir_ok rs → Forall tok_ok ts → follow (str "|)&;") ts →
  (argc + length (w :: ws) < MAXARGS)%nat → sfx ((TWord <$> w :: ws) ++ rtoks rs ++ ts) → (S (length (w :: ws)) <= fuel)%nat →
  ∃ ps rs', parseargs_loop argc fuel (text ((TWord <$> w :: ws) ++ rtoks rs ++ ts)) = Ok (ps, rs') (text ts) ∧
    Forall2 R ps (w :: ws) ∧ Forall2 (redir_rel R) rs' rs.
Proof.
  revert argc fuel w; induction ws as [|w' ws IH]; intros argc [|fuel] w Hws Hrs Hts Hf Hargc Hsfx Hfuel; simpl in Hargc, Hfuel; try lia;
    cbn [parseargs_loop]; apply Forall_cons in Hws as [Hw Hws];
    rewrite fmap_cons in *; cbn [app] in *; pose proof (sfx_cons _ _ Hsfx) as Hsfx';
    (assert (Forall tok_ok (rtoks rs ++ ts)) as Hrts by (apply Forall_app; split; [by apply rtoks_ok|done])).
  - rewrite fmap_nil in *. cbn [app] in *. assert (Forall tok_ok (TWord w :: rtoks rs ++ ts)) as Hall by by constructor.
    run (by apply peek_text). rewrite starts_word by (done || consts). lazy iota. run (by apply gettoken_text).
    cbn [tok_code]. rewrite !bool_decide_eq_false_2 by lia.
    destruct (parse_redirs rs ts) as (rs' & Hrun & Hrel); [done|done| |done|].
    { eapply follow_not; [|exact Hf]. consts. }
    run (exact Hrun). destruct fuel as [|fuel]; [lia|]. run (by apply parse_args_none). eexists [_], rs'.
    split_and!; [by rewrite app_nil_r| |done]. constructor; [by apply sfx_word|constructor].
  - assert (Forall tok_ok (TWord w :: (TWord <$> w' :: ws) ++ rtoks rs ++ ts)) as Hall.
    { constructor; [done|]. apply Forall_app. split; [by apply Forall_fmap|done]. }
    pose proof Hall as [_ Hall']%Forall_cons.
    run (by apply peek_text). rewrite starts_word by (done || consts). lazy iota. run (by apply gettoken_text).
    cbn [tok_code]. rewrite !bool_decide_eq_false_2 by (simpl in *; lia).
    destruct (parse_redirs [] ((TWord <$> w' :: ws) ++ rtoks rs ++ ts)) as (rs0 & Hrun & Hrel0); [constructor|done| |done|].
    { rewrite fmap_cons. cbn [app]. apply starts_word; [by apply Forall_cons in Hws as [? _]|consts]. }
    cbn [rtoks mbind list_bind app] in Hrun. run (exact Hrun). inversion Hrel0; subst.
    destruct (IH (S argc) fuel w') as (ps & rs' & Hrun' & Hps & Hrs'); [done|done|done|done|simpl; lia|done|simpl; lia|].
    run (exact Hrun'). eexists _, rs'. split_and!; [done| |done]. constructor; [|done]. by apply sfx_word.
Qed.

(** ** The levels of the grammar *)
Definition P3 (c : scmd) : Prop := ∀ rs ts f,
  Forall redir_ok rs → Forall tok_ok ts → follow (str "|)&;") ts → sfx (toks 3 c ++ rtoks rs ++ ts) →
  (4 * length (text (toks 3 c ++ rtoks rs ++ ts)) + 2 <= f)%nat →
  ∃ t, parseexec f (text (toks 3 c ++ rtoks rs ++ ts)) = Ok t (text ts) ∧ cmd_rel R t (foldl redircmd c rs).

Definition P2 (c : scmd) : Prop := ∀ ts f,
  Forall tok_ok ts → follow (str ")&;") ts → sfx (toks 2 c ++ ts) → (4 * length (text (toks 2 c ++ ts)) + 3 <= f)%nat →
  ∃ t, parsepipe f (text (toks 2 c ++ ts)) = Ok t (text ts) ∧ cmd_rel R t c.

(** A pipeline and [k] ampersands. *)
Definition amps (k : nat) : list tok := replicate k (TSym 38).

Definition P1 (c : scmd) : Prop := ∀ k ts f,
  Forall tok_ok ts → follow (str ");") ts → sfx (toks 1 c ++ amps k ++ ts) →
  (4 * length (text (toks 1 c ++ amps k ++ ts)) + 3 <= f)%nat →
  ∃ t, (parsepipe f ≫= λ c, rounds (parseback_loop c)) (text (toks 1 c ++ amps k ++ ts)) = Ok t (text ts) ∧
    cmd_rel R t (Nat.iter k BACK c).

Definition P0 (c : scmd) : Prop := ∀ ts f,
  Forall tok_ok ts → follow (str ")") ts → sfx (toks 0 c ++ ts) → (4 * length (text (toks 0 c ++ ts)) + 4 <= f)%nat →
  ∃ t, parseline f (text (toks 0 c ++ ts)) = Ok t (text ts) ∧ cmd_rel R t c.

Lemma sym_ok c : bool_decide (c ∈ symbols) = true → tok_ok (TSym c).
Proof. by rewrite bool_decide_eq_true. Qed.

Lemma amps_ok k : Forall tok_ok (amps k).
Proof. apply Forall_replicate. by apply sym_ok. Qed.

(** *** Simple commands *)
Lemma starts_redirs rs ts : Forall redir_ok rs → starts (str "(") ts = false → starts (str "(") (rtoks rs ++ ts) = false.
Proof.
  destruct rs as [|[[f mode] fd] rs]; [done|]. intros [[_ [[-> ->]|[[-> ->]|[-> ->]]]] _]%Forall_cons _; by vm_compute.
Qed.

Lemma P3_exec ws : cmd_ok (EXEC ws) → P3 (EXEC ws).
Proof.
  intros [Hws Hlen] rs ts [|f] Hrs Hts Hf Hsfx Hfuel; [lia|]. cbn [toks parseexec] in *. unfold parseexec_body.
  assert (Forall tok_ok (rtoks rs ++ ts)) as Hrts by (apply Forall_app; split; [by apply rtoks_ok|done]).
  assert (starts (str "(") ts = false) as Hnp by (eapply follow_not; [|exact Hf]; consts).
  assert (starts (str "<>") ts = false) as Hnr by (eapply follow_not; [|exact Hf]; consts).
  destruct ws as [|w ws].
  - rewrite fmap_nil in *. cbn [app] in *. run (by apply peek_text). rewrite starts_redirs by done. lazy iota.
    destruct (parse_redirs rs ts) as (rs' & Hrun & Hrel); [done..|]. run (exact Hrun). run (by apply parse_args_none).
    eexists. split; [done|]. rewrite app_nil_r. apply rel_redirs; [|done]. repeat constructor.
  - rewrite fmap_cons in *. cbn [app] in *. pose proof Hws as [Hw Hws']%Forall_cons.
    assert (Forall tok_ok (TWord w :: (TWord <$> ws) ++ rtoks rs ++ ts)) as Hall.
    { constructor; [done|]. apply Forall_app. split; [by apply Forall_fmap|done]. }
    run (by apply peek_text). rewrite starts_word by (done || consts). lazy iota.
    destruct (parse_redirs [] (TWord w :: (TWord <$> ws) ++ rtoks rs ++ ts)) as (rs0 & Hrun & Hrel0); [constructor|done| |done|].
    { apply starts_word; [done|consts]. }
    cbn [rtoks mbind list_bind app] in Hrun. run (exact Hrun). inversion Hrel0; subst.
    destruct (parse_args 0 (S (length (text (TWord w :: (TWord <$> ws) ++ rtoks rs ++ ts)))) w ws rs ts) as (ps & rs' & Hrun' & Hps & Hrs'); try done.
    { pose proof (tokens_length _ Hall) as Hl. simpl in Hl. rewrite length_app, length_fmap in Hl. simpl. lia. }
    run (exact Hrun'). eexists. split; [done|]. apply rel_redirs; [by constructor|done].
Qed.

Lemma P3_redir c f mode fd : redir_ok (f, mode, fd) → P3 c → P3 (REDIR c f mode fd).
Proof.
  intros Hr Hc rs ts fuel Hrs Hts Hf. cbn [toks].
  replace ((toks 3 c ++ redir_toks (f, mode, fd)) ++ rtoks rs ++ ts) with (toks 3 c ++ rtoks ((f, mode, fd) :: rs) ++ ts).
  - intros Hsfx Hfuel. destruct (Hc ((f, mode, fd) :: rs) ts fuel) as (t & Hrun & Hrel); [by constructor|done..|]. by exists t.
  - change (rtoks ((f, mode, fd) :: rs)) with (redir_toks (f, mode, fd) ++ rtoks rs). by rewrite <-!app_assoc.
Qed.

(** *** From one level to the next *)
Lemma P2_of_P3 c : P3 c → toks 2 c = toks 3 c → P2 c.
Proof.
  intros Hc Ht ts [|fuel] Hts Hf; [lia|]. rewrite Ht. intros Hsfx Hfuel. cbn [parsepipe]. unfold parsepipe_body.
  destruct (Hc [] ts fuel) as (t & Hrun & Hrel); [done|done| |done| |].
  { eapply follow_mono; [|exact Hf]. consts. }
  { cbn [rtoks mbind list_bind app]. lia. }
  run (exact Hrun). run (by apply peek_text). rewrite (follow_not (str ")&;") (str "|")) by (done || consts). by exists t.
Qed.

Lemma parse_amps k ts t fuel :
  Forall tok_ok ts → starts (str "&") ts = false → (k < fuel)%nat →
  parseback_loop t fuel (text (amps k ++ ts)) = Ok (Nat.iter k BACK t) (text ts).
Proof.
  revert t fuel; induction k as [|k IH]; intros t [|fuel] Hts Hs Hf; try lia; cbn [parseback_loop].
  - cbn [amps replicate app]. run (by apply peek_text). by rewrite Hs.
  - assert (Forall tok_ok (amps (S k) ++ ts)) as Hall by (apply Forall_app; split; [apply amps_ok|done]).
    run (by apply peek_text). change (starts _ _) with true. lazy iota. run (by apply gettoken_text).
    rewrite IH by (done || lia). f_equal. by rewrite Nat.iter_succ_r.
Qed.

Lemma rel_amps k t c : cmd_rel R t c → cmd_rel R (Nat.iter k BACK t) (Nat.iter k BACK c).
Proof. intros Ht. induction k as [|k IH]; simpl; [done|]. by constructor. Qed.

Lemma follow_amps k ts : follow (str ");") ts → follow (str ")&;") (amps k ++ ts).
Proof. intros Hf. destruct k; [eapply follow_mono; [|exact Hf]; consts|by right]. Qed.

Lemma P1_of_P2 c : P2 c → toks 1 c = toks 2 c → P1 c.
Proof.
  intros Hc Ht k ts fuel Hts Hf. rewrite Ht. intros Hsfx Hfuel.
  assert (Forall tok_ok (amps k ++ ts)) as Hall by (apply Forall_app; split; [apply amps_ok|done]).
  destruct (Hc (amps k ++ ts) fuel) as (t & Hrun & Hrel); [done|by apply follow_amps|done|done|].
  run (exact Hrun). exists (Nat.iter k BACK t). split; [|by apply rel_amps]. unfold rounds. apply parse_amps; [done| |].
  - eapply follow_not; [|exact Hf]. consts.
  - pose proof (tokens_length _ Hall) as Hl. unfold amps in *. rewrite length_app, length_replicate in Hl. lia.
Qed.

Lemma P0_of_P1 c : P1 c → toks 0 c = toks 1 c → P0 c.
Proof.
  intros Hc Ht ts [|fuel] Hts Hf; [lia|]. rewrite Ht. intros Hsfx Hfuel. cbn [parseline]. unfold parseline_body.
  destruct (Hc 0%nat ts fuel) as (t & (c1 & s1 & Hr1 & Hr2)%bind_ok & Hrel); [done| |done|cbn [amps replicate app]; lia|].
  { eapply follow_mono; [|exact Hf]. consts. }
  cbn [amps replicate app] in Hr1. run (exact Hr1). run (exact Hr2). run (by apply peek_text).
  rewrite (follow_not (str ")") (str ";")) by (done || consts). by exists t.
Qed.

(** *** Parentheses *)
Lemma P3_of_P0 c : cmd_ok c → P0 c → toks 3 c = TSym 40 :: toks 0 c ++ [TSym 41] → P3 c.
Proof.
  intros Hok Hc Ht rs ts fuel Hrs Hts Hf. rewrite Ht. cbn [app]. rewrite <-app_assoc. cbn [app]. intros Hsfx Hfuel.
  assert (Forall tok_ok (rtoks rs ++ ts)) as Hrts by (apply Forall_app; split; [by apply rtoks_ok|done]).
  assert (Forall tok_ok (TSym 41 :: rtoks rs ++ ts)) as Hcl by (constructor; [by apply sym_ok|done]).
  assert (Forall tok_ok (toks 0 c ++ TSym 41 :: rtoks rs ++ ts)) as Hin by (apply Forall_app; split; [by apply toks_ok|done]).
  assert (Forall tok_ok (TSym 40 :: toks 0 c ++ TSym 41 :: rtoks rs ++ ts)) as Hall by (constructor; [by apply sym_ok|done]).
  pose proof (text_length (TSym 40) (toks 0 c ++ TSym 41 :: rtoks rs ++ ts) ltac:(by apply sym_ok)) as Hlen.
  destruct fuel as [|[|fuel]]; try lia. cbn [parseexec parseblock]. unfold parseexec_body, parseblock_body. run (by apply peek_text). change (starts _ _) with true. lazy iota.
  run (by apply peek_text). change (starts _ _) with true. cbn [negb]. lazy iota. run (by apply gettoken_text).
  destruct (Hc (TSym 41 :: rtoks rs ++ ts) fuel) as (t & Hrun & Hrel); [done|by right|by apply sfx_cons in Hsfx|lia|].
  run (exact Hrun). run (by apply peek_text). change (starts _ _) with true. cbn [negb]. lazy iota. run (by apply gettoken_text).
  destruct (parse_redirs rs ts) as (rs' & Hrun' & Hrel'); [done|done| | |].
  { eapply follow_not; [|exact Hf]. consts. }
  { apply sfx_cons, sfx_app, sfx_cons in Hsfx. done. }
  run (exact Hrun'). eexists. split; [done|]. by apply rel_redirs.
Qed.

(** *** Pipes, lists and background commands *)
Lemma fuel_rest ts1 t ts2 k fuel :
  tok_ok t → (4 * length (text (ts1 ++ t :: ts2)) + k <= S fuel → 4 * length (text ts2) + k <= fuel)%nat.
Proof. intros Ht. pose proof (text_suffix_length ts1 (t :: ts2)). pose proof (text_length t ts2 Ht). lia. Qed.

Lemma P2_pipe l r : cmd_ok r → P3 l → P2 r → P2 (PIPE l r).
Proof.
  intros Hok Hl Hr ts [|fuel] Hts Hf; [lia|]. cbn [toks]. rewrite bool_decide_eq_false_2 by lia. cbn [paren].
  rewrite <-app_assoc. cbn [app]. intros Hsfx Hfuel. cbn [parsepipe]. unfold parsepipe_body.
  assert (Forall tok_ok (toks 2 r ++ ts)) as Hrt by (apply Forall_app; split; [by apply toks_ok|done]).
  assert (Forall tok_ok (TSym 124 :: toks 2 r ++ ts)) as Hall by (constructor; [by apply sym_ok|done]).
  destruct (Hl [] (TSym 124 :: toks 2 r ++ ts) fuel) as (t & Hrun & Hrel); [done|done|by right|done|cbn [rtoks mbind list_bind app]; lia|].
  cbn [rtoks mbind list_bind app] in Hrun. run (exact Hrun). run (by apply peek_text). change (starts _ _) with true. lazy iota.
  run (by apply gettoken_text). destruct (Hr ts fuel) as (t' & Hrun' & Hrel'); [done|done|by apply sfx_app, sfx_cons in Hsfx| |].
  { eapply fuel_rest; [|exact Hfuel]. by apply sym_ok. }
  run (exact Hrun'). eexists. split; [done|]. by constructor.
Qed.

Lemma P0_list l r : cmd_ok r → P1 l → P0 r → P0 (LIST l r).
Proof.
  intros Hok Hl Hr ts [|fuel] Hts Hf; [lia|]. cbn [toks]. rewrite bool_decide_eq_false_2 by lia. cbn [paren].
  rewrite <-app_assoc. cbn [app]. intros Hsfx Hfuel. cbn [parseline]. unfold parseline_body.
  assert (Forall tok_ok (toks 0 r ++ ts)) as Hrt by (apply Forall_app; split; [by apply toks_ok|done]).
  assert (Forall tok_ok (TSym 59 :: toks 0 r ++ ts)) as Hall by (constructor; [by apply sym_ok|done]).
  destruct (Hl 0%nat (TSym 59 :: toks 0 r ++ ts) fuel) as (t & (c1 & s1 & Hr1 & Hr2)%bind_ok & Hrel);
    [done|by right|done|cbn [amps replicate app]; lia|].
  cbn [amps replicate app] in Hr1. run (exact Hr1). run (exact Hr2). run (by apply peek_text). change (starts _ _) with true. lazy iota.
  run (by apply gettoken_text). destruct (Hr ts fuel) as (t' & Hrun' & Hrel'); [done|done|by apply sfx_app, sfx_cons in Hsfx| |].
  { eapply fuel_rest; [|exact Hfuel]. by apply sym_ok. }
  run (exact Hrun'). eexists. split; [done|]. by constructor.
Qed.

Lemma P1_back c : P1 c → P1 (BACK c).
Proof.
  intros Hc k ts fuel Hts Hf. cbn [toks]. rewrite bool_decide_eq_false_2 by lia. cbn [paren]. rewrite <-app_assoc.
  change ([TSym 38] ++ amps k ++ ts) with (amps (S k) ++ ts). intros Hsfx Hfuel.
  destruct (Hc (S k) ts fuel) as (t & Hrun & Hrel); [done..|]. exists t. split; [done|]. by rewrite Nat.iter_succ_r in Hrel.
Qed.

Lemma parse_all c : cmd_ok c → P0 c ∧ P1 c ∧ P2 c ∧ P3 c.
Proof.
  induction c as [ws|c IH f mode fd|l IHl r IHr|l IHl r IHr|c IH]; intros Hok.
  - assert (P3 (EXEC ws)) as H3 by by apply P3_exec. assert (P2 (EXEC ws)) as H2 by by apply P2_of_P3.
    assert (P1 (EXEC ws)) as H1 by by apply P1_of_P2. split_and!; [by apply P0_of_P1|done..].
  - destruct Hok as [Hc Hr]. destruct (IH Hc) as (_ & _ & _ & H3c).
    assert (P3 (REDIR c f mode fd)) as H3 by by apply P3_redir. assert (P2 (REDIR c f mode fd)) as H2 by by apply P2_of_P3.
    assert (P1 (REDIR c f mode fd)) as H1 by by apply P1_of_P2. split_and!; [by apply P0_of_P1|done..].
  - pose proof Hok as [Hl Hr]. destruct (IHl Hl) as (_ & _ & _ & H3l), (IHr Hr) as (_ & _ & H2r & _).
    assert (P2 (PIPE l r)) as H2 by by apply P2_pipe. assert (P1 (PIPE l r)) as H1 by by apply P1_of_P2.
    assert (P0 (PIPE l r)) as H0 by by apply P0_of_P1. split_and!; [done..|by apply P3_of_P0].
  - pose proof Hok as [Hl Hr]. destruct (IHl Hl) as (_ & H1l & _ & _), (IHr Hr) as (H0r & _ & _ & _).
    assert (P0 (LIST l r)) as H0 by by apply P0_list. assert (P3 (LIST l r)) as H3 by by apply P3_of_P0.
    assert (P2 (LIST l r)) as H2 by by apply P2_of_P3. split_and!; [done|by apply P1_of_P2|done..].
  - destruct (IH Hok) as (_ & H1c & _ & _). assert (P1 (BACK c)) as H1 by by apply P1_back.
    assert (P0 (BACK c)) as H0 by by apply P0_of_P1. assert (P3 (BACK c)) as H3 by by apply P3_of_P0.
    split_and!; [done|done|by apply P2_of_P3|done].
Qed.
End parse.

(** All words of a command, in the order in which nulterminate ends them. *)
Fixpoint words {W} (c : cmd W) : list W :=
  match c with
  | EXEC ws => ws
  | REDIR c f _ _ => words c ++ [f]
  | PIPE l r | LIST l r => words l ++ words r
  | BACK c => words c
  end.

Definition put_nuls (ws : list ptrs) (mem : list Z) : list Z := foldl (λ mem w, put_nul w mem) mem ws.

Lemma nulterminate_words c mem : nulterminate c mem = put_nuls (words c) mem.
Proof.
  revert mem; induction c as [ws|c IH f mode fd|l IHl r IHr|l IHl r IHr|c IH]; intros mem; simpl; unfold put_nuls in *;
    rewrite ?foldl_app; simpl; congruence.
Qed.

(** ** What the buffer holds afterwards *)
Lemma length_put_nuls ws mem : length (put_nuls ws mem) = length mem.
Proof. revert mem; induction ws as [|w ws IH]; intros mem; simpl; [done|]. rewrite IH. apply length_insert. Qed.

Definition nul_pos (mem : list Z) (w : ptrs) : nat := (length mem - 1 - w.2)%nat.

Lemma put_nuls_out ws mem i : i ∉ nul_pos mem <$> ws → put_nuls ws mem !! i = mem !! i.
Proof.
  revert mem; induction ws as [|w ws IH]; intros mem; [done|]. rewrite fmap_cons, not_elem_of_cons. intros [Hne Hi]. simpl.
  assert (length (put_nul w mem) = length mem) as Hl by apply length_insert.
  rewrite IH by (unfold nul_pos in *; by rewrite Hl). by apply list_lookup_insert_ne.
Qed.

Lemma put_nuls_keep ws mem i : mem !! i = Some 0 → put_nuls ws mem !! i = Some 0.
Proof.
  revert mem; induction ws as [|w ws IH]; intros mem Hi; [done|]. simpl. apply IH. unfold put_nul.
  destruct (decide (nul_pos mem w = i)) as [<-|]; [|by rewrite list_lookup_insert_ne].
  apply list_lookup_insert_eq. by eapply lookup_lt_Some.
Qed.

Lemma put_nuls_in w ws mem : w ∈ ws → (nul_pos mem w < length mem)%nat → put_nuls ws mem !! nul_pos mem w = Some 0.
Proof.
  intros Hw. revert mem; induction Hw as [w ws|w w' ws _ IH]; intros mem Hi; simpl.
  - apply put_nuls_keep. by apply list_lookup_insert_eq.
  - assert (length (put_nul w' mem) = length mem) as Hl by apply length_insert.
    assert (nul_pos mem w = nul_pos (put_nul w' mem) w) as -> by (unfold nul_pos; by rewrite Hl).
    apply IH. unfold nul_pos in *. by rewrite Hl.
Qed.

Section nul.
Context (buf : list Z) (ps : list ptrs).
Context (Hps : Forall (λ p, ∃ w, ptr_rel buf p w) ps).

Let mem := buf ++ [0].

Lemma ptr_pos p w : ptr_rel buf p w → ∃ pre r,
  mem = pre ++ w ++ space :: r ∧ (length mem - 1 - p.1 = length pre)%nat ∧ nul_pos mem p = (length pre + length w)%nat.
Proof.
  intros (_ & pre & r & E & ->). exists pre, (r ++ [0]). unfold nul_pos, mem. rewrite E. cbn [fst snd].
  split; [by rewrite <-!app_assoc|]. rewrite !length_app. cbn [length]. lia.
Qed.

(** NULs replace spaces only. *)
Lemma put_nuls_word i c : mem !! i = Some c → c ≠ space → put_nuls ps mem !! i = Some c.
Proof.
  intros Hi Hc. rewrite put_nuls_out; [done|]. rewrite list_elem_of_fmap. intros (p & -> & Hp).
  eapply Forall_forall in Hps as [w Hw]; [|exact Hp]. destruct (ptr_pos p w Hw) as (pre & r & E & _ & Hn).
  rewrite Hn, E, lookup_app_r, lookup_app_r in Hi by lia. rewrite Nat.add_comm, Nat.add_sub, Nat.sub_diag in Hi.
  simpl in Hi. congruence.
Qed.

Lemma read_word_ok p w : p ∈ ps → ptr_rel buf p w → read_word (put_nuls ps mem) p = w.
Proof.
  intros Hp Hw. destruct (ptr_pos p w Hw) as (pre & r & E & Hq & Hn). destruct Hw as [[_ Hw] _].
  unfold read_word. rewrite length_put_nuls, Hq.
  assert (drop (length pre) (put_nuls ps mem) = w ++ 0 :: drop (length pre + S (length w)) (put_nuls ps mem)) as ->.
  - rewrite <-drop_drop. rewrite <-(take_drop (S (length w)) (drop (length pre) _)) at 1.
    change (0 :: ?l) with ([0] ++ l). rewrite app_assoc. f_equal.
    assert (∀ i c, w !! i = Some c → drop (length pre) (put_nuls ps mem) !! i = Some c) as Hin.
    { intros i c Hi. rewrite lookup_drop. apply put_nuls_word.
      - rewrite E, lookup_app_r, Nat.add_comm, Nat.add_sub by lia. by apply lookup_app_l_Some.
      - eapply Forall_lookup_1 in Hw as (Hws & _); [|exact Hi]. intros ->. apply Hws. by left. }
    apply list_eq. intros i. destruct (decide (i < length w)%nat) as [Hi|Hi]; [|destruct (decide (i = length w)) as [->|Hi']].
    + rewrite lookup_take_lt, lookup_app_l by lia. destruct (lookup_lt_is_Some_2 w i Hi) as [c Hc]. by rewrite (Hin _ _ Hc).
    + rewrite lookup_take_lt, lookup_app_r, Nat.sub_diag, lookup_drop by lia. rewrite <-Hn. apply put_nuls_in; [done|].
      rewrite Hn, E, !length_app. simpl. lia.
    + rewrite lookup_take_ge, lookup_ge_None_2; [done|rewrite length_app; simpl; lia|lia].
  - apply cstr_app_0. eapply Forall_impl; [exact Hw|]. by intros c (_ & _ & ?).
Qed.
End nul.

(** ** Related commands *)
Lemma cmd_rel_words R t c : cmd_rel R t c → Forall2 R (words t) (words c).
Proof. induction 1; simpl; [done|apply Forall2_app; [done|by constructor]|by apply Forall2_app|by apply Forall2_app|done]. Qed.

Lemma cmd_rel_map R f t c : cmd_rel R t c → (∀ p w, p ∈ words t → R p w → f p = w) → cmd_map f t = c.
Proof.
  induction 1 as [ps ws Hps|t c p w mode fd _ IH Hp|t c t' c' _ IH _ IH'|t c t' c' _ IH _ IH'|t c _ IH]; simpl; intros Hf.
  - f_equal. induction Hps as [|p w ps ws Hp _ IH]; [done|]. simpl. f_equal; [apply Hf; [by left|done]|].
    apply IH. intros q v Hq. apply Hf. by right.
  - rewrite IH, (Hf p w); [done|set_solver|done|]. intros q v Hq. apply Hf. set_solver.
  - rewrite IH, IH'; [done|intros q v Hq; apply Hf; set_solver..].
  - rewrite IH, IH'; [done|intros q v Hq; apply Hf; set_solver..].
  - by rewrite IH.
Qed.

Lemma parsecmd_print c :
  cmd_ok c → ∃ t mem, parsecmd (print c) = Ok (t, mem) [] ∧ cmd_map (read_word mem) t = c.
Proof.
  intros Hok. destruct (parse_all (print c) c Hok) as (H0 & _).
  destruct (H0 [] (4 * length (print c) + 4)%nat) as (t & Hrun & Hrel).
  { constructor. } { by left. } { exists []. by rewrite app_nil_r. } { by rewrite app_nil_r. }
  rewrite app_nil_r in Hrun. exists t, (nulterminate t (print c ++ [0])). split.
  - unfold parsecmd. run (exact Hrun). done.
  - pose proof (cmd_rel_words _ _ _ Hrel) as Hw. rewrite nulterminate_words.
    apply (cmd_rel_map _ _ _ _ Hrel). intros p w Hp Hpw. apply read_word_ok; [|done|done].
    apply Forall_forall. intros q [i Hi]%list_elem_of_lookup_1.
    destruct (Forall2_lookup_l _ _ _ _ _ Hw Hi) as (v & _ & Hv). by exists v.
Qed.

(** C10. Round trip of the shell's parser: for every command (words of word
    characters, fewer than MAXARGS arguments, and the three redirections), parsecmd
    run on its printed line succeeds, and the command it returns, with each word
    read as the C string at its pointer in the line that nulterminate leaves, is
    the command itself. *)
Theorem parse_print c :
  cmd_ok c → ∃ t mem, parsecmd (print c) = Ok (t, mem) [] ∧ cmd_map (read_word mem) t = c.
Proof. apply parsecmd_print. Qed.

(** [( ls -l | grep x ) > out & ; echo hi] *)
Definition sample : scmd :=
  LIST (BACK (REDIR (PIPE (EXEC [str "ls"; str "-l"]) (EXEC [str "grep"; str "x"])) (str "out") O_OUT 1))
    (EXEC [str "echo"; str "hi"]).

Lemma parse_print_witness :
  cmd_ok sample ∧ print sample = str "( ls -l | grep x ) > out & ; echo hi " ++ [newline] ∧
  ∃ t mem, parsecmd (print sample) = Ok (t, mem) [] ∧ cmd_map (read_word mem) t = sample.
Proof.
  assert (cmd_ok sample) as Hok.
  { cbn [sample cmd_ok redir_ok]. unfold word_ok, word_char. split_and!; apply (bool_decide_unpack _); vm_compute; exact I. }
  split_and!; [exact Hok|vm_compute; reflexivity|apply (parse_print sample Hok)].
Defined.
