(* ===== verification/ShRunThms.v ===== *)
(** * What the shell runs *)
From S2P Require Import Prelude.
From S2P Require Import Params.
From S2P Require Import KString.
From S2P Require Import Sysfile.
From S2P Require Import Wp.
From S2P Require Import Sh.
From S2P Require Import ShRound.
From S2P Require Import ShRun.
#[local] Open Scope Z_scope.

(** ** The specification: which program gets which files *)

(** A program's standard input, output and error. *)
Record streams : Type := Streams { s_in : ofile; s_out : ofile; s_err : ofile }.

Definition table (e : streams) : fdtable := <[0%nat := s_in e]> (<[1%nat := s_out e]> (<[2%nat := s_err e]> ∅)).

Definition redirect (fd : Z) (f : ofile) (e : streams) : streams :=
  if bool_decide (fd = 0) then Streams f (s_out e) (s_err e) else Streams (s_in e) f (s_err e).

Fixpoint wire (at_ : place) (c : cmd (list Z)) (e : streams) : list job :=
  match c with
  | EXEC [] => []
  | EXEC argv => [(argv, table e)]
  | REDIR c file mode fd => wire (0%nat :: at_) c (redirect fd (Opened at_ file mode) e)
  | LIST l r => wire (1%nat :: at_) l e ++ wire (0%nat :: at_) r e
  | PIPE l r =>
      wire (1%nat :: 0%nat :: at_) l (Streams (s_in e) (PipeW at_) (s_err e)) ++
      wire (1%nat :: 0%nat :: 0%nat :: at_) r (Streams (PipeR at_) (s_out e) (s_err e))
  | BACK c => wire (1%nat :: at_) c e
  end.

(** ** The calls around a program's descriptors *)
Lemma run_redirect fails at_ fd file mode k e :
  fd = 0 ∨ fd = 1 → fails at_ = false →
  run fails at_ (Close (Z.to_nat fd) (Open file mode k)) (table e) =
    run fails (0%nat :: at_) (k (Some (Z.to_nat fd))) (table (redirect fd (Opened at_ file mode) e)).
Proof.
  intros Hfd Hok. cbn [run]. rewrite Hok. destruct e as [i o err], Hfd as [-> | ->].
  - assert (fd_alloc (delete (Z.to_nat 0) (table (Streams i o err))) = Some 0%nat) as -> by by vm_compute.
    by f_equal.
  - assert (fd_alloc (delete (Z.to_nat 1) (table (Streams i o err))) = Some 1%nat) as -> by by vm_compute.
    by f_equal.
Qed.

Lemma run_pipe fails at_ k e :
  fails at_ = false →
  run fails at_ (Pipe k) (table e) =
    run fails (0%nat :: at_) (k (Some (3, 4)%nat)) (<[4%nat := PipeW at_]> (<[3%nat := PipeR at_]> (table e))).
Proof.
  intros Hok. cbn [run]. rewrite Hok. destruct e as [i o err].
  assert (fd_alloc (table (Streams i o err)) = Some 3%nat) as -> by by vm_compute.
  by assert (fd_alloc (<[3%nat := PipeR at_]> (table (Streams i o err))) = Some 4%nat) as -> by by vm_compute.
Qed.

(** [pfd] replaces [fd]; 3 and 4 are closed. *)
Lemma run_plug fails at_ fd pfd p w r e :
  (fd = 1 ∧ pfd = 4)%nat ∨ (fd = 0 ∧ pfd = 3)%nat →
  run fails at_ (Close fd (Dup pfd (Close 3 (Close 4 p)))) (<[4%nat := w]> (<[3%nat := r]> (table e))) =
    run fails at_ p (table (redirect (Z.of_nat fd) (if bool_decide (fd = 0)%nat then r else w) e)).
Proof.
  intros Hfd. cbn [run]. destruct e as [i o err], Hfd as [[-> ->]|[-> ->]].
  - assert (delete 1%nat (<[4%nat:=w]> (<[3%nat:=r]> (table (Streams i o err)))) !! 4%nat = Some w) as -> by by vm_compute.
    assert (fd_alloc (delete 1%nat (<[4%nat:=w]> (<[3%nat:=r]> (table (Streams i o err))))) = Some 1%nat) as -> by by vm_compute.
    by f_equal.
  - assert (delete 0%nat (<[4%nat:=w]> (<[3%nat:=r]> (table (Streams i o err)))) !! 3%nat = Some r) as -> by by vm_compute.
    assert (fd_alloc (delete 0%nat (<[4%nat:=w]> (<[3%nat:=r]> (table (Streams i o err))))) = Some 0%nat) as -> by by vm_compute.
    by f_equal.
Qed.

Lemma redir_fd f mode fd : redir_ok (f, mode, fd) → fd = 0 ∨ fd = 1.
Proof. intros (_ & Hfd). naive_solver. Qed.

Lemma run_wire fails c at_ e : cmd_ok c → run fails at_ (runcmd c) (table e) `sublist_of` wire at_ c e.
Proof.
  revert at_ e; induction c as [ws|c IH f mode fd|l IHl r IHr|l IHl r IHr|c IH]; intros at_ e Hok; cbn [runcmd wire].
  - destruct ws as [|w ws]; [done|]. cbn [run]. destruct (fails at_); [apply sublist_nil_l|done].
  - destruct Hok as [Hc Hfd%redir_fd], (fails at_) eqn:Hf; [cbn [run]; rewrite Hf; apply sublist_nil_l|].
    rewrite run_redirect by done. by apply IH.
  - destruct Hok as [Hl Hr], (fails at_) eqn:Hf; [cbn [run]; rewrite Hf; apply sublist_nil_l|]. rewrite run_pipe by done.
    unfold fork1 at 1. cbn [run]. destruct (fails (0%nat :: at_)); [apply sublist_nil_l|].
    rewrite bool_decide_eq_true_2, bool_decide_eq_false_2, run_plug by auto. apply sublist_app; [by apply IHl|].
    cbn [fork1 run]. destruct (fails (0%nat :: 0%nat :: at_)); [apply sublist_nil_l|].
    rewrite bool_decide_eq_true_2, bool_decide_eq_false_2, run_plug by auto. cbn [run]. rewrite app_nil_r. by apply IHr.
  - destruct Hok as [Hl Hr]. cbn [run fork1]. destruct (fails at_); [apply sublist_nil_l|].
    apply sublist_app; [by apply IHl|by apply IHr].
  - cbn [run fork1]. destruct (fails at_); [apply sublist_nil_l|]. simpl. rewrite app_nil_r. by apply IH.
Qed.

Lemma run_wire_eq c at_ e : cmd_ok c → run (λ _, false) at_ (runcmd c) (table e) = wire at_ c e.
Proof.
  revert at_ e; induction c as [ws|c IH f mode fd|l IHl r IHr|l IHl r IHr|c IH]; intros at_ e Hok; cbn [runcmd wire].
  - by destruct ws.
  - destruct Hok as [Hc Hfd%redir_fd]. rewrite run_redirect by done. by apply IH.
  - destruct Hok as [Hl Hr]. rewrite run_pipe by done. unfold fork1 at 1. cbn [run].
    rewrite bool_decide_eq_true_2, bool_decide_eq_false_2, run_plug by auto. f_equal; [by apply IHl|].
    cbn [fork1 run]. rewrite bool_decide_eq_true_2, bool_decide_eq_false_2, run_plug by auto.
    cbn [run]. rewrite app_nil_r. by apply IHr.
  - destruct Hok as [Hl Hr]. cbn [run fork1]. f_equal; [by apply IHl|by apply IHr].
  - cbn [run fork1]. simpl. rewrite app_nil_r. by apply IH.
Qed.

(** ** Lines *)
Definition plain (c : Z) : Prop := c ≠ 10 ∧ c ≠ 13 ∧ c ≠ 0.

Lemma tok_plain t : tok_ok t → Forall plain (tok_chars t).
Proof.
  destruct t as [w|c|]; simpl; intros Ht.
  - destruct Ht as [_ Hw]. eapply Forall_impl; [exact Hw|]. intros c (Hws & _ & H0). unfold plain.
    split_and!; [..|done]; intros ->; apply Hws; apply (bool_decide_unpack _); vm_compute; exact I.
  - constructor; [|constructor]. revert Ht. unfold symbols, plain. vm_compute str. set_solver by lia.
  - repeat constructor; done.
Qed.

Lemma text_line ts : Forall tok_ok ts → ts ≠ [] → ∃ body, text ts = body ++ [newline] ∧ Forall plain body.
Proof.
  induction ts as [|t ts IH]; [done|]. intros [Ht Hts]%Forall_cons _. rewrite text_cons. unfold rest.
  assert (plain space) as Hsp by done. destruct ts as [|t' ts].
  - exists (tok_chars t ++ [space]). split; [by rewrite <-app_assoc|]. apply Forall_app. auto using tok_plain.
  - destruct IH as (body & -> & Hb); [done|done|]. exists (tok_chars t ++ space :: body). split; [by rewrite <-app_assoc|].
    apply Forall_app. auto using tok_plain.
Qed.

Lemma gets_loop_line n body more :
  Forall plain body → (length body < n)%nat → gets_loop n (body ++ newline :: more) = (body ++ [newline], more).
Proof.
  revert n; induction body as [|c body IH]; intros [|n] Hb Hn; simpl in *; try lia; [done|].
  apply Forall_cons in Hb as [(H1 & H2 & _) Hb]. rewrite bool_decide_eq_false_2 by tauto. by rewrite IH by (done || lia).
Qed.

Definition line_ok (c : scmd) : Prop :=
  cmd_ok c ∧ toks 0 c ≠ [] ∧ (length (print c) < sh_bufsize)%nat ∧ head (toks 0 c) ≠ Some (TWord (str "cd")).

Lemma getcmd_print c more : line_ok c → getcmd (print c ++ more) = Some (print c, more).
Proof.
  intros (Hok & Hne & Hlen & _). unfold print in *. destruct (text_line (toks 0 c)) as (body & E & Hb); [by apply toks_ok|done|].
  rewrite E in *. rewrite length_app in Hlen. simpl in Hlen. unfold getcmd, gets. rewrite <-app_assoc. simpl app.
  rewrite gets_loop_line by (done || lia). rewrite cstr_id; [by destruct body|]. apply Forall_app. split; [|by repeat constructor].
  eapply Forall_impl; [exact Hb|]. by intros x (_ & _ & ?).
Qed.

Lemma word_not_cd w s : word_ok w → take 3 (w ++ space :: s) = str "cd " → w = str "cd".
Proof.
  change (str "cd ") with [99; 100; 32]. intros [_ Hw] E. destruct w as [|a [|b [|c w]]]; simplify_eq/=; [done|].
  do 2 apply Forall_cons in Hw as [_ Hw]. apply Forall_cons in Hw as [(Hc & _) _]. exfalso. apply Hc. by left.
Qed.

Lemma command_print c : line_ok c → command (print c) = Run (print c).
Proof.
  intros (Hok & Hne & _ & Hcd). unfold print in *. pose proof (toks_ok 0 c Hok) as Hts.
  destruct (toks 0 c) as [|t ts]; [done|]. apply Forall_cons in Hts as [Ht _]. rewrite text_cons.
  destruct (tok_chars_cons t Ht) as (x & l & E & _ & Hx). unfold command.
  assert (skip_blanks (tok_chars t ++ space :: rest ts) = tok_chars t ++ space :: rest ts) as ->.
  { rewrite E. simpl. rewrite bool_decide_eq_false_2; [done|]. intros [-> | ->]; apply Hx; set_solver. }
  rewrite bool_decide_eq_false_2 by (rewrite E; simpl; intros [= ->]; apply Hx; set_solver).
  rewrite bool_decide_eq_false_2; [done|]. intros Hcmd. destruct t as [w|y|]; [|simplify_eq/=|done].
  - apply Hcd. simpl. do 2 f_equal. by eapply word_not_cd.
Qed.

(** The lines that are run before the first fork that fails. *)
Fixpoint before (no_fork : nat → bool) (n : nat) (lines : list (list Z)) : list action :=
  match lines with
  | [] => []
  | l :: lines' => if no_fork n then [NoFork] else Run l :: before no_fork (S n) lines'
  end.

Lemma sh_loop_print no_fork n cs fuel :
  Forall line_ok cs → (length cs < fuel)%nat → sh_loop no_fork n fuel (concat (print <$> cs)) = before no_fork n (print <$> cs).
Proof.
  revert n fuel; induction cs as [|c cs IH]; intros n [|fuel] Hcs Hf; simpl in *; try lia; [done|].
  apply Forall_cons in Hcs as [Hc Hcs]. rewrite getcmd_print by done. by rewrite command_print, IH by (done || lia).
Qed.

Lemma lines_length cs : Forall line_ok cs → (length cs <= length (concat (print <$> cs)))%nat.
Proof.
  induction 1 as [|c cs (Hok & Hne & _) _ IH]; [done|]. rewrite fmap_cons. cbn [length concat]. rewrite length_app.
  change (length (print c)) with (length (text (toks 0 c))).
  pose proof (tokens_length _ (toks_ok 0 c Hok)). assert (1 <= length (toks 0 c))%nat by (destruct (toks 0 c); simpl; [done|lia]). lia.
Qed.

(** ** The descriptors that main opens *)
Lemma open_console_std t :
  (∀ fd, is_Some (t !! fd) → (fd < 3)%nat) → ∃ e, open_console NOFILE (λ _, false) [] t = table e.
Proof.
  intros Ht.
  assert (t = partial_alter (λ _, t !! 0%nat) 0%nat (partial_alter (λ _, t !! 1%nat) 1%nat
    (partial_alter (λ _, t !! 2%nat) 2%nat ∅))) as ->.
  { apply map_eq. intros fd. destruct fd as [|[|[|fd]]]; [by repeat (rewrite lookup_partial_alter_eq || rewrite lookup_partial_alter_ne by lia)..|].
    rewrite !lookup_partial_alter_ne by lia. rewrite lookup_empty. apply eq_None_not_Some. intros H%Ht. lia. }
  destruct (t !! 0%nat), (t !! 1%nat), (t !! 2%nat); eexists (Streams _ _ _); vm_compute; reflexivity.
Qed.

(** C9. The shell runs what it reads: when the input is the printed lines of
    commands that fit the line buffer and are not [cd], main reads exactly these
    lines and runs each, until a fork fails; and running a line starts the programs of the command,
    each with exactly three descriptors, connected as the pipes and redirections
    say.  When calls fail, a part of these programs is started, with the same
    descriptors; when none fails, all are.  Main has descriptors 0, 1 and 2 open
    whatever part of them it was started with. *)
Theorem shell_runs cs t fails no_fork :
  Forall line_ok cs → (∀ fd, is_Some (t !! fd) → (fd < 3)%nat) →
  sh_main no_fork (concat (print <$> cs)) = before no_fork 0 (print <$> cs) ∧
  ∃ e, let t' := open_console NOFILE (λ _, false) [] t in t' = table e ∧
    Forall (λ c, exec_line fails t' (print c) `sublist_of` wire [] c e ∧
                 exec_line (λ _, false) t' (print c) = wire [] c e) cs.
Proof.
  intros Hcs Ht. split; [apply sh_loop_print; [done|pose proof (lines_length cs Hcs); lia]|].
  destruct (open_console_std t Ht) as [e He]. exists e. cbn zeta. split; [done|]. rewrite He.
  eapply Forall_impl; [exact Hcs|]. intros c (Hok & _). destruct (parsecmd_print c Hok) as (pc & mem & Hrun & Hmap).
  unfold exec_line. rewrite Hrun, Hmap. split; [by apply run_wire|by apply run_wire_eq].
Qed.

Definition two_lines : list scmd := [sample; EXEC [str "wc"]].

Lemma shell_runs_witness :
  let t : fdtable := {[ 0%nat := Inherited 0 ]} in
  sh_main (λ _, false) (concat (print <$> two_lines)) = before (λ _, false) 0 (print <$> two_lines) ∧
  ∃ e, let t' := open_console NOFILE (λ _, false) [] t in t' = table e ∧
    Forall (λ c, exec_line (λ _, true) t' (print c) `sublist_of` wire [] c e ∧
                 exec_line (λ _, false) t' (print c) = wire [] c e) two_lines.
Proof.
  apply (shell_runs two_lines {[ 0%nat := Inherited 0 ]} (λ _, true) (λ _, false)).
  - constructor; [|constructor; [|constructor]]; unfold line_ok; cbn [cmd_ok sample redir_ok]; unfold word_ok, word_char;
      split_and!; apply (bool_decide_unpack _); vm_compute; exact I.
  - intros fd [x Hx]. apply lookup_singleton_Some in Hx as [<- _]. lia.
Defined.
