(* ===== verification/Find.v ===== *)
(** * user/find.c: it reports exactly the files of the tree that have the name *)
From S2P Require Import Prelude.
From S2P Require Import Params.
From S2P Require Import KString.
From S2P Require Import Fs.
From S2P Require Import Wp.
#[local] Open Scope Z_scope.

(** ** user/find.c: find

    A path is a C string without its NUL.  The local arrays are lists of bytes of
    their declared size, and a write outside of one is a [Fault].  What the file
    system answers is a parameter: [open_ path] is the file that open finds, with
    the type that fstat reports and the directory entries that read returns. *)

Definition PATH_SIZE : nat := 512.
Definition slash : Z := 47.
Definition dirsiz : nat := Z.to_nat DIRSIZ.

(** [while(p > path && *(p - 1) != '/') p--] *)
Fixpoint base_name_loop (p : nat) (path : list Z) : nat :=
  match p with
  | O => O
  | S p' => if bool_decide (path !! p' = Some slash) then p else base_name_loop p' path
  end.
Definition base_name (path : list Z) : list Z := drop (base_name_loop (length path) path) path.

(** strcmp of user/ulib.c; past the end of a list is its NUL *)
Fixpoint strcmp (p q : list Z) : Z :=
  match p with
  | [] => 0 - hd 0 q
  | x :: p' => if bool_decide (x ≠ 0 ∧ x = hd 0 q) then strcmp p' (tl q) else x - hd 0 q
  end.

(** A struct dirent. *)
Record dirent_ : Type := Dirent { de_inum : Z; de_name_ : list Z }.

Definition dir_name_equal (dir_name target : list Z) : bool :=
  let name := take dirsiz dir_name ++ [0] in
  bool_decide (strcmp name target = 0).

Definition is_dot_directory (dir_name : list Z) : bool :=
  dir_name_equal dir_name (str ".") || dir_name_equal dir_name (str "..").

(** What find does that can be seen: lines on its output, programs, messages. *)
Inductive event : Type :=
| Printed (path : list Z)
| Executed (argv : list (list Z))
| Error (msg : string) (path : list Z).

Definition emit (e : event) : M (list event) unit := λ out, Ok tt (out ++ [e]).

(** [bs] written into [buf] from index [i] on. *)
Definition write_at {S A} (i : nat) (bs buf : list A) : M S (list A) :=
  if bool_decide (i + length bs <= length buf)%nat then mret (take i buf ++ bs ++ drop (i + length bs) buf) else fault.

(** The arguments that exec sees: those before the null pointer. *)
Fixpoint args_of {A} (argv : list (option A)) : list A :=
  match argv with Some a :: argv' => a :: args_of argv' | _ => [] end.

(** What open finds at a path. *)
Record opened : Type := Opened_ { o_type : option Z; o_dents : list dirent_ }.

Section find.
Context (open_ : list Z → option opened) (forks : list Z → bool).
Context (target : list Z) (command_argv : option (list (list Z))).
(** The local arrays hold any values at first. *)
Context (exec_argv0 : list (option (list Z))) (buffer0 : list Z).

(** [for(i = 0; command_argv[i] != 0; i++)]; [None] when there are too many *)
Fixpoint copy_args (i : nat) (args : list (list Z)) (exec_argv : list (option (list Z))) :
    M (list event) (option (nat * list (option (list Z)))) :=
  match args with
  | [] => mret (Some (i, exec_argv))
  | a :: args' =>
      if bool_decide (MAXARG - 2 <= i)%nat then mret None else
      exec_argv' ← write_at i [Some a] exec_argv;
      copy_args (S i) args' exec_argv'
  end.

Definition execute_command (path : list Z) (args : list (list Z)) : M (list event) unit :=
  r ← copy_args 0 args exec_argv0;
  match r with
  | None => emit (Error "too many exec arguments" path)
  | Some (i, exec_argv) =>
      exec_argv ← write_at i [Some path] exec_argv;
      exec_argv ← write_at (i + 1) [None] exec_argv;
      if forks path then emit (Executed (args_of exec_argv)) else emit (Error "fork failed" path)
  end.

(** exec_mode is set exactly when there is a command. *)
Definition handle_match (path : list Z) : M (list event) unit :=
  match command_argv with
  | Some args => execute_command path args
  | None => emit (Printed path)
  end.

(** [while(read(fd, &de, sizeof(de)) == sizeof(de))]; [rec] is the recursive call *)
Fixpoint find_dents (rec : list Z → M (list event) unit) (p : nat) (buffer : list Z) (des : list dirent_) : M (list event) unit :=
  match des with
  | [] => mret tt
  | de :: des' =>
      if bool_decide (de_inum de = 0) then find_dents rec p buffer des' else
      if is_dot_directory (de_name_ de) then find_dents rec p buffer des' else
      buffer ← write_at p (take dirsiz (de_name_ de)) buffer;
      buffer ← write_at (p + dirsiz) [0] buffer;
      rec (cstr buffer);;
      find_dents rec p buffer des'
  end.

Fixpoint find (fuel : nat) (path : list Z) : M (list event) unit :=
  match fuel with
  | O => stuck
  | S fuel' =>
      match open_ path with
      | None => emit (Error "cannot open" path)
      | Some f =>
          match o_type f with
          | None => emit (Error "cannot stat" path)
          | Some type =>
              if bool_decide (type = T_FILE ∨ type = T_DEVICE) then
                if bool_decide (strcmp (base_name path) target = 0) then handle_match path else mret tt
              else if bool_decide (type = T_DIR) then
                if bool_decide (PATH_SIZE < length path + 1 + dirsiz + 1)%nat then emit (Error "path too long" path) else
                buffer ← write_at 0 (path ++ [0]) buffer0;
                let p := length path in
                '(p, buffer) ← (if bool_decide (0 < p)%nat && bool_decide (buffer !! (p - 1)%nat ≠ Some slash)
                                then buffer ← write_at p [slash] buffer; mret (S p, buffer)
                                else mret (p, buffer));
                find_dents (find fuel') p buffer (o_dents f)
              else mret tt
          end
      end
  end.
End find.

(** The path, the name and the command of main's arguments; [None] is the usage
    message. *)
Definition find_args (argv : list (list Z)) : option (list Z * list Z * option (list (list Z))) :=
  match argv with
  | [_; path; target] => Some (path, target, None)
  | _ :: path :: target :: opt :: _ :: _ =>
      if bool_decide (strcmp opt (str "-exec") = 0) then Some (path, target, Some (drop 4 argv)) else None
  | _ => None
  end.

(** [S PATH_SIZE] calls are enough: a path grows with every call, and a directory
    whose path has no room for another name is not entered. *)
Definition find_main (open_ : list Z → option opened) (forks : list Z → bool)
    (exec_argv0 : list (option (list Z))) (buffer0 : list Z) (argv : list (list Z)) : M (list event) unit :=
  match find_args argv with
  | None => emit (Error "usage" [])
  | Some (path, target, command_argv) => find open_ forks target command_argv exec_argv0 buffer0 (S PATH_SIZE) path
  end.

Abbreviation nonzero := (Forall (λ b : Z, b ≠ 0)).

(** ** Strings *)
Lemma strcmp_eq p q : nonzero p → nonzero q → strcmp p q = 0 ↔ p = q.
Proof.
  revert q; induction p as [|x p IH]; intros q Hp Hq; cbn [strcmp].
  - destruct q as [|y q]; [done|]. apply Forall_cons in Hq as [Hy _]. simpl. split; [lia|done].
  - apply Forall_cons in Hp as [Hx Hp]. destruct q as [|y q]; simpl.
    + rewrite bool_decide_eq_false_2 by tauto. split; [lia|done].
    + apply Forall_cons in Hq as [Hy Hq]. destruct (decide (x = y)) as [->|Hxy].
      * rewrite bool_decide_eq_true_2 by done. rewrite IH by done. split; congruence.
      * rewrite bool_decide_eq_false_2 by tauto. split; [lia|congruence].
Qed.

Lemma strcmp_cstr p q : nonzero q → strcmp (p ++ [0]) q = 0 ↔ cstr p = q.
Proof.
  revert q; induction p as [|x p IH]; intros q Hq; simpl.
  - destruct q as [|y q]; simpl; [done|].
    apply Forall_cons in Hq as [Hy _]. split; [lia|done].
  - case_bool_decide as Hxq.
    + destruct Hxq as [Hx Hxq]. rewrite bool_decide_eq_false_2 by done. destruct q as [|y q]; simpl in *; [done|].
      apply Forall_cons in Hq as [_ Hq]. rewrite IH by done. split; congruence.
    + destruct (decide (x = 0)) as [->|Hx].
      * rewrite bool_decide_eq_true_2 by done. destruct q as [|y q]; simpl; [done|].
        apply Forall_cons in Hq as [Hy _]. split; [lia|done].
      * rewrite bool_decide_eq_false_2 by done. split; [|intros <-; simpl in Hxq; tauto].
        intros Heq. destruct Hxq. split; [done|lia].
Qed.

(** The last element of a path: what follows the last slash. *)
Definition named (path name : list Z) : Prop := (slash ∉ name) ∧ (path = name ∨ ∃ dir, path = dir ++ slash :: name).

Lemma base_name_named path : named path (base_name path).
Proof.
  unfold base_name. assert (∀ p, (p <= length path)%nat → slash ∉ drop p path →
    named path (drop (base_name_loop p path) path)) as H.
  { intros p; induction p as [|p IH]; intros Hp Hs; cbn [base_name_loop].
    - split; [done|]. by left.
    - case_bool_decide as Hc; [|apply IH; [lia|]].
      + split; [done|]. right. exists (take p path). by rewrite <-(take_drop_middle path p slash Hc) at 1.
      + destruct (lookup_lt_is_Some_2 path p) as [c Hc']; [lia|]. rewrite (drop_S _ c) by done.
        rewrite not_elem_of_cons. split; [congruence|done]. }
  apply H; [done|]. rewrite drop_all. apply not_elem_of_nil.
Qed.

Lemma named_unique path n1 n2 : named path n1 → named path n2 → n1 = n2.
Proof.
  intros [H1 E1] [H2 E2]. destruct E1 as [E1|[d1 E1]], E2 as [E2|[d2 E2]]; subst; [done| | |].
  - destruct H1. set_solver.
  - destruct H2. set_solver.
  - revert d2 E2; induction d1 as [|x d1 IH]; intros [|y d2] E2; simplify_eq/=; [done| | |by eapply IH].
    + destruct H1. set_solver.
    + destruct H2. set_solver.
Qed.

Lemma cstr_app c l : nonzero c → cstr (c ++ l) = c ++ cstr l.
Proof. induction 1 as [|x c Hx _ IH]; simpl; [done|]. rewrite bool_decide_eq_false_2 by done. by rewrite IH. Qed.

Lemma cstr_end l r : cstr (l ++ 0 :: r) = cstr l.
Proof. induction l as [|x l IH]; simpl; [done|]. case_bool_decide; [done|]. by rewrite IH. Qed.

(** ** The local arrays *)
Lemma write_at_run {S A} i (bs buf : list A) (s : S) :
  (i + length bs <= length buf)%nat → write_at i bs buf s = Ok (take i buf ++ bs ++ drop (i + length bs) buf) s.
Proof. intros Hi. unfold write_at. by rewrite bool_decide_eq_true_2. Qed.

Lemma length_write {A} i (bs buf : list A) :
  (i + length bs <= length buf)%nat → length (take i buf ++ bs ++ drop (i + length bs) buf) = length buf.
Proof. intros. rewrite !length_app, length_take, length_drop. lia. Qed.

Lemma take_write {A} i n (bs buf : list A) :
  (i + length bs <= length buf)%nat → n = (i + length bs)%nat →
  take n (take i buf ++ bs ++ drop (i + length bs) buf) = take i buf ++ bs.
Proof. intros Hi ->. rewrite app_assoc. apply take_app_length'. rewrite length_app, length_take. lia. Qed.

Lemma args_of_some {A} (l : list A) r : args_of ((Some <$> l) ++ None :: r) = l.
Proof. induction l as [|x l IH]; simpl; [done|]. by f_equal. Qed.

Section find.
Context (open_ : list Z → option opened) (forks : list Z → bool).
Context (target : list Z) (command_argv : option (list (list Z))).
Context (exec_argv0 : list (option (list Z))) (buffer0 : list Z).
Context (Hargv0 : length exec_argv0 = MAXARG) (Hbuf0 : length buffer0 = PATH_SIZE).
Context (Htarget : nonzero target).

Lemma copy_args_run i args ea pre out :
  length ea = MAXARG → (i <= MAXARG - 2)%nat → take i ea = Some <$> pre →
  if bool_decide (i + length args <= MAXARG - 2)%nat
  then ∃ ea', copy_args i args ea out = Ok (Some ((i + length args)%nat, ea')) out ∧ length ea' = MAXARG ∧
    take (i + length args) ea' = Some <$> (pre ++ args)
  else copy_args i args ea out = Ok None out.
Proof.
  revert i ea pre; induction args as [|a args IH]; intros i ea pre Hea Hi Hpre; cbn [copy_args length].
  - rewrite Nat.add_0_r, bool_decide_eq_true_2 by done. exists ea. by rewrite app_nil_r.
  - destruct (decide (i < MAXARG - 2)%nat) as [Hlt|Hge].
    + rewrite (bool_decide_eq_false_2 (_ <= i)%nat) by lia.
      assert (i + length [Some a] <= length ea)%nat as Hw by (rewrite Hea; unfold MAXARG in *; simpl; lia).
      erewrite bind_run by by apply write_at_run. rewrite Nat.add_succ_r.
      specialize (IH (S i) _ (pre ++ [a]) (eq_trans (length_write i [Some a] ea Hw) Hea) Hlt).
      rewrite <-app_assoc in IH. apply IH. rewrite take_write by (done || simpl; lia). by rewrite Hpre, fmap_app.
    + rewrite (bool_decide_eq_true_2 (_ <= i)%nat) by lia. by rewrite bool_decide_eq_false_2 by lia.
Qed.

(** What a match makes find do. *)
Definition handle_ev (path : list Z) : event :=
  match command_argv with
  | None => Printed path
  | Some args =>
      if bool_decide (length args <= MAXARG - 2)%nat
      then if forks path then Executed (args ++ [path]) else Error "fork failed" path
      else Error "too many exec arguments" path
  end.

Lemma handle_match_run path out :
  handle_match forks command_argv exec_argv0 path out = Ok tt (out ++ [handle_ev path]).
Proof.
  unfold handle_match, handle_ev. destruct command_argv as [args|]; [|done]. unfold execute_command.
  pose proof (copy_args_run 0 args exec_argv0 [] out Hargv0 ltac:(lia) eq_refl) as Hc. change (MAXARG - 2)%nat with 30%nat in *. simpl in Hc.
  case_bool_decide as Hn; [|by erewrite bind_run by exact Hc]. destruct Hc as (ea & Hrun & Hl & Ht).
  erewrite bind_run by exact Hrun. cbn beta iota. unfold MAXARG in *.
  erewrite bind_run by (apply write_at_run; simpl; lia). erewrite bind_run by (apply write_at_run; rewrite length_write; simpl; lia).
  destruct (forks path); [|done]. unfold emit. do 3 f_equal. rewrite take_write by (simpl; lia). rewrite Ht.
  rewrite <-app_assoc. change [Some path] with (Some <$> [path]). rewrite app_assoc, <-fmap_app. simpl. by rewrite args_of_some.
Qed.
(** ** Directories *)
Definition entry_name (de : dirent_) : list Z := cstr (take dirsiz (de_name_ de)).
Definition proper (de : dirent_) : Prop := de_inum de ≠ 0 ∧ entry_name de ≠ str "." ∧ entry_name de ≠ str "..".
#[local] Instance proper_dec de : Decision (proper de).
Proof. unfold proper. apply _. Defined.

Lemma is_dot_spec name :
  is_dot_directory name = bool_decide (cstr (take dirsiz name) = str "." ∨ cstr (take dirsiz name) = str "..").
Proof.
  assert (nonzero (str ".") ∧ nonzero (str "..")) as [H1 H2] by (split; apply (bool_decide_unpack _); vm_compute; exact I).
  unfold is_dot_directory, dir_name_equal. rewrite bool_decide_or.
  by rewrite (bool_decide_ext _ _ (strcmp_cstr _ _ H1)), (bool_decide_ext _ _ (strcmp_cstr _ _ H2)).
Qed.

Definition entries (des : list dirent_) : list (list Z) := entry_name <$> filter proper des.

Definition each (rec : list Z → M (list event) unit) (l : list (list Z)) : M (list event) unit :=
  foldr (λ x k, rec x;; k) (mret tt) l.

Lemma find_dents_run rec p pre buf des out :
  length buf = PATH_SIZE → take p buf = pre → length pre = p → nonzero pre → (p + dirsiz + 1 <= PATH_SIZE)%nat →
  Forall (λ de, length (de_name_ de) = dirsiz) des →
  find_dents rec p buf des out = each rec ((pre ++.) <$> entries des) out.
Proof.
  intros Hbuf Hpre Hp Hz Hlen Hdes. revert buf out Hbuf Hpre. unfold entries.
  induction Hdes as [|de des Hde _ IH]; intros buf out Hbuf Hpre; [done|]. cbn [find_dents]. rewrite is_dot_spec, filter_cons.
  destruct (decide (proper de)) as [(H0 & H1 & H2)|Hnp].
  - rewrite bool_decide_eq_false_2 by done. rewrite bool_decide_eq_false_2 by (intros [?|?]; done).
    assert (p + length (take dirsiz (de_name_ de)) <= length buf)%nat as Hw1 by (rewrite length_take; lia).
    erewrite bind_run by by apply write_at_run. set (buf1 := take p buf ++ _).
    assert (length buf1 = length buf) as Hb1 by by apply length_write.
    assert (take (p + dirsiz) buf1 = pre ++ take dirsiz (de_name_ de)) as Ht1.
    { unfold buf1. rewrite take_write, Hpre; [done|done|]. rewrite length_take. lia. }
    assert (p + dirsiz + length [0] <= length buf1)%nat as Hw2 by (simpl; lia).
    erewrite bind_run by by apply write_at_run. set (buf2 := take (p + dirsiz) buf1 ++ _).
    assert (length buf2 = length buf1) as Hb2 by by apply length_write.
    assert (cstr buf2 = pre ++ entry_name de) as ->.
    { unfold buf2. rewrite Ht1, <-app_assoc, cstr_app by done. cbn [app]. by rewrite cstr_end. }
    cbn [fmap list_fmap each foldr]. unfold mbind, M_bind. destruct (rec _ out) as [[] out'| | |]; try done. apply IH; [lia|].
    unfold buf2. rewrite take_app_le by (rewrite length_take; lia). rewrite Ht1. by apply take_app_length'.
  - destruct (bool_decide (de_inum de = 0)) eqn:E0; [by apply IH|]. apply bool_decide_eq_false in E0.
    rewrite bool_decide_eq_true_2; [by apply IH|]. unfold proper, entry_name in Hnp.
    destruct (decide (cstr (take dirsiz (de_name_ de)) = str ".")); [by left|]. right.
    destruct (decide (cstr (take dirsiz (de_name_ de)) = str "..")); [done|]. by destruct Hnp.
Qed.
(** ** One call *)
Context (Hnames : ∀ path f, open_ path = Some f → Forall (λ de, length (de_name_ de) = dirsiz) (o_dents f)).
Context (Hnonempty : ∀ path f de, open_ path = Some f → de ∈ o_dents f → de_inum de ≠ 0 → entry_name de ≠ []).

Definition regular (path : list Z) : Prop :=
  ∃ f type, open_ path = Some f ∧ o_type f = Some type ∧ (type = T_FILE ∨ type = T_DEVICE).

(** The beginning of the paths of a directory's entries. *)
Definition prefix (path : list Z) : list Z :=
  path ++ if bool_decide (0 < length path)%nat && bool_decide (path !! (length path - 1)%nat ≠ Some slash) then [slash] else [].

(** What find does for a path itself, and the paths it goes on to. *)
Definition visit (path : list Z) : list event * list (list Z) :=
  match open_ path with
  | None => ([Error "cannot open" path], [])
  | Some f =>
      match o_type f with
      | None => ([Error "cannot stat" path], [])
      | Some type =>
          if bool_decide (type = T_FILE ∨ type = T_DEVICE)
          then (if bool_decide (base_name path = target) then [handle_ev path] else [], [])
          else if bool_decide (type = T_DIR)
          then if bool_decide (PATH_SIZE < length path + 1 + dirsiz + 1)%nat then ([Error "path too long" path], [])
               else ([], (prefix path ++.) <$> entries (o_dents f))
          else ([], [])
      end
  end.

Lemma base_name_nonzero path : nonzero path → nonzero (base_name path).
Proof. apply Forall_drop. Qed.

Lemma prefix_run path :
  (length path + 1 + dirsiz + 1 <= PATH_SIZE)%nat →
  ∃ buf, (∀ out : list event, (buffer ← write_at 0 (path ++ [0%Z]) buffer0;
     if bool_decide (0 < length path)%nat && bool_decide (buffer !! (length path - 1)%nat ≠ Some slash)
     then buffer ← write_at (length path) [slash] buffer; mret (S (length path), buffer) else mret (length path, buffer)) out =
     Ok (length (prefix path), buf) out) ∧
   length buf = PATH_SIZE ∧ take (length (prefix path)) buf = prefix path.
Proof.
  intros Hlen. assert (0 + length (path ++ [0%Z]) <= length buffer0)%nat as Hw by (rewrite length_app; simpl; lia).
  set (b1 := take 0 buffer0 ++ (path ++ [0%Z]) ++ drop (0 + length (path ++ [0%Z])) buffer0).
  assert (length b1 = PATH_SIZE) as Hb1 by (unfold b1; by rewrite length_write).
  assert (take (length path) b1 = path) as Ht1 by (unfold b1; simpl; rewrite <-app_assoc; by apply take_app_length').
  assert (bool_decide (0 < length path)%nat && bool_decide (b1 !! (length path - 1)%nat ≠ Some slash) =
    bool_decide (0 < length path)%nat && bool_decide (path !! (length path - 1)%nat ≠ Some slash)) as Hc.
  { case_bool_decide as H0; [|done]. simpl. apply bool_decide_ext.
    assert (path !! (length path - 1)%nat = b1 !! (length path - 1)%nat) as ->; [|done].
    transitivity (take (length path) b1 !! (length path - 1)%nat); [by rewrite Ht1|by rewrite lookup_take_lt by lia]. }
  unfold prefix. destruct (_ && bool_decide (path !! _ ≠ _)) eqn:Hb.
  - exists (take (length path) b1 ++ [slash] ++ drop (length path + length [slash]) b1). split; [|split].
    + intros out. erewrite bind_run by by apply write_at_run. fold b1. cbn beta. rewrite Hc.
      erewrite bind_run by (apply write_at_run; simpl; lia). unfold mret, M_ret. do 2 f_equal. rewrite length_app. simpl. lia.
    + rewrite length_write; [done|simpl; lia].
    + rewrite take_write, Ht1; [done|simpl; lia|]. rewrite length_app. done.
  - exists b1. rewrite app_nil_r. split; [|done]. intros out. erewrite bind_run by by apply write_at_run. fold b1. cbn beta. by rewrite Hc.
Qed.

Lemma prefix_length path : (length path <= length (prefix path) <= length path + 1)%nat.
Proof. unfold prefix. rewrite length_app. destruct (_ && _); simpl; lia. Qed.

Lemma prefix_nonzero path : nonzero path → nonzero (prefix path).
Proof. intros Hz. apply Forall_app. split; [done|]. by destruct (_ && _); repeat constructor. Qed.

Abbreviation run_find := (find open_ forks target command_argv exec_argv0 buffer0).

Lemma find_step fuel path out :
  nonzero path → run_find (S fuel) path out = each (run_find fuel) (visit path).2 (out ++ (visit path).1).
Proof.
  intros Hz. cbn [Find.find]. unfold visit. destruct (open_ path) as [f|] eqn:Ho; [|done].
  destruct (o_type f) as [type|]; [|done]. case_bool_decide as Ht.
  - rewrite (bool_decide_ext _ _ (strcmp_eq _ _ (base_name_nonzero _ Hz) Htarget)).
    case_bool_decide; [apply handle_match_run|]. by rewrite app_nil_r.
  - case_bool_decide as Hd; [|by rewrite app_nil_r]. case_bool_decide as Hl; [done|].
    destruct (prefix_run path) as (buf & Hrun & Hbuf & Hpre); [lia|]. rewrite app_nil_r.
    specialize (Hrun out). apply bind_ok in Hrun as (b1 & s1 & Hw & Hrun).
    erewrite bind_run by exact Hw. cbn zeta. erewrite bind_run by exact Hrun. cbn beta iota.
    pose proof (prefix_length path).
    eapply find_dents_run; [done|done|done|by apply prefix_nonzero|lia|by eapply Hnames].
Qed.

(** ** The whole search *)

(** An entry of a directory whose path leaves room for a name. *)
Definition child (path q : list Z) : Prop := ∃ f de,
  open_ path = Some f ∧ o_type f = Some T_DIR ∧ (length path + 1 + dirsiz + 1 <= PATH_SIZE)%nat ∧
  de ∈ o_dents f ∧ proper de ∧ q = prefix path ++ entry_name de.

Inductive reach : list Z → list Z → Prop :=
| reach_here path : reach path path
| reach_sub path q r : child path q → reach q r → reach path r.

Lemma visit_child path q : q ∈ (visit path).2 ↔ child path q.
Proof.
  unfold visit, child. destruct (open_ path) as [f|]; [|set_solver]. destruct (o_type f) as [type|] eqn:Ety; [|set_solver].
  destruct (decide (type = T_DIR)) as [->|Hd].
  - rewrite bool_decide_eq_false_2 by (unfold T_DIR, T_FILE, T_DEVICE; lia). rewrite (bool_decide_eq_true_2 (T_DIR = _)) by done.
    case_bool_decide as Hl; [set_solver by lia|]. simpl. rewrite list_elem_of_fmap. unfold entries.
    setoid_rewrite list_elem_of_fmap. setoid_rewrite list_elem_of_filter. split.
    + intros (n & -> & de & -> & Hp & Hde). exists f, de. split_and!; [done|done|lia|done..].
    + intros (f' & de & [= <-] & _ & _ & Hde & Hp & ->). eauto 10.
  - rewrite (bool_decide_eq_false_2 (type = T_DIR)) by done. case_bool_decide; set_solver.
Qed.

(** Going down makes the path longer, and a path that may be gone down from fits. *)
Lemma child_longer path q : nonzero path → child path q → nonzero q ∧ (length path < length q)%nat ∧ (length path < PATH_SIZE)%nat.
Proof.
  intros Hz (f & de & Ho & _ & Hl & Hde & [Hi _] & ->). pose proof (prefix_length path).
  pose proof (Hnonempty path f de Ho Hde Hi) as Hne. split_and!; [|rewrite length_app|lia].
  - apply Forall_app. split; [by apply prefix_nonzero|apply cstr_nonzero].
  - destruct (entry_name de); [done|]. simpl. lia.
Qed.

Lemma each_run rec l out (P : list Z → event → Prop) :
  (∀ x out, x ∈ l → ∃ evs, rec x out = Ok tt (out ++ evs) ∧ ∀ e, e ∈ evs ↔ P x e) →
  ∃ evs, each rec l out = Ok tt (out ++ evs) ∧ ∀ e, e ∈ evs ↔ ∃ x, x ∈ l ∧ P x e.
Proof.
  revert out; induction l as [|x l IH]; intros out Hl.
  - exists []. split; [by rewrite app_nil_r|]. set_solver.
  - destruct (Hl x out) as (evs & Hrun & Hevs); [by left|]. destruct (IH (out ++ evs)) as (evs' & Hrun' & Hevs').
    { intros y o Hy. apply Hl. by right. }
    exists (evs ++ evs'). split; [simpl; erewrite bind_run by exact Hrun; by rewrite Hrun', app_assoc|].
    intros e. rewrite elem_of_app, Hevs, Hevs'. set_solver.
Qed.

Lemma find_run fuel path out :
  nonzero path → (0 < fuel)%nat → (PATH_SIZE < fuel + length path)%nat →
  ∃ evs, run_find fuel path out = Ok tt (out ++ evs) ∧ ∀ e, e ∈ evs ↔ ∃ p, reach path p ∧ e ∈ (visit p).1.
Proof.
  revert path out; induction fuel as [|fuel IH]; intros path out Hz H0 Hf; [lia|]. rewrite find_step by done.
  destruct (each_run (run_find fuel) (visit path).2 (out ++ (visit path).1) (λ q e, ∃ p, reach q p ∧ e ∈ (visit p).1)) as (evs & Hrun & Hevs).
  { intros q out' Hq. destruct (child_longer path q Hz (proj1 (visit_child _ _) Hq)) as (Hzq & Hlen & Hps). apply IH; [done|lia|lia]. }
  exists ((visit path).1 ++ evs). rewrite Hrun, app_assoc. split; [done|]. intros e. rewrite elem_of_app, Hevs. split.
  - intros [He|(q & Hq & p & Hp & He)]; [by exists path; split; [constructor|]|]. exists p. split; [|done]. eapply reach_sub; [by apply visit_child|done].
  - intros (p & Hp & He). inversion Hp as [|? q ? Hq]; subst; [by left|]. right. exists q. rewrite visit_child. eauto.
Qed.
(** The files to be reported. *)
Definition found (root p : list Z) : Prop := reach root p ∧ regular p ∧ named p target.

Lemma visit_match p e :
  (∀ msg q, e ≠ Error msg q) → e ∈ (visit p).1 ↔ regular p ∧ named p target ∧ e = handle_ev p.
Proof.
  intros Hne. unfold visit, regular. destruct (open_ p) as [f|]; [|set_solver]. destruct (o_type f) as [type|] eqn:Ety; [|set_solver].
  case_bool_decide as Ht.
  - case_bool_decide as Hb; simpl; rewrite ?list_elem_of_singleton.
    + split; [intros ->|by intros (_ & _ & ->)]. split_and!; [by exists f, type|rewrite <-Hb; apply base_name_named|done].
    + split; [set_solver|]. intros (_ & Hn & _). destruct Hb. eapply named_unique; [apply base_name_named|done].
  - split; [repeat case_bool_decide; set_solver|]. intros ((f' & ty & [= <-] & E & ?) & _). congruence.
Qed.

Lemma find_events root :
  nonzero root → ∃ out, run_find (S PATH_SIZE) root [] = Ok tt out ∧
    ∀ e, (∀ msg q, e ≠ Error msg q) → e ∈ out ↔ ∃ p, found root p ∧ e = handle_ev p.
Proof.
  intros Hz. destruct (find_run (S PATH_SIZE) root [] Hz ltac:(lia) ltac:(lia)) as (out & Hrun & Hout). exists out. split; [done|].
  intros e He. rewrite Hout. unfold found. split.
  - intros (p & Hp & (Hreg & Hn & ->)%visit_match); [|done]. eauto.
  - intros (p & (Hp & Hreg & Hn) & ->). exists p. split; [done|]. by apply visit_match.
Qed.
End find.

(** ** Theorem *)

(** Names in directory entries have DIRSIZ bytes, and an entry in use has a name. *)
Definition dirs_ok (open_ : list Z → option opened) : Prop := ∀ path f,
  open_ path = Some f → Forall (λ de, length (de_name_ de) = dirsiz ∧ (de_inum de ≠ 0 → entry_name de ≠ [])) (o_dents f).


(** [.] holds [b], [a] and an unused entry; [./a] holds [b] and [.]. *)
Definition pad (s : list Z) : list Z := s ++ replicate (dirsiz - length s) 0.
Definition small_fs (path : list Z) : option opened :=
  if bool_decide (path = str ".") then
    Some (Opened_ (Some T_DIR) [Dirent 1 (pad (str ".")); Dirent 5 (pad (str "b")); Dirent 0 (pad []); Dirent 6 (pad (str "a"))])
  else if bool_decide (path = str "./b" ∨ path = str "./a/b") then Some (Opened_ (Some T_FILE) [])
  else if bool_decide (path = str "./a") then
    Some (Opened_ (Some T_DIR) [Dirent 6 (pad (str ".")); Dirent 7 (pad (str "b"))])
  else None.

