(* ===== verification/Sixfive.v ===== *)
(** * user/sixfive.c: the multiples of 5 or 6 in a file

    The state is what is printed.  Signed overflow of [value] is undefined in C and
    is a [Fault] here. *)
From S2P Require Import Prelude.
From S2P Require Import Wp.
From S2P Require Import Grep.
#[local] Open Scope Z_scope.

Definition TOKEN_SIZE : nat := 128.
Definition INT_MAX : Z := 2 ^ 31 - 1.
Definition separators : list Z := [32; 45; 13; 9; 10; 46; 47; 44].

Inductive output : Type := Number (value : Z) | CannotOpen | ReadError.

Definition is_digit (ch : Z) : bool := bool_decide (48 <= ch ∧ ch <= 57).

(** [for(i = 0; i < length; i++)]; [None] is the return on a character that is
    not a digit *)
Fixpoint token_value (token : list Z) (value : Z) : M (list output) (option Z) :=
  match token with
  | [] => mret (Some value)
  | ch :: token' =>
      if negb (is_digit ch) then mret None else
      if bool_decide (INT_MAX < value * 10 + ch) then fault else
      token_value token' (value * 10 + ch - 48)
  end.

Definition process_token (token : list Z) : M (list output) unit :=
  if bool_decide (length token = 0)%nat then mret tt else
  r ← token_value token 0;
  match r with
  | None => mret tt
  | Some value =>
      if bool_decide (Z.rem value 5 = 0) || bool_decide (Z.rem value 6 = 0)
      then modify (λ out, out ++ [Number value]) else mret tt
  end.

(** [while((n = read(fd, &ch, 1)) > 0)] and the last token; [token] are the first
    token_length characters of the array *)
Fixpoint sixfive_loop (token input : list Z) : M (list output) unit :=
  match input with
  | [] => process_token token
  | ch :: input' =>
      match strchr separators ch with
      | Some _ => process_token token;; sixfive_loop [] input'
      | None =>
          if bool_decide (length token < TOKEN_SIZE)%nat then sixfive_loop (token ++ [ch]) input'
          else sixfive_loop token input'
      end
  end.

(** The file's contents, and whether read fails after them. *)
Definition sixfive_file (file : option (list Z * bool)) : M (list output) unit :=
  match file with
  | None => modify (λ out, out ++ [CannotOpen])
  | Some (input, failed) =>
      sixfive_loop [] input;;
      if failed : bool then modify (λ out, out ++ [ReadError]) else mret tt
  end.

(** ** What is to be printed *)
Definition number (token : list Z) : Prop := token ≠ [] ∧ Forall (λ ch, 48 <= ch ∧ ch <= 57) token.
#[local] Instance number_dec token : Decision (number token).
Proof. unfold number. apply _. Defined.

Definition decimal (token : list Z) : Z := foldl (λ v ch, v * 10 + (ch - 48)) 0 token.

Definition report (token : list Z) : list output :=
  if decide (number token ∧ (decimal token mod 5 = 0 ∨ decimal token mod 6 = 0)) then [Number (decimal token)] else [].

(** The file is the tokens with a separator between each two. *)
Fixpoint join (t : list Z) (rest : list (Z * list Z)) : list Z :=
  match rest with [] => t | (s, t') :: rest' => t ++ s :: join t' rest' end.

Definition is_token (t : list Z) : Prop := Forall (λ ch, ch ∉ separators) t ∧ (length t <= TOKEN_SIZE)%nat.

(** The values of the digits that a token begins with, and the sums that are formed
    on the way to them, are in range. *)
Definition in_range (t : list Z) : Prop := ∀ p, p `prefix_of` t → number p → decimal p + 48 <= INT_MAX.

Lemma strchr_absent l ch : Forall (λ x, x ≠ 0) l → strchr l ch = None ↔ ch ∉ l.
Proof.
  induction 1 as [|x l Hx _ IH]; simpl; [split; [intros _; apply not_elem_of_nil|done]|].
  rewrite bool_decide_eq_false_2, not_elem_of_cons by done. case_bool_decide; [split; [done|intros []; congruence]|].
  rewrite fmap_None, IH. split; [intros; split; [congruence|done]|tauto].
Qed.

Lemma strchr_separators ch : strchr separators ch = None ↔ ch ∉ separators.
Proof. apply strchr_absent. apply (bool_decide_unpack _). vm_compute. exact I. Qed.

Lemma token_value_run digits token out :
  Forall (λ ch, 48 <= ch ∧ ch <= 57) digits → in_range (digits ++ token) →
  token_value token (decimal digits) out =
    Ok (if decide (Forall (λ ch, 48 <= ch ∧ ch <= 57) token) then Some (decimal (digits ++ token)) else None) out.
Proof.
  revert digits; induction token as [|ch token IH]; intros digits Hd Hr; cbn [token_value].
  - rewrite app_nil_r. destruct (decide _) as [|H]; [done|]. by destruct H.
  - unfold is_digit. destruct (decide (48 <= ch ∧ ch <= 57)) as [Hc|Hc].
    + assert (decimal (digits ++ [ch]) = decimal digits * 10 + ch - 48) as Hdec by (unfold decimal; rewrite foldl_app; simpl; lia).
      assert (Forall (λ ch, 48 <= ch ∧ ch <= 57) (digits ++ [ch])) as Hd' by (apply Forall_app; auto).
      rewrite (bool_decide_eq_true_2 (48 <= ch ∧ ch <= 57)) by done. simpl. rewrite bool_decide_eq_false_2.
      * rewrite <-Hdec, IH by (done || by rewrite <-app_assoc). rewrite <-app_assoc. simpl. f_equal.
        apply decide_ext; [|done..]. rewrite Forall_cons. tauto.
      * specialize (Hr (digits ++ [ch])). rewrite Hdec in Hr. intros Hlt. assert (INT_MAX < INT_MAX); [|lia].
        eapply Z.lt_le_trans; [exact Hlt|]. transitivity (decimal digits * 10 + ch - 48 + 48); [lia|]. apply Hr.
        -- exists token. by rewrite <-app_assoc.
        -- split; [by destruct digits|done].
    + rewrite (bool_decide_eq_false_2 (48 <= ch ∧ ch <= 57)) by done. simpl. rewrite decide_False; [done|].
      rewrite Forall_cons. tauto.
Qed.

Lemma decimal_nonneg t : Forall (λ ch, 48 <= ch ∧ ch <= 57) t → 0 <= decimal t.
Proof.
  unfold decimal. intros Ht. assert (∀ v, 0 <= v → 0 <= foldl (λ v ch, v * 10 + (ch - 48)) v t) as H; [|by apply H].
  induction Ht as [|ch t Hc _ IH]; intros v Hv; simpl; [done|]. apply IH. lia.
Qed.

Lemma process_token_run t out : in_range t → process_token t out = Ok tt (out ++ report t).
Proof.
  intros Hr. unfold process_token, report. destruct t as [|ch t]; [by rewrite decide_False, app_nil_r by (intros [[? _] _]; done)|].
  rewrite bool_decide_eq_false_2 by done. erewrite bind_run by by apply (token_value_run []).
  destruct (decide (Forall _ _)) as [Hd|Hd]; [|by rewrite decide_False, app_nil_r by (intros [[_ ?] _]; done)].
  pose proof (decimal_nonneg _ Hd) as Hnn. cbn [app].
  rewrite (Z.rem_mod_nonneg _ 5), (Z.rem_mod_nonneg _ 6), <-bool_decide_or by (exact Hnn || lia).
  case_bool_decide as Hm; [rewrite decide_True; done|rewrite decide_False, app_nil_r; [done|tauto]].
Qed.

Lemma sixfive_loop_chars pre t input out :
  Forall (λ ch, ch ∉ separators) t → (length (pre ++ t) <= TOKEN_SIZE)%nat →
  sixfive_loop pre (t ++ input) out = sixfive_loop (pre ++ t) input out.
Proof.
  revert pre; induction t as [|ch t IH]; intros pre Ht Hl; [by rewrite app_nil_r|]. apply Forall_cons in Ht as [Hc Ht].
  cbn [app sixfive_loop]. rewrite (proj2 (strchr_separators ch) Hc). rewrite length_app in Hl. simpl in Hl.
  rewrite bool_decide_eq_true_2 by lia. rewrite IH; [by rewrite <-app_assoc|done|]. rewrite <-app_assoc, length_app. simpl. lia.
Qed.

Lemma sixfive_loop_run t rest out :
  is_token t → in_range t → Forall (λ p, p.1 ∈ separators ∧ is_token p.2 ∧ in_range p.2) rest →
  sixfive_loop [] (join t rest) out = Ok tt (out ++ report t ++ (rest ≫= λ p, report p.2)).
Proof.
  revert t out; induction rest as [|[s t'] rest IH]; intros t out [Ht Hl] Hr Hrest; cbn [join].
  - rewrite <-(app_nil_r t) at 1. rewrite sixfive_loop_chars by done. cbn [app sixfive_loop mbind list_bind]. by rewrite process_token_run, app_nil_r.
  - apply Forall_cons in Hrest as [(Hs & Ht' & Hr') Hrest]. cbn [fst snd] in *. rewrite sixfive_loop_chars by done. cbn [app sixfive_loop].
    destruct (strchr separators s) as [i|] eqn:E; [|by apply strchr_separators in E].
    erewrite bind_run by by apply process_token_run. rewrite IH by done. by rewrite <-app_assoc.
Qed.

(** sixfive reads a file as tokens between separators and prints, in order,
    exactly the numbers that are multiples of 5 or 6, and after them a message
    when the file could not be read to its end; for tokens of at most TOKEN_SIZE
    characters whose values stay below the largest int by the code of '0'. *)
Theorem sixfive_correct t rest failed :
  is_token t → in_range t → Forall (λ p, p.1 ∈ separators ∧ is_token p.2 ∧ in_range p.2) rest →
  sixfive_file (Some (join t rest, failed)) [] =
    Ok tt (report t ++ (rest ≫= λ p, report p.2) ++ if failed then [ReadError] else []).
Proof.
  intros Ht Hr Hrest. unfold sixfive_file. erewrite bind_run by by apply sixfive_loop_run.
  destruct failed; unfold modify, mret, M_ret; f_equal; cbn [app]; rewrite ?app_nil_r; [|done]. by rewrite <-app_assoc.
Qed.

Lemma in_range_take t : Forall (λ k, decimal (take k t) + 48 <= INT_MAX) (seq 0 (S (length t))) → in_range t.
Proof.
  intros Ht p [k ->] _. rewrite Forall_forall in Ht. specialize (Ht (length p)). rewrite take_app_length in Ht.
  apply Ht. apply elem_of_seq. rewrite length_app. lia.
Qed.

(** ["12,7x 30"] *)
Lemma sixfive_correct_witness :
  let rest := [(44, str "7x"); (32, str "30")] in
  sixfive_file (Some (join (str "12") rest, true)) [] = Ok tt [Number 12; Number 30; ReadError] ∧
  sixfive_file (Some (join (str "12") rest, true)) [] =
    Ok tt (report (str "12") ++ (rest ≫= λ p, report p.2) ++ [ReadError]).
Proof.
  split; [vm_compute; reflexivity|]. apply (sixfive_correct (str "12") [(44, str "7x"); (32, str "30")] true).
  - split; apply (bool_decide_unpack _); vm_compute; exact I.
  - apply in_range_take, (bool_decide_unpack _). vm_compute. exact I.
  - apply Forall_cons. split; [|apply Forall_singleton]; (split_and!; [|split|apply in_range_take]);
      apply (bool_decide_unpack _); vm_compute; exact I.
Defined.
