(* ===== verification/Sleep.v ===== *)
(** * sleep and wakeup as interleaved steps

    Processes wait for a condition that a lock protects, the way every caller of
    sleep does: a waiter runs [acquire(lk); while(!cond) sleep(chan, lk); ...
    release(lk)], a waker [acquire(lk); cond = 1; wakeup(chan); release(lk)].  The
    processes take steps in any order, between any two acquires, releases and
    accesses to shared fields.

    [pc] is the point a process has reached in sleep and wakeup of kernel/proc.c.
    Locks are mutual exclusion (SpinThms.v): [lk] and each p->lock are held by the
    process that is at a point between its acquire and its release, and acquire
    waits while there is one.  p->state is SLEEPING at [Sched_] and [Sleeping],
    RUNNABLE at [Runnable], and RUNNING elsewhere; all processes use one channel.
    The scheduler's part is two steps, the release of p->lock after sched() and the
    choice of a RUNNABLE process; its passing over processes that are not RUNNABLE
    changes nothing and is left out. *)
From S2P Require Import Prelude.

Inductive pc : Type :=
(* waiter *)
| WLock                 (* acquire(lk) *)
| WTest                 (* while(!cond) *)
| SLockP                (* sleep: acquire(&p->lock) *)
| SRelease              (* sleep: release(lk) *)
| SState                (* sleep: p->chan = chan; p->state = SLEEPING *)
| Sched_                (* sleep: sched(); the scheduler releases p->lock *)
| Sleeping              (* not running, SLEEPING *)
| Runnable              (* not running, RUNNABLE; scheduler: acquire(&p->lock), RUNNING, swtch *)
| SUnlockP              (* sleep: p->chan = 0; release(&p->lock) *)
| SLock                 (* sleep: acquire(lk) *)
| WDone                 (* the condition holds; release(lk) *)
(* waker *)
| KLock                 (* acquire(lk) *)
| KSet                  (* cond = 1 *)
| KLoop (i : nat)       (* wakeup: loop head for process i *)
| KTest (i : nat)       (* wakeup: p->lock is held; test p->state *)
| KUnlock (i : nat)     (* wakeup: release(&p->lock) *)
| KRelease              (* release(lk) *)
| Done.

Definition holds_lk (c : pc) : bool :=
  match c with
  | WTest | SLockP | SRelease | WDone | KSet | KLoop _ | KTest _ | KUnlock _ | KRelease => true
  | _ => false
  end.

(** Process [t] at [c] holds the p->lock of process [i]. *)
Definition holds_p (t : nat) (c : pc) (i : nat) : bool :=
  match c with
  | SRelease | SState | Sched_ | SUnlockP => bool_decide (t = i)
  | KTest j | KUnlock j => bool_decide (j = i)
  | _ => false
  end.

Record ssys : Type := SSys { pcs : list pc; cond : bool }.

Definition lk_free (s : ssys) : Prop := ∀ u c, pcs s !! u = Some c → holds_lk c = false.
Definition p_free (s : ssys) (i : nat) : Prop := ∀ u c, pcs s !! u = Some c → holds_p u c i = false.

Definition at_ (s : ssys) (t : nat) (c : pc) : Prop := pcs s !! t = Some c.
Definition goto (t : nat) (c : pc) (s : ssys) : ssys := SSys (<[t := c]> (pcs s)) (cond s).
Definition set_cond (b : bool) (s : ssys) : ssys := SSys (pcs s) b.

(** [if(p->state == SLEEPING && p->chan == chan) p->state = RUNNABLE] *)
Definition wake (i : nat) (s : ssys) : ssys :=
  match pcs s !! i with Some Sleeping => goto i Runnable s | _ => s end.

(** One step of process [t]. *)
Inductive sstep (t : nat) (s : ssys) : ssys → Prop :=
| st_wlock : at_ s t WLock → lk_free s → sstep t s (goto t WTest s)
| st_test_true : at_ s t WTest → cond s = true → sstep t s (goto t WDone s)
| st_test_false : at_ s t WTest → cond s = false → sstep t s (goto t SLockP s)
| st_wdone b : at_ s t WDone → sstep t s (goto t Done (set_cond b s))
| st_slockp : at_ s t SLockP → p_free s t → sstep t s (goto t SRelease s)
| st_srelease : at_ s t SRelease → sstep t s (goto t SState s)
| st_sstate : at_ s t SState → sstep t s (goto t Sched_ s)
| st_sched : at_ s t Sched_ → sstep t s (goto t Sleeping s)
| st_run : at_ s t Runnable → p_free s t → sstep t s (goto t SUnlockP s)
| st_sunlockp : at_ s t SUnlockP → sstep t s (goto t SLock s)
| st_slock : at_ s t SLock → lk_free s → sstep t s (goto t WTest s)
| st_klock : at_ s t KLock → lk_free s → sstep t s (goto t KSet s)
| st_kset : at_ s t KSet → sstep t s (goto t (KLoop 0) (set_cond true s))
| st_kself : at_ s t (KLoop t) → sstep t s (goto t (KLoop (S t)) s)
| st_klockp i : at_ s t (KLoop i) → i ≠ t → i < length (pcs s) → p_free s i → sstep t s (goto t (KTest i) s)
| st_kend i : at_ s t (KLoop i) → length (pcs s) <= i → sstep t s (goto t KRelease s)
| st_ktest i : at_ s t (KTest i) → sstep t s (goto t (KUnlock i) (wake i s))
| st_kunlock i : at_ s t (KUnlock i) → sstep t s (goto t (KLoop (S i)) s)
| st_krelease : at_ s t KRelease → sstep t s (goto t Done s).

Definition step (s s' : ssys) : Prop := ∃ t, sstep t s s'.

(** At first every process is about to wait or to wake, or does neither. *)
Definition initial (s : ssys) : Prop := Forall (λ c, c = WLock ∨ c = KLock ∨ c = Done) (pcs s).

Inductive reachable : ssys → Prop :=
| reach_init s : initial s → reachable s
| reach_step s s' : reachable s → step s s' → reachable s'.

(** [P] holds after finitely many steps, whatever steps are taken; there always is
    one. *)
Inductive eventually (P : ssys → Prop) (s : ssys) : Prop :=
| ev_now : P s → eventually P s
| ev_later : (∃ s', step s s') → (∀ s', step s s' → eventually P s') → eventually P s.
