(* ===== verification/SleepThms.v ===== *)
(** * No wakeup is lost *)
From S2P Require Import Prelude.
From S2P Require Import Sleep.

(** The waker at [c] has still to look at process [t]. *)
Definition will_visit (c : pc) (t : nat) : Prop :=
  match c with KLoop i => i <= t | KTest i | KUnlock i => i < t | _ => False end.

Record inv (s : ssys) : Prop := {
  in_mutex : ∀ t u c d, at_ s t c → at_ s u d → holds_lk c = true → holds_lk d = true → t = u;
  in_false : ∀ t c, at_ s t c → c = SLockP ∨ c = SRelease → cond s = false;
  in_true : ∀ t, at_ s t WDone → cond s = true;
  in_wake : ∀ t c, at_ s t c → c = SState ∨ c = Sched_ ∨ c = Sleeping → cond s = true →
    ∃ p d, at_ s p d ∧ (will_visit d t ∨ d = KTest t ∧ c = Sleeping)
}.

Lemma at_goto s t c u d : at_ (goto t c s) u d → u = t ∧ d = c ∨ u ≠ t ∧ at_ s u d.
Proof. unfold at_, goto. simpl. rewrite list_lookup_insert_Some. naive_solver. Qed.

Lemma at_goto_ne s t c u d : u ≠ t → at_ s u d → at_ (goto t c s) u d.
Proof. intros Hne Hu. unfold at_, goto. simpl. by rewrite list_lookup_insert_ne. Qed.

Lemma at_goto_eq s t b c : at_ s t b → at_ (goto t c s) t c.
Proof. intros Ht. unfold at_, goto. simpl. apply list_lookup_insert_eq. by eapply lookup_lt_Some. Qed.

Lemma at_fun s t c d : at_ s t c → at_ s t d → c = d.
Proof. unfold at_. congruence. Qed.

Lemma wake_cond i s : cond (wake i s) = cond s.
Proof. unfold wake. by repeat case_match. Qed.

Lemma at_wake i s u d : at_ (wake i s) u d → at_ s u d ∨ u = i ∧ d = Runnable ∧ at_ s u Sleeping.
Proof.
  unfold wake. destruct (pcs s !! i) as [c|] eqn:E; [|by left]. destruct c; try by left.
  intros [[-> ->]|[_ Hu]]%at_goto; [by right|by left].
Qed.

Lemma at_wake_keep i s u d : at_ s u d → d ≠ Sleeping → at_ (wake i s) u d.
Proof.
  intros Hu Hd. unfold wake. destruct (pcs s !! i) as [c|] eqn:E; [|done]. destruct c; try done.
  apply at_goto_ne; [|done]. intros ->. unfold at_ in Hu. congruence.
Qed.

Lemma initial_inv s : initial s → inv s.
Proof.
  intros Hi. unfold initial in Hi. rewrite Forall_lookup in Hi.
  assert (∀ t c, at_ s t c → c = WLock ∨ c = KLock ∨ c = Done) as Hc by (intros t c; apply Hi).
  split.
  - intros t u c d Ht _ Hh. by destruct (Hc _ _ Ht) as [->|[->| ->]].
  - intros t c Ht [->| ->]; destruct (Hc _ _ Ht) as [|[|]]; done.
  - intros t Ht. by destruct (Hc _ _ Ht) as [|[|]].
  - intros t c Ht [->|[->| ->]]; destruct (Hc _ _ Ht) as [|[|]]; done.
Qed.

(** A step that keeps the condition and does not move a waker past a process. *)
Lemma inv_goto s t b c :
  inv s → at_ s t b →
  (holds_lk c = true → holds_lk b = false → lk_free s) →
  (c = SLockP ∨ c = SRelease → cond s = false) →
  (c = SState ∨ c = Sched_ ∨ c = Sleeping → cond s = true → b = SState ∨ b = Sched_ ∨ b = Sleeping) →
  (∀ u, u ≠ t → u < length (pcs s) → will_visit b u → will_visit c u ∨ c = KTest u ∧ p_free s u) → (∀ u, b ≠ KTest u) → b ≠ Sleeping →
  (c = WDone → cond s = true) →
  inv (goto t c s).
Proof.
  intros [Hm Hf Ht' Hw] Ht Hlk Hcf Hsl Hv Hnt Hns Hct.
  assert (∀ u d, at_ s u d → u ≠ t → holds_lk c = true → holds_lk d = true → False) as Hex.
  { intros u d Hu Hne Hc Hd. destruct (holds_lk b) eqn:Eb; [by destruct Hne; eapply Hm|].
    specialize (Hlk Hc eq_refl u d Hu). congruence. }
  split.
  - intros x y d e [[-> ->]|[Hx Hx']]%at_goto [[-> ->]|[Hy Hy']]%at_goto Hd He; try done.
    + exfalso. by eapply (Hex y).
    + exfalso. by eapply (Hex x).
    + by eapply Hm.
  - intros x d [[-> ->]|[Hx Hx']]%at_goto Hd; [by apply Hcf|by eapply Hf].
  - intros x [[-> E]|[Hx Hx']]%at_goto; [by apply Hct|by eapply Ht'].
  - intros x d [[-> ->]|[Hx Hx']]%at_goto Hd Hcond.
    + destruct (Hw t b Ht (Hsl Hd Hcond) Hcond) as (p & e & Hp & [Hve|[_ ?]]); [|done].
      exists p, e. split; [|by left]. apply at_goto_ne; [|done]. intros ->. pose proof (at_fun _ _ _ _ Hp Ht) as ->.
      by destruct (Hsl Hd Hcond) as [->|[->| ->]].
    + destruct (Hw x d Hx' Hd Hcond) as (p & e & Hp & Hve). destruct (decide (p = t)) as [->|Hpt]; [|exists p, e; by split; [apply at_goto_ne|]].
      pose proof (at_fun _ _ _ _ Hp Ht) as ->. destruct Hve as [Hve|[-> _]]; [|by destruct (Hnt x)].
      exists t, c. split; [by eapply at_goto_eq|]. destruct (Hv x Hx (lookup_lt_Some _ _ _ Hx') Hve) as [?|[-> Hpf]]; [by left|]. right. split; [done|].
      specialize (Hpf x d Hx'). destruct Hd as [->|[->| ->]]; [..|done]; simpl in Hpf; by rewrite bool_decide_eq_true_2 in Hpf.
Qed.

(** The waker tests process [i] and makes it runnable if it sleeps. *)
Lemma inv_ktest s t i : inv s → at_ s t (KTest i) → inv (goto t (KUnlock i) (wake i s)).
Proof.
  intros [Hm Hf Ht' Hw] Ht.
  assert (∀ u d, at_ (goto t (KUnlock i) (wake i s)) u d → u = t ∧ d = KUnlock i ∨ u ≠ t ∧ (at_ s u d ∨ u = i ∧ d = Runnable)) as Hat.
  { intros u d [[-> ->]|[Hu [Hd|(-> & -> & _)]%at_wake]]%at_goto; auto. }
  split.
  - intros x y d e Hx Hy Hd He. destruct (Hat _ _ Hx) as [[-> ->]|[Hxt [Hx'|[-> ->]]]], (Hat _ _ Hy) as [[-> ->]|[Hyt [Hy'|[-> ->]]]]; try done.
    + by eapply (Hm _ _ (KTest i) e).
    + by eapply (Hm _ _ d (KTest i)).
    + by eapply Hm.
  - intros x d Hx Hd. simpl. rewrite wake_cond. destruct (Hat _ _ Hx) as [[-> ->]|[Hxt [Hx'|[-> ->]]]]; [by destruct Hd| |by destruct Hd].
    by eapply Hf.
  - intros x Hx. simpl. rewrite wake_cond. destruct (Hat _ _ Hx) as [[? ?]|[Hxt [Hx'|[? ?]]]]; [done| |done]. by eapply Ht'.
  - intros x d Hx Hd. simpl. rewrite wake_cond. intros Hcond.
    destruct (Hat _ _ Hx) as [[-> ->]|[Hxt [Hx'|[-> ->]]]]; [by destruct Hd as [|[]]| |by destruct Hd as [|[]]].
    destruct (Hw x d Hx' Hd Hcond) as (p & e & Hp & Hve). destruct (decide (p = t)) as [->|Hpt].
    + pose proof (at_fun _ _ _ _ Hp Ht) as ->. exists t, (KUnlock i). split.
      { eapply at_goto_eq, at_wake_keep; [exact Ht|done]. }
      destruct Hve as [Hve|[[= ->] ->]]; [by left|]. exfalso.
      assert (pcs (wake x s) !! x = Some Runnable) as E.
      { unfold wake. rewrite Hx'. apply list_lookup_insert_eq. by eapply lookup_lt_Some. }
      unfold at_, goto in Hx. simpl in Hx. rewrite list_lookup_insert_ne in Hx by done. congruence.
    + exists p, e. split; [|done]. apply at_goto_ne, at_wake_keep; [done|done|]. by destruct Hve as [Hve|[-> _]]; [destruct e|].
Qed.

(** [cond = 1], under the lock. *)
Lemma inv_kset s t : inv s → at_ s t KSet → inv (goto t (KLoop 0) (set_cond true s)).
Proof.
  intros [Hm Hf Ht' Hw] Ht. split; simpl.
  - intros x y d e [[-> ->]|[Hx Hx']]%at_goto [[-> ->]|[Hy Hy']]%at_goto Hd He; try done.
    + by eapply (Hm _ _ KSet e).
    + by eapply (Hm _ _ d KSet).
    + by eapply (Hm x y d e).
  - intros x d [[-> ->]|[Hx Hx']]%at_goto Hd; [by destruct Hd|]. destruct Hx.
    eapply (Hm x t d KSet); [done|done| |done]. by destruct Hd as [->| ->].
  - done.
  - intros x d Hx Hd _. exists t, (KLoop 0). split; [by eapply at_goto_eq|]. left. simpl. lia.
Qed.

(** The waiter may consume the condition before it releases the lock. *)
Lemma inv_wdone s t b : inv s → at_ s t WDone → inv (goto t Done (set_cond b s)).
Proof.
  intros [Hm Hf Ht' Hw] Ht.
  assert (∀ u d, at_ (goto t Done (set_cond b s)) u d → u = t ∧ d = Done ∨ u ≠ t ∧ at_ s u d ∧ holds_lk d = false) as Hat.
  { intros u d [[-> ->]|[Hu Hd]]%at_goto; [by left|]. right. split_and!; [done..|].
    destruct (holds_lk d) eqn:E; [|done]. destruct Hu. by eapply (Hm u t d WDone). }
  split; simpl.
  - intros x y d e Hx _ Hd. by destruct (Hat _ _ Hx) as [[-> ->]|(_ & _ & ?)]; [|congruence].
  - intros x d Hx Hd. destruct (Hat _ _ Hx) as [[-> ->]|(_ & _ & ?)]; [by destruct Hd|]. by destruct Hd as [->| ->].
  - intros x Hx. by destruct (Hat _ _ Hx) as [[_ ?]|(_ & _ & ?)].
  - intros x d Hx Hd _. destruct (Hat _ _ Hx) as [[-> ->]|(_ & Hx' & ?)]; [by destruct Hd as [|[]]|].
    destruct (Hw x d Hx' Hd (Ht' t Ht)) as (p & e & Hp & Hve). exfalso.
    assert (p = t) as ->. { eapply (Hm p t e WDone); [done|done| |done]. by destruct Hve as [Hve|[-> _]]; [destruct e|]. }
    pose proof (at_fun _ _ _ _ Hp Ht) as ->. by destruct Hve as [|[]].
Qed.

Lemma inv_step t s s' : inv s → sstep t s s' → inv s'.
Proof.
  intros Hi Hs. pose proof Hi as [Hm Hf _ Hw].
  destruct Hs as [Ht Hl|Ht Hc|Ht Hc|b Ht|Ht Hp|Ht|Ht|Ht|Ht Hp|Ht|Ht Hl|Ht Hl|Ht|Ht|i Ht Hne Hlt Hp|i Ht Hle|i Ht|i Ht|Ht].
  4: by apply inv_wdone.
  12: by apply inv_kset.
  15: by apply inv_ktest.
  all: eapply inv_goto; [done|exact Ht|..]; simpl; clear Hm Hw.
  all: try done; try (by intros [|]); try (by intros [|[]]); try (by intros; auto).
  - intros _. by eapply Hf; [exact Ht|left].
  - intros _ Hc. rewrite (Hf t SRelease Ht (or_intror eq_refl)) in Hc. done.
  - intros u Hu Hlt ?. left. lia.
  - intros u Hu Hlu ?. destruct (decide (u = i)) as [->|]; [by right|left; lia].
  - intros u Hu Hlu ?. lia.
Qed.

Lemma reachable_inv s : reachable s → inv s.
Proof. induction 1 as [s Hi|s s' _ IH [t Hs]]; [by apply initial_inv|by eapply inv_step]. Qed.

(** ** Progress

    While a waker holds the lock every step brings it nearer to the end of its
    loop, or a process it has to wait for nearer to a release. *)

Definition rank (n : nat) (c : pc) : nat :=
  match c with
  | SState => 5 | Sched_ => 4 | Sleeping => 3 | Runnable => 2 | SUnlockP => 1
  | KLoop i => 3 * (n - i) + 1 | KTest i => 3 * (n - i) | KUnlock i => 3 * (n - i) - 1
  | _ => 0
  end.

Definition msr (s : ssys) : nat := sum_list_with (rank (length (pcs s))) (pcs s).

Lemma sum_insert {A} (f : A → nat) (l : list A) k x y :
  l !! k = Some x → (sum_list_with f (<[k := y]> l) + f x = sum_list_with f l + f y)%nat.
Proof. revert k. induction l as [|a l IH]; intros [|k] Hk; simplify_eq/=; [lia|]. specialize (IH k Hk). lia. Qed.

Lemma msr_goto s t b c : at_ s t b → rank (length (pcs s)) c < rank (length (pcs s)) b → msr (goto t c s) < msr s.
Proof. intros Ht Hr. unfold msr, goto. simpl. rewrite length_insert. pose proof (sum_insert (rank (length (pcs s))) _ _ _ c Ht). lia. Qed.

Lemma length_pcs_wake i s : length (pcs (wake i s)) = length (pcs s).
Proof. unfold wake. repeat case_match; try done. apply length_insert. Qed.

Lemma msr_wake i s : (msr (wake i s) <= msr s)%nat.
Proof.
  unfold wake. destruct (pcs s !! i) as [c|] eqn:E; [|done]. destruct c; try done.
  enough (msr (goto i Runnable s) < msr s) by lia. apply (msr_goto s i Sleeping Runnable); [done|simpl; lia].
Qed.

(** Process [t] has committed itself to sleep and is not awake yet. *)
Definition asleep (s : ssys) (t : nat) : Prop := ∃ c, at_ s t c ∧ (c = SState ∨ c = Sched_ ∨ c = Sleeping).

(** The one process that holds the lock is a waker that has still to wake [t]. *)
Definition waker (s : ssys) (t p : nat) (d : pc) : Prop :=
  at_ s p d ∧ holds_lk d = true ∧ (will_visit d t ∨ d = KTest t ∧ at_ s t Sleeping) ∧ t < length (pcs s) ∧
  ∀ u e, at_ s u e → holds_lk e = true → u = p.

Lemma asleep_waker s t : inv s → asleep s t → cond s = true → ∃ p d, waker s t p d.
Proof.
  intros [Hm _ _ Hw] (c & Ht & Hc) Hcond. destruct (Hw t c Ht Hc Hcond) as (p & d & Hp & Hd).
  assert (holds_lk d = true) as Hl by (by destruct Hd as [Hd|[-> _]]; [destruct d|]).
  exists p, d. split_and!; [done|done|naive_solver|by eapply lookup_lt_Some|]. intros u e Hu He. by eapply (Hm u p e d).
Qed.

Lemma asleep_goto s t u b c :
  asleep s t → at_ s u b → (b = SState ∨ b = Sched_ ∨ b = Sleeping → c = SState ∨ c = Sched_ ∨ c = Sleeping) →
  asleep (goto u c s) t.
Proof.
  intros (e & Ht & He) Hu Hbc. destruct (decide (t = u)) as [->|Hne].
  - exists c. split; [by eapply at_goto_eq|]. apply Hbc. by rewrite (at_fun _ _ _ _ Hu Ht).
  - exists e. split; [by apply at_goto_ne|done].
Qed.

(** The waker's test of another process leaves [t] asleep. *)
Lemma asleep_ktest s t u i :
  asleep s t → cond s = true → at_ s u (KTest i) → i ≠ t → i < length (pcs s) →
  asleep (goto u (KUnlock i) (wake i s)) t ∧ cond (goto u (KUnlock i) (wake i s)) = true ∧ msr (goto u (KUnlock i) (wake i s)) < msr s.
Proof.
  intros (c & Ht & Hc) Hcond Hu Hi Hlt. assert (at_ (wake i s) u (KTest i)) as Hu' by (by apply at_wake_keep). split_and!.
  - eapply asleep_goto; [|exact Hu'|by intros [|[]]]. exists c. split; [|done]. unfold wake. repeat case_match; try done. by apply at_goto_ne.
  - simpl. by rewrite wake_cond.
  - eapply Nat.lt_le_trans; [|apply (msr_wake i)]. eapply msr_goto; [exact Hu'|]. rewrite length_pcs_wake. simpl. lia.
Qed.

(** Every step wakes [t], or leaves it asleep with less to do. *)
Lemma asleep_step s s' u t p d :
  waker s t p d → asleep s t → cond s = true → sstep u s s' →
  at_ s' t Runnable ∨ asleep s' t ∧ cond s' = true ∧ msr s' < msr s.
Proof.
  intros (Hp & Hd & Hv & Hlt & Hone) Ha Hcond Hs.
  assert (∀ e, at_ s u e → holds_lk e = true → e = d) as Hon.
  { intros e He Hl. pose proof (Hone _ _ He Hl) as ->. by eapply at_fun. }
  assert (¬ lk_free s) as Hnf by (intros Hf; specialize (Hf p d Hp); congruence).
  assert (∀ i, d = KTest i ∨ d = KUnlock i ∨ d = KLoop i → (i <= t)%nat) as Hle by (intros i [->|[->| ->]]; simpl in Hv; naive_solver lia).
  destruct Hs as [Ht Hl|Ht Hc|Ht Hc|b Ht|Ht Hf|Ht|Ht|Ht|Ht Hf|Ht|Ht Hl|Ht Hl|Ht|Ht|i Ht Hne Hn Hf|i Ht Hn|i Ht|i Ht|Ht];
    try done; try (by specialize (Hon _ Ht eq_refl) as <-; destruct Hv as [|[]]).
  all: try (right; split_and!; [eapply asleep_goto; [done|exact Ht|auto]|done|eapply msr_goto; [exact Ht|]]; simpl; try lia).
  all: try (by intros [|[]]).
  - apply lookup_lt_Some in Ht. lia.
  - pose proof (Hon _ Ht eq_refl) as <-. destruct Hv as [Hv|[[= ->] Hsl]].
    + right. eapply asleep_ktest; [done|done|done|simpl in Hv; lia|by apply lookup_lt_Some in Ht; simpl in Hv; lia].
    + left. apply at_goto_ne; [intros ->; by pose proof (at_fun _ _ _ _ Hsl Ht)|]. unfold wake. rewrite Hsl. by eapply at_goto_eq.
  - pose proof (Hon _ Ht eq_refl) as <-. assert (i <= t)%nat by auto. lia.
Qed.

(** The holder of a p->lock can always take a step. *)
Lemma holder_steps s u c i : at_ s u c → holds_p u c i = true → ∃ s', step s s'.
Proof.
  intros Hu Hc. destruct c; try done; eexists; exists u.
  - by apply st_srelease.
  - by apply st_sstate.
  - by apply st_sched.
  - by apply st_sunlockp.
  - by apply st_ktest.
  - by apply st_kunlock.
Qed.

Lemma p_free_or_held s i : p_free s i ∨ ∃ u c, at_ s u c ∧ holds_p u c i = true.
Proof.
  destruct (decide (Exists (λ u, (c ← pcs s !! u; Some (holds_p u c i)) = Some true) (seq 0 (length (pcs s))))) as [He|Hn].
  - right. apply Exists_exists in He as (u & _ & Hu). destruct (pcs s !! u) as [c|] eqn:E; [|done]. exists u, c. split; [done|]. by injection Hu.
  - left. intros u c Hu. destruct (holds_p u c i) eqn:E; [|done]. destruct Hn. apply Exists_exists. exists u.
    split; [apply elem_of_seq; apply lookup_lt_Some in Hu; lia|]. rewrite Hu. simpl. by rewrite E.
Qed.

(** Some step is possible: of the waker, or of the process it waits for. *)
Lemma waker_steps s t p d : waker s t p d → ∃ s', step s s'.
Proof.
  intros (Hp & Hd & Hv & Hlt & _). destruct d as [| | | | | | | | | | | | |i|i|i| |]; try by destruct Hv as [|[]].
  - destruct (decide (i = p)) as [->|Hne]; [eexists; exists p; by apply st_kself|].
    destruct (p_free_or_held s i) as [Hf|(u & c & Hu & Hc)]; [|by eapply holder_steps].
    eexists. exists p. apply (st_klockp _ _ i); [done|done| |done]. destruct Hv as [Hv|[]]; simpl in *; [lia|done].
  - eexists. exists p. by apply st_ktest.
  - eexists. exists p. by apply st_kunlock.
Qed.

(** C5. No wakeup is lost.  Processes wait with sleep(chan, lk) for a condition
    that wakers set under lk before they call wakeup(chan), and take steps in any
    order.  Whenever the condition holds in a reachable state, a process that has
    given up lk inside sleep — whether it has set p->state to SLEEPING yet, is about
    to call sched(), or is off the processor — is made RUNNABLE after finitely many
    steps, whatever steps the scheduler picks; and up to then some process can
    always take a step. *)
Theorem sleeper_wakes s t : reachable s → cond s = true → asleep s t → eventually (λ s', at_ s' t Runnable) s.
Proof.
  intros Hi%reachable_inv. remember (msr s) as m eqn:Em. revert s Hi Em.
  induction (lt_wf m) as [m _ IH]. intros s Hi -> Hcond Ha. destruct (asleep_waker s t Hi Ha Hcond) as (p & d & Hw).
  apply ev_later; [by eapply waker_steps|]. intros s' [u Hs].
  destruct (asleep_step _ _ _ _ _ _ Hw Ha Hcond Hs) as [Hr|(Ha' & Hc' & Hm)]; [by apply ev_now|].
  eapply IH; [exact Hm|by eapply inv_step|done..].
Qed.

Ltac step_of t c := eapply (reach_step _ _); [|exists t; eapply c; try (vm_compute; reflexivity); by intros [|[|u]] e; simpl; intros; simplify_eq].

Lemma sleeper_wakes_witness :
  asleep (SSys [Sleeping; KLoop 0] true) 0 ∧ eventually (λ s', at_ s' 0 Runnable) (SSys [Sleeping; KLoop 0] true).
Proof.
  assert (asleep (SSys [Sleeping; KLoop 0] true) 0) as Ha by (exists Sleeping; by split; [|right; right]).
  split; [exact Ha|]. apply sleeper_wakes; [|reflexivity|exact Ha].
  change (reachable (goto 1 (KLoop 0) (set_cond true (SSys [Sleeping; KSet] false)))). step_of 1 st_kset.
  change (reachable (goto 1 KSet (SSys [Sleeping; KLock] false))). step_of 1 st_klock.
  change (reachable (goto 0 Sleeping (SSys [Sched_; KLock] false))). step_of 0 st_sched.
  change (reachable (goto 0 Sched_ (SSys [SState; KLock] false))). step_of 0 st_sstate.
  change (reachable (goto 0 SState (SSys [SRelease; KLock] false))). step_of 0 st_srelease.
  change (reachable (goto 0 SRelease (SSys [SLockP; KLock] false))). step_of 0 st_slockp.
  change (reachable (goto 0 SLockP (SSys [WTest; KLock] false))). step_of 0 st_test_false.
  change (reachable (goto 0 WTest (SSys [WLock; KLock] false))). step_of 0 st_wlock.
  apply reach_init. unfold initial. simpl. rewrite !Forall_cons. auto.
Defined.
