(* ===== verification/Mkfs.v ===== *)
(** * mkfs/mkfs.c: the first disk image

    The image file is a map from block numbers to blocks.  [freeinode] and
    [freeblock] are the program's counters; [sb] has the same value from the start.
    A failed assertion and die end the program.  struct dinode is the part of
    [State.inode] that is kept on disk, laid out in its block as in the kernel, in
    the byte order of the target.  Writing the image file succeeds; reading it past
    its end does not. *)
From S2P Require Import Prelude.
From S2P Require Import Mem.
From S2P Require Import Params.
From S2P Require Import State.
From S2P Require Import KString.
From S2P Require Import Log.
From S2P Require Import Fs.
#[local] Open Scope Z_scope.

Definition NINODES : Z := 200.

Definition nbitmap : Z := FSSIZE / BPB + 1.
Definition ninodeblocks : Z := NINODES / IPB + 1.
Definition nlog : Z := LOGBLOCKS + 1.
Definition nmeta : Z := 2 + nlog + ninodeblocks + nbitmap.
Definition nblocks : Z := FSSIZE - nmeta.

(** The value that is in memory in the target's byte order, on a host with the
    same one. *)
Definition xshort (x : Z) : Z := get16 [u8 x; u8 (Z.shiftr x 8)] 0.
Definition xint (x : Z) : Z := get32 [u8 x; u8 (Z.shiftr x 8); u8 (Z.shiftr x 16); u8 (Z.shiftr x 24)] 0.

(** [sb.magic = FSMAGIC; ... sb.bmapstart = xint(2+nlog+ninodeblocks)] *)
Definition mkfs_sb : superblock :=
  SuperBlock FSMAGIC (xint FSSIZE) (xint nblocks) (xint NINODES) (xint nlog) (xint 2) (xint (2 + nlog))
    (xint (2 + nlog + ninodeblocks)).

Record mkst : Type := MkSt { img : gmap Z (list Z); freeinode : Z; freeblock : Z }.

(** The block at the offset to which lseek goes. *)
Definition seek (sec : Z) : Z := u32 (sec * BSIZE) / BSIZE.

Definition wsect (sec : Z) (buf : list Z) : M mkst unit :=
  modify (λ s, MkSt (<[seek sec := buf]> (img s)) (freeinode s) (freeblock s)).

Definition rsect (sec : Z) : M mkst (list Z) := λ s,
  match img s !! seek sec with Some d => Ok d s | None => Panic "read" end.

(** The inode at its place in a block. *)
Definition disk_inode (d : list Z) (inum : Z) : inode :=
  let o := dip inum in
  Inode ROOTDEV inum 1 (SleepLock false 0) true (di_type d o) (di_major d o) (di_minor d o) (di_nlink d o) (di_size d o) (di_addrs d o).

Definition rinode (inum : Z) : M mkst inode :=
  buf ← rsect (IBLOCK inum mkfs_sb);
  mret (disk_inode buf inum).

Definition winode (inum : Z) (ip : inode) : M mkst unit :=
  let bn := IBLOCK inum mkfs_sb in
  buf ← rsect bn;
  wsect bn (put_dinode buf (dip inum) ip).

(** [freeinode++] and [freeblock++] *)
Definition next_inode : M mkst Z := λ s, Ok (freeinode s) (MkSt (img s) (u32 (freeinode s + 1)) (freeblock s)).
Definition next_block : M mkst Z := λ s, Ok (freeblock s) (MkSt (img s) (freeinode s) (u32 (freeblock s + 1))).

Definition ialloc (type : Z) : M mkst Z :=
  inum ← next_inode;
  winode inum (Inode ROOTDEV inum 1 (SleepLock false 0) true (xshort type) 0 0 (xshort 1) (xint 0) (replicate 13 0));;
  mret inum.

(** [for(i = 0; i < used; i++) buf[i/8] = buf[i/8] | (0x1 << (i%8))] on a buffer
    of zeros *)
Definition used_bits (used : nat) : list Z :=
  foldl (λ buf i, bit_set buf (Z.of_nat i)) (replicate (Z.to_nat BSIZE) 0) (seq 0 used).

Definition mkfs_balloc (used : Z) : M mkst unit :=
  if bool_decide (BPB <= used) then panic "assert" else
  wsect (sb_bmapstart mkfs_sb) (used_bits (Z.to_nat used)).

Definition put_addr (k v : Z) (din : inode) : inode := din <| i_addrs := <[Z.to_nat k := v]> (i_addrs din) |>.

(** The block of the image for block [fbn] of the file: the [if(fbn < NDIRECT)] of
    iappend. *)
Definition block_for (din : inode) (fbn : Z) : M mkst (inode * Z) :=
  if bool_decide (fbn < NDIRECT) then
    din ← (if bool_decide (i_addrs din !!! Z.to_nat fbn = 0)
           then b ← next_block; mret (put_addr fbn (xint b) din) else mret din);
    mret (din, xint (i_addrs din !!! Z.to_nat fbn))
  else
    din ← (if bool_decide (i_addrs din !!! Z.to_nat NDIRECT = 0)
           then b ← next_block; mret (put_addr NDIRECT (xint b) din) else mret din);
    let ib := xint (i_addrs din !!! Z.to_nat NDIRECT) in
    let k := Z.to_nat (4 * (fbn - NDIRECT)) in
    indirect ← rsect ib;
    indirect ← (if bool_decide (get32 indirect k = 0)
                then b ← next_block; wsect ib (put32 indirect k (xint b));; mret (put32 indirect k (xint b))
                else mret indirect);
    mret (din, xint (get32 indirect k)).

(** [while(n > 0)]; [p] are the n bytes that are left *)
Fixpoint iappend_loop (fuel : nat) (din : inode) (off : Z) (p : list Z) : M mkst (inode * Z) :=
  match fuel with
  | O => stuck
  | S fuel' =>
      if bool_decide (0 < length p)%nat then
        let fbn := off / BSIZE in
        if bool_decide (MAXFILE <= fbn) then panic "assert" else
        '(din, x) ← block_for din fbn;
        let n1 := Z.to_nat (Z.min (Z.of_nat (length p)) ((fbn + 1) * BSIZE - off)) in
        buf ← rsect x;
        wsect x (splice buf (Z.to_nat (off - fbn * BSIZE)) (take n1 p));;
        iappend_loop fuel' din (u32 (off + Z.of_nat n1)) (drop n1 p)
      else mret (din, off)
  end.

(** Every round takes at least one byte. *)
Definition iappend (inum : Z) (p : list Z) : M mkst unit :=
  din ← rinode inum;
  '(din, off) ← iappend_loop (S (length p)) din (xint (i_size din)) p;
  winode inum (din <| i_size := xint off |>).

Definition underscore : Z := 95.

(** The name without user/ and, in the image, without a leading underscore. *)
Definition short_name (arg : list Z) : list Z :=
  if bool_decide (strncmp_l arg (str "user/") 5 = 0) then drop 5 arg else arg.
Definition skip_underscore (name : list Z) : list Z :=
  if bool_decide (head name = Some underscore) then tail name else name.

(** [while((cc = read(fd, buf, sizeof(buf))) > 0) iappend(inum, buf, cc)] *)
Fixpoint append_all (inum : Z) (reads : list (list Z)) : M mkst unit :=
  match reads with
  | [] => mret tt
  | buf :: reads' => iappend inum buf;; append_all inum reads'
  end.

(** The body of main's loop for argument [arg]; [file] is what open and the reads
    return. *)
Definition add_file (rootino : Z) (arg : list Z) (file : option (list (list Z))) : M mkst unit :=
  let shortname := short_name arg in
  if bool_decide (slash ∈ shortname) then panic "assert" else
  match file with
  | None => panic "open"
  | Some reads =>
      let shortname := skip_underscore shortname in
      if bool_decide (Z.to_nat DIRSIZ < length shortname)%nat then panic "assert" else
      inum ← ialloc T_FILE;
      iappend rootino (dirent (xshort (u16 inum)) (strncpy_l shortname (Z.to_nat DIRSIZ)));;
      append_all inum reads
  end.

Fixpoint add_files (rootino : Z) (args : list (list Z * option (list (list Z)))) : M mkst unit :=
  match args with
  | [] => mret tt
  | (arg, file) :: args' => add_file rootino arg file;; add_files rootino args'
  end.

(** struct superblock at the start of a block of zeros *)
Definition sb_block (s : superblock) : list Z :=
  let d := replicate (Z.to_nat BSIZE) 0 in
  let d := put32 d 0 (sb_magic s) in
  let d := put32 d 4 (sb_size s) in
  let d := put32 d 8 (sb_nblocks s) in
  let d := put32 d 12 (sb_ninodes s) in
  let d := put32 d 16 (sb_nlog s) in
  let d := put32 d 20 (sb_logstart s) in
  let d := put32 d 24 (sb_inodestart s) in
  put32 d 28 (sb_bmapstart s).

(** [for(i = 0; i < FSSIZE; i++) wsect(i, zeroes)] *)
Definition clear_disk : M mkst unit :=
  for_each (Z.to_nat FSSIZE) 0 (λ i, wsect (Z.of_nat i) (replicate (Z.to_nat BSIZE) 0)).

Definition mkfs_main (args : list (list Z * option (list (list Z)))) : M mkst unit :=
  modify (λ s, MkSt (img s) (freeinode s) nmeta);;
  clear_disk;;
  wsect 1 (sb_block mkfs_sb);;
  rootino ← ialloc T_DIR;
  if bool_decide (rootino ≠ ROOTINO) then panic "assert" else
  iappend rootino (dirent (xshort (u16 rootino)) (strncpy_l (str ".") (Z.to_nat DIRSIZ)));;
  iappend rootino (dirent (xshort (u16 rootino)) (strncpy_l (str "..") (Z.to_nat DIRSIZ)));;
  add_files rootino args;;
  din ← rinode rootino;
  winode rootino (din <| i_size := xint (u32 ((xint (i_size din) / BSIZE + 1) * BSIZE)) |>);;
  used ← gets freeblock;
  mkfs_balloc used.

(** The program starts with a new, empty image file. *)
Definition mkfs (args : list (list Z * option (list (list Z)))) : outcome mkst unit := mkfs_main args (MkSt ∅ 1 0).
