(* ===== verification/MkfsThms.v ===== *)
(** * The image that mkfs makes is the file system that the kernel expects

    The free map is written last.  [view s] is the image with the free map that
    mkfs would write now; over it mkfs's steps are those of the kernel's own block
    allocator and file writes, and the lemmas of FileMap.v apply. *)
From S2P Require Import Prelude.
From S2P Require Import Mem.
From S2P Require Import Params.
From S2P Require Import State.
From S2P Require Import KString.
From S2P Require Import Log.
From S2P Require Import Fs.
From S2P Require Import Wp.
From S2P Require Import LogSpec.
From S2P Require Import FsTx.
From S2P Require Import BlockSpec.
From S2P Require Import BlockThms.
From S2P Require Import InodeThms.
From S2P Require Import FileMap.
From S2P Require Import FileRun.
From S2P Require Import DirThms.
From S2P Require Import Mkfs.
#[local] Open Scope Z_scope.

(** ** Numbers *)
Lemma xint_id x : 0 <= x < 2 ^ 32 → xint x = x.
Proof.
  intros Hx. unfold xint, get_le. simpl. unfold uN. rewrite !Z.shiftr_div_pow2 by lia.
  change (2 ^ 8) with 256. change (2 ^ 16) with 65536. change (2 ^ 24) with 16777216.
  Z.to_euclidean_division_equations. lia.
Qed.

Lemma xshort_id x : 0 <= x < 2 ^ 16 → xshort x = x.
Proof.
  intros Hx. unfold xshort, get_le. simpl. unfold uN. rewrite !Z.shiftr_div_pow2 by lia. change (2 ^ 8) with 256.
  Z.to_euclidean_division_equations. lia.
Qed.

Lemma u32_small x : 0 <= x < 2 ^ 32 → u32 x = x.
Proof. apply Z.mod_small. Qed.

Lemma seek_id b : 0 <= b < FSSIZE → seek b = b.
Proof. change FSSIZE with 2000. intros Hb. unfold seek. change BSIZE with 1024. rewrite u32_small by lia. by rewrite Z.div_mul. Qed.

Lemma FSSIZE_2000 : FSSIZE = 2000. Proof. reflexivity. Qed.
Lemma nmeta_47 : nmeta = 47. Proof. reflexivity. Qed.
#[local] Ltac mlia := pose proof FSSIZE_2000; pose proof nmeta_47; lia.

(** The layout: the log in blocks 2 to 32, the inodes in 33 to 45, the free map in
    46, files from 47 on. *)
Lemma mkfs_sb_eq : mkfs_sb = SuperBlock FSMAGIC 2000 1953 200 31 2 33 46.
Proof. reflexivity. Qed.

Abbreviation msb := mkfs_sb.

Lemma mkfs_bblock b : 0 <= b < FSSIZE → BBLOCK b msb = 46.
Proof.
  change FSSIZE with 2000. intros Hb. unfold BBLOCK. rewrite mkfs_sb_eq. cbn [sb_bmapstart]. change BPB with 8192.
  rewrite Z.div_small by lia. reflexivity.
Qed.

Lemma mkfs_iblock i : 0 <= i < 208 → 33 <= IBLOCK i msb < 46.
Proof.
  intros Hi. unfold IBLOCK. rewrite mkfs_sb_eq. cbn [sb_inodestart]. change IPB with 16.
  rewrite u32_small; Z.to_euclidean_division_equations; lia.
Qed.

(** ** The free map *)
Lemma length_used_bits n : length (used_bits n) = Z.to_nat BSIZE.
Proof.
  unfold used_bits. induction n as [|n IH]; [apply length_replicate|]. rewrite seq_S, foldl_app. simpl. by rewrite length_bit_set.
Qed.

Lemma used_bits_S n : used_bits (S n) = bit_set (used_bits n) (Z.of_nat n).
Proof. unfold used_bits. by rewrite seq_S, foldl_app. Qed.

Lemma used_bits_on n b : (n <= 2000)%nat → 0 <= b < 8192 → bit_on (used_bits n) b = bool_decide (b < Z.of_nat n).
Proof.
  intros Hn Hb. induction n as [|n IH].
  - rewrite bool_decide_eq_false_2 by lia. change (used_bits 0) with zeros. unfold bit_on, bit_byte, zeros.
    rewrite lookup_total_replicate_2; [by rewrite Z.land_0_l|]. change (Z.to_nat BSIZE) with 1024%nat. Z.to_euclidean_division_equations. lia.
  - pose proof (length_used_bits n) as Hl. change (Z.to_nat BSIZE) with 1024%nat in Hl. rewrite used_bits_S, bit_set_on by lia.
    rewrite IH by lia. repeat case_bool_decide; try done; lia.
Qed.

Definition view (s : mkst) : gmap Z (list Z) := <[46 := used_bits (Z.to_nat (freeblock s))]> (img s).

Record mk_ok (s : mkst) : Prop := {
  mk_range : nmeta <= freeblock s <= FSSIZE;
  mk_blocks : ∀ b, 0 <= b < FSSIZE → ∃ d, img s !! b = Some d ∧ length d = Z.to_nat BSIZE;
  mk_zero : ∀ b, freeblock s <= b < FSSIZE → img s !! b = Some zeros
}.

Lemma view_used s b : mk_ok s → 0 <= b < FSSIZE → used msb (view s) b = bool_decide (b < freeblock s).
Proof.
  intros [Hr _ _] Hb. unfold used. rewrite mkfs_bblock by done. unfold view. rewrite lookup_insert_eq.
  change nmeta with 47 in Hr. change FSSIZE with 2000 in *. change BPB with 8192. rewrite Z.mod_small by lia.
  rewrite used_bits_on, Z2Nat.id by lia. done.
Qed.

Lemma view_fs_ok s : mk_ok s → fs_ok msb (view s).
Proof.
  intros Hk. pose proof Hk as [Hr Hb _]. change nmeta with 47 in Hr. change FSSIZE with 2000 in *. split.
  - done.
  - done.
  - intros b Hb'. change (sb_size msb) with 2000 in Hb'. unfold view. destruct (decide (b = 46)) as [->|Hne].
    + rewrite lookup_insert_eq. eexists. split; [done|]. apply length_used_bits.
    + rewrite lookup_insert_ne by done. by apply Hb.
  - rewrite view_used by done. apply bool_decide_eq_true_2. lia.
  - intros b Hb'. change (sb_size msb) with 2000 in Hb'. rewrite mkfs_bblock by done. rewrite view_used by done. apply bool_decide_eq_true_2. lia.
Qed.

Lemma view_owned s b : mk_ok s → owned msb (view s) b ↔ 0 < b < freeblock s ∧ b ≠ 46.
Proof.
  intros Hk. pose proof (mk_range _ Hk) as Hr. change nmeta with 47 in Hr. unfold owned. change (sb_size msb) with FSSIZE. split.
  - intros (Hb & Hu & Hm). rewrite view_used in Hu by (done || lia). apply bool_decide_eq_true_1 in Hu.
    split; [lia|]. intros ->. apply (Hm 0); [done|]. by apply mkfs_bblock.
  - intros [Hb Hne]. split_and!; [lia..| |].
    + rewrite view_used by (done || lia). apply bool_decide_eq_true_2. lia.
    + intros c Hc. rewrite mkfs_bblock by done. done.
Qed.

Lemma view_ne s b : b ≠ 46 → view s !! b = img s !! b.
Proof. intros Hb. unfold view. by rewrite lookup_insert_ne. Qed.

(** ** Steps on the image *)
Definition put_block (b : Z) (d : list Z) (s : mkst) : mkst := MkSt (<[b := d]> (img s)) (freeinode s) (freeblock s).
Definition take_block (s : mkst) : mkst := MkSt (img s) (freeinode s) (freeblock s + 1).

Lemma wp_rsect b d (Q : list Z → mkst → Prop) s : 0 <= b < FSSIZE → img s !! b = Some d → Q d s → wp (rsect b) Q s.
Proof. intros Hb Hd HQ. unfold wp, rsect. by rewrite seek_id, Hd. Qed.

Lemma wp_wsect b d (Q : unit → mkst → Prop) s : 0 <= b < FSSIZE → Q tt (put_block b d s) → wp (wsect b d) Q s.
Proof. intros Hb HQ. unfold wp, wsect, modify. by rewrite seek_id. Qed.

Lemma wp_next_block (Q : Z → mkst → Prop) s : mk_ok s → Q (freeblock s) (take_block s) → wp next_block Q s.
Proof.
  intros [Hr _ _] HQ. unfold wp, next_block. by rewrite u32_small by mlia.
Qed.

Lemma view_put b d s : b ≠ 46 → view (put_block b d s) = <[b := d]> (view s).
Proof. intros Hb. unfold view, put_block. simpl. by rewrite insert_insert_ne. Qed.

Lemma put_ok b d s : mk_ok s → 0 <= b < freeblock s → length d = Z.to_nat BSIZE → mk_ok (put_block b d s).
Proof.
  intros [Hr Hb Hz] Hlt Hl. split; [done|..]; simpl.
  - intros c Hc. destruct (decide (c = b)) as [->|Hne]; [exists d; by rewrite lookup_insert_eq|]. rewrite lookup_insert_ne by done. auto.
  - intros c Hc. rewrite lookup_insert_ne by mlia. auto.
Qed.

Lemma take_ok s : mk_ok s → freeblock s < FSSIZE →
  mk_ok (take_block s) ∧ used msb (view s) (freeblock s) = false ∧ allocated msb (view s) (freeblock s) (view (take_block s)).
Proof.
  intros Hk Hlt. pose proof Hk as [Hr Hb Hz]. split_and!.
  - split; simpl; [mlia|done|]. intros b Hb'. apply Hz. mlia.
  - rewrite view_used by (done || mlia). apply bool_decide_eq_false_2. mlia.
  - exists (used_bits (Z.to_nat (freeblock s))). rewrite mkfs_bblock by mlia. unfold view at 1. rewrite lookup_insert_eq.
    split; [done|]. unfold view, take_block. simpl. rewrite insert_insert_eq. change BPB with 8192. rewrite Z.mod_small by mlia.
    replace (Z.to_nat (freeblock s + 1)) with (S (Z.to_nat (freeblock s))) by mlia. rewrite used_bits_S, Z2Nat.id by mlia.
    rewrite (insert_id _ (freeblock s)); [done|]. rewrite lookup_insert_ne by mlia. apply Hz. mlia.
Qed.

(** What appending to a file leaves alone: the counter of inodes and the blocks
    before the first file's. *)
Record mstep (s s' : mkst) : Prop := {
  ms_inode : freeinode s' = freeinode s;
  ms_meta : ∀ b, 0 <= b < nmeta → img s' !! b = img s !! b
}.

Lemma mstep_refl s : mstep s s.
Proof. done. Qed.
Lemma mstep_trans s1 s2 s3 : mstep s1 s2 → mstep s2 s3 → mstep s1 s3.
Proof. intros [I1 M1] [I2 M2]. split; [congruence|]. intros b Hb. rewrite M2, M1; done. Qed.
Lemma mstep_take s : mstep s (take_block s).
Proof. done. Qed.
Lemma mstep_put s b d : nmeta <= b → mstep s (put_block b d s).
Proof. intros Hb. split; [done|]. intros c Hc. simpl. apply lookup_insert_ne. mlia. Qed.

(** The blocks of a file lie behind the metadata. *)
Definition block_of (ip : inode) (V : gmap Z (list Z)) (b : Z) : Prop :=
  b ≠ 0 ∧ (b = ind_ ip ∨ ∃ bn, in_file bn ∧ faddr ip V bn = b).
Definition beyond (ip : inode) (V : gmap Z (list Z)) : Prop := ∀ b, block_of ip V b → nmeta <= b.

(** ** The block for a position of a file *)
Section block_for.
Context (s : mkst) (din : inode) (fbn : Z).
Context (Hk : mk_ok s) (Hf : file_ok msb (view s) din) (Hin : in_file fbn).

Lemma file_addr bn : in_file bn → 0 <= faddr din (view s) bn < FSSIZE.
Proof.
  intros Hbn. destruct (decide (faddr din (view s) bn = 0)) as [->|H0]; [done|].
  pose proof (fl_blk _ _ _ Hf bn Hbn H0) as [Hb _]%view_owned; [|done]. pose proof (mk_range _ Hk). mlia.
Qed.

Lemma ind_addr : 0 <= ind_ din < FSSIZE.
Proof.
  destruct (decide (ind_ din = 0)) as [->|H0]; [done|].
  pose proof (fl_ind _ _ _ Hf H0) as [Hb _]%view_owned; [|done]. pose proof (mk_range _ Hk). mlia.
Qed.

Lemma xint_addr a : 0 <= a < FSSIZE → xint a = a.
Proof. change FSSIZE with 2000. intros. apply xint_id. mlia. Qed.

Lemma put_addr_slot k v ip : put_addr k v ip = set_slot (Z.to_nat k) v ip.
Proof. reflexivity. Qed.

(** A block is taken when there is none for this position. *)
Definition fresh (a : Z) : Z := if bool_decide (a = 0) then 1 else 0.

Lemma wp_direct (Q : inode * Z → mkst → Prop) :
  fbn < NDIRECT → freeblock s + fresh (faddr din (view s) fbn) <= FSSIZE →
  (∀ din' x s', mk_ok s' → mstep s s' → freeblock s' = freeblock s + fresh (faddr din (view s) fbn) →
     grown msb (view s) din (view s') din' → faddr din' (view s') fbn = x → x ≠ 0 → 
     (∀ bn, in_file bn → bn ≠ fbn → faddr din' (view s') bn = faddr din (view s) bn) → ind_ din' = ind_ din → Q (din', x) s') →
  wp (block_for din fbn) Q s.
Proof.
  intros Hd Hroom HQ. unfold block_for. rewrite bool_decide_eq_true_2 by done.
  assert (faddr din (view s) fbn = i_addrs din !!! Z.to_nat fbn) as E by (unfold faddr; by rewrite bool_decide_eq_true_2).
  pose proof (file_addr fbn Hin) as Ha. pose proof (fl_len _ _ _ Hf) as Hl. pose proof (mk_range _ Hk) as Hr. apply wp_bind. unfold fresh in *.
  rewrite <-E. case_bool_decide as H0.
  - destruct (take_ok s Hk ltac:(mlia)) as (Hk' & Hfree & Hal). apply wp_bind, wp_next_block; [done|]. apply wp_ret, wp_ret.
    assert (0 < freeblock s < sb_size msb) as Hv by (change (sb_size msb) with FSSIZE; mlia).
    destruct (grow_direct _ _ _ _ _ (view_fs_ok _ Hk) Hf Hv Hfree Hal fbn ltac:(mlia) H0) as [Hg Hx].
    change (sb_size msb) with FSSIZE in Hv. rewrite put_addr_slot, (xint_addr (freeblock s)) by mlia.
    replace (xint _) with (freeblock s); last first.
    { unfold set_slot. rsimpl. rewrite list_lookup_total_insert_eq by (rewrite Hl; change NDIRECT with 12 in Hd; mlia). by rewrite xint_addr by mlia. }
    eapply HQ; [done|done|simpl; mlia|exact Hg|exact Hx|mlia| |by apply ind_set_direct; mlia].
    intros bn Hbn Hne. rewrite faddr_set_direct, decide_False by (done || mlia). apply (alloc_faddr msb _ _ _ Hv Hfree Hal _ _ Hf).
  - apply wp_ret, wp_ret. rewrite <-E, xint_addr by done. eapply HQ; [done|done|mlia|apply grown_refl; [by apply view_fs_ok|done]|done|done|done|done].
Qed.

(** The indirect block is there after the first step. *)
Lemma wp_take_ind (Q : inode → mkst → Prop) :
  freeblock s + fresh (ind_ din) <= FSSIZE →
  (∀ din' s', mk_ok s' → mstep s s' → freeblock s' = freeblock s + fresh (ind_ din) → grown msb (view s) din (view s') din' →
     ind_ din' ≠ 0 → (∀ bn, in_file bn → faddr din' (view s') bn = faddr din (view s) bn) → Q din' s') →
  wp (if bool_decide (i_addrs din !!! Z.to_nat NDIRECT = 0)
      then b ← next_block; mret (put_addr NDIRECT (xint b) din) else mret din) Q s.
Proof.
  intros Hroom HQ. change (i_addrs din !!! Z.to_nat NDIRECT) with (ind_ din). unfold fresh in *.
  pose proof (fl_len _ _ _ Hf) as Hl. pose proof (mk_range _ Hk) as Hr. case_bool_decide as H0.
  - destruct (take_ok s Hk ltac:(mlia)) as (Hk' & Hfree & Hal). apply wp_bind, wp_next_block; [done|]. apply wp_ret.
    assert (0 < freeblock s < sb_size msb) as Hv by (change (sb_size msb) with FSSIZE; mlia).
    destruct (grow_ind _ _ _ _ _ (view_fs_ok _ Hk) Hf Hv Hfree Hal H0) as [Hg Hx]. change (sb_size msb) with FSSIZE in Hv.
    rewrite put_addr_slot, xint_addr by mlia. eapply HQ; [done|done|simpl; mlia|exact Hg|mlia|].
    intros bn Hbn. destruct (alloc_new msb _ _ _ (view_fs_ok _ Hk) Hv Hfree Hal) as [_ Hz].
    etrans; [apply faddr_set_ind; [done|done|exact Hz|mlia]|]. apply (alloc_faddr msb _ _ _ Hv Hfree Hal _ _ Hf).
  - apply wp_ret. apply HQ; [done|done|mlia|apply grown_refl; [by apply view_fs_ok|done]|done|done].
Qed.
End block_for.

Lemma fresh_beyond s s' b : mk_ok s → mk_ok s' → owned msb (view s') b → ¬ owned msb (view s) b → freeblock s <= b.
Proof.
  intros Hk Hk' [Hb Hne]%view_owned Hn; [|done]. destruct (decide (b < freeblock s)); [|mlia]. destruct Hn. apply view_owned; [done|]. mlia.
Qed.

Lemma grown_beyond s s' din din' :
  mk_ok s → mk_ok s' → beyond din (view s) → grown msb (view s) din (view s') din' → beyond din' (view s').
Proof.
  intros Hk Hk' Hb Hg b [H0 Hc]. pose proof (mk_range _ Hk) as Hr. destruct Hc as [->|(bn & Hbn & <-)].
  - destruct (decide (ind_ din' = ind_ din)) as [E|E].
    + rewrite E. apply Hb. split; [congruence|by left].
    + destruct (gr_ind _ _ _ _ _ Hg E) as [_ Hn]. pose proof (fl_ind _ _ _ (gr_file _ _ _ _ _ Hg) H0) as Ho.
      pose proof (fresh_beyond s s' _ Hk Hk' Ho Hn). mlia.
  - destruct (decide (faddr din (view s) bn = 0)) as [E|E].
    + pose proof (gr_fresh _ _ _ _ _ Hg bn Hbn E H0) as Hn. pose proof (fl_blk _ _ _ (gr_file _ _ _ _ _ Hg) bn Hbn H0) as Ho.
      pose proof (fresh_beyond s s' _ Hk Hk' Ho Hn). mlia.
    + rewrite (gr_addr _ _ _ _ _ Hg) by done. apply Hb. split; [done|]. right. by exists bn.
Qed.

Definition block_cost (din : inode) (V : gmap Z (list Z)) (fbn : Z) : Z :=
  fresh (faddr din V fbn) + if bool_decide (fbn < NDIRECT) then 0 else fresh (ind_ din).

(** An entry of the indirect block. *)
Lemma wp_entry s din fbn (Q : inode * Z → mkst → Prop) :
  mk_ok s → file_ok msb (view s) din → beyond din (view s) → in_file fbn → NDIRECT <= fbn → ind_ din ≠ 0 →
  freeblock s + fresh (faddr din (view s) fbn) <= FSSIZE →
  (∀ x s', mk_ok s' → mstep s s' → freeblock s' = freeblock s + fresh (faddr din (view s) fbn) →
     grown msb (view s) din (view s') din → faddr din (view s') fbn = x → x ≠ 0 →
     (∀ bn, in_file bn → bn ≠ fbn → faddr din (view s') bn = faddr din (view s) bn) → Q (din, x) s') →
  wp (let ib := xint (i_addrs din !!! Z.to_nat NDIRECT) in
      let k := Z.to_nat (4 * (fbn - NDIRECT)) in
      indirect ← rsect ib;
      indirect ← (if bool_decide (get32 indirect k = 0)
                  then b ← next_block; wsect ib (put32 indirect k (xint b));; mret (put32 indirect k (xint b))
                  else mret indirect);
      mret (din, xint (get32 indirect k))) Q s.
Proof.
  intros Hk Hf Hby Hin Hge H0 Hroom HQ. cbv zeta. change (i_addrs din !!! Z.to_nat NDIRECT) with (ind_ din).
  pose proof (ind_addr s din Hk Hf) as Hia. pose proof (file_addr s din Hk Hf fbn Hin) as Ha. rewrite (xint_addr (ind_ din)) by done.
  pose proof (fl_ind _ _ _ Hf H0) as Hown. pose proof Hown as [Hib Hne]%view_owned; [|done].
  destruct (mk_blocks _ Hk (ind_ din) Hia) as (d & Hd & Hl). pose proof (mk_range _ Hk) as Hr.
  apply wp_bind. apply (wp_rsect _ d); [done|done|].
  assert (get32 d (Z.to_nat (4 * (fbn - NDIRECT))) = faddr din (view s) fbn) as E.
  { unfold faddr, ind_entry. rewrite !bool_decide_eq_false_2 by lia. by rewrite view_ne, Hd. }
  apply wp_bind. rewrite E. unfold fresh in *. case_bool_decide as Hz.
  - destruct (take_ok s Hk ltac:(mlia)) as (Hk' & Hfree & Hal). apply wp_bind, wp_next_block; [done|].
    assert (0 < freeblock s < FSSIZE) as Hv by mlia. rewrite (xint_addr (freeblock s)) by mlia. apply wp_bind, wp_wsect; [done|].
    assert (view (take_block s) !! ind_ din = Some d) as Hd' by (by rewrite view_ne).
    destruct (grow_entry msb _ _ _ _ (view_fs_ok _ Hk) Hf Hv Hfree Hal fbn d Hge Hin H0 Hz Hd') as [Hg Hx].
    rewrite <-view_put in Hg, Hx by done. apply wp_ret, wp_ret.
    change MAXFILE with 268 in Hin. change NDIRECT with 12 in *. change (Z.to_nat BSIZE) with 1024%nat in Hl.
    rewrite get_put_same by lia. rewrite Z.mod_small, xint_addr by mlia.
    eapply HQ; [|eapply mstep_trans; [apply mstep_take|apply mstep_put, Hby; by split; [|left]]|done|exact Hg|exact Hx|lia|].
    + apply put_ok; [done|simpl; lia|]. rewrite length_put_le by lia. done.
    + intros bn Hbn Hnb. rewrite view_put by done. change 12 with NDIRECT. rewrite faddr_put_ind, decide_False by (done || mlia).
      apply (alloc_faddr msb _ _ _ Hv Hfree Hal _ _ Hf).
  - apply wp_ret, wp_ret. rewrite E, xint_addr by done.
    apply HQ; [done|done|lia|apply grown_refl; [by apply view_fs_ok|done]|done|done|done].
Qed.

Lemma wp_block_for s din fbn (Q : inode * Z → mkst → Prop) :
  mk_ok s → file_ok msb (view s) din → beyond din (view s) → in_file fbn → freeblock s + block_cost din (view s) fbn <= FSSIZE →
  (∀ din' x s', mk_ok s' → mstep s s' → freeblock s' = freeblock s + block_cost din (view s) fbn →
     grown msb (view s) din (view s') din' → faddr din' (view s') fbn = x → x ≠ 0 →
     (∀ bn, in_file bn → bn ≠ fbn → faddr din' (view s') bn = faddr din (view s) bn) →
     (ind_ din' ≠ 0 ↔ ind_ din ≠ 0 ∨ NDIRECT <= fbn) → Q (din', x) s') →
  wp (block_for din fbn) Q s.
Proof.
  intros Hk Hf Hby Hin Hroom HQ. unfold block_cost in *. case_bool_decide as Hd.
  - apply wp_direct; [done..|lia|]. intros din' x s' ????? Hx ? Hi. apply HQ; try done; [lia|]. rewrite Hi. split; [by left|]. intros [?|?]; [done|lia].
  - unfold block_for. rewrite bool_decide_eq_false_2 by done. apply wp_bind. unfold fresh in Hroom.
    apply wp_take_ind; [done|done|unfold fresh; repeat case_bool_decide; lia|]. intros din1 s1 Hk1 M1 F1 G1 Hi1 A1.
    assert (faddr din1 (view s1) fbn = faddr din (view s) fbn) as E by auto.
    apply wp_entry; [done|apply G1|exact (grown_beyond _ _ _ _ Hk Hk1 Hby G1)|done|lia|done|rewrite E; unfold fresh in *; repeat case_bool_decide; lia|].
    intros x s2 Hk2 M2 F2 G2 Hx Hx0 A2. apply HQ; [done|by eapply mstep_trans|rewrite F2, E, F1; lia|by eapply grown_trans|done|done| |].
    + intros bn Hbn Hne. rewrite A2, A1; done.
    + split; [|done]. intros _. right. lia.
Qed.

(** ** Appending to a file

    A file that was only appended to has exactly the blocks that its [n] bytes
    need. *)
Definition dense (ip : inode) (V : gmap Z (list Z)) (n : Z) : Prop :=
  (∀ bn, in_file bn → faddr ip V bn ≠ 0 ↔ bn * BSIZE < n) ∧ (ind_ ip ≠ 0 ↔ NDIRECT * BSIZE < n).

Definition blocks_needed (n : Z) : Z :=
  let k := (n + BSIZE - 1) / BSIZE in k + if bool_decide (NDIRECT < k) then 1 else 0.

Lemma blocks_mono m n : m <= n → blocks_needed m <= blocks_needed n.
Proof. intros Hmn. unfold blocks_needed. change BSIZE with 1024. repeat case_bool_decide; Z.to_euclidean_division_equations; lia. Qed.

(** A piece of a file that ends in the block in which it starts. *)
Definition piece (off m : Z) : Prop := 0 <= off ∧ 0 < m ∧ off + m <= (off / BSIZE + 1) * BSIZE ∧ in_file (off / BSIZE).

Lemma piece_cost din V off m : dense din V off → piece off m →
  block_cost din V (off / BSIZE) = blocks_needed (off + m) - blocks_needed off.
Proof.
  intros [Hd Hi] (H0 & Hm & Hle & Hin). specialize (Hd _ Hin). unfold block_cost, blocks_needed, fresh.
  change MAXFILE with 268 in Hin. change NDIRECT with 12 in *. change BSIZE with 1024 in *.
  assert ((off + m + 1024 - 1) / 1024 = off / 1024 + 1) as -> by (Z.to_euclidean_division_equations; lia).
  assert ((off + 1024 - 1) / 1024 = off / 1024 + (if bool_decide (off / 1024 * 1024 < off) then 1 else 0)) as ->
    by (case_bool_decide; Z.to_euclidean_division_equations; lia).
  pose proof (Z.div_mod off 1024 ltac:(done)). pose proof (Z.mod_pos_bound off 1024 ltac:(done)).
  repeat case_bool_decide; lia.
Qed.

Lemma piece_dense din V din' V' off m :
  dense din V off → piece off m → faddr din' V' (off / BSIZE) ≠ 0 →
  (∀ bn, in_file bn → bn ≠ off / BSIZE → faddr din' V' bn = faddr din V bn) →
  (ind_ din' ≠ 0 ↔ ind_ din ≠ 0 ∨ NDIRECT <= off / BSIZE) → dense din' V' (off + m).
Proof.
  intros [Hd Hi] (H0 & Hm & Hle & Hin) Hx Ho Hi'. split.
  - intros bn Hbn. destruct (decide (bn = off / BSIZE)) as [->|Hne].
    + split; [|done]. intros _. change BSIZE with 1024 in *. Z.to_euclidean_division_equations; lia.
    + rewrite Ho, Hd by done. change BSIZE with 1024 in *. Z.to_euclidean_division_equations; lia.
  - rewrite Hi', Hi. change NDIRECT with 12. change BSIZE with 1024 in *. Z.to_euclidean_division_equations; lia.
Qed.

Lemma piece_offset off m : piece off m → off - off / BSIZE * BSIZE = off mod BSIZE ∧ off mod BSIZE + m <= BSIZE.
Proof. intros (H0 & Hm & Hle & Hin). change BSIZE with 1024 in *. Z.to_euclidean_division_equations; lia. Qed.

(** One round of the loop. *)
Lemma wp_append_piece s din off data {A} (k : inode → M mkst A) (Q : A → mkst → Prop) :
  mk_ok s → file_ok msb (view s) din → beyond din (view s) → dense din (view s) off → piece off (Z.of_nat (length data)) →
  freeblock s + (blocks_needed (off + Z.of_nat (length data)) - blocks_needed off) <= FSSIZE →
  (∀ din' s', mk_ok s' → mstep s s' →
     freeblock s' = freeblock s + (blocks_needed (off + Z.of_nat (length data)) - blocks_needed off) →
     wrote msb (view s) din (view s') din' off data → dense din' (view s') (off + Z.of_nat (length data)) →
     beyond din' (view s') → wp (k din') Q s') →
  wp ('(din, x) ← block_for din (off / BSIZE);
      buf ← rsect x;
      wsect x (splice buf (Z.to_nat (off - off / BSIZE * BSIZE)) data);;
      k din) Q s.
Proof.
  intros Hk Hf Hby Hd Hp Hroom HQ. pose proof Hp as (H0 & Hm & Hle & Hin). destruct (piece_offset _ _ Hp) as [-> Hfit].
  rewrite <-(piece_cost din (view s)) in Hroom, HQ by done.
  apply wp_bind, wp_block_for; [done..|]. intros din1 x s1 Hk1 M1 F1 G1 Hx Hx0 A1 I1.
  pose proof (gr_file _ _ _ _ _ G1) as Hf1. pose proof (grown_beyond _ _ _ _ Hk Hk1 Hby G1) as Hby1.
  pose proof (fl_blk _ _ _ Hf1 (off / BSIZE) Hin ltac:(congruence)) as Hown. rewrite Hx in Hown.
  pose proof Hown as [Hxr Hx46]%view_owned; [|done]. pose proof (mk_range _ Hk1) as Hr1.
  destruct (mk_blocks _ Hk1 x ltac:(mlia)) as (d & Hxd & Hl).
  apply wp_bind, (wp_rsect _ d); [mlia|done|]. apply wp_bind, wp_wsect; [mlia|].
  assert (view s1 !! x = Some d) as Hvd by (by rewrite view_ne).
  pose proof (wrote_data msb (view s1) din1 off x d data (view_fs_ok _ Hk1) Hf1 Hin Hx Hx0 Hvd Hfit) as Hw.
  pose proof (write_faddr msb (view s1) din1 off x d data Hf1 Hin Hx) as Hfa. rewrite <-view_put in Hw, Hfa by done.
  destruct (write_len msb (view s1) din1 off x d data (view_fs_ok _ Hk1) Hf1 Hin Hx Hx0 Hvd Hfit) as [_ Hl2].
  apply HQ; [apply put_ok; [done|lia|by rewrite length_splice]| |done|by eapply wrote_grown| |].
  - eapply mstep_trans; [done|]. apply mstep_put, Hby1. split; [done|]. right. by exists (off / BSIZE).
  - eapply (piece_dense din (view s)); [done|done|by rewrite Hfa, Hx| |done]. intros bn Hbn Hne. rewrite Hfa. auto.
  - intros b [Hb0 Hb]. apply Hby1. split; [done|]. destruct Hb as [|(bn & Hbn & <-)]; [by left|]. right. exists bn. by rewrite Hfa.
Qed.

Lemma wp_iappend_loop fuel din off p s (Q : inode * Z → mkst → Prop) :
  mk_ok s → file_ok msb (view s) din → beyond din (view s) → dense din (view s) off → 0 <= off →
  off + Z.of_nat (length p) <= MAXFILE * BSIZE → (length p < fuel)%nat →
  freeblock s + (blocks_needed (off + Z.of_nat (length p)) - blocks_needed off) <= FSSIZE →
  (∀ din' s', mk_ok s' → mstep s s' →
     freeblock s' = freeblock s + (blocks_needed (off + Z.of_nat (length p)) - blocks_needed off) →
     wrote msb (view s) din (view s') din' off p → dense din' (view s') (off + Z.of_nat (length p)) →
     beyond din' (view s') → Q (din', off + Z.of_nat (length p)) s') →
  wp (iappend_loop fuel din off p) Q s.
Proof.
  revert din off p s; induction fuel as [|fuel IH]; intros din off p s Hk Hf Hby Hd H0 Hmax Hfuel Hroom HQ; [lia|].
  cbn [iappend_loop]. case_bool_decide as Hp; last first.
  { destruct p; [|simpl in Hp; lia]. simpl in *. rewrite Z.add_0_r in *. apply wp_ret.
    apply HQ; [done|done|lia|apply wrote_nil; [done|apply grown_refl; [by apply view_fs_ok|done]]|done|done]. }
  cbv zeta. set (n1 := Z.to_nat (Z.min _ _)).
  assert (in_file (off / BSIZE)) as Hin by (apply (in_file_div off (off + Z.of_nat (length p))); lia).
  rewrite bool_decide_eq_false_2 by lia.
  assert (length (take n1 p) = n1) as Hl. { rewrite length_take. unfold n1. lia. }
  assert (piece off (Z.of_nat (length (take n1 p)))) as Hpc.
  { rewrite Hl. unfold n1. split_and!; [done| | |lia|lia]; change BSIZE with 1024 in *; Z.to_euclidean_division_equations; lia. }
  assert (n1 <= length p)%nat as Hn1 by lia. pose proof Hpc as (_ & Hn0 & _). rewrite Hl in Hn0.
  assert (off + Z.of_nat n1 + Z.of_nat (length (drop n1 p)) = off + Z.of_nat (length p)) as Hend by (rewrite length_drop; lia).
  assert (blocks_needed (off + Z.of_nat n1) <= blocks_needed (off + Z.of_nat (length p))) as Hmono by (apply blocks_mono; lia).
  eapply (wp_append_piece s din off (take n1 p) (λ din, iappend_loop fuel din _ _)); [done..|rewrite Hl; lia|]. rewrite Hl. intros din1 s1 Hk1 M1 F1 W1 D1 B1.
  change (MAXFILE * BSIZE) with 274432 in Hmax. rewrite u32_small by lia.
  apply IH; [done|apply W1|done|done|lia|change (MAXFILE * BSIZE) with 274432; lia|rewrite length_drop; lia|rewrite Hend; lia|].
  rewrite Hend. intros din2 s2 Hk2 M2 F2 W2 D2 B2. apply HQ; [done|by eapply mstep_trans|lia| |done|done].
  rewrite <-(take_drop n1 p). eapply wrote_app; [|exact W1|by rewrite Hl]. intros o Ho. rewrite Hl in Ho.
  apply (in_file_div o (off + Z.of_nat (length p))); [lia|]. change (MAXFILE * BSIZE) with 274432. lia.
Qed.

(** ** The inodes in the image *)
Definition inode_at (m : gmap Z (list Z)) (inum : Z) : inode := disk_inode (default [] (m !! IBLOCK inum msb)) inum.

Lemma view_inode s j : 0 <= j < 208 → inode_at (view s) j = inode_at (img s) j.
Proof. intros Hj. unfold inode_at. pose proof (mkfs_iblock _ Hj). by rewrite view_ne by lia. Qed.

(** The fields on disk. *)
Lemma fields_disk d inum : fields (disk_inode d inum) = decode d (dip inum).
Proof. done. Qed.

Lemma same_fields d d' inum : decode d (dip inum) = decode d' (dip inum) → disk_inode d inum = disk_inode d' inum.
Proof.
  intros E. pose (mk := λ '(t, a, b, l, n, ad), Inode ROOTDEV inum 1 (SleepLock false 0) true t a b l n ad).
  change (mk (decode d (dip inum)) = mk (decode d' (dip inum))). by rewrite E.
Qed.

Lemma wp_rinode inum (Q : inode → mkst → Prop) s : mk_ok s → 0 <= inum < 208 → Q (inode_at (img s) inum) s → wp (rinode inum) Q s.
Proof.
  intros Hk Hi HQ. pose proof (mkfs_iblock _ Hi). destruct (mk_blocks _ Hk (IBLOCK inum msb)) as (d & Hd & _); [mlia|].
  apply wp_bind, (wp_rsect _ d); [mlia|done|]. apply wp_ret. unfold inode_at in HQ. by rewrite Hd in HQ.
Qed.

(** The image after an inode was written. *)
Definition put_inode (inum : Z) (ip : inode) (s : mkst) : mkst :=
  put_block (IBLOCK inum msb) (put_dinode (default [] (img s !! IBLOCK inum msb)) (dip inum) ip) s.

Lemma wp_winode inum ip (Q : unit → mkst → Prop) s : mk_ok s → 0 <= inum < 208 → Q tt (put_inode inum ip s) → wp (winode inum ip) Q s.
Proof.
  intros Hk Hi HQ. pose proof (mkfs_iblock _ Hi). destruct (mk_blocks _ Hk (IBLOCK inum msb)) as (d & Hd & _); [mlia|].
  apply wp_bind, (wp_rsect _ d); [mlia|done|]. apply wp_wsect; [mlia|]. unfold put_inode in HQ. by rewrite Hd in HQ.
Qed.

Lemma iblock_dip a b : 0 <= a < 208 → 0 <= b < 208 → IBLOCK a msb = IBLOCK b msb → dip a = dip b → a = b.
Proof.
  intros Ha Hb. unfold IBLOCK, dip. rewrite mkfs_sb_eq. cbn [sb_inodestart]. change IPB with 16. unfold dinode_size.
  rewrite !u32_small by (Z.to_euclidean_division_equations; lia). Z.to_euclidean_division_equations; lia.
Qed.

Section put_inode.
Context (s : mkst) (inum : Z) (ip : inode).
Context (Hk : mk_ok s) (Hi : 0 <= inum < 208) (Hok : inode_ok ip).

Lemma put_inode_block : ∃ d, img s !! IBLOCK inum msb = Some d ∧ length d = Z.to_nat BSIZE ∧ (dip inum + 64 <= length d)%nat.
Proof.
  pose proof (mkfs_iblock _ Hi). destruct (mk_blocks _ Hk (IBLOCK inum msb)) as (d & Hd & Hl); [mlia|]. exists d.
  split_and!; [done|done|]. rewrite Hl. apply dip_range.
Qed.

Lemma put_inode_ok : mk_ok (put_inode inum ip s).
Proof.
  destruct put_inode_block as (d & Hd & Hl & Hr). pose proof (mkfs_iblock _ Hi). pose proof (mk_range _ Hk).
  apply put_ok; [done|mlia|]. rewrite Hd. simpl. by rewrite length_put_dinode.
Qed.

Lemma put_inode_same : fields (inode_at (img (put_inode inum ip s)) inum) = fields ip.
Proof.
  destruct put_inode_block as (d & Hd & Hl & Hr). unfold inode_at, put_inode. rewrite Hd. simpl. rewrite lookup_insert_eq. simpl.
  rewrite fields_disk. by apply decode_put.
Qed.

Lemma put_inode_other j : 0 <= j < 208 → j ≠ inum → inode_at (img (put_inode inum ip s)) j = inode_at (img s) j.
Proof.
  intros Hj Hne. destruct put_inode_block as (d & Hd & Hl & Hr). unfold inode_at, put_inode. rewrite Hd. simpl.
  destruct (decide (IBLOCK j msb = IBLOCK inum msb)) as [E|E]; [|by rewrite lookup_insert_ne].
  rewrite E, lookup_insert_eq, Hd. simpl. apply same_fields. apply decode_put_other; [done|done|]. apply dip_disjoint.
  intros E'. apply Hne. by apply iblock_dip.
Qed.

Lemma put_inode_view b : nmeta <= b → view (put_inode inum ip s) !! b = view s !! b.
Proof. intros Hb. pose proof (mkfs_iblock _ Hi). unfold put_inode. rewrite view_put by lia. apply lookup_insert_ne. mlia. Qed.
End put_inode.

(** ** A file that nobody touches *)
Section frame.
Context (V V' : gmap Z (list Z)) (ip : inode).
Context (Hkeep : ∀ b, block_of ip V b → V' !! b = V !! b).

Lemma frame_faddr bn : faddr ip V' bn = faddr ip V bn.
Proof.
  unfold faddr. case_bool_decide; [done|]. unfold ind_entry. case_bool_decide as H0; [done|].
  rewrite Hkeep; [done|]. by split; [|left].
Qed.

Lemma frame_block b : block_of ip V' b ↔ block_of ip V b.
Proof. unfold block_of. by setoid_rewrite frame_faddr. Qed.

Lemma frame_byte o : in_file (o / BSIZE) → fbyte ip V' o = fbyte ip V o.
Proof.
  intros Ho. unfold fbyte, block_byte. rewrite frame_faddr. case_bool_decide as H0; [done|]. rewrite Hkeep; [done|].
  split; [done|]. right. by exists (o / BSIZE).
Qed.

Lemma frame_file : (∀ b, owned msb V b → owned msb V' b) → file_ok msb V ip → file_ok msb V' ip.
Proof.
  intros Ho [Hl Hb Hi Hj Hs]. split; [done|..].
  - intros bn Hbn. rewrite frame_faddr. auto.
  - auto.
  - intros a b Ha Hb'. rewrite !frame_faddr. auto.
  - intros bn Hbn. rewrite frame_faddr. auto.
Qed.

Lemma frame_dense n : dense ip V n → dense ip V' n.
Proof. intros [Hd Hi]. split; [|done]. intros bn Hbn. rewrite frame_faddr. auto. Qed.
End frame.

(** The file with number [inum] has the type and the contents [c]. *)
Record file_at (s : mkst) (inum type : Z) (c : list Z) : Prop := {
  fa_type : 0 <= type < 2 ^ 15;
  fa_fields : fields (inode_at (img s) inum) = (type, 0, 0, 1, Z.of_nat (length c), i_addrs (inode_at (img s) inum));
  fa_file : file_ok msb (view s) (inode_at (img s) inum);
  fa_beyond : beyond (inode_at (img s) inum) (view s);
  fa_max : Z.of_nat (length c) <= MAXFILE * BSIZE;
  fa_dense : dense (inode_at (img s) inum) (view s) (Z.of_nat (length c));
  fa_bytes : ∀ o, 0 <= o → in_file (o / BSIZE) →
    fbyte (inode_at (img s) inum) (view s) o = if decide (o < Z.of_nat (length c)) then c !!! Z.to_nat o else 0
}.

Definition all_blocks (fl : list (Z * list Z)) : Z := foldr (λ f n, blocks_needed (Z.of_nat (length f.2)) + n) 0 fl.

Record disk_ok (s : mkst) (fl : list (Z * list Z)) : Prop := {
  dk_ok : mk_ok s;
  dk_inode : freeinode s = 1 + Z.of_nat (length fl);
  dk_file : ∀ k type c, fl !! k = Some (type, c) → file_at s (1 + Z.of_nat k) type c;
  dk_disj : ∀ j k b, (j < length fl)%nat → (k < length fl)%nat → j ≠ k →
    block_of (inode_at (img s) (1 + Z.of_nat j)) (view s) b → ¬ block_of (inode_at (img s) (1 + Z.of_nat k)) (view s) b;
  dk_free : freeblock s = nmeta + all_blocks fl;
  dk_head : ∀ b, 0 <= b < 33 → img s !! b = Some (if decide (b = 1) then sb_block msb else zeros)
}.

Lemma all_blocks_insert fl k f g : fl !! k = Some f →
  all_blocks (<[k := g]> fl) = all_blocks fl + (blocks_needed (Z.of_nat (length g.2)) - blocks_needed (Z.of_nat (length f.2))).
Proof. revert k; induction fl as [|x fl IH]; intros [|k] Hf; simplify_eq/=; [lia|]. specialize (IH k Hf). lia. Qed.

Lemma all_blocks_cons f fl : all_blocks (f :: fl) = blocks_needed (Z.of_nat (length f.2)) + all_blocks fl.
Proof. reflexivity. Qed.

Lemma all_blocks_app fl gl : all_blocks (fl ++ gl) = all_blocks fl + all_blocks gl.
Proof. induction fl as [|f fl IH]; simpl; [done|]. rewrite IH. lia. Qed.

(** A block that belongs to a file. *)
Lemma block_owned s V ip b : file_ok s V ip → block_of ip V b → owned s V b.
Proof. intros Hf [H0 [->|(bn & Hbn & <-)]]; [by apply (fl_ind _ _ _ Hf)|by apply (fl_blk _ _ _ Hf)]. Qed.

(** The blocks of a file after a write are old ones or were free. *)
Lemma wrote_blocks s V ip V' ip' off data b :
  wrote s V ip V' ip' off data → block_of ip' V' b → block_of ip V b ∨ ¬ owned s V b.
Proof.
  intros Hw [H0 [->|(bn & Hbn & <-)]].
  - destruct (decide (ind_ ip' = ind_ ip)) as [E|E]; [left; split; [done|by left]|]. right. by destruct (wr_ind _ _ _ _ _ _ _ Hw E).
  - destruct (decide (faddr ip V bn = 0)) as [E|E]; [right; by apply (wr_fresh _ _ _ _ _ _ _ Hw)|]. left.
    split; [done|]. right. exists bn. split; [done|]. symmetry. by apply (wr_addr _ _ _ _ _ _ _ Hw).
Qed.

Lemma mk_inode_ok s ip n : mk_ok s → file_ok msb (view s) ip → 0 <= i_type ip < 2 ^ 15 → i_major ip = 0 → i_minor ip = 0 → i_nlink ip = 1 →
  0 <= n < 2 ^ 32 → inode_ok (ip <| i_size := n |>).
Proof.
  intros Hk Hf Ht Hma Hmi Hnl Hn. split; rsimpl; try lia. split; [apply Hf|]. apply Forall_lookup. intros j a Ha.
  pose proof (fl_len _ _ _ Hf) as Hl. pose proof (lookup_lt_Some _ _ _ Ha) as Hj. rewrite Hl in Hj.
  apply list_lookup_total_correct in Ha as <-. destruct (decide (j = 12%nat)) as [->|Hne].
  - pose proof (ind_addr s ip Hk Hf) as Hi. unfold ind_ in Hi. change (Z.to_nat NDIRECT) with 12%nat in Hi. mlia.
  - pose proof (file_addr s ip Hk Hf (Z.of_nat j)) as Hi. unfold faddr in Hi. change NDIRECT with 12 in Hi. change MAXFILE with 268 in Hi.
    rewrite bool_decide_eq_true_2, Nat2Z.id in Hi by lia. specialize (Hi ltac:(lia)). mlia.
Qed.

Lemma file_at_frame s s' inum type c :
  mk_ok s → mk_ok s' → freeblock s <= freeblock s' → inode_at (img s') inum = inode_at (img s) inum →
  (∀ b, block_of (inode_at (img s) inum) (view s) b → view s' !! b = view s !! b) → file_at s inum type c → file_at s' inum type c.
Proof.
  intros Hk Hk' Hle E Hkeep [Ht Hfi Hf Hb Hmax Hd Hby]. split; rewrite ?E; try done.
  - eapply frame_file; [exact Hkeep| |done]. intros b [Hr Hne]%view_owned; [|done]. apply view_owned; [done|]. lia.
  - intros b Hbl. apply Hb. by apply (frame_block (view s) (view s')).
  - by eapply frame_dense.
  - intros o H0 Ho. rewrite (frame_byte (view s)) by done. auto.
Qed.

(** One file changes, or is new. *)
Lemma disk_ok_change s s' fl fl' k :
  disk_ok s fl → mk_ok s' → freeblock s <= freeblock s' → freeinode s' = 1 + Z.of_nat (length fl') →
  (∀ j, j ≠ k → fl' !! j = fl !! j) →
  (∀ j, (j < length fl)%nat → j ≠ k → inode_at (img s') (1 + Z.of_nat j) = inode_at (img s) (1 + Z.of_nat j)) →
  (∀ j b, (j < length fl)%nat → j ≠ k → block_of (inode_at (img s) (1 + Z.of_nat j)) (view s) b → view s' !! b = view s !! b) →
  (∀ type c, fl' !! k = Some (type, c) → file_at s' (1 + Z.of_nat k) type c) →
  (∀ b, block_of (inode_at (img s') (1 + Z.of_nat k)) (view s') b →
     (k < length fl)%nat ∧ block_of (inode_at (img s) (1 + Z.of_nat k)) (view s) b ∨ ¬ owned msb (view s) b) →
  freeblock s' = nmeta + all_blocks fl' → (∀ b, 0 <= b < 33 → img s' !! b = img s !! b) → disk_ok s' fl'.
Proof.
  intros [Hk Hi Hf Hd Hfr Hh] Hk' Hle Hi' Hfl Hino Hkeep Hnew Hblk Hfr' Hh'.
  assert (∀ j, (j < length fl')%nat → j ≠ k → (j < length fl)%nat) as Hlt.
  { intros j Hj Hne. apply lookup_lt_is_Some_2 in Hj. rewrite Hfl in Hj by done. by apply lookup_lt_is_Some_1. }
  assert (∀ j b, (j < length fl')%nat → j ≠ k → block_of (inode_at (img s') (1 + Z.of_nat j)) (view s') b →
    block_of (inode_at (img s) (1 + Z.of_nat j)) (view s) b) as Hold.
  { intros j b Hj Hne. rewrite Hino by auto. intros Hb. apply (frame_block (view s) (view s')) in Hb; [done|]. intros b'. apply Hkeep; auto. }
  assert (∀ j b, (j < length fl')%nat → j ≠ k → block_of (inode_at (img s') (1 + Z.of_nat j)) (view s') b →
    ¬ block_of (inode_at (img s') (1 + Z.of_nat k)) (view s') b) as Hdk.
  { intros j b Hj Hne Hb Hbk. apply Hold in Hb; [|done..]. destruct (Hblk b Hbk) as [[Hlk Hbk']|Hn]; [by apply (Hd j k b); auto|].
    destruct (lookup_lt_is_Some_2 fl j) as [[type c] Hj']; [auto|]. destruct Hn. eapply block_owned; [|done]. by eapply fa_file, Hf. }
  split; [done|done| | |done|].
  - intros j type c Hj. destruct (decide (j = k)) as [->|Hne]; [by apply Hnew|]. pose proof (lookup_lt_Some _ _ _ Hj) as Hl.
    rewrite Hfl in Hj by done. eapply (file_at_frame s); [done|done|done|by apply Hino; auto|intros b; apply Hkeep; auto|by apply Hf].
  - intros i j b Hi1 Hj1 Hne. destruct (decide (j = k)) as [->|Hjk]; [by apply Hdk|]. destruct (decide (i = k)) as [->|Hik].
    + intros Hb Hbj. by apply (Hdk j b).
    + intros Hb Hbj. apply Hold in Hb, Hbj; [|done..]. by apply (Hd i j b); auto.
  - intros b Hb. rewrite Hh' by done. auto.
Qed.

(** The inode that was written is read back. *)
Lemma disk_inode_eq d inum ip :
  fields (disk_inode d inum) = fields ip → i_dev ip = ROOTDEV → i_inum ip = inum → i_ref ip = 1 → i_lock ip = SleepLock false 0 →
  i_valid ip = true → disk_inode d inum = ip.
Proof.
  intros E E1 E2 E3 E4 E5. pose (mk := λ '(t, a, b, l, n, ad), Inode ROOTDEV inum 1 (SleepLock false 0) true t a b l n ad).
  change (mk (fields (disk_inode d inum)) = ip). rewrite E. destruct ip. simpl in *. by subst.
Qed.

Lemma mk_file_size s V ip n : file_ok s V ip → file_ok s V (ip <| i_size := n |>).
Proof. intros []; by split. Qed.

Lemma append_file_at s1 s2 inum din type c :
  mk_ok s1 → mk_ok s2 → freeblock s2 = freeblock s1 → 0 <= type < 2 ^ 15 → Z.of_nat (length c) <= MAXFILE * BSIZE →
  fields din = (type, 0, 0, 1, i_size din, i_addrs din) →
  inode_at (img s2) inum = din <| i_size := Z.of_nat (length c) |> →
  file_ok msb (view s1) (din <| i_size := Z.of_nat (length c) |>) → beyond din (view s1) → dense din (view s1) (Z.of_nat (length c)) →
  (∀ b, block_of din (view s1) b → view s2 !! b = view s1 !! b) →
  (∀ o, 0 <= o → in_file (o / BSIZE) →
     fbyte din (view s1) o = if decide (o < Z.of_nat (length c)) then c !!! Z.to_nat o else 0) → file_at s2 inum type c.
Proof.
  intros Hk1 Hk2 Hfb Hty Hmax Efd E2 Hf Hb Hd Hkeep Hby. split; rewrite ?E2; try done.
  - unfold fields in *. rsimpl. congruence.
  - eapply frame_file; [exact Hkeep| |done]. intros b [Hr Hne]%view_owned; [|done]. apply view_owned; [done|]. by rewrite Hfb.
  - intros b Hbl. apply Hb. by apply (frame_block (view s1) (view s2)).
  - by eapply (frame_dense (view s1)).
  - intros o H0 Ho. change (fbyte din (view s2) o = if decide (o < Z.of_nat (length c)) then c !!! Z.to_nat o else 0).
    rewrite (frame_byte (view s1)) by done. auto.
Qed.

(** *** iappend *)
Section iappend.
Context (s : mkst) (fl : list (Z * list Z)) (k : nat) (type : Z) (c p : list Z).
Context (Hdk : disk_ok s fl) (Hkf : fl !! k = Some (type, c)) (Hlen : (length fl < 208)%nat).
Context (Hmax : Z.of_nat (length (c ++ p)) <= MAXFILE * BSIZE).

Let inum := 1 + Z.of_nat k.
Let ip := inode_at (img s) inum.

Lemma append_old s1 din :
  mk_ok s1 → mstep s s1 → freeblock s <= freeblock s1 →
  wrote msb (view s) ip (view s1) din (Z.of_nat (length c)) p → dense din (view s1) (Z.of_nat (length (c ++ p))) → beyond din (view s1) →
  freeblock s1 = nmeta + all_blocks (<[k := (type, c ++ p)]> fl) →
  disk_ok (put_inode inum (din <| i_size := Z.of_nat (length (c ++ p)) |>) s1) (<[k := (type, c ++ p)]> fl).
Proof.
  intros Hk1 [Mi Mm] Hle Hw Hd Hb Hfr. set (n := Z.of_nat (length (c ++ p))) in *. set (s2 := put_inode _ _ _).
  assert (0 <= inum < 208) as Hinum by (pose proof (lookup_lt_Some _ _ _ Hkf); unfold inum; lia).
  pose proof (dk_file _ _ Hdk _ _ _ Hkf) as Hfa. fold inum in Hfa. pose proof (fa_fields _ _ _ _ Hfa) as Hfi. fold ip in Hfi.
  pose proof (wr_ip _ _ _ _ _ _ _ Hw) as Eip. pose proof (wr_file _ _ _ _ _ _ _ Hw) as Hf1.
  assert (fields din = (type, 0, 0, 1, Z.of_nat (length c), i_addrs din)) as Efd.
  { rewrite Eip. unfold fields in *. rsimpl. congruence. }
  change (MAXFILE * BSIZE) with 274432 in Hmax. pose proof (fa_type _ _ _ _ Hfa) as Hty. unfold fields in Efd.
  assert (inode_ok (din <| i_size := n |>)) as Hok by (apply (mk_inode_ok s1); [done|done|simplify_eq; lia|congruence|congruence|congruence|lia]).
  assert (mk_ok s2) as Hk2 by (by apply put_inode_ok).
  pose proof (put_inode_same s1 inum _ Hk1 Hinum Hok) as Esame. fold s2 in Esame.
  assert (inode_at (img s2) inum = din <| i_size := n |>) as E2.
  { apply disk_inode_eq; [done|rewrite Eip; reflexivity..]. }
  assert (∀ b, block_of din (view s1) b → view s2 !! b = view s1 !! b) as Hkeep.
  { intros b Hbl. apply put_inode_view; [done|]. by apply Hb. }
  assert (∀ j b, (j < length fl)%nat → j ≠ k → block_of (inode_at (img s) (1 + Z.of_nat j)) (view s) b → view s2 !! b = view s !! b) as Hkj.
  { intros j b Hj Hne Hbl. destruct (lookup_lt_is_Some_2 fl j Hj) as [[tj cj] Hj']. pose proof (dk_file _ _ Hdk _ _ _ Hj') as Hfj.
    unfold s2. rewrite put_inode_view by (done || by apply (fa_beyond _ _ _ _ Hfj)).
    assert (¬ block_of ip (view s) b) as Hn by (apply (dk_disj _ _ Hdk j k b); [done|by eapply lookup_lt_Some|done|done]).
    apply (wr_keep _ _ _ _ _ _ _ Hw); [by eapply block_owned; [apply Hfj|]| |].
    - intros ->. apply Hn. split; [apply Hbl|by left].
    - intros bn Hbn E. apply Hn. split; [apply Hbl|]. right. by exists bn. }
  eapply (disk_ok_change s); [done|done|done| | | |exact Hkj| | |done|].
  - rewrite length_insert. simpl. rewrite Mi. apply (dk_inode _ _ Hdk).
  - intros j Hj. by rewrite list_lookup_insert_ne.
  - intros j Hj Hne. unfold s2. rewrite put_inode_other by (done || lia). unfold inode_at. rewrite Mm; [done|].
    pose proof (mkfs_iblock (1 + Z.of_nat j)). mlia.
  - intros type' c' Hl. rewrite list_lookup_insert_eq in Hl by (by eapply lookup_lt_Some). injection Hl as <- <-. fold inum.
    eapply (append_file_at s1 s2); try done; [unfold fields; congruence|by apply mk_file_size|].
    intros o H0 Ho. rewrite (wr_byte _ _ _ _ _ _ _ Hw) by done. rewrite (fa_bytes _ _ _ _ Hfa) by done. unfold n. rewrite length_app.
    repeat case_decide; try lia; try done; [rewrite lookup_total_app_r by lia; f_equal; lia|by rewrite lookup_total_app_l by lia].
  - fold inum. rewrite E2. intros b Hbl.
    assert (block_of din (view s1) b) as Hbl' by (by apply (frame_block (view s1) (view s2))).
    destruct (wrote_blocks _ _ _ _ _ _ _ _ Hw Hbl') as [?|?]; [left|by right]. split; [by eapply lookup_lt_Some|done].
  - intros b Hb'. unfold s2, put_inode. simpl. pose proof (mkfs_iblock inum Hinum). rewrite lookup_insert_ne by lia. apply Mm. mlia.
Qed.
End iappend.

Lemma wp_iappend s fl k type c p (Q : unit → mkst → Prop) :
  disk_ok s fl → fl !! k = Some (type, c) → (length fl < 208)%nat → Z.of_nat (length (c ++ p)) <= MAXFILE * BSIZE →
  nmeta + all_blocks (<[k := (type, c ++ p)]> fl) <= FSSIZE →
  (∀ s', disk_ok s' (<[k := (type, c ++ p)]> fl) → Q tt s') → wp (iappend (1 + Z.of_nat k) p) Q s.
Proof.
  intros Hdk Hkf Hlen Hmax Hroom HQ. pose proof (dk_ok _ _ Hdk) as Hk. pose proof (dk_file _ _ Hdk _ _ _ Hkf) as Hfa.
  assert (0 <= 1 + Z.of_nat k < 208) as Hinum by (pose proof (lookup_lt_Some _ _ _ Hkf); lia).
  apply wp_bind, wp_rinode; [done|done|]. set (ip := inode_at _ _) in *.
  assert (i_size ip = Z.of_nat (length c)) as Hsz by (pose proof (fa_fields _ _ _ _ Hfa) as E; unfold fields in E; fold ip in E; congruence).
  pose proof Hmax as Hmax'. change (MAXFILE * BSIZE) with 274432 in Hmax'. rewrite length_app in Hmax'.
  rewrite Hsz, xint_id by lia. pose proof (all_blocks_insert fl k _ (type, c ++ p) Hkf) as Hab. simpl in Hab.
  rewrite length_app, Nat2Z.inj_add in Hab. pose proof (dk_free _ _ Hdk) as Hfree.
  apply wp_bind, wp_iappend_loop; [done|apply Hfa|apply Hfa|apply Hfa|lia|change (MAXFILE * BSIZE) with 274432; lia|lia|lia|].
  intros din s1 Hk1 M1 F1 W1 D1 B1. rewrite <-Nat2Z.inj_add, <-length_app in *. rewrite xint_id by lia.
  apply wp_winode; [done|done|]. apply HQ, (append_old s fl k type c p Hdk Hkf Hlen Hmax); [done|done| |done|done|done|lia].
  assert (blocks_needed (Z.of_nat (length c)) <= blocks_needed (Z.of_nat (length (c ++ p)))); [|lia]. apply blocks_mono. rewrite length_app. lia.
Qed.

(** *** ialloc *)
Definition empty_inode (inum type : Z) : inode := Inode ROOTDEV inum 1 (SleepLock false 0) true type 0 0 1 0 (replicate 13 0).

Lemma empty_faddr inum type V bn : 0 <= bn → faddr (empty_inode inum type) V bn = 0.
Proof.
  intros Hbn. unfold faddr, ind_entry. case_bool_decide as Hd; [|done]. unfold empty_inode. cbn [i_addrs].
  apply lookup_total_replicate_2. change NDIRECT with 12 in Hd. lia.
Qed.

Lemma empty_block inum type V b : ¬ block_of (empty_inode inum type) V b.
Proof. intros [H0 [->|(bn & Hbn & E)]]; [done|]. rewrite empty_faddr in E; [done|lia]. Qed.

Lemma empty_file s inum type : file_ok msb (view s) (empty_inode inum type).
Proof.
  split; [done|..].
  - intros bn Hbn. by rewrite empty_faddr by lia.
  - done.
  - intros a b Ha Hb _ H0. by rewrite empty_faddr in H0 by lia.
  - done.
Qed.

Lemma empty_file_at s inum type :
  0 <= type < 2 ^ 15 → inode_at (img s) inum = empty_inode inum type → file_at s inum type [].
Proof.
  intros Hty E. split; rewrite ?E; try done.
  - apply empty_file.
  - intros b Hb. by destruct (empty_block inum type (view s) b).
  - split; [|done]. intros bn Hbn. rewrite empty_faddr by lia. change BSIZE with 1024. simpl. split; [done|lia].
  - intros o H0 Ho. unfold fbyte, block_byte. rewrite empty_faddr by lia. simpl. rewrite decide_False by lia. done.
Qed.

Lemma wp_ialloc s fl type (Q : Z → mkst → Prop) :
  disk_ok s fl → (length fl < 207)%nat → 0 <= type < 2 ^ 15 →
  (∀ s', disk_ok s' (fl ++ [(type, [])]) → Q (1 + Z.of_nat (length fl)) s') → wp (ialloc type) Q s.
Proof.
  intros Hdk Hlen Hty HQ. pose proof (dk_ok _ _ Hdk) as Hk. pose proof (dk_inode _ _ Hdk) as Hi.
  apply wp_bind. unfold wp at 1, next_inode. rewrite Hi, u32_small by lia.
  set (s1 := MkSt _ _ _). assert (mk_ok s1) as Hk1 by (by destruct Hk). set (inum := 1 + Z.of_nat (length fl)).
  assert (0 <= inum < 208) as Hinum by (unfold inum; lia). apply wp_bind, wp_winode; [done|done|]. rewrite !xshort_id by lia. change (xint 0) with 0.
  change (Inode _ _ _ _ _ _ _ _ _ _ _) with (empty_inode inum type).
  assert (inode_ok (empty_inode inum type)) as Hok.
  { split; cbn; try lia. split; [done|]. repeat (constructor; [lia|]). constructor. }
  apply wp_ret, HQ. set (s2 := put_inode _ _ _).
  assert (inode_at (img s2) inum = empty_inode inum type) as E2.
  { apply disk_inode_eq; [|done..]. apply (put_inode_same s1); done. }
  assert (∀ b, nmeta <= b → view s2 !! b = view s !! b) as Hv. { intros b Hb. unfold s2. by rewrite put_inode_view. }
  eapply (disk_ok_change s _ fl _ (length fl)); [done|by apply put_inode_ok|done|rewrite length_app; simpl; lia| | | | | | |].
  - intros j Hj. destruct (decide (j < length fl)%nat); [by rewrite lookup_app_l|].
    rewrite lookup_ge_None_2, lookup_ge_None_2; [done|lia|rewrite length_app; simpl; lia].
  - intros j Hj Hne. unfold s2. by rewrite put_inode_other by (done || (unfold inum; lia)).
  - intros j b Hj _ Hb. apply Hv. destruct (lookup_lt_is_Some_2 fl j Hj) as [[tj cj] Hj']. by eapply fa_beyond; [eapply dk_file|].
  - intros t c Hl. rewrite lookup_app_r, Nat.sub_diag in Hl by lia. injection Hl as <- <-. by apply empty_file_at.
  - intros b. fold inum. rewrite E2. intros Hb. by destruct (empty_block _ _ _ _ Hb).
  - rewrite all_blocks_app. change (freeblock s2) with (freeblock s). rewrite (dk_free _ _ Hdk). change (all_blocks [(type, [])]) with 0. lia.
  - intros b Hb. unfold s2, put_inode. simpl. pose proof (mkfs_iblock inum Hinum). rewrite lookup_insert_ne by lia. done.
Qed.

(** ** The whole image *)

(** An argument of mkfs with what the reads of the file return. *)
Abbreviation arg := (list Z * list (list Z))%type.

Definition stored_name (a : list Z) : list Z := strncpy_l (skip_underscore (short_name a)) (Z.to_nat DIRSIZ).

Definition root_entries (args : list arg) : list (list Z) :=
  dirent 1 (strncpy_l (str ".") (Z.to_nat DIRSIZ)) :: dirent 1 (strncpy_l (str "..") (Z.to_nat DIRSIZ)) ::
  imap (λ k a, dirent (2 + Z.of_nat k) (stored_name a.1)) args.

Definition files (args : list arg) : list (Z * list Z) := (λ a, (T_FILE, concat a.2)) <$> args.

Definition layout (args : list arg) : list (Z * list Z) := (T_DIR, concat (root_entries args)) :: files args.

Definition arg_ok (a : arg) : Prop :=
  (slash ∉ short_name (fst a)) ∧ (length (skip_underscore (short_name a.1)) <= Z.to_nat DIRSIZ)%nat ∧
  Z.of_nat (length (concat a.2)) <= MAXFILE * BSIZE.

Lemma length_dirent inum t : length (dirent inum (strncpy_l t (Z.to_nat DIRSIZ))) = 16%nat.
Proof. unfold dirent. rewrite length_app, length_le_split, length_strncpy_l. reflexivity. Qed.

Lemma root_entries_16 args : Forall (λ e, length e = 16%nat) (root_entries args).
Proof.
  constructor; [apply length_dirent|]. constructor; [apply length_dirent|]. apply Forall_lookup. intros k e.
  rewrite list_lookup_imap. intros (a & _ & ->)%fmap_Some. apply length_dirent.
Qed.

Lemma length_concat_16 (l : list (list Z)) : Forall (λ e, length e = 16%nat) l → length (concat l) = (16 * length l)%nat.
Proof. induction 1 as [|e l He _ IH]; [done|]. simpl. rewrite length_app, He, IH. lia. Qed.

Lemma length_root_entries args : length (root_entries args) = (2 + length args)%nat.
Proof. unfold root_entries. simpl. by rewrite length_imap. Qed.

Lemma length_root args : length (concat (root_entries args)) = (16 * (2 + length args))%nat.
Proof. rewrite length_concat_16 by apply root_entries_16. by rewrite length_root_entries. Qed.

Lemma root_entries_snoc done a :
  root_entries (done ++ [a]) = root_entries done ++ [dirent (2 + Z.of_nat (length done)) (stored_name a.1)].
Proof. unfold root_entries. rewrite imap_app. simpl. by rewrite Nat.add_0_r. Qed.

(** The image while the files of [done] are complete and [p] of file [a] is there. *)
Definition partial (done : list arg) (a : arg) (p : list Z) : list (Z * list Z) :=
  (T_DIR, concat (root_entries (done ++ [a]))) :: files done ++ [(T_FILE, p)].

Lemma partial_insert done a p q : <[S (length done) := (T_FILE, q)]> (partial done a p) = partial done a q.
Proof.
  unfold partial. simpl. f_equal. rewrite insert_app_r_alt by (unfold files; rewrite length_fmap; lia).
  unfold files. by rewrite length_fmap, Nat.sub_diag.
Qed.

Lemma partial_lookup done a p : partial done a p !! S (length done) = Some (T_FILE, p).
Proof. unfold partial. simpl. rewrite lookup_app_r by (unfold files; rewrite length_fmap; lia). unfold files. by rewrite length_fmap, Nat.sub_diag. Qed.

Lemma length_partial done a p : length (partial done a p) = S (S (length done)).
Proof. unfold partial, files. simpl. rewrite length_app, length_fmap. simpl. lia. Qed.

Lemma partial_done done a : partial done a (concat a.2) = layout (done ++ [a]).
Proof. unfold partial, layout, files. by rewrite fmap_app. Qed.

Lemma all_blocks_pos fl : 0 <= all_blocks fl.
Proof.
  induction fl as [|f fl IH]; simpl; [done|]. pose proof (blocks_mono 0 (Z.of_nat (length f.2)) ltac:(lia)). change (blocks_needed 0) with 0 in *. lia.
Qed.

(** What is needed on the way is needed at the end. *)
Lemma partial_room done a rest p :
  (length p <= length (concat a.2))%nat → all_blocks (partial done a p) <= all_blocks (layout (done ++ a :: rest)).
Proof.
  intros Hp. unfold partial, layout, files. rewrite fmap_app, fmap_cons, !all_blocks_cons, !all_blocks_app, !all_blocks_cons. cbn [snd]. rewrite !length_root.
  change (all_blocks []) with 0.
  pose proof (blocks_mono (Z.of_nat (length p)) (Z.of_nat (length (concat a.2))) ltac:(lia)).
  pose proof (blocks_mono (Z.of_nat (16 * (2 + length (done ++ [a])))) (Z.of_nat (16 * (2 + length (done ++ a :: rest))))) as Hr.
  rewrite !length_app in *. simpl in *. pose proof (all_blocks_pos ((λ a0 : arg, (T_FILE, concat a0.2)) <$> rest)). lia.
Qed.

Lemma wp_append_all done a rest reads p s (Q : unit → mkst → Prop) :
  disk_ok s (partial done a p) → p ++ concat reads = concat a.2 → arg_ok a → (length done < 198)%nat →
  nmeta + all_blocks (layout (done ++ a :: rest)) <= FSSIZE →
  (∀ s', disk_ok s' (layout (done ++ [a])) → Q tt s') → wp (append_all (2 + Z.of_nat (length done)) reads) Q s.
Proof.
  intros Hdk Hp Ha Hn Hroom HQ. revert p s Hdk Hp; induction reads as [|b reads IH]; intros p s Hdk Hp; cbn [append_all concat] in *.
  - rewrite app_nil_r in Hp. subst p. apply wp_ret, HQ. by rewrite <-partial_done.
  - assert (length (p ++ b) <= length (concat a.2))%nat as Hl by (rewrite <-Hp, !length_app; lia).
    replace (2 + Z.of_nat (length done)) with (1 + Z.of_nat (S (length done))) by lia. destruct Ha as (_ & _ & Hmax).
    apply wp_bind. eapply (wp_iappend _ _ _ T_FILE p b); [exact Hdk|apply partial_lookup|rewrite length_partial; lia|lia| |].
    + rewrite partial_insert. pose proof (partial_room done a rest (p ++ b) Hl). lia.
    + intros s1 Hdk1. rewrite partial_insert in Hdk1. replace (1 + Z.of_nat (S (length done))) with (2 + Z.of_nat (length done)) by lia.
      eapply IH; [exact Hdk1|]. by rewrite <-app_assoc.
Qed.

Lemma entry_number n : 0 <= n < 2 ^ 16 → xshort (u16 n) = n.
Proof. intros Hn. assert (u16 n = n) as -> by by apply Z.mod_small. by apply xshort_id. Qed.

Lemma wp_add_file done a rest s (Q : unit → mkst → Prop) :
  disk_ok s (layout done) → arg_ok a → (length done < 198)%nat → nmeta + all_blocks (layout (done ++ a :: rest)) <= FSSIZE →
  (∀ s', disk_ok s' (layout (done ++ [a])) → Q tt s') → wp (add_file 1 a.1 (Some a.2)) Q s.
Proof.
  intros Hdk Ha Hn Hroom HQ. pose proof Ha as (Hsl & Hlen & Hmax). unfold add_file. rewrite bool_decide_eq_false_2 by done. cbv zeta.
  rewrite bool_decide_eq_false_2 by lia. assert (length (layout done) = S (length done)) as Hll by (unfold layout, files; simpl; by rewrite length_fmap).
  apply wp_bind. apply (wp_ialloc _ _ _ _ Hdk); [lia|done|]. intros s1 Hdk1. rewrite Hll in *.
  replace (1 + Z.of_nat (S (length done))) with (2 + Z.of_nat (length done)) by lia. rewrite entry_number by lia.
  pose proof (partial_room done a rest [] ltac:(simpl; lia)) as Hpr.
  set (e := dirent _ _). assert (<[0%nat := (T_DIR, concat (root_entries done) ++ e)]> (layout done ++ [(T_FILE, [])]) = partial done a []) as Ep.
  { unfold partial. rewrite root_entries_snoc, concat_app. cbn [concat]. by rewrite app_nil_r. }
  apply wp_bind. apply (wp_iappend s1 (layout done ++ [(T_FILE, [])]) 0 T_DIR (concat (root_entries done)) e); [done|done|rewrite length_app, Hll; simpl; lia| |rewrite Ep; lia|].
  - rewrite length_app, length_root. unfold e. rewrite length_dirent. change (MAXFILE * BSIZE) with 274432. lia.
  - rewrite Ep. intros s2 Hdk2. by eapply wp_append_all.
Qed.

Lemma wp_add_files done args s (Q : unit → mkst → Prop) :
  disk_ok s (layout done) → Forall arg_ok args → (length (done ++ args) <= 198)%nat → nmeta + all_blocks (layout (done ++ args)) <= FSSIZE →
  (∀ s', disk_ok s' (layout (done ++ args)) → Q tt s') → wp (add_files 1 ((λ a, (a.1, Some a.2)) <$> args)) Q s.
Proof.
  revert done s; induction args as [|a args IH]; intros done s Hdk Hok Hn Hroom HQ; simpl.
  - rewrite app_nil_r in HQ. apply wp_ret. auto.
  - apply Forall_cons in Hok as [Ha Hok]. apply wp_bind. rewrite length_app in Hn. simpl in Hn.
    apply (wp_add_file done a args); [done|done|lia|done|]. intros s1 Hdk1. replace (done ++ a :: args) with ((done ++ [a]) ++ args) in * by (by rewrite <-app_assoc).
    eapply IH; [done|done|rewrite !length_app; simpl; lia|done|done].
Qed.

(** The first inode, on a cleared disk. *)
Lemma wp_clear {A} (k : M mkst A) (Q : A → mkst → Prop) :
  (∀ s, disk_ok s [] → wp k Q s) →
  wp (modify (λ s, MkSt (img s) (freeinode s) nmeta);; clear_disk;; wsect 1 (sb_block mkfs_sb);; k) Q (MkSt ∅ 1 0).
Proof.
  intros HQ. apply wp_bind. unfold wp at 1, modify. apply wp_bind.
  apply (wp_for_each (λ j s, freeinode s = 1 ∧ freeblock s = nmeta ∧ ∀ b, 0 <= b < Z.of_nat j → img s !! b = Some zeros)).
  - split_and!; [done|done|lia].
  - intros j s Hj (Hi & Hf & Hz). apply wp_wsect; [mlia|]. split_and!; [done|done|]. intros b Hb. simpl.
    destruct (decide (b = Z.of_nat j)) as [->|Hne]; [by rewrite lookup_insert_eq|]. rewrite lookup_insert_ne by done. apply Hz. lia.
  - intros s (Hi & Hf & Hz). rewrite Nat.add_0_l in Hz. assert (∀ b, 0 <= b < FSSIZE → img s !! b = Some zeros) as Hz' by (intros b Hb; apply Hz; mlia).
    apply wp_bind, wp_wsect; [mlia|]. apply HQ. split; try done.
    + apply put_ok; [|mlia|done]. split; [mlia| |]; [intros b Hb; exists zeros; by rewrite Hz'|]. intros b Hb. apply Hz'. mlia.
    + intros i j b Hi'. simpl in Hi'. lia.
    + intros b Hb. cbn [img put_block]. destruct (decide (b = 1)) as [->|E]; [by rewrite lookup_insert_eq|]. rewrite lookup_insert_ne by done. apply Hz'. mlia.
Qed.

(** ** What the kernel finds *)
Record image_ok (args : list arg) (V : gmap Z (list Z)) (n : Z) : Prop := {
  im_sb : ∃ d, V !! 1 = Some d ∧ sb_of d = mkfs_sb;
  im_log : ∃ d, V !! sb_logstart mkfs_sb = Some d ∧ lh_get_n d = 0;
  im_fs : fs_ok mkfs_sb V;
  im_used : ∀ b, 0 <= b < FSSIZE → used mkfs_sb V b = bool_decide (b < n);
  im_root : let ip := inode_at V ROOTINO in
    i_type ip = T_DIR ∧ i_nlink ip = 1 ∧ file_ok mkfs_sb V ip ∧ i_size ip mod BSIZE = 0 ∧
    (∀ k e, root_entries args !! k = Some e → dents ip V !! k = Some e) ∧
    (∀ k e, dents ip V !! k = Some e → (2 + length args <= k)%nat → e = replicate 16 0) ∧
    (((2 + length args) mod 64 ≠ 0)%nat → dir_ok mkfs_sb V ip);
  im_file : ∀ k a, args !! k = Some a → let ip := inode_at V (2 + Z.of_nat k) in
    i_type ip = T_FILE ∧ i_nlink ip = 1 ∧ i_size ip = Z.of_nat (length (concat a.2)) ∧ file_ok mkfs_sb V ip ∧
    mapped ip V (i_size ip) ∧ fbytes ip V 0 (length (concat a.2)) = concat a.2;
  im_disj : ∀ i j b, (i <= length args)%nat → (j <= length args)%nat → i ≠ j →
    block_of (inode_at V (1 + Z.of_nat i)) V b → ¬ block_of (inode_at V (1 + Z.of_nat j)) V b
}.

Lemma file_at_bytes s inum type c off m :
  file_at s inum type c → (off + m <= length c)%nat →
  fbytes (inode_at (img s) inum) (view s) (Z.of_nat off) m = take m (drop off c).
Proof.
  intros Hfa Hl. apply list_eq. intros j. pose proof (fa_max _ _ _ _ Hfa) as Hmax. destruct (decide (j < m)%nat) as [Hj|Hj].
  - rewrite fbytes_lookup, lookup_take_lt, lookup_drop by done. rewrite (fa_bytes _ _ _ _ Hfa); [|lia|apply (in_file_div _ (Z.of_nat (length c))); lia].
    rewrite decide_True by lia. rewrite list_lookup_lookup_total_lt by lia. do 2 f_equal. lia.
  - rewrite lookup_take_ge by lia. apply lookup_ge_None_2. rewrite fbytes_length. lia.
Qed.

Lemma file_at_mapped s inum type c n :
  file_at s inum type c → n <= MAXFILE * BSIZE → (∀ o, 0 <= o < n → o / BSIZE * BSIZE < Z.of_nat (length c)) →
  mapped (inode_at (img s) inum) (view s) n.
Proof. intros Hfa Hn Ho. split; [done|]. intros o Hon. apply (fa_dense _ _ _ _ Hfa); [by apply (in_file_div _ n)|auto]. Qed.

(** Entry [k] of a list of entries. *)
Lemma concat_entry (l : list (list Z)) k e :
  Forall (λ e, length e = 16%nat) l → l !! k = Some e → take 16 (drop (16 * k) (concat l)) = e.
Proof.
  intros Hl. revert k; induction Hl as [|x l Hx _ IH]; intros k Hk; [done|]. cbn [concat]. destruct k as [|k].
  - injection Hk as <-. rewrite Nat.mul_0_r, drop_0. by apply take_app_length'.
  - rewrite <-(IH k Hk). f_equal. replace (16 * S k)%nat with (length x + 16 * k)%nat by lia. apply drop_app_add.
Qed.

(** The last steps: the size of the root directory is rounded up and the free map
    is written. *)
Section finish.
Context (args : list arg) (s : mkst).
Context (Hdk : disk_ok s (layout args)) (Hn : (length args <= 198)%nat).

Let root := inode_at (img s) 1.
Let len := Z.of_nat (length (concat (root_entries args))).
Let R := (len / BSIZE + 1) * BSIZE.
Let s3 := put_inode 1 (root <| i_size := R |>) s.

Lemma root_file : file_at s 1 T_DIR (concat (root_entries args)).
Proof. apply (dk_file _ _ Hdk 0). done. Qed.

Lemma root_size : len = 16 * (2 + Z.of_nat (length args)) ∧ len < R ∧ R <= 4096 ∧ R mod BSIZE = 0 ∧ 
  (((2 + length args) mod 64 ≠ 0)%nat → ∀ o, 0 <= o < R → o / BSIZE * BSIZE < len).
Proof.
  assert (len = 16 * (2 + Z.of_nat (length args))) as Hl by (unfold len; rewrite length_root; lia). split; [done|]. unfold R. clearbody len. subst len.
  change BSIZE with 1024. split_and!.
  - Z.to_euclidean_division_equations. lia.
  - Z.to_euclidean_division_equations. lia.
  - apply Z.mod_mul. done.
  - intros Hm o Ho. assert (0 < (2 + Z.of_nat (length args)) mod 64) as Hm' by (change 64 with (Z.of_nat 64); change 2 with (Z.of_nat 2); rewrite <-Nat2Z.inj_add, <-Nat2Z.inj_mod; lia).
    Z.to_euclidean_division_equations. lia.
Qed.

Lemma root_ok : inode_ok (root <| i_size := R |>).
Proof.
  pose proof (fa_fields _ _ _ _ root_file) as E. fold root in E. unfold fields in E. pose proof root_size.
  apply (mk_inode_ok s); [apply Hdk|apply root_file|..]; try congruence.
  - assert (i_type root = T_DIR) as -> by congruence. done.
  - unfold R. change BSIZE with 1024 in *. unfold len. Z.to_euclidean_division_equations. lia.
Qed.

Lemma finish_mk : mk_ok s3.
Proof. apply put_inode_ok; [apply Hdk|done|apply root_ok]. Qed.

Lemma finish_root : inode_at (img s3) 1 = root <| i_size := R |>.
Proof. apply disk_inode_eq; [|done..]. apply put_inode_same; [apply Hdk|done|apply root_ok]. Qed.

Lemma finish_other k : (k < length args)%nat → inode_at (img s3) (2 + Z.of_nat k) = inode_at (img s) (2 + Z.of_nat k).
Proof. intros Hk. apply put_inode_other; [apply Hdk|done|apply root_ok|lia|lia]. Qed.

Lemma finish_view b : nmeta <= b → view s3 !! b = view s !! b.
Proof. by apply put_inode_view. Qed.

Lemma finish_file k a : args !! k = Some a → file_at s3 (2 + Z.of_nat k) T_FILE (concat a.2).
Proof.
  intros Ha. assert (file_at s (2 + Z.of_nat k) T_FILE (concat a.2)) as Hfa.
  { replace (2 + Z.of_nat k) with (1 + Z.of_nat (S k)) by lia. apply (dk_file _ _ Hdk). unfold layout, files. simpl. by rewrite list_lookup_fmap, Ha. }
  eapply (file_at_frame s); [apply Hdk|apply finish_mk|done|apply finish_other; by eapply lookup_lt_Some| |done].
  intros b Hb. apply finish_view. by apply (fa_beyond _ _ _ _ Hfa).
Qed.

Lemma root_keep b : block_of root (view s) b → view s3 !! b = view s !! b.
Proof. intros Hb. apply finish_view. by apply (fa_beyond _ _ _ _ root_file). Qed.

Lemma root_byte o : 0 <= o < R → fbyte root (view s3) o = if decide (o < len) then concat (root_entries args) !!! Z.to_nat o else 0.
Proof.
  intros Ho. pose proof root_size. assert (in_file (o / BSIZE)) by (apply (in_file_div o R); [lia|change (MAXFILE * BSIZE) with 274432; lia]).
  rewrite (frame_byte _ _ _ root_keep) by done. apply (fa_bytes _ _ _ _ root_file); [lia|done].
Qed.

Lemma root_entry k e : root_entries args !! k = Some e → dents (root <| i_size := R |>) (view s3) !! k = Some e.
Proof.
  intros He. pose proof (lookup_lt_Some _ _ _ He) as Hk. rewrite length_root_entries in Hk. destruct root_size as (Hl & Hlt & HR & _).
  rewrite dents_lookup; [|rsimpl; Z.to_euclidean_division_equations; lia]. f_equal. rewrite <-(concat_entry _ k e (root_entries_16 args) He).
  rewrite <-(file_at_bytes s 1 T_DIR); [|apply root_file|rewrite length_root; lia].
  unfold dent, fbytes. apply list_fmap_ext. intros i j [-> Hj]%lookup_seq. change (fbyte root (view s3) (16 * Z.of_nat k + Z.of_nat (0 + i)) = fbyte root (view s) (Z.of_nat (16 * k) + Z.of_nat (0 + i))).
  rewrite (frame_byte _ _ _ root_keep); [f_equal; lia|]. apply (in_file_div _ R); [lia|change (MAXFILE * BSIZE) with 274432; lia].
Qed.

Lemma root_free k e : dents (root <| i_size := R |>) (view s3) !! k = Some e → (2 + length args <= k)%nat → e = replicate 16 0.
Proof.
  intros He Hk. pose proof (lookup_lt_Some _ _ _ He) as Hlk. rewrite dents_length in Hlk. rewrite dents_lookup in He by done. injection He as <-.
  destruct root_size as (Hl & Hlt & HR & _). unfold dent, fbytes. rewrite <-(const_fmap (λ _, 0) (seq 0 16)) by done.
  apply list_fmap_ext. intros i j [-> Hj]%lookup_seq. rsimpl in Hlk.
  change (fbyte root (view s3) (16 * Z.of_nat k + Z.of_nat (0 + i)) = 0). rewrite root_byte, decide_False; [done|lia|].
  Z.to_euclidean_division_equations. lia.
Qed.
End finish.

Lemma finish_image args s :
  disk_ok s (layout args) → (length args <= 198)%nat →
  let len := Z.of_nat (length (concat (root_entries args))) in
  let s3 := put_inode 1 ((inode_at (img s) 1) <| i_size := (len / BSIZE + 1) * BSIZE |>) s in
  image_ok args (view s3) (freeblock s).
Proof.
  intros Hdk Hn len s3. pose proof (finish_mk args s Hdk Hn : mk_ok s3) as Hk3. pose proof (dk_ok _ _ Hdk) as Hk.
  pose proof (finish_root args s Hdk Hn) as Er. fold len in Er. fold s3 in Er. pose proof (finish_other args s Hdk Hn) as Eo. fold len in Eo. fold s3 in Eo. pose proof (root_file args s Hdk) as Hrf.
  assert (∀ b, 0 <= b < 33 → view s3 !! b = img s !! b) as Hhead.
  { intros b Hb. rewrite view_ne by lia. unfold s3, put_inode. simpl. pose proof (mkfs_iblock 1). rewrite lookup_insert_ne by lia. done. }
  assert (∀ b, owned msb (view s) b → owned msb (view s3) b) as Ho.
  { intros b Hb%view_owned; [|done]. by apply view_owned. }
  assert (∀ i b, (i <= length args)%nat → block_of (inode_at (view s3) (1 + Z.of_nat i)) (view s3) b →
    block_of (inode_at (img s) (1 + Z.of_nat i)) (view s) b) as Hbl.
  { intros [|k] b Hi Hb; rewrite view_inode in Hb by (done || lia).
    - change (1 + Z.of_nat 0) with 1 in *. rewrite Er in Hb. by apply (frame_block (view s) (view s3) _ (root_keep args s Hdk)).
    - replace (1 + Z.of_nat (S k)) with (2 + Z.of_nat k) in * by lia. rewrite Eo in Hb by lia.
      destruct (lookup_lt_is_Some_2 args k) as [a Ha]; [lia|]. pose proof (finish_file args s Hdk Hn k a Ha) as Hfa.
      eapply (frame_block (view s) (view s3)); [|done]. intros c Hc. apply finish_view.
      replace (2 + Z.of_nat k) with (1 + Z.of_nat (S k)) in Hc by lia. eapply (fa_beyond s); [|done]. apply (dk_file _ _ Hdk (S k) T_FILE (concat a.2)).
      unfold layout, files. simpl. by rewrite list_lookup_fmap, Ha. }
  split.
  - rewrite Hhead by lia. rewrite (dk_head _ _ Hdk) by lia. eexists. split; [done|]. by vm_compute.
  - change (sb_logstart msb) with 2. rewrite Hhead by lia. rewrite (dk_head _ _ Hdk) by lia. eexists. split; [done|]. by vm_compute.
  - by apply view_fs_ok.
  - intros b Hb. exact (view_used s3 b Hk3 Hb).
  - cbv zeta. change ROOTINO with 1. rewrite view_inode by done. rewrite Er. set (R := (len / BSIZE + 1) * BSIZE) in *.
    pose proof (fa_fields _ _ _ _ Hrf) as Ef. unfold fields in Ef. destruct (root_size args s Hn) as (Hl & Hlt & HR & Hmod & Hmap).
    fold len in Hl, Hlt, HR, Hmod, Hmap. fold R in Hlt, HR, Hmod, Hmap.
    assert (file_ok msb (view s3) ((inode_at (img s) 1) <| i_size := R |>)) as Hf.
    { apply mk_file_size. eapply frame_file; [exact (root_keep args s Hdk)|done|apply Hrf]. }
    split_and!; [rsimpl; congruence|rsimpl; congruence|done|done|by apply root_entry|by apply root_free|].
    intros Hm. split; [done|done|rsimpl; congruence| |].
    + rsimpl. change BSIZE with 1024 in Hmod. split; [lia|]. Z.to_euclidean_division_equations. lia.
    + rsimpl. split; [change (MAXFILE * BSIZE) with 274432; lia|]. intros o Ho'. change (faddr (inode_at (img s) 1) (view s3) (o / BSIZE) ≠ 0).
      rewrite (frame_faddr _ _ _ (root_keep args s Hdk)).
      apply (fa_dense _ _ _ _ Hrf); [apply (in_file_div _ R); [lia|change (MAXFILE * BSIZE) with 274432; lia]|by apply Hmap].
  - intros k a Ha. cbv zeta. pose proof (lookup_lt_Some _ _ _ Ha). rewrite view_inode by lia. pose proof (finish_file args s Hdk Hn k a Ha) as Hfa.
    fold len in Hfa. fold s3 in Hfa. pose proof (fa_fields _ _ _ _ Hfa) as Ef. unfold fields in Ef.
    assert (i_size (inode_at (img s3) (2 + Z.of_nat k)) = Z.of_nat (length (concat a.2))) as Hsz by congruence.
    split_and!; [congruence|congruence|done|apply Hfa| |].
    + rewrite Hsz. eapply file_at_mapped; [done|apply Hfa|]. intros o Ho'. change BSIZE with 1024. Z.to_euclidean_division_equations. lia.
    + change 0 with (Z.of_nat 0). rewrite (file_at_bytes s3 _ _ _ 0 (length (concat a.2)) Hfa) by lia. by rewrite drop_0, firstn_all.
  - intros i j b Hi Hj Hne Hb1 Hb2. apply Hbl in Hb1, Hb2; [|done..]. revert Hb1 Hb2.
    apply (dk_disj _ _ Hdk); [..|done]; unfold layout, files; simpl; rewrite length_fmap; lia.
Qed.

(** C7. mkfs makes the file system that the kernel expects.  For arguments with
    names that fit a directory entry, files that fit their inodes and a disk that
    is large enough, mkfs comes to its end without a failed assertion, and the
    image has: a superblock that the kernel reads back; an empty log; a free map in
    which exactly the first blocks are used; for every argument an inode with the
    type, the size and, through direct and indirect blocks, the bytes of the file; a
    root directory with dot, dotdot and an entry for every file, and free entries
    after them; and no block in two files.  The root directory meets the
    requirements of the kernel's dirlookup and dirlink unless its entries fill their
    last block exactly. *)
Theorem mkfs_correct (args : list arg) :
  Forall arg_ok args → (length args <= 198)%nat → nmeta + all_blocks (layout args) <= FSSIZE →
  ∃ s, mkfs ((λ a, (a.1, Some a.2)) <$> args) = Ok tt s ∧ freeblock s = nmeta + all_blocks (layout args) ∧
    image_ok args (img s) (freeblock s).
Proof.
  intros Hok Hn Hroom.
  assert (wp (mkfs_main ((λ a, (a.1, Some a.2)) <$> args))
    (λ _ s, freeblock s = nmeta + all_blocks (layout args) ∧ image_ok args (img s) (freeblock s)) (MkSt ∅ 1 0)) as Hw;
    [|destruct (proj1 (wp_ok _ _ _) Hw) as ([] & s & Hrun & HQ); exists s; exact (conj Hrun HQ)].
  unfold mkfs_main. apply wp_clear. intros s0 Hdk0. apply wp_bind. apply (wp_ialloc _ _ _ _ Hdk0); [simpl; lia|done|]. intros s1 Hdk1.
  change (1 + Z.of_nat (length [])) with 1. rewrite bool_decide_eq_false_2 by (intros E; by apply E).
  pose proof (blocks_mono 32 (Z.of_nat (length (concat (root_entries args)))) ltac:(rewrite length_root; lia)) as Hb.
  unfold layout in Hroom. rewrite all_blocks_cons in Hroom. cbn [snd] in Hroom. pose proof (all_blocks_pos (files args)) as Hp.
  change (blocks_needed 32) with 1 in Hb. rewrite entry_number by lia.
  apply wp_bind, (wp_iappend s1 _ 0 T_DIR [] _ _ Hdk1); [done|simpl; lia|done|change (nmeta + 1 <= FSSIZE); mlia|]. intros s2 Hdk2.
  apply wp_bind. eapply (wp_iappend s2 _ 0 T_DIR _ _ _ Hdk2); [done|simpl; lia|done|change (nmeta + 1 <= FSSIZE); mlia|]. intros s3 Hdk3.
  apply wp_bind. apply (wp_add_files [] args); [exact Hdk3|done|done|done|]. intros s4 Hdk4. pose proof (dk_ok _ _ Hdk4) as Hk4.
  apply wp_bind, wp_rinode; [done|done|]. pose proof (root_file args s4 Hdk4) as Hrf. pose proof (fa_fields _ _ _ _ Hrf) as Ef. unfold fields in Ef.
  assert (i_size (inode_at (img s4) 1) = Z.of_nat (length (concat (root_entries args)))) as -> by congruence.
  destruct (root_size args s4 Hn) as (Hl & Hlt & HR & _). rewrite (xint_id (Z.of_nat _)) by lia. rewrite u32_small by (rewrite Hl; change BSIZE with 1024; Z.to_euclidean_division_equations; lia).
  rewrite (xint_id (_ * BSIZE)) by (rewrite Hl; change BSIZE with 1024; Z.to_euclidean_division_equations; lia).
  apply wp_bind, wp_winode; [done|done|]. apply wp_bind. unfold wp at 1, gets. unfold mkfs_balloc. pose proof (mk_range _ Hk4) as Hr.
  cbn [freeblock put_inode put_block]. rewrite bool_decide_eq_false_2 by (change BPB with 8192; mlia). apply wp_wsect; [done|].
  split; [exact (dk_free _ _ Hdk4)|]. exact (finish_image args s4 Hdk4 Hn).
Qed.

Definition sample_args : list arg := [(str "user/_cat", [replicate 1024 7; replicate 100 8]); (str "README", [])].

Lemma mkfs_correct_witness :
  ∃ s, mkfs ((λ a, (a.1, Some a.2)) <$> sample_args) = Ok tt s ∧ freeblock s = nmeta + all_blocks (layout sample_args) ∧
    image_ok sample_args (img s) (freeblock s).
Proof.
  apply mkfs_correct.
  - unfold arg_ok. apply (bool_decide_unpack _). vm_compute. exact I.
  - simpl. lia.
  - vm_compute. discriminate.
Defined.
