(* ===== verification/UPrintf.v ===== *)
(** * user/printf.c: formatted output of user programs

    The state is what has been written: pairs of a file descriptor and a byte.
    Arguments are those of the kernel's printf (Console.v); unlike there, numbers
    are kept in a uint while they are printed. *)
From S2P Require Import Prelude.
From S2P Require Import Params.
From S2P Require Import State.
From S2P Require Import Console.
From S2P Require Import Wp.
From S2P Require Import ConsoleSpec.
#[local] Open Scope Z_scope.

Abbreviation written := (list (Z * Z)).

Definition udigits : list Z := str "0123456789ABCDEF".

Definition putc (fd c : Z) : M written unit := modify (λ out, out ++ [(fd, u8 c)]).

(** [do { buf[i++] = digits[x % base]; } while((x /= base) != 0)] *)
Fixpoint uprintint_digits (fuel : nat) (x base : Z) : list Z :=
  match fuel with
  | O => []
  | S fuel' =>
      let d := udigits !!! Z.to_nat (x mod base) in
      if bool_decide (x / base = 0) then [d] else d :: uprintint_digits fuel' (x / base) base
  end.

(** [for(; *s; s++) putc(fd, *s)] *)
Fixpoint put_all (fd : Z) (s : list Z) : M written unit :=
  match s with
  | [] => mret tt
  | c :: s' => putc fd c;; put_all fd s'
  end.

(** Writing past the end of [char buf[20]] is a fault. *)
Definition uprintint (fd xx base : Z) (sgn : bool) : M written unit :=
  let neg := sgn && bool_decide (xx < 0) in
  let x := u32 (if neg then - xx else xx) in
  let buf := uprintint_digits 32 x base ++ (if neg then [45] else []) in
  if bool_decide (length buf <= 20)%nat then put_all fd (rev buf) else fault.

(** [for (i = 0; i < (sizeof(uint64) * 2); i++, x <<= 4)] *)
Fixpoint uprintptr_loop (n : nat) (fd x : Z) : M written unit :=
  match n with
  | O => mret tt
  | S n' => putc fd (udigits !!! Z.to_nat (Z.shiftr x 60));; uprintptr_loop n' fd (u64 (Z.shiftl x 4))
  end.
Definition uprintptr (fd x : Z) : M written unit := putc fd 48;; putc fd 120;; uprintptr_loop 16 fd x.

Definition arg_int (args : list arg) : M written (Z * list arg) :=
  match args with AInt v :: rest => mret (v, rest) | _ => fault end.
Definition arg_str (args : list arg) : M written (option (list Z) * list arg) :=
  match args with AStr s :: rest => mret (s, rest) | _ => fault end.

(** The loop over fmt, of which [fmt] is left; [percent] is [state == '%']. *)
Fixpoint vprintf_loop (fuel : nat) (fd : Z) (percent : bool) (fmt : list Z) (args : list arg) : M written unit :=
  match fuel with
  | O => stuck
  | S fuel' =>
      match fmt with
      | [] => mret tt
      | c0 :: fmt =>
          if negb percent then
            if bool_decide (c0 = 37) then vprintf_loop fuel' fd true fmt args
            else putc fd c0;; vprintf_loop fuel' fd false fmt args
          else
          let c1 := char_at fmt 0 in
          let c2 := if bool_decide (c1 ≠ 0) then char_at fmt 1 else 0 in
          let number (conv : Z → Z) base sgn n :=
            ('(v, args) ← arg_int args; uprintint fd (conv v) base sgn;;
             vprintf_loop fuel' fd false (drop n fmt) args) in
          if bool_decide (c0 = 100) then number s32 10 true 0%nat
          else if bool_decide (c0 = 108 ∧ c1 = 100) then number s64 10 true 1%nat
          else if bool_decide (c0 = 108 ∧ c1 = 108 ∧ c2 = 100) then number s64 10 true 2%nat
          else if bool_decide (c0 = 117) then number u32 10 false 0%nat
          else if bool_decide (c0 = 108 ∧ c1 = 117) then number s64 10 false 1%nat
          else if bool_decide (c0 = 108 ∧ c1 = 108 ∧ c2 = 117) then number s64 10 false 2%nat
          else if bool_decide (c0 = 120) then number u32 16 false 0%nat
          else if bool_decide (c0 = 108 ∧ c1 = 120) then number s64 16 false 1%nat
          else if bool_decide (c0 = 108 ∧ c1 = 108 ∧ c2 = 120) then number s64 16 false 2%nat
          else if bool_decide (c0 = 112) then
            '(v, args) ← arg_int args; uprintptr fd (u64 v);; vprintf_loop fuel' fd false fmt args
          else if bool_decide (c0 = 99) then
            '(v, args) ← arg_int args; putc fd (u32 v);; vprintf_loop fuel' fd false fmt args
          else if bool_decide (c0 = 115) then
            '(s, args) ← arg_str args;
            put_all fd (default (str "(null)") s);; vprintf_loop fuel' fd false fmt args
          else if bool_decide (c0 = 37) then putc fd 37;; vprintf_loop fuel' fd false fmt args
          else putc fd 37;; putc fd c0;; vprintf_loop fuel' fd false fmt args
      end
  end.

(** Every round takes a character. *)
Definition vprintf (fd : Z) (fmt : list Z) (args : list arg) : M written unit :=
  vprintf_loop (S (length fmt)) fd false fmt args.
Definition fprintf (fd : Z) (fmt : list Z) (args : list arg) : M written unit := vprintf fd fmt args.
Definition uprintf (fmt : list Z) (args : list arg) : M written unit := vprintf 1 fmt args.

(** ** What is printed *)
Definition unumber (xx base : Z) (sgn : bool) : list Z :=
  let neg := sgn && bool_decide (xx < 0) in
  (if neg then [45] else []) ++ rev (uprintint_digits 32 (u32 (if neg then - xx else xx)) base).

#[global] Arguments unumber : simpl never.

Fixpoint uptr_digits (n : nat) (x : Z) : list Z :=
  match n with
  | O => []
  | S n' => udigits !!! Z.to_nat (Z.shiftr x 60) :: uptr_digits n' (u64 (Z.shiftl x 4))
  end.

Definition urender (d : directive) (args : list arg) : option (list Z * list arg) :=
  match d, args with
  | Lit c, _ => Some ([c], args)
  | Num l f, AInt v :: a =>
      Some (unumber (conv l f v) (match f with Fx => 16 | _ => 10 end) (match f with Fd => true | _ => false end), a)
  | Fp, AInt v :: a => Some (48 :: 120 :: uptr_digits 16 (u64 v), a)
  | Fc, AInt v :: a => Some ([u8 (u32 v)], a)
  | Fs, AStr s :: a => Some (u8 <$> default (str "(null)") s, a)
  | Fpercent, _ => Some ([37], args)
  | _, _ => None
  end.

Fixpoint urender_all (ds : list directive) (args : list arg) : option (list Z) :=
  match ds with
  | [] => Some []
  | d :: ds' =>
      match urender d args with
      | Some (bs, a) => match urender_all ds' a with Some bs' => Some (bs ++ bs') | None => None end
      | None => None
      end
  end.

Definition on (fd : Z) (bs : list Z) : written := (λ b, (fd, b)) <$> bs.

Lemma on_app fd a b : on fd (a ++ b) = on fd a ++ on fd b.
Proof. apply fmap_app. Qed.

(** ** Digits *)
Lemma udigits_val k : 0 <= k < 16 → ∃ c, udigits !!! Z.to_nat k = c ∧ 48 <= c <= 70 ∧ (if decide (65 <= c) then c - 55 else c - 48) = k.
Proof.
  intros Hk. assert (∃ n : nat, k = Z.of_nat n ∧ (n < 16)%nat) as (n & -> & Hn) by (exists (Z.to_nat k); lia).
  rewrite Nat2Z.id. do 16 (destruct n as [|n]; [eexists; split; [reflexivity|vm_compute; repeat split; discriminate]|]). lia.
Qed.

(** The number that a text of digits stands for, least significant digit first. *)
Fixpoint uvalue (base : Z) (ds : list Z) : Z :=
  match ds with
  | [] => 0
  | d :: ds' => (if decide (65 <= d) then d - 55 else d - 48) + base * uvalue base ds'
  end.

Lemma uprintint_digits_value f x base :
  2 <= base <= 16 → 0 <= x < base ^ Z.of_nat f → (0 < f)%nat → uvalue base (uprintint_digits f x base) = x.
Proof.
  intros Hb. revert x; induction f as [|f IH]; intros x Hx Hf; [lia|]. simpl uprintint_digits.
  pose proof (Z.mod_pos_bound x base ltac:(lia)). pose proof (Z.div_mod x base ltac:(lia)).
  destruct (udigits_val (x mod base) ltac:(lia)) as (c & -> & _ & Hv). case_bool_decide as Hq.
  - cbn [uvalue]. rewrite Hv. lia.
  - destruct f as [|f]; [exfalso; rewrite Z.div_small in Hq by lia; lia|].
    cbn [uvalue]. rewrite Hv, IH by (try apply div_small_fuel; lia). lia.
Qed.

Lemma uprintint_digits_length f x base n :
  2 <= base → 0 <= x < base ^ Z.of_nat n → (0 < n)%nat → (length (uprintint_digits f x base) <= n)%nat.
Proof.
  intros Hb. revert f x; induction n as [|n IH]; intros f x Hx Hn; [lia|]. destruct f as [|f]; simpl; [lia|].
  case_bool_decide as Hq; simpl; [lia|]. destruct n as [|n]; [exfalso; rewrite Z.div_small in Hq by lia; lia|].
  assert (length (uprintint_digits f (x / base) base) <= S n)%nat; [|lia]. apply IH; [by apply div_small_fuel|lia].
Qed.

Lemma uprintint_digits_ascii f x base :
  2 <= base <= 16 → 0 <= x → Forall (λ c, 48 <= c <= 70) (uprintint_digits f x base).
Proof.
  intros Hb. revert x; induction f as [|f IH]; intros x Hx; simpl; [constructor|].
  pose proof (Z.mod_pos_bound x base ltac:(lia)). destruct (udigits_val (x mod base) ltac:(lia)) as (c & -> & Hc & _).
  case_bool_decide; (constructor; [done|]); [constructor|]. apply IH. apply Z.div_pos; lia.
Qed.

(** Reading a printed number. *)
Definition read_unumber (base : Z) (bs : list Z) : Z :=
  if decide (head bs = Some 45) then - uvalue base (rev (tail bs)) else uvalue base (rev bs).

(** What is printed reads back as the number when it fits 32 bits, and as its low
    32 bits when it does not. *)
Lemma unumber_value xx base (sgn : bool) :
  base = 10 ∨ base = 16 →
  read_unumber base (unumber xx base sgn) = if sgn && bool_decide (xx < 0) then - u32 (- xx) else u32 xx.
Proof.
  intros Hb. unfold unumber, read_unumber. set (neg := sgn && _).
  assert (∀ x, ∃ ds, uprintint_digits 32 (u32 x) base = ds ∧ uvalue base ds = u32 x ∧ Forall (λ c, 48 <= c <= 70) ds) as Hds.
  { intros x. assert (0 <= u32 x < 2 ^ 32) as Hx by (unfold uN; apply Z.mod_pos_bound; lia). eexists. split; [done|]. split.
    - apply uprintint_digits_value; [lia| |lia]. change (Z.of_nat 32) with 32. destruct Hb as [-> | ->]; lia.
    - apply uprintint_digits_ascii; lia. }
  destruct (Hds (if neg then - xx else xx)) as (ds & -> & Hv & Ha). destruct neg; cbn [app].
  - rewrite decide_True by done. cbn [tail]. by rewrite rev_involutive, Hv.
  - rewrite decide_False; [by rewrite rev_involutive, Hv|]. intros Hh. apply Forall_rev in Ha. destruct (rev ds) as [|d l]; [done|].
    injection Hh as ->. apply Forall_cons in Ha as [Ha _]. lia.
Qed.

(** ** Runs *)
Lemma wp_putc fd c (Q : unit → written → Prop) out : Q tt (out ++ [(fd, u8 c)]) → wp (putc fd c) Q out.
Proof. done. Qed.

Lemma wp_put_all fd s (Q : unit → written → Prop) out : Q tt (out ++ on fd (u8 <$> s)) → wp (put_all fd s) Q out.
Proof.
  revert out; induction s as [|c s IH]; intros out HQ; simpl in *; [rewrite app_nil_r in HQ; by apply wp_ret|].
  apply wp_bind, wp_putc, IH. by rewrite <-app_assoc.
Qed.

Lemma u8_bytes s : Forall (λ c, 0 <= c < 256) s → u8 <$> s = s.
Proof. induction 1 as [|c s Hc _ IH]; [done|]. rewrite fmap_cons, IH. by rewrite uN_small by lia. Qed.

Lemma wp_uprintint fd xx base sgn (Q : unit → written → Prop) out :
  base = 10 ∨ base = 16 → Q tt (out ++ on fd (unumber xx base sgn)) → wp (uprintint fd xx base sgn) Q out.
Proof.
  intros Hb HQ. unfold uprintint, unumber in *. set (neg := sgn && _) in *. set (x := u32 _) in *.
  assert (0 <= x < 2 ^ 32) as Hx by (unfold x, uN; apply Z.mod_pos_bound; lia).
  assert (0 <= x < base ^ Z.of_nat 10) as Hx' by (change (Z.of_nat 10) with 10; destruct Hb as [-> | ->]; lia).
  pose proof (uprintint_digits_length 32 x base 10 ltac:(lia) Hx' ltac:(lia)) as Hl.
  pose proof (uprintint_digits_ascii 32 x base ltac:(lia) ltac:(lia)) as Ha. set (ds := uprintint_digits 32 x base) in *. clearbody ds neg.
  rewrite bool_decide_eq_true_2 by (rewrite length_app; destruct neg; simpl; lia). apply wp_put_all. rewrite u8_bytes.
  - rewrite rev_app_distr. by destruct neg.
  - apply Forall_rev, Forall_app. split; [|by destruct neg; repeat constructor].
    eapply Forall_impl; [exact Ha|]. intros c Hc. cbv beta in *. lia.
Qed.

Lemma wp_uprintptr fd x (Q : unit → written → Prop) out :
  0 <= x < 2 ^ 64 → Q tt (out ++ on fd (48 :: 120 :: uptr_digits 16 x)) → wp (uprintptr fd x) Q out.
Proof.
  intros Hx HQ. unfold uprintptr. apply wp_bind, wp_putc, wp_bind, wp_putc.
  assert (∀ n x out, 0 <= x < 2 ^ 64 → Q tt (out ++ on fd (uptr_digits n x)) → wp (uprintptr_loop n fd x) Q out) as Hl.
  { clear. induction n as [|n IH]; intros x out Hx HQ; cbn [uptr_digits uprintptr_loop] in *.
    - rewrite app_nil_r in HQ. by apply wp_ret.
    - assert (0 <= Z.shiftr x 60 < 16) as Hs.
      { rewrite Z.shiftr_div_pow2 by lia. split; [apply Z.div_pos; lia|apply Z.div_lt_upper_bound; lia]. }
      destruct (udigits_val _ Hs) as (c & Ec & Hc & _). rewrite Ec in *.
      apply wp_bind, wp_putc, IH; [unfold uN; apply Z.mod_pos_bound; lia|]. rewrite uN_small by lia. by rewrite <-app_assoc. }
  apply Hl; [done|]. by rewrite <-!app_assoc.
Qed.

Lemma vprintf_num fuel fd l f rest args :
  (l <= 2)%nat →
  vprintf_loop (S (S fuel)) fd false (spell (Num l f) ++ rest) args =
    ('(v, args) ← arg_int args;
     uprintint fd (conv l f v) (match f with Fx => 16 | _ => 10 end) (match f with Fd => true | _ => false end);;
     vprintf_loop fuel fd false rest args).
Proof. intros Hl. destruct l as [|[|[|l]]]; [| | |lia]; destruct f; reflexivity. Qed.

Lemma wp_vprintf_loop fd ds : ∀ fuel args bs (Q : unit → written → Prop) out,
  Forall dir_ok ds → urender_all ds args = Some bs → (length (flat_map spell ds) < fuel)%nat →
  Q tt (out ++ on fd bs) → wp (vprintf_loop fuel fd false (flat_map spell ds) args) Q out.
Proof.
  induction ds as [|d ds IH]; intros fuel args bs Q out Hok Hr Hf HQ; destruct fuel as [|fuel]; try (simpl in *; lia).
  { injection Hr as <-. rewrite app_nil_r in HQ. by apply wp_ret. }
  apply Forall_cons in Hok as [Hd Hok]. cbn [urender_all flat_map] in *. rewrite length_app in Hf.
  destruct (urender d args) as [[b1 a1]|] eqn:Hd1; [|done].
  destruct (urender_all ds a1) as [b2|] eqn:Hds; [|done]. injection Hr as <-.
  assert (∀ (m : M written unit) fl, (∀ Q', Q' tt (out ++ on fd b1) → wp m Q' out) →
    (length (flat_map spell ds) < fl)%nat → wp (m;; vprintf_loop fl fd false (flat_map spell ds) a1) Q out) as Hstep.
  { intros m fl Hm Hl. apply wp_bind, Hm. eapply IH; [done|done|lia|]. by rewrite <-app_assoc, <-on_app. }
  destruct d as [c|l f| | | |]; cbn [urender] in Hd1.
  - injection Hd1 as <- <-. destruct Hd as (H37 & Hbs & Hc). cbn [spell app vprintf_loop negb].
    rewrite bool_decide_eq_false_2 by done. apply Hstep; [|simpl in Hf; lia]. intros Q' HQ'. apply wp_putc. by rewrite uN_small by lia.
  - destruct args as [|[v|s] args]; simplify_eq. destruct fuel as [|fuel]; [simpl in Hf; lia|]. rewrite vprintf_num by done.
    apply Hstep; [|simpl in Hf; rewrite length_app in Hf; simpl in Hf; lia]. intros Q' HQ'. apply wp_uprintint; [destruct f; auto|done].
  - destruct args as [|[v|s] args]; simplify_eq. destruct fuel as [|fuel]; [simpl in Hf; lia|].
    change (wp (uprintptr fd (u64 v);; vprintf_loop fuel fd false (flat_map spell ds) a1) Q out).
    apply Hstep; [|simpl in Hf; lia]. intros Q' HQ'. apply wp_uprintptr; [unfold uN; apply Z.mod_pos_bound; lia|done].
  - destruct args as [|[v|s] args]; simplify_eq. destruct fuel as [|fuel]; [simpl in Hf; lia|].
    change (wp (putc fd (u32 v);; vprintf_loop fuel fd false (flat_map spell ds) a1) Q out). by apply Hstep; [|simpl in Hf; lia].
  - destruct args as [|[v|s] args]; simplify_eq. destruct fuel as [|fuel]; [simpl in Hf; lia|].
    change (wp (put_all fd (default (str "(null)") s);; vprintf_loop fuel fd false (flat_map spell ds) a1) Q out).
    apply Hstep; [|simpl in Hf; lia]. intros Q' HQ'. by apply wp_put_all.
  - injection Hd1 as <- <-. destruct fuel as [|fuel]; [simpl in Hf; lia|].
    change (wp (putc fd 37;; vprintf_loop fuel fd false (flat_map spell ds) args) Q out). by apply Hstep; [|simpl in Hf; lia].
Qed.

Lemma wp_vprintf fd ds args bs (Q : unit → written → Prop) out :
  Forall dir_ok ds → urender_all ds args = Some bs → Q tt (out ++ on fd bs) → wp (vprintf fd (flat_map spell ds) args) Q out.
Proof. intros Hok Hr HQ. eapply wp_vprintf_loop; [done|done|lia|done]. Qed.
