(* ===== verification/Memdump.v ===== *)
(** * user/memdump.c: printing memory by a format

    [data] is what the pointer points to; reading past its end is a [Fault].  The C
    strings that pointers found in the data point to are a parameter, [string_at].
    A char is unsigned on RISC-V. *)
From S2P Require Import Prelude.
From S2P Require Import Mem.
From S2P Require Import Params.
From S2P Require Import State.
From S2P Require Import KString.
From S2P Require Import Console.
From S2P Require Import Wp.
From S2P Require Import Log.
From S2P Require Import LogSpec.
From S2P Require Import ConsoleSpec.
From S2P Require Import UPrintf.
#[local] Open Scope Z_scope.

(** The value of [n] bytes at the start of the data, and the data after them. *)
Definition load_field (n : nat) (data : list Z) : M written (Z * list Z) :=
  if bool_decide (n <= length data)%nat then mret (le_combine (take n data), drop n data) else fault.

(** A string in the data ends before the data does. *)
Definition load_string (data : list Z) : M written (list Z * list Z) :=
  let s := cstr data in
  if bool_decide (length s < length data)%nat then mret (s, drop (length s + 1) data) else fault.

Section memdump.
Context (string_at : Z → option (list Z)).

(** The argument of %s for a pointer. *)
Definition pointee (a : Z) : M written arg :=
  if bool_decide (a = 0) then mret (AStr None) else
  match string_at a with Some s => mret (AStr (Some s)) | None => fault end.

Fixpoint memdump (fmt data : list Z) : M written unit :=
  match fmt with
  | [] => mret tt
  | c :: fmt' =>
      if bool_decide (c = 105) then
        '(v, data) ← load_field 4 data; uprintf (str "%d" ++ [10]) [AInt (s32 v)];; memdump fmt' data
      else if bool_decide (c = 112) then
        '(v, data) ← load_field 8 data; uprintf (str "%lx" ++ [10]) [AInt v];; memdump fmt' data
      else if bool_decide (c = 104) then
        '(v, data) ← load_field 2 data; uprintf (str "%d" ++ [10]) [AInt (s16 v)];; memdump fmt' data
      else if bool_decide (c = 99) then
        '(v, data) ← load_field 1 data; uprintf (str "%c" ++ [10]) [AInt v];; memdump fmt' data
      else if bool_decide (c = 115) then
        '(a, data) ← load_field 8 data; s ← pointee a; uprintf (str "%s" ++ [10]) [s];; memdump fmt' data
      else if bool_decide (c = 83) then
        '(s, data) ← load_string data; uprintf (str "%s" ++ [10]) [AStr (Some s)];; memdump fmt' data
      else fprintf 2 (str "memdump: unknown format character %c" ++ [10]) [AInt c]
  end.

Definition data_size : nat := 512.

(** [while(n < sizeof(data))]: [reads] are what read returns, nothing at the end of
    the input; no read returns more than was asked for. *)
Fixpoint read_data (data : list Z) (reads : list (list Z)) : list Z :=
  match reads with
  | [] => data
  | buf :: reads' =>
      if bool_decide (length data < data_size)%nat then
        match take (data_size - length data) buf with
        | [] => data
        | bs => read_data (data ++ bs) reads'
        end
      else data
  end.

(** main with one argument: the data is padded with zeros. *)
Definition memdump_main (fmt : list Z) (reads : list (list Z)) : M written unit :=
  let d := read_data [] reads in
  memdump fmt (d ++ replicate (data_size - length d) 0).

(** ** Structures

    The fields that a format describes, and their bytes in memory. *)
Inductive field : Type :=
| FInt (v : Z) | FPtr (v : Z) | FShort (v : Z) | FChar (c : Z) | FStringPtr (a : Z) | FString (s : list Z).

Definition field_letter (f : field) : Z :=
  match f with FInt _ => 105 | FPtr _ => 112 | FShort _ => 104 | FChar _ => 99 | FStringPtr _ => 115 | FString _ => 83 end.

Definition field_bytes (f : field) : list Z :=
  match f with
  | FInt v => le_split 4 v | FPtr v => le_split 8 v | FShort v => le_split 2 v | FChar c => [c]
  | FStringPtr a => le_split 8 a | FString s => s ++ [0]
  end.

Abbreviation chars := (Forall (λ c, 0 < c < 256)).

Definition field_ok (f : field) : Prop :=
  match f with
  | FInt v => - 2 ^ 31 <= v < 2 ^ 31
  | FPtr v => 0 <= v < 2 ^ 64
  | FShort v => - 2 ^ 15 <= v < 2 ^ 15
  | FChar c => 0 <= c < 256
  | FStringPtr a => 0 <= a < 2 ^ 64 ∧ (a ≠ 0 → ∃ s, string_at a = Some s ∧ chars s)
  | FString s => chars s
  end.

(** The line that is printed for a field.  Of an 8-byte number only the low 32 bits
    are. *)
Definition shows (f : field) (l : list Z) : Prop :=
  match f with
  | FInt v | FShort v => l = unumber v 10 true ∧ read_unumber 10 l = v
  | FPtr v => l = unumber (v mod 2 ^ 32) 16 false ∧ read_unumber 16 l = v mod 2 ^ 32
  | FChar c => l = [c]
  | FStringPtr a => l = if decide (a = 0) then str "(null)" else default [] (string_at a)
  | FString s => l = s
  end.

Lemma wp_load_field n v data (Q : Z * list Z → written → Prop) out :
  Q (v mod 256 ^ Z.of_nat n, data) out → wp (load_field n (le_split n v ++ data)) Q out.
Proof.
  intros HQ. unfold load_field. pose proof (length_le_split n v) as Hl. rewrite bool_decide_eq_true_2 by (rewrite length_app; lia).
  apply wp_ret. rewrite take_app_length', drop_app_length' by done. by rewrite le_combine_split.
Qed.

Lemma wp_line d arg l (Q : unit → written → Prop) out :
  dir_ok d → urender d [arg] = Some (l, []) → Q tt (out ++ on 1 (l ++ [10])) → wp (uprintf (spell d ++ [10]) [arg]) Q out.
Proof.
  intros Hd Hr HQ. change (spell d ++ [10]) with (spell d ++ spell (Lit 10) ++ []).
  apply (wp_vprintf 1 [d; Lit 10] [arg] (l ++ [10])); [|simpl; by rewrite Hr|done]. repeat constructor; done.
Qed.

Lemma unumber_int v : - 2 ^ 31 <= v < 2 ^ 31 → read_unumber 10 (unumber v 10 true) = v.
Proof.
  intros Hv. rewrite unumber_value by auto. simpl andb. case_bool_decide; rewrite uN_small; lia.
Qed.

Lemma unumber_low v : unumber v 16 false = unumber (v mod 2 ^ 32) 16 false.
Proof. unfold unumber. simpl andb. cbn [app]. do 2 f_equal. unfold uN. by rewrite Z.mod_mod. Qed.

Lemma s32_le v : - 2 ^ 31 <= v < 2 ^ 31 → s32 (v mod 2 ^ 32) = v.
Proof. intros Hv. unfold sN. change (32 - 1) with 31. rewrite Zplus_mod_idemp_l, Z.mod_small; lia. Qed.
Lemma s16_le v : - 2 ^ 15 <= v < 2 ^ 15 → s16 (v mod 2 ^ 16) = v.
Proof. intros Hv. unfold sN. change (16 - 1) with 15. rewrite Zplus_mod_idemp_l, Z.mod_small; lia. Qed.
Lemma s32_id v : - 2 ^ 31 <= v < 2 ^ 31 → s32 v = v.
Proof. intros Hv. unfold sN. change (32 - 1) with 31. rewrite Z.mod_small; lia. Qed.

Lemma s64_low v : 0 <= v < 2 ^ 64 → s64 v mod 2 ^ 32 = v mod 2 ^ 32.
Proof.
  intros Hv. unfold sN. change (64 - 1) with 63. destruct (decide (v < 2 ^ 63)).
  - rewrite (Z.mod_small (v + 2 ^ 63)) by lia. f_equal. lia.
  - replace (v + 2 ^ 63) with (v - 2 ^ 63 + 1 * 2 ^ 64) by lia. rewrite Z.mod_add, (Z.mod_small (v - 2 ^ 63)) by lia.
    replace (v - 2 ^ 63 - 2 ^ 63) with (v + (- 2 ^ 32) * 2 ^ 32) by lia. by rewrite Z.mod_add.
Qed.

Lemma bytes_u8 s : chars s → u8 <$> s = s.
Proof. intros Hs. apply u8_bytes. eapply Forall_impl; [exact Hs|]. intros c Hc. cbv beta in *. lia. Qed.

Lemma cstr_field s data : chars s → cstr (s ++ 0 :: data) = s.
Proof. intros Hs. apply cstr_app_0. eapply Forall_impl; [exact Hs|]. intros c Hc. cbv beta in *. lia. Qed.

Lemma wp_field f fmt data (Q : unit → written → Prop) out :
  field_ok f → (∀ l, shows f l → wp (memdump fmt data) Q (out ++ on 1 (l ++ [10]))) →
  wp (memdump (field_letter f :: fmt) (field_bytes f ++ data)) Q out.
Proof.
  intros Hok HQ. destruct f as [v|v|v|c|a|s]; simpl in Hok; cbn [field_letter field_bytes memdump].
  - apply wp_bind, wp_load_field, wp_bind. change (256 ^ Z.of_nat 4) with (2 ^ 32). rewrite s32_le by done.
    apply (wp_line (Num 0 Fd) _ (unumber v 10 true)); [by simpl; lia|simpl; by rewrite s32_id|]. apply HQ. split; [done|by apply unumber_int].
  - apply wp_bind, wp_load_field, wp_bind. change (256 ^ Z.of_nat 8) with (2 ^ 64). rewrite Z.mod_small by done.
    apply (wp_line (Num 1 Fx) _ (unumber (v mod 2 ^ 32) 16 false)); [by simpl; lia| |].
    + simpl. by rewrite unumber_low, s64_low.
    + apply HQ. split; [done|]. rewrite unumber_value by auto. simpl andb. apply uN_small. apply Z.mod_pos_bound. lia.
  - apply wp_bind, wp_load_field, wp_bind. change (256 ^ Z.of_nat 2) with (2 ^ 16). rewrite s16_le by done.
    apply (wp_line (Num 0 Fd) _ (unumber v 10 true)); [by simpl; lia|simpl; rewrite s32_id by lia; done|]. apply HQ. split; [done|apply unumber_int; lia].
  - change [c] with ([c] : list Z). replace [c] with (le_split 1 c) by (simpl; by rewrite uN_small by lia).
    apply wp_bind, wp_load_field, wp_bind. change (256 ^ Z.of_nat 1) with 256. rewrite Z.mod_small by done.
    apply (wp_line Fc _ [c]); [done|simpl; by rewrite (uN_small 32 c), (uN_small 8 c) by lia|]. by apply HQ.
  - destruct Hok as [Ha Hs]. apply wp_bind, wp_load_field, wp_bind. change (256 ^ Z.of_nat 8) with (2 ^ 64). rewrite Z.mod_small by done.
    unfold pointee. case_bool_decide as H0.
    + apply wp_ret, wp_bind. apply (wp_line Fs _ (str "(null)")); [done|done|]. apply HQ. simpl. by rewrite decide_True.
    + destruct (Hs H0) as (s & Es & Hc). rewrite Es. apply wp_ret, wp_bind. apply (wp_line Fs _ s); [done|simpl; by rewrite bytes_u8|].
      apply HQ. simpl. by rewrite decide_False, Es.
  - apply wp_bind. rewrite <-app_assoc. unfold load_string. simpl app. rewrite cstr_field by done.
    rewrite bool_decide_eq_true_2 by (rewrite length_app; simpl; lia). apply wp_ret, wp_bind.
    replace (drop (length s + 1) (s ++ 0 :: data)) with data by (by rewrite drop_app_add).
    apply (wp_line Fs _ s); [done|simpl; by rewrite bytes_u8|]. by apply HQ.
Qed.

Lemma wp_memdump fs rest out :
  Forall field_ok fs →
  wp (memdump (field_letter <$> fs) (concat (field_bytes <$> fs) ++ rest))
    (λ _ out', ∃ ls, Forall2 shows fs ls ∧ out' = out ++ on 1 (concat ((λ l, l ++ [10]) <$> ls))) out.
Proof.
  intros Hfs. revert out; induction Hfs as [|f fs Hf _ IH]; intros out; cbn [fmap list_fmap concat].
  - apply wp_ret. exists []. split; [done|]. by rewrite app_nil_r.
  - rewrite <-app_assoc. apply wp_field; [done|]. intros l Hl. eapply wp_mono; [apply IH|]. intros _ out' (ls & Hls & ->).
    exists (l :: ls). split; [by constructor|]. rewrite <-app_assoc, <-on_app. done.
Qed.
End memdump.

(** ** Theorems *)

(** memdump prints the fields of a structure, one line each: for any fields,
    with the format that has their letters and the bytes that the compiler lays
    out, ints and shorts are printed so that they read back as themselves, chars and
    strings, in place or behind a pointer, as they are; of an 8-byte number only the
    low 32 bits appear, because printf keeps it in a uint. *)
Theorem memdump_correct string_at fs rest out :
  Forall (field_ok string_at) fs →
  ∃ ls, Forall2 (shows string_at) fs ls ∧
    memdump string_at (field_letter <$> fs) (concat (field_bytes <$> fs) ++ rest) out =
      Ok tt (out ++ on 1 (concat ((λ l, l ++ [10]) <$> ls))).
Proof.
  intros Hfs. destruct (proj1 (wp_ok _ _ _) (wp_memdump string_at fs rest out Hfs)) as ([] & out' & Hrun & ls & Hls & ->). eauto.
Qed.

(** The program's example 4, with a pointer above 4 GiB. *)
Definition sample_fields : list field :=
  [FPtr (2 ^ 32 + 5); FInt 1819438967; FShort 100; FChar 122; FString (str "xyzzy"); FStringPtr 8].

Lemma memdump_correct_witness :
  let string_at a := if decide (a = 8) then Some (str "hello") else None in
  ∃ ls, Forall2 (shows string_at) sample_fields ls ∧
    memdump string_at (field_letter <$> sample_fields) (concat (field_bytes <$> sample_fields) ++ [1]) [] =
      Ok tt ([] ++ on 1 (concat ((λ l, l ++ [10]) <$> ls))).
Proof.
  intros string_at. apply (memdump_correct string_at sample_fields [1] []). unfold sample_fields.
  do 4 (apply Forall_cons_2; [simpl; lia|]). apply Forall_cons_2; [|apply Forall_cons_2; [|apply Forall_nil_2]].
  - simpl. apply (bool_decide_unpack _). vm_compute. exact I.
  - simpl. split; [lia|]. intros _. exists (str "hello"). split; [reflexivity|]. apply (bool_decide_unpack _). vm_compute. exact I.
Defined.

(** The bytes that the letter of a number or character takes. *)
Definition letter_size (c : Z) : nat :=
  if decide (c = 105) then 4 else if decide (c = 112) then 8 else if decide (c = 104) then 2 else 1.

Lemma run_letter string_at c fmt data out :
  c ∈ [105; 112; 104; 99] →
  if decide (letter_size c <= length data)%nat
  then ∃ out', memdump string_at (c :: fmt) data out = memdump string_at fmt (drop (letter_size c) data) out'
  else memdump string_at (c :: fmt) data out = Fault.
Proof.
  assert (∀ n d (conv : Z → Z), dir_ok d → (∀ v, ∃ l, urender d [AInt v] = Some (l, [])) →
    if decide (n <= length data)%nat
    then ∃ out', ('(v, data) ← load_field n data; uprintf (spell d ++ [10]) [AInt (conv v)];; memdump string_at fmt data) out =
                 memdump string_at fmt (drop n data) out'
    else ('(v, data) ← load_field n data; uprintf (spell d ++ [10]) [AInt (conv v)];; memdump string_at fmt data) out = Fault) as Hl.
  { intros n d conv Hd Hr. unfold load_field. case_decide as Hn; [|by rewrite bool_decide_eq_false_2].
    rewrite bool_decide_eq_true_2 by done. destruct (Hr (conv (le_combine (take n data)))) as [l Hl].
    pose proof (wp_line d (AInt (conv (le_combine (take n data)))) l (λ _ o, o = out ++ on 1 (l ++ [10])) out Hd Hl eq_refl) as Hw.
    destruct (proj1 (wp_ok _ _ _) Hw) as ([] & o & Hrun & ->). eexists. unfold mbind, M_bind, mret, M_ret. by rewrite Hrun. }
  intros Hc. rewrite !elem_of_cons in Hc. destruct Hc as [->|[->|[->|[->|Hc]]]]; [..|by apply not_elem_of_nil in Hc].
  - apply (Hl 4%nat (Num 0 Fd) s32); [by simpl; lia|]. intros v. by eexists.
  - apply (Hl 8%nat (Num 1 Fx) (λ v, v)); [by simpl; lia|]. intros v. by eexists.
  - apply (Hl 2%nat (Num 0 Fd) s16); [by simpl; lia|]. intros v. by eexists.
  - apply (Hl 1%nat Fc (λ v, v)); [done|]. intros v. by eexists.
Qed.

Lemma length_read_data data reads : (length data <= data_size)%nat → (length (read_data data reads) <= data_size)%nat.
Proof.
  revert data; induction reads as [|b reads IH]; intros data Hd; [done|]. cbn [read_data]. case_bool_decide as Hlt; [|done].
  destruct (take _ b) as [|x bs] eqn:E; [done|]. apply IH. rewrite length_app, <-E, length_take. lia.
Qed.

Lemma run_letters string_at fmt data out :
  Forall (λ c, c ∈ [105; 112; 104; 99]) fmt →
  if decide (sum_list_with letter_size fmt <= length data)%nat
  then ∃ out', memdump string_at fmt data out = Ok tt out' else memdump string_at fmt data out = Fault.
Proof.
  intros Hfmt. revert data out; induction Hfmt as [|c fmt Hc _ IH]; intros data out; [simpl; by eexists|].
  pose proof (run_letter string_at c fmt data out Hc) as Hr. cbn [sum_list_with]. destruct (decide (letter_size c <= length data)%nat) as [Hle|Hgt].
  - destruct Hr as [out' ->]. specialize (IH (drop (letter_size c) data) out'). rewrite length_drop in IH. repeat case_decide; try lia; done.
  - rewrite decide_False by lia. done.
Qed.


