(* ===== verification/Tools.v ===== *)
(** * user/cat.c and user/wc.c

    What open and read return is the program's input: a file that cannot be opened,
    or the pieces that successive reads return, at most 512 bytes each, and whether
    the last read fails.  The state is what is written (UPrintf.v).  A function that
    calls exit returns the status, one that returns [None]. *)
From S2P Require Import Prelude.
From S2P Require Import Params.
From S2P Require Import State.
From S2P Require Import Console.
From S2P Require Import Wp.
From S2P Require Import ConsoleSpec.
From S2P Require Import Grep.
From S2P Require Import UPrintf.
#[local] Open Scope Z_scope.

Record input : Type := Input { in_reads : list (list Z); in_failed : bool }.

Section cat.
(** How many bytes write accepts. *)
Context (write_ : list Z → nat).

(** [while((n = read(fd, buf, sizeof(buf))) > 0)] *)
Fixpoint cat_loop (reads : list (list Z)) : M written (option Z) :=
  match reads with
  | [] => mret None
  | buf :: reads' =>
      modify (λ out, out ++ on 1 (take (write_ buf) buf));;
      if bool_decide (write_ buf < length buf)%nat
      then fprintf 2 (str "cat: write error" ++ [10]) [];; mret (Some 1)
      else cat_loop reads'
  end.

Definition cat (fd : input) : M written (option Z) :=
  r ← cat_loop (in_reads fd);
  match r with
  | Some st => mret (Some st)
  | None => if in_failed fd then fprintf 2 (str "cat: read error" ++ [10]) [];; mret (Some 1) else mret None
  end.

Fixpoint cat_files (args : list (list Z * option input)) : M written Z :=
  match args with
  | [] => mret 0
  | (name, f) :: args' =>
      match f with
      | None => fprintf 2 (str "cat: cannot open %s" ++ [10]) [AStr (Some name)];; mret 1
      | Some fd =>
          r ← cat fd;
          match r with Some st => mret st | None => cat_files args' end
      end
  end.

(** [stdin] is read when there are no arguments. *)
Definition cat_main (stdin : input) (args : list (list Z * option input)) : M written Z :=
  match args with
  | [] => r ← cat stdin; mret (default 0 r)
  | _ => cat_files args
  end.
End cat.

(** l, w, c and inword *)
Record counts : Type := Counts { n_l : Z; n_w : Z; n_c : Z; inword : bool }.

Definition wc_spaces : list Z := [32; 13; 9; 10; 11].

(** The counters are ints: overflow is undefined. *)
Definition incr (x : Z) : M written Z := if bool_decide (x = 2 ^ 31 - 1) then fault else mret (x + 1).

(** The body of [for(i=0; i<n; i++)] *)
Definition wc_char (k : counts) (ch : Z) : M written counts :=
  c ← incr (n_c k);
  l ← (if bool_decide (ch = 10) then incr (n_l k) else mret (n_l k));
  match strchr wc_spaces ch with
  | Some _ => mret (Counts l (n_w k) c false)
  | None =>
      if negb (inword k) then w ← incr (n_w k); mret (Counts l w c true)
      else mret (Counts l (n_w k) c (inword k))
  end.

Fixpoint wc_buf (k : counts) (buf : list Z) : M written counts :=
  match buf with
  | [] => mret k
  | ch :: buf' => k ← wc_char k ch; wc_buf k buf'
  end.

(** [while((n = read(fd, buf, sizeof(buf))) > 0)] *)
Fixpoint wc_loop (k : counts) (reads : list (list Z)) : M written counts :=
  match reads with
  | [] => mret k
  | buf :: reads' => k ← wc_buf k buf; wc_loop k reads'
  end.

Definition wc (fd : input) (name : list Z) : M written (option Z) :=
  k ← wc_loop (Counts 0 0 0 false) (in_reads fd);
  if in_failed fd then uprintf (str "wc: read error" ++ [10]) [];; mret (Some 1) else
  uprintf (str "%d %d %d %s" ++ [10]) [AInt (n_l k); AInt (n_w k); AInt (n_c k); AStr (Some name)];;
  mret None.

Fixpoint wc_files (args : list (list Z * option input)) : M written Z :=
  match args with
  | [] => mret 0
  | (name, f) :: args' =>
      match f with
      | None => uprintf (str "wc: cannot open %s" ++ [10]) [AStr (Some name)];; mret 1
      | Some fd =>
          r ← wc fd name;
          match r with Some st => mret st | None => wc_files args' end
      end
  end.

Definition wc_main (stdin : input) (args : list (list Z * option input)) : M written Z :=
  match args with
  | [] => r ← wc stdin []; mret (default 0 r)
  | _ => wc_files args
  end.

(** ** What wc counts *)
Definition is_space (c : Z) : bool := bool_decide (c ∈ wc_spaces).

(** The words of a text; [cur] is the part of a word that has been read. *)
Fixpoint words_from (cur : list Z) (s : list Z) : list (list Z) :=
  match s with
  | [] => match cur with [] => [] | _ => [cur] end
  | c :: s' =>
      if is_space c then match cur with [] => words_from [] s' | _ => cur :: words_from [] s' end
      else words_from (cur ++ [c]) s'
  end.
Definition text_words (s : list Z) : list (list Z) := words_from [] s.

Definition text_lines (s : list Z) : nat := length (filter (λ c, c = 10) s).

Lemma strchr_space c : (match strchr wc_spaces c with Some _ => true | None => false end) = is_space c.
Proof.
  unfold is_space, wc_spaces. simpl.
  repeat (case_bool_decide; [try (subst; by vm_compute)|]). all: try done. all: try (exfalso; set_solver).
Qed.

(** The words that begin in [s], when the text before it ends inside a word or not,
    and whether [s] ends inside one. *)
Fixpoint starts (inw : bool) (s : list Z) : nat :=
  match s with
  | [] => 0
  | c :: s' => if is_space c then starts false s' else (if inw then 0 else 1) + starts true s'
  end.
Fixpoint ends_in (inw : bool) (s : list Z) : bool :=
  match s with [] => inw | c :: s' => ends_in (negb (is_space c)) s' end.

Lemma starts_app inw s t : starts inw (s ++ t) = (starts inw s + starts (ends_in inw s) t)%nat.
Proof. revert inw; induction s as [|c s IH]; intros inw; simpl; [done|]. destruct (is_space c); rewrite IH; simpl; lia. Qed.
Lemma ends_in_app inw s t : ends_in inw (s ++ t) = ends_in (ends_in inw s) t.
Proof. revert inw; induction s as [|c s IH]; intros inw; simpl; [done|]. apply IH. Qed.

Lemma starts_words cur s :
  length (words_from cur s) = ((if decide (cur = []) then 0 else 1) + starts (bool_decide (cur ≠ [])) s)%nat.
Proof.
  revert cur; induction s as [|c s IH]; intros cur; simpl; [by destruct cur|]. destruct (is_space c).
  - destruct cur as [|x cur]; simpl; rewrite IH; done.
  - rewrite IH, decide_False by (by destruct cur). rewrite bool_decide_eq_true_2 by (by destruct cur). by destruct cur.
Qed.

Lemma starts_le inw s : (starts inw s <= length s)%nat.
Proof. revert inw; induction s as [|c s IH]; intros inw; simpl; [done|]. destruct (is_space c), inw; simpl; pose proof (IH true); pose proof (IH false); lia. Qed.

Lemma lines_app s t : text_lines (s ++ t) = (text_lines s + text_lines t)%nat.
Proof. unfold text_lines. by rewrite filter_app, length_app. Qed.
Lemma lines_le s : (text_lines s <= length s)%nat.
Proof. unfold text_lines. apply length_filter. Qed.

(** The counters after the text [s]. *)
Definition counted (s : list Z) : counts :=
  Counts (Z.of_nat (text_lines s)) (Z.of_nat (starts false s)) (Z.of_nat (length s)) (ends_in false s).

Lemma wp_incr x (Q : Z → written → Prop) out : x < 2 ^ 31 - 1 → Q (x + 1) out → wp (incr x) Q out.
Proof. intros Hx HQ. unfold incr. rewrite bool_decide_eq_false_2 by lia. done. Qed.

Lemma wp_wc_char s ch (Q : counts → written → Prop) out :
  Z.of_nat (length (s ++ [ch])) < 2 ^ 31 → Q (counted (s ++ [ch])) out → wp (wc_char (counted s) ch) Q out.
Proof.
  intros Hl HQ. rewrite length_app in Hl. simpl in Hl. pose proof (lines_le s). pose proof (starts_le false s).
  unfold wc_char. apply wp_bind, wp_incr; [simpl; lia|]. apply wp_bind.
  assert (∀ l, l = Z.of_nat (text_lines (s ++ [ch])) → wp (match strchr wc_spaces ch with
    | Some _ => mret (Counts l (n_w (counted s)) (n_c (counted s) + 1) false)
    | None => if negb (inword (counted s)) then w ← incr (n_w (counted s)); mret (Counts l w (n_c (counted s) + 1) true)
              else mret (Counts l (n_w (counted s)) (n_c (counted s) + 1) (inword (counted s))) end) Q out) as Hrest.
  { intros l ->. pose proof (strchr_space ch) as Es. unfold counted in HQ. rewrite starts_app, ends_in_app, length_app in HQ. simpl in HQ.
    destruct (strchr wc_spaces ch); rewrite <-Es in HQ; simpl.
    - apply wp_ret. rewrite Nat.add_0_r, Nat2Z.inj_add in HQ. exact HQ.
    - destruct (ends_in false s); simpl.
      + apply wp_ret. rewrite Nat.add_0_r, Nat2Z.inj_add in HQ. exact HQ.
      + apply wp_bind, wp_incr; [lia|]. apply wp_ret. rewrite !Nat2Z.inj_add in HQ. exact HQ. }
  unfold text_lines in *. rewrite filter_app, length_app in Hrest. case_bool_decide as Hc.
  - apply wp_incr; [simpl; unfold text_lines; lia|]. apply Hrest. rewrite filter_cons_True by done. simpl. unfold text_lines. lia.
  - apply wp_ret, Hrest. rewrite filter_cons_False by done. simpl. unfold text_lines. lia.
Qed.

Lemma wp_wc_buf s buf (Q : counts → written → Prop) out :
  Z.of_nat (length (s ++ buf)) < 2 ^ 31 → Q (counted (s ++ buf)) out → wp (wc_buf (counted s) buf) Q out.
Proof.
  revert s; induction buf as [|ch buf IH]; intros s Hl HQ; simpl; [rewrite app_nil_r in HQ; by apply wp_ret|].
  replace (s ++ ch :: buf) with ((s ++ [ch]) ++ buf) in * by (by rewrite <-app_assoc).
  apply wp_bind, wp_wc_char; [rewrite length_app in Hl; lia|]. by apply IH.
Qed.

Lemma wp_wc_loop s reads (Q : counts → written → Prop) out :
  Z.of_nat (length (s ++ concat reads)) < 2 ^ 31 → Q (counted (s ++ concat reads)) out → wp (wc_loop (counted s) reads) Q out.
Proof.
  revert s; induction reads as [|buf reads IH]; intros s Hl HQ; simpl in *; [rewrite app_nil_r in HQ; by apply wp_ret|].
  rewrite app_assoc in *. apply wp_bind, wp_wc_buf; [rewrite length_app in Hl; lia|]. by apply IH.
Qed.

(** ** What wc prints *)
Definition contents (fd : input) : list Z := concat (in_reads fd).

(** A number as it is printed. *)
Definition decimal (n : nat) (l : list Z) : Prop :=
  l = unumber (Z.of_nat n) 10 true ∧ read_unumber 10 l = Z.of_nat n.

(** The output and the exit status for the files that are left. *)
Inductive reports : list (list Z * option input) → list Z → Z → Prop :=
| rep_done : reports [] [] 0
| rep_missing name args : reports ((name, None) :: args) (str "wc: cannot open " ++ name ++ [10]) 1
| rep_error name f args : in_failed f = true → reports ((name, Some f) :: args) (str "wc: read error" ++ [10]) 1
| rep_file name f args l w c bs st :
    in_failed f = false → decimal (text_lines (contents f)) l → decimal (length (text_words (contents f))) w →
    decimal (length (contents f)) c → reports args bs st →
    reports ((name, Some f) :: args) (l ++ [32] ++ w ++ [32] ++ c ++ [32] ++ name ++ [10] ++ bs) st.

Definition file_ok (nf : list Z * option input) : Prop :=
  Forall (λ c, 0 <= c < 256) nf.1 ∧ match nf.2 with Some f => Z.of_nat (length (contents f)) < 2 ^ 31 | None => True end.

Lemma decimal_unumber n : Z.of_nat n < 2 ^ 31 → decimal n (unumber (Z.of_nat n) 10 true).
Proof.
  intros Hn. split; [done|]. rewrite unumber_value by auto. rewrite bool_decide_eq_false_2 by lia. cbn [andb]. by rewrite uN_small by lia.
Qed.

Lemma spell_lits s : flat_map spell (Lit <$> s) = s.
Proof. induction s as [|c s IH]; [done|]. rewrite fmap_cons. cbn [flat_map spell app]. by rewrite IH. Qed.

Lemma render_lits s ds args :
  urender_all ((Lit <$> s) ++ ds) args = (λ bs, s ++ bs) <$> urender_all ds args.
Proof.
  induction s as [|c s IH]; [cbn [fmap list_fmap app]; by destruct (urender_all ds args)|]. rewrite fmap_cons, <-app_comm_cons. cbn [urender_all urender].
  rewrite IH. by destruct (urender_all ds args).
Qed.

(** A message with one string in it. *)
Lemma wp_uprintf_str fd pre name (Q : unit → written → Prop) out :
  Forall (λ c, dir_ok (Lit c)) pre → Forall (λ c, 0 <= c < 256) name →
  Q tt (out ++ on fd (pre ++ name ++ [10])) → wp (vprintf fd (pre ++ [37; 115; 10]) [AStr (Some name)]) Q out.
Proof.
  intros Hpre Hn HQ. assert (pre ++ [37; 115; 10] = flat_map spell ((Lit <$> pre) ++ [Fs; Lit 10])) as ->.
  { by rewrite flat_map_app, spell_lits. }
  eapply wp_vprintf; [| |exact HQ].
  - apply Forall_app_2; [by apply Forall_fmap|]. repeat constructor; done.
  - rewrite render_lits. cbn [urender_all urender]. by rewrite u8_bytes.
Qed.

(** A message without arguments. *)
Lemma wp_uprintf_lit fd s (Q : unit → written → Prop) out :
  Forall (λ c, dir_ok (Lit c)) s → Q tt (out ++ on fd s) → wp (vprintf fd s []) Q out.
Proof.
  intros Hs HQ. rewrite <-(spell_lits s). eapply wp_vprintf; [by apply Forall_fmap| |exact HQ].
  rewrite <-(app_nil_r (Lit <$> s)), render_lits. cbn [urender_all]. simpl. by rewrite app_nil_r.
Qed.

Lemma wp_wc fd name (Q : option Z → written → Prop) out :
  file_ok (name, Some fd) →
  (∀ r bs, (∀ args bs' st, match r with Some st' => True | None => reports args bs' st end →
      reports ((name, Some fd) :: args) (bs ++ match r with Some _ => [] | None => bs' end) (default st r)) →
    Q r (out ++ on 1 bs)) →
  wp (wc fd name) Q out.
Proof.
  intros [Hn Hl] HQ. cbn [fst snd] in *. unfold wc. change (Counts 0 0 0 false) with (counted []). apply wp_bind, wp_wc_loop; [exact Hl|].
  rewrite app_nil_l. change (concat (in_reads fd)) with (contents fd). destruct (in_failed fd) eqn:Hf.
  - apply wp_bind, wp_uprintf_lit; [apply (bool_decide_unpack _); vm_compute; exact I|]. apply wp_ret, HQ.
    intros args bs' st _. rewrite app_nil_r. by apply rep_error.
  - pose proof (lines_le (contents fd)). pose proof (starts_le false (contents fd)).
    pose proof (starts_words [] (contents fd)) as Ew. cbn [decide] in Ew. simpl in Ew.
    apply wp_bind. unfold counted. cbn [n_l n_w n_c].
    eapply (wp_vprintf 1 [Num 0 Fd; Lit 32; Num 0 Fd; Lit 32; Num 0 Fd; Lit 32; Fs; Lit 10]).
    + apply (bool_decide_unpack _). vm_compute. exact I.
    + cbn [urender_all urender conv]. rewrite !sN_small by lia. rewrite u8_bytes by done. reflexivity.
    + apply wp_ret, HQ. intros args bs' st Hr. cbn [default]. rewrite <-!app_assoc.
      apply (rep_file name fd args (unumber (Z.of_nat (text_lines (contents fd))) 10 true) (unumber (Z.of_nat (starts false (contents fd))) 10 true));
        [done| | | |done].
      * apply decimal_unumber. lia.
      * unfold text_words. rewrite Ew. apply decimal_unumber. lia.
      * apply decimal_unumber. lia.
Qed.

Lemma wp_wc_files args out :
  Forall file_ok args → wp (wc_files args) (λ st out', ∃ bs, reports args bs st ∧ out' = out ++ on 1 bs) out.
Proof.
  intros Hok. revert out; induction Hok as [|[name [f|]] args Hf _ IH]; intros out; cbn [wc_files].
  - apply wp_ret. exists []. split; [constructor|]. by rewrite app_nil_r.
  - apply wp_bind, wp_wc; [done|]. intros r bs Hr. destruct r as [st|].
    + apply wp_ret. exists bs. split; [|done]. specialize (Hr args [] 0 I). by rewrite app_nil_r in Hr.
    + eapply wp_mono; [apply IH|]. intros st out' (bs' & Hbs & ->). exists (bs ++ bs'). split; [exact (Hr args bs' st Hbs)|].
      by rewrite <-app_assoc, <-on_app.
  - apply wp_bind, (wp_uprintf_str 1 (str "wc: cannot open ")); [apply (bool_decide_unpack _); vm_compute; exact I|apply Hf|].
    apply wp_ret. eexists. split; [constructor|done].
Qed.

(** With no arguments main counts the standard input, which has no name. *)
Definition wc_inputs (stdin : input) (args : list (list Z * option input)) : list (list Z * option input) :=
  match args with [] => [([], Some stdin)] | _ => args end.

Lemma wc_main_files stdin args out : wc_main stdin args out = wc_files (wc_inputs stdin args) out.
Proof.
  destruct args as [|a args]; [|done]. cbn [wc_main wc_inputs wc_files]. unfold mbind, M_bind.
  by destruct (wc stdin [] out) as [[?|]| | |].
Qed.

(** C39. wc prints, for each file in turn, its newlines, its words and its bytes, in
    decimal and followed by its name, whatever the sizes of the pieces that read
    returns; it stops with status 1 at a file that cannot be opened or read. *)
Theorem wc_correct stdin args out :
  Forall file_ok (wc_inputs stdin args) →
  ∃ bs st, reports (wc_inputs stdin args) bs st ∧ wc_main stdin args out = Ok st (out ++ on 1 bs).
Proof.
  intros Hok. rewrite wc_main_files. destruct (proj1 (wp_ok _ _ _) (wp_wc_files _ out Hok)) as (st & out' & Hrun & bs & Hr & ->). eauto.
Qed.

Definition sample_inputs : list (list Z * option input) :=
  [(str "a", Some (Input [str "one tw"; str "o" ++ [10; 10]; str "three"] false)); (str "b", None)].

Lemma wc_correct_witness :
  (∃ bs st, reports sample_inputs bs st ∧ wc_main (Input [] false) sample_inputs [] = Ok st ([] ++ on 1 bs)) ∧
  wc_main (Input [] false) sample_inputs [] =
    Ok 1 (on 1 (str "2 3 14 a" ++ [10] ++ str "wc: cannot open b" ++ [10])).
Proof.
  split; [|by vm_compute]. apply (wc_correct (Input [] false) sample_inputs []).
  apply Forall_cons_2; [|apply Forall_cons_2; [|apply Forall_nil_2]]; split; [|vm_compute; done| |done];
    apply (bool_decide_unpack _); vm_compute; exact I.
Defined.

(** ** What cat copies *)
Section cat_spec.
Context (write_ : list Z → nat).

Definition short_write (buf : list Z) : Prop := (write_ buf < length buf)%nat.

(** The output for one file, and the status if cat stops at it: everything up to the
    first write that is short. *)
Definition cat_copied (fd : input) : written * option Z :=
  match list_find short_write (in_reads fd) with
  | Some (i, buf) =>
      (on 1 (concat (take i (in_reads fd)) ++ take (write_ buf) buf) ++ on 2 (str "cat: write error" ++ [10]), Some 1)
  | None =>
      if in_failed fd then (on 1 (contents fd) ++ on 2 (str "cat: read error" ++ [10]), Some 1) else (on 1 (contents fd), None)
  end.

Lemma wp_cat_loop reads (Q : option Z → written → Prop) out :
  match list_find short_write reads with
  | Some (i, buf) => Q (Some 1) (out ++ on 1 (concat (take i reads) ++ take (write_ buf) buf) ++ on 2 (str "cat: write error" ++ [10]))
  | None => Q None (out ++ on 1 (concat reads))
  end → wp (cat_loop write_ reads) Q out.
Proof.
  revert out; induction reads as [|buf reads IH]; intros out; cbn [list_find cat_loop].
  { simpl. rewrite app_nil_r. apply wp_ret. }
  intros HQ. apply wp_bind. unfold wp at 1, modify. cbv beta. unfold short_write in HQ at 1. case_decide as Hs.
  - rewrite bool_decide_eq_true_2 by done. apply wp_bind, wp_uprintf_lit; [apply (bool_decide_unpack _); vm_compute; exact I|].
    apply wp_ret. simpl in HQ. by rewrite <-app_assoc.
  - rewrite bool_decide_eq_false_2 by done. apply IH. rewrite take_ge by lia. destruct (list_find short_write reads) as [[i b]|]; simpl in HQ.
    + rewrite !on_app, <-!app_assoc in *. exact HQ.
    + by rewrite on_app, app_assoc in HQ.
Qed.

Lemma wp_cat fd (Q : option Z → written → Prop) out :
  Q (cat_copied fd).2 (out ++ (cat_copied fd).1) → wp (cat write_ fd) Q out.
Proof.
  intros HQ. unfold cat, cat_copied in *. apply wp_bind, wp_cat_loop. destruct (list_find short_write (in_reads fd)) as [[i b]|]; [by apply wp_ret|].
  destruct (in_failed fd); [|by apply wp_ret].
  apply wp_bind, wp_uprintf_lit; [apply (bool_decide_unpack _); vm_compute; exact I|]. apply wp_ret. by rewrite <-app_assoc.
Qed.
End cat_spec.

Section cat_files.
Context (write_ : list Z → nat).

Fixpoint all_copied (args : list (list Z * option input)) : written * Z :=
  match args with
  | [] => ([], 0)
  | (name, None) :: _ => (on 2 (str "cat: cannot open " ++ name ++ [10]), 1)
  | (_, Some fd) :: args' =>
      let '(out, r) := cat_copied write_ fd in
      match r with Some st => (out, st) | None => (out ++ (all_copied args').1, (all_copied args').2) end
  end.

(** cat writes the files one after the other, up to the first that fails. *)
Lemma cat_main_copies stdin args out :
  Forall (λ nf, Forall (λ c, 0 <= c < 256) nf.1) args →
  cat_main write_ stdin args out = Ok (all_copied (wc_inputs stdin args)).2 (out ++ (all_copied (wc_inputs stdin args)).1).
Proof.
  assert (∀ args, Forall (λ nf, Forall (λ c, 0 <= c < 256) nf.1) args →
    ∀ out, wp (cat_files write_ args) (λ st out', (st, out') = ((all_copied args).2, out ++ (all_copied args).1)) out) as Hall.
  { clear. intros args Hok. induction Hok as [|[name [f|]] args Hn _ IH]; intros out; cbn [cat_files all_copied].
    - apply wp_ret. by rewrite app_nil_r.
    - apply wp_bind, wp_cat. destruct (cat_copied write_ f) as [o [st|]]; cbn [fst snd]; [by apply wp_ret|].
      eapply wp_mono; [apply IH|]. intros st out' ->. by rewrite <-app_assoc.
    - apply wp_bind, (wp_uprintf_str 2 (str "cat: cannot open ")); [apply (bool_decide_unpack _); vm_compute; exact I|done|]. by apply wp_ret. }
  intros Hok. assert (cat_main write_ stdin args out = cat_files write_ (wc_inputs stdin args) out) as ->.
  { destruct args; [|done]. cbn [cat_main wc_inputs cat_files]. unfold mbind, M_bind. by destruct (cat write_ stdin out) as [[?|]| | |]. }
  assert (Forall (λ nf, Forall (λ c, 0 <= c < 256) nf.1) (wc_inputs stdin args)) as Hok' by (destruct args; [by repeat constructor|done]).
  destruct (proj1 (wp_ok _ _ _) (Hall _ Hok' out)) as (st & out' & Hrun & E). by simplify_eq.
Qed.
End cat_files.
