(* ===== verification/Ulib.v ===== *)
(** * user/ulib.c and the small user programs

    The memory functions of ulib.c are on byte-addressed memory, as the kernel's
    (KString.v); [char] is unsigned.  Strings that the programs get as arguments are
    lists of bytes without the NUL.  What the system calls answer is a parameter of
    a program; it returns which calls it makes. *)
From S2P Require Import Prelude.
From S2P Require Import Mem.
From S2P Require Import Params.
From S2P Require Import State.
From S2P Require Import KString.
From S2P Require Import Console.
From S2P Require Import Fs.
From S2P Require Import Wp.
From S2P Require Import ConsoleSpec.
From S2P Require Import Find.
From S2P Require Import UPrintf.
From S2P Require Import Tools.
#[local] Open Scope Z_scope.

(** ** Memory *)
Section ulib.
Context {R : Type}.

(** [int n]: nothing is copied when it is negative. *)
Definition umemmove (vdst vsrc n : Z) : M (st R) Z :=
  (if bool_decide (vdst < vsrc) then copy_forward (Z.to_nat n) vdst vsrc
   else copy_backward (Z.to_nat n) (vdst + n) (vsrc + n));;
  mret vdst.

Definition umemcpy (dst src n : Z) : M (st R) Z := umemmove dst src n.

(** [while (n-- > 0)] *)
Fixpoint umemcmp (p1 p2 : Z) (n : nat) : M (st R) Z :=
  match n with
  | O => mret 0
  | S n' =>
      x ← load8 p1; y ← load8 p2;
      if bool_decide (x ≠ y) then x ← load8 p1; y ← load8 p2; mret (x - y)
      else umemcmp (p1 + 1) (p2 + 1) n'
  end.

(** [for(i = 0; i < n; i++)] with an int [i], from [i] on *)
Fixpoint umemset_loop (k : nat) (cdst c i : Z) : M (st R) unit :=
  match k with
  | O => mret tt
  | S k' => store8 (cdst + i) c;; if bool_decide (i + 1 = 2 ^ 31) then fault else umemset_loop k' cdst c (i + 1)
  end.
Definition umemset (dst c : Z) (n : nat) : M (st R) Z := umemset_loop n dst c 0;; mret dst.

(** [while(( *s++ = *t++) != 0)] with at most [fuel] iterations *)
Fixpoint ustrcpy_loop (fuel : nat) (s t : Z) : M (st R) unit :=
  match fuel with
  | O => stuck
  | S fuel' => x ← load8 t; store8 s x;; if bool_decide (x ≠ 0) then ustrcpy_loop fuel' (s + 1) (t + 1) else mret tt
  end.
Definition ustrcpy (fuel : nat) (s t : Z) : M (st R) Z := ustrcpy_loop fuel s t;; mret s.
End ulib.

(** [while('0' <= *s && *s <= '9') n = n*10 + *s++ - '0'], on ints *)
Fixpoint atoi_loop {S} (n : Z) (s : list Z) : M S Z :=
  match s with
  | [] => mret n
  | c :: s' =>
      if bool_decide (48 <= c ∧ c <= 57)
      then if bool_decide (2 ^ 31 <= n * 10 + c) then fault else atoi_loop (n * 10 + c - 48) s'
      else mret n
  end.
Definition atoi {S} (s : list Z) : M S Z := atoi_loop 0 s.

(** ** user/echo.c, ln.c, mkdir.c, rm.c, kill.c, sleep.c *)
Definition write_ (fd : Z) (bs : list Z) : M written unit := modify (λ out, out ++ on fd bs).

Fixpoint echo_main (args : list (list Z)) : M written Z :=
  match args with
  | [] => mret 0
  | a :: args' => write_ 1 a;; write_ 1 (match args' with [] => [10] | _ => [32] end);; echo_main args'
  end.

(** The exit status, and the link that was asked for. *)
Definition ln_main (link : list Z → list Z → bool) (args : list (list Z)) : M written (Z * option (list Z * list Z)) :=
  match args with
  | [old; new] =>
      when (negb (link old new)) (fprintf 2 (str "link %s %s: failed" ++ [10]) [AStr (Some old); AStr (Some new)]);;
      mret (0, Some (old, new))
  | _ => fprintf 2 (str "Usage: ln old new" ++ [10]) [];; mret (1, None)
  end.

(** The names that mkdir is called with; it stops at the first that fails. *)
Fixpoint mkdir_loop (mkdir : list Z → bool) (args : list (list Z)) : M written (list (list Z)) :=
  match args with
  | [] => mret []
  | a :: args' =>
      if mkdir a then l ← mkdir_loop mkdir args'; mret (a :: l)
      else fprintf 2 (str "mkdir: %s failed to create" ++ [10]) [AStr (Some a)];; mret [a]
  end.
Definition mkdir_main (mkdir : list Z → bool) (args : list (list Z)) : M written (Z * list (list Z)) :=
  match args with
  | [] => fprintf 2 (str "Usage: mkdir files..." ++ [10]) [];; mret (1, [])
  | _ => l ← mkdir_loop mkdir args; mret (0, l)
  end.

Fixpoint rm_loop (unlink : list Z → bool) (args : list (list Z)) : M written (list (list Z)) :=
  match args with
  | [] => mret []
  | a :: args' =>
      if unlink a then l ← rm_loop unlink args'; mret (a :: l)
      else fprintf 2 (str "rm: %s failed to delete" ++ [10]) [AStr (Some a)];; mret [a]
  end.
Definition rm_main (unlink : list Z → bool) (args : list (list Z)) : M written (Z * list (list Z)) :=
  match args with
  | [] => fprintf 2 (str "Usage: rm files..." ++ [10]) [];; mret (1, [])
  | _ => l ← rm_loop unlink args; mret (0, l)
  end.

(** The pids that are killed. *)
Fixpoint kill_loop (args : list (list Z)) : M written (list Z) :=
  match args with
  | [] => mret []
  | a :: args' => pid ← atoi a; l ← kill_loop args'; mret (pid :: l)
  end.
Definition kill_main (args : list (list Z)) : M written (Z * list Z) :=
  match args with
  | [] => fprintf 2 (str "usage: kill pid..." ++ [10]) [];; mret (1, [])
  | _ => l ← kill_loop args; mret (0, l)
  end.

(** The argument of pause, if it is called. *)
Definition sleep_main (args : list (list Z)) : M written (Z * option Z) :=
  match args with
  | [a] =>
      ticks ← atoi a;
      if bool_decide (ticks < 0) then fprintf 2 (str "sleep: ticks must be non-negative" ++ [10]) [];; mret (1, None)
      else mret (0, Some ticks)
  | _ => fprintf 2 (str "Usage: sleep ticks" ++ [10]) [];; mret (1, None)
  end.

(** ** user/ls.c *)
Record fstat_ : Type := Stat_ { fs_type : Z; fs_ino : Z; fs_size : Z }.
(** What open finds: what fstat then reports, if it does not fail, and the
    directory entries that read returns. *)
Record node : Type := Node { nd_stat : option fstat_; nd_dents : list dirent_ }.

(** [for(p=path+strlen(path); p >= path && *p != '/'; p--)] and [p++]; [p] is one
    more than the index of the loop *)
Fixpoint fmtname_loop (p : nat) (path : list Z) : nat :=
  match p with
  | O => O
  | S p' => if bool_decide (path !! p' = Some slash) then p else fmtname_loop p' path
  end.

Section ls.
Context (open_ : list Z → option node).
(** What the static array of fmtname and the local one of ls hold before. *)
Context (fmtbuf buf0 : list Z).

Definition fmtname (path : list Z) : M written (list Z) :=
  let p := drop (fmtname_loop (S (length path)) path) path in
  if bool_decide (dirsiz <= length p)%nat then mret p else
  buf ← write_at 0 p fmtbuf;
  buf ← write_at (length p) (replicate (dirsiz - length p) 32) buf;
  buf ← write_at dirsiz [0] buf;
  mret (cstr buf).

(** stat of user/ulib.c *)
Definition ustat (n : list Z) : option fstat_ :=
  match open_ n with None => None | Some f => nd_stat f end.

Definition ls_line (path : list Z) (s : fstat_) : M written unit :=
  name ← fmtname path;
  uprintf (str "%s %d %d %d" ++ [10]) [AStr (Some name); AInt (fs_type s); AInt (fs_ino s); AInt (s32 (fs_size s))].

(** [while(read(fd, &de, sizeof(de)) == sizeof(de))] *)
Fixpoint ls_dents (p : nat) (buf : list Z) (des : list dirent_) : M written unit :=
  match des with
  | [] => mret tt
  | de :: des' =>
      if bool_decide (de_inum de = 0) then ls_dents p buf des' else
      buf ← write_at p (take dirsiz (de_name_ de)) buf;
      buf ← write_at (p + dirsiz) [0] buf;
      match ustat (cstr buf) with
      | None => uprintf (str "ls: cannot stat %s" ++ [10]) [AStr (Some (cstr buf))];; ls_dents p buf des'
      | Some s => ls_line (cstr buf) s;; ls_dents p buf des'
      end
  end.

Definition ls (path : list Z) : M written unit :=
  match open_ path with
  | None => fprintf 2 (str "ls: cannot open %s" ++ [10]) [AStr (Some path)]
  | Some f =>
      match nd_stat f with
      | None => fprintf 2 (str "ls: cannot stat %s" ++ [10]) [AStr (Some path)]
      | Some s =>
          if bool_decide (fs_type s = T_DEVICE ∨ fs_type s = T_FILE) then ls_line path s
          else if bool_decide (fs_type s = T_DIR) then
            if bool_decide (512 < length path + 1 + dirsiz + 1)%nat then uprintf (str "ls: path too long" ++ [10]) []
            else
              buf ← write_at 0 (path ++ [0]) buf0;
              let p := length path in
              buf ← write_at p [slash] buf;
              ls_dents (S p) buf (nd_dents f)
          else mret tt
      end
  end.

Fixpoint ls_each (args : list (list Z)) : M written unit :=
  match args with
  | [] => mret tt
  | a :: args' => ls a;; ls_each args'
  end.
Definition ls_main (args : list (list Z)) : M written unit :=
  match args with [] => ls (str ".") | _ => ls_each args end.
End ls.

(** ** The memory functions and the kernel's *)

(** Where the kernel's memmove works, the library's does the same, although it picks
    the direction by another test. *)
Theorem umemmove_equiv {R} n (m : heap) (r : R) dst src :
  mapped m src n → mapped m dst n →
  ∃ m', umemmove dst src (Z.of_nat n) (St m r) = Ok dst (St m' r) ∧ memmove dst src n (St m r) = Ok dst (St m' r) ∧
    copied m m' dst src n.
Proof.
  intros Hs Hd. destruct (memmove_ok n m r dst src Hs Hd) as (m' & Hk & Hc).
  assert (∃ m1, umemmove dst src (Z.of_nat n) (St m r) = Ok dst (St m1 r) ∧ copied m m1 dst src n) as (m1 & Hu & Hc1).
  { unfold umemmove. rewrite Nat2Z.id. case_bool_decide as Hlt.
    - destruct (copy_forward_ok n m r dst src Hs Hd ltac:(lia)) as (m1 & Hrun & Hc1). exists m1. split; [|done].
      unfold mbind, M_bind. by rewrite Hrun.
    - destruct (copy_backward_ok n m r dst src Hs Hd ltac:(lia)) as (m1 & Hrun & Hc1). exists m1. split; [|done].
      unfold mbind, M_bind. by rewrite Hrun. }
  exists m'. assert (m1 = m') as -> by (apply map_eq; intros a; by rewrite (Hc1 a), (Hc a)). done.
Qed.

Lemma umemcmp_equiv {R} n p1 p2 (s : st R) : umemcmp p1 p2 n s = memcmp p1 p2 n s.
Proof.
  revert p1 p2; induction n as [|n IH]; intros p1 p2; [done|]. cbn [umemcmp memcmp]. unfold mbind, M_bind, load8.
  destruct (mem s !! p1) as [b|] eqn:E1; [|done]. destruct (mem s !! p2) as [b'|] eqn:E2; [|done]. case_bool_decide; [|apply IH].
  by rewrite E1, E2.
Qed.

Lemma umemset_equiv {R} n dst c (s : st R) : Z.of_nat n < 2 ^ 31 → umemset dst c n s = memset dst c n s.
Proof.
  intros Hn. unfold umemset, memset, mbind, M_bind.
  assert (∀ k i (s : st R), 0 <= i → i + Z.of_nat k < 2 ^ 31 → umemset_loop k dst c i s = memset_loop k (dst + i) c s) as ->.
  { clear. induction k as [|k IH]; intros i s Hi Hk; [done|]. cbn [umemset_loop memset_loop]. unfold mbind, M_bind.
    destruct (store8 (dst + i) c s); try done. rewrite bool_decide_eq_false_2 by lia. rewrite IH by lia. by rewrite Z.add_assoc. }
  - by rewrite Z.add_0_r.
  - lia.
  - lia.
Qed.

(** ** Numbers *)
Lemma uvalue_snoc base l d :
  uvalue base (l ++ [d]) = uvalue base l + base ^ Z.of_nat (length l) * (if decide (65 <= d) then d - 55 else d - 48).
Proof.
  induction l as [|c l IH]; [cbn [app uvalue length]; change (Z.of_nat 0) with 0; rewrite Z.pow_0_r; lia|].
  cbn [app uvalue length]. rewrite IH, Nat2Z.inj_succ, Z.pow_succ_r by lia. lia.
Qed.

Lemma uvalue_nonneg l : Forall (λ c, 48 <= c <= 57) l → 0 <= uvalue 10 l.
Proof. induction 1 as [|c l Hc _ IH]; cbn [uvalue]; [done|]. rewrite decide_False by lia. lia. Qed.

Lemma uprintint_decimal f v : 0 <= v → Forall (λ c, 48 <= c <= 57) (uprintint_digits f v 10).
Proof.
  revert v; induction f as [|f IH]; intros v Hv; cbn [uprintint_digits]; [constructor|].
  pose proof (Z.mod_pos_bound v 10 ltac:(lia)). destruct (udigits_val (v mod 10) ltac:(lia)) as (c & -> & Hc & Hd).
  assert (48 <= c <= 57) by (destruct (decide (65 <= c)); lia).
  case_bool_decide; (constructor; [done|]); [constructor|]. apply IH. apply Z.div_pos; lia.
Qed.

Lemma atoi_loop_digits {S} n l rest (s : S) :
  Forall (λ c, 48 <= c <= 57) l → (match rest with c :: _ => ¬ (48 <= c <= 57) | [] => True end) → 0 <= n →
  n * 10 ^ Z.of_nat (length l) + uvalue 10 (rev l) + 48 < 2 ^ 31 →
  atoi_loop n (l ++ rest) s = Ok (n * 10 ^ Z.of_nat (length l) + uvalue 10 (rev l)) s.
Proof.
  intros Hl Hrest. revert n; induction Hl as [|c l Hc Hl IH]; intros n Hn Hb.
  - simpl. rewrite Z.mul_1_r, Z.add_0_r. destruct rest as [|c rest]; [done|]. cbn [atoi_loop]. by rewrite bool_decide_eq_false_2.
  - assert (n * 10 ^ Z.of_nat (length (c :: l)) + uvalue 10 (rev (c :: l)) =
      (n * 10 + c - 48) * 10 ^ Z.of_nat (length l) + uvalue 10 (rev l)) as E.
    { cbn [rev length]. rewrite uvalue_snoc, length_rev, decide_False by lia. rewrite Nat2Z.inj_succ, Z.pow_succ_r by lia. lia. }
    rewrite E in *. assert (0 < 10 ^ Z.of_nat (length l)) by (apply Z.pow_pos_nonneg; lia).
    assert (0 <= uvalue 10 (rev l)) by (apply uvalue_nonneg; by apply Forall_rev).
    cbn [app atoi_loop]. rewrite bool_decide_eq_true_2 by lia. rewrite bool_decide_eq_false_2 by nia. apply IH; [lia|lia].
Qed.

(** What %d prints is what atoi reads, except for the last numbers below 2^31,
    where adding the digit to ten times the number overflows. *)
Theorem atoi_unumber {S} n rest (s : S) :
  0 <= n → n + 48 < 2 ^ 31 → (match rest with c :: _ => ¬ (48 <= c <= 57) | [] => True end) →
  atoi (unumber n 10 true ++ rest) s = Ok n s.
Proof.
  intros Hn Hb Hrest. unfold unumber. rewrite bool_decide_eq_false_2 by lia. cbn [andb]. cbn [app]. rewrite uN_small by lia.
  assert (uvalue 10 (uprintint_digits 32 n 10) = n) as Hv.
  { apply uprintint_digits_value; [lia| |lia]. change (10 ^ Z.of_nat 32) with (10 ^ 32). lia. }
  pose proof (uprintint_decimal 32 n Hn) as Hd. revert Hv Hd. generalize (uprintint_digits 32 n 10) as ds. intros ds Hv Hd.
  unfold atoi. rewrite atoi_loop_digits; [by rewrite rev_involutive, Hv|by apply Forall_rev|done|done|]. rewrite rev_involutive, Hv. lia.
Qed.

Lemma atoi_nonneg {S} a n (s s' : S) : atoi a s = Ok n s' → 0 <= n ∧ s' = s.
Proof.
  unfold atoi. assert (∀ k, 0 <= k → atoi_loop k a s = Ok n s' → 0 <= n ∧ s' = s) as Hl; [|by apply Hl].
  induction a as [|c a IH]; intros k Hk; cbn [atoi_loop]; [by intros [= <- <-]|].
  case_bool_decide; [|by intros [= <- <-]]. case_bool_decide; [done|]. apply IH. lia.
Qed.

(** ** What the programs do *)

(** echo writes its arguments with a space between them, and a newline if there are any. *)
Definition echoed (args : list (list Z)) : list Z :=
  match args with
  | [] => []
  | a :: args' => a ++ concat ((λ b, 32 :: b) <$> args') ++ [10]
  end.

Lemma echo_writes args out : echo_main args out = Ok 0 (out ++ on 1 (echoed args)).
Proof.
  revert out; induction args as [|a args IH]; intros out; cbn [echo_main]; [by rewrite app_nil_r|].
  unfold mbind, M_bind, write_, modify in *. rewrite IH, <-!app_assoc, <-!on_app. f_equal. f_equal. f_equal.
  destruct args as [|b args]; cbn [echoed]; [done|]. rewrite fmap_cons. cbn [concat]. by rewrite <-!app_assoc.
Qed.

(** The arguments up to the first for which the call fails. *)
Fixpoint tried (call : list Z → bool) (args : list (list Z)) : list (list Z) :=
  match args with
  | [] => []
  | a :: args' => if call a then a :: tried call args' else [a]
  end.

Lemma wp_message1 pre post name (Q : unit → written → Prop) out :
  Forall (λ c, dir_ok (Lit c)) pre → Forall (λ c, dir_ok (Lit c)) post → Forall (λ c, 0 <= c < 256) name →
  Q tt (out ++ on 2 (pre ++ name ++ post)) → wp (fprintf 2 (pre ++ [37; 115] ++ post) [AStr (Some name)]) Q out.
Proof.
  intros Hpre Hpost Hn HQ. assert (pre ++ [37; 115] ++ post = flat_map spell ((Lit <$> pre) ++ Fs :: (Lit <$> post))) as ->.
  { rewrite flat_map_app, spell_lits. cbn [flat_map]. by rewrite spell_lits. }
  eapply wp_vprintf; [| |exact HQ].
  - apply Forall_app_2; [by apply Forall_fmap|]. constructor; [done|]. by apply Forall_fmap.
  - rewrite render_lits. cbn [urender_all urender]. rewrite u8_bytes by done.
    rewrite <-(app_nil_r (Lit <$> post)), render_lits. cbn [urender_all]. simpl. by rewrite app_nil_r.
Qed.

Lemma mkdir_tries mkdir args out :
  args ≠ [] → Forall (Forall (λ c, 0 <= c < 256)) args → ∃ out', mkdir_main mkdir args out = Ok (0, tried mkdir args) out'.
Proof.
  intros Hne Hok. assert (∀ out, wp (mkdir_loop mkdir args) (λ l _, l = tried mkdir args) out) as Hl.
  { clear Hne. induction Hok as [|a args Ha Hok IH]; intros o; cbn [mkdir_loop tried]; [by apply wp_ret|]. destruct (mkdir a).
    - apply wp_bind. eapply wp_mono; [apply IH|]. intros l o' ->. by apply wp_ret.
    - apply wp_bind. apply (wp_message1 (str "mkdir: ") (str " failed to create" ++ [10])); [..|by apply wp_ret];
        first [done | apply (bool_decide_unpack _); vm_compute; exact I]. }
  destruct args as [|a args]; [done|]. destruct (proj1 (wp_ok _ _ _) (Hl out)) as (l & out' & Hrun & ->). exists out'.
  cbn [mkdir_main]. unfold mbind, M_bind. by rewrite Hrun.
Qed.

Lemma rm_tries unlink args out :
  args ≠ [] → Forall (Forall (λ c, 0 <= c < 256)) args → ∃ out', rm_main unlink args out = Ok (0, tried unlink args) out'.
Proof.
  intros Hne Hok. assert (∀ out, wp (rm_loop unlink args) (λ l _, l = tried unlink args) out) as Hl.
  { clear Hne. induction Hok as [|a args Ha Hok IH]; intros o; cbn [rm_loop tried]; [by apply wp_ret|]. destruct (unlink a).
    - apply wp_bind. eapply wp_mono; [apply IH|]. intros l o' ->. by apply wp_ret.
    - apply wp_bind. apply (wp_message1 (str "rm: ") (str " failed to delete" ++ [10])); [..|by apply wp_ret];
        first [done | apply (bool_decide_unpack _); vm_compute; exact I]. }
  destruct args as [|a args]; [done|]. destruct (proj1 (wp_ok _ _ _) (Hl out)) as (l & out' & Hrun & ->). exists out'.
  cbn [rm_main]. unfold mbind, M_bind. by rewrite Hrun.
Qed.

(** kill and sleep get the number that was printed. *)
Lemma kill_prints pids out :
  pids ≠ [] → Forall (λ n, 0 <= n ∧ n + 48 < 2 ^ 31) pids →
  kill_main ((λ n, unumber n 10 true) <$> pids) out = Ok (0, pids) out.
Proof.
  intros Hne Hok. assert (kill_loop ((λ n, unumber n 10 true) <$> pids) out = Ok pids out) as Hl.
  { clear Hne. induction Hok as [|n pids [Hn Hb] _ IH]; [done|]. rewrite fmap_cons. cbn [kill_loop]. unfold mbind, M_bind.
    pose proof (atoi_unumber n [] out Hn Hb I) as Ha. rewrite app_nil_r in Ha. by rewrite Ha, IH. }
  destruct pids as [|n pids]; [done|]. rewrite fmap_cons in *. cbn [kill_main]. unfold mbind, M_bind. by rewrite Hl.
Qed.

(** sleep rejects negative numbers, but atoi never returns one: a sign ends the
    number, and [sleep -5] pauses for 0 ticks and succeeds. *)
Theorem sleep_negative a out : sleep_main [45 :: a] out = Ok (0, Some 0) out.
Proof. done. Qed.

Lemma sleep_never_rejects a r out out' : sleep_main [a] out = Ok r out' → ∃ n, 0 <= n ∧ r = (0, Some n) ∧ out' = out.
Proof.
  cbn [sleep_main]. intros (n & o & Ha & Hr)%bind_ok. apply atoi_nonneg in Ha as [Hn ->].
  rewrite bool_decide_eq_false_2 in Hr by lia. injection Hr as <- <-. by exists n.
Qed.

(** ** What ls prints *)

(** A name as ls shows it: after the last slash, filled up with spaces. *)
Definition last_name (path : list Z) : list Z := drop (fmtname_loop (S (length path)) path) path.
Definition padded (name : list Z) : list Z := name ++ replicate (dirsiz - length name) 32.

Lemma wp_write_at {S A} i (bs buf : list A) (Q : list A → S → Prop) s :
  (i + length bs <= length buf)%nat → Q (take i buf ++ bs ++ drop (i + length bs) buf) s → wp (write_at i bs buf) Q s.
Proof. intros Hl HQ. unfold write_at. rewrite bool_decide_eq_true_2 by done. by apply wp_ret. Qed.

Lemma last_name_nonzero path : nonzero path → nonzero (last_name path).
Proof. intros Hp. unfold last_name. by apply Forall_drop. Qed.

Lemma wp_fmtname fmtbuf path (Q : list Z → written → Prop) out :
  length fmtbuf = S dirsiz → nonzero path → Q (padded (last_name path)) out → wp (fmtname fmtbuf path) Q out.
Proof.
  intros Hl Hp HQ. unfold fmtname. fold (last_name path). pose proof (last_name_nonzero path Hp) as Hn. revert HQ Hn.
  generalize (last_name path) as p. intros p HQ Hn. unfold padded in HQ. case_bool_decide as Hd.
  { apply wp_ret. replace (dirsiz - length p)%nat with 0%nat in HQ by lia. by rewrite app_nil_r in HQ. }
  apply wp_bind, wp_write_at; [lia|]. apply wp_bind. rewrite take_0, app_nil_l.
  apply wp_write_at; [rewrite length_app, length_drop, length_replicate; lia|].
  rewrite take_app_length, length_replicate, drop_app_ge by lia. rewrite drop_drop.
  replace (0 + length p + (length p + (dirsiz - length p) - length p))%nat with dirsiz by lia.
  apply wp_bind, wp_write_at; [rewrite !length_app, length_replicate, length_drop; cbn [length]; lia|].
  apply wp_ret. rewrite (app_assoc p). rewrite take_app_length' by (rewrite length_app, length_replicate; lia).
  cbn [app]. rewrite cstr_app_0; [done|]. apply Forall_app_2; [done|]. by apply Forall_replicate.
Qed.

Lemma last_name_entry path name : slash ∉ name → last_name (path ++ slash :: name) = name.
Proof.
  intros Hs. unfold last_name. assert (∀ n, (n <= S (length name))%nat →
    fmtname_loop (S (length path) + n) (path ++ slash :: name) = S (length path)) as Hl.
  { induction n as [|n IH]; intros Hn; cbn [Nat.add fmtname_loop].
    - rewrite Nat.add_0_r. rewrite bool_decide_eq_true_2; [done|]. by rewrite list_lookup_middle.
    - rewrite Nat.add_succ_r. cbn [fmtname_loop]. rewrite bool_decide_eq_false_2; [apply IH; lia|].
      rewrite lookup_app_r by lia. replace (S (length path + n) - length path)%nat with (S n) by lia. cbn.
      intros Hk. by apply Hs, list_elem_of_lookup_2 with n. }
  rewrite length_app. cbn [length]. replace (S (length path + S (length name))) with (S (length path) + S (length name))%nat by lia.
  rewrite Hl by lia. rewrite drop_app_ge by lia. by replace (S (length path) - length path)%nat with 1%nat by lia.
Qed.

Lemma s32_idem v : s32 (s32 v) = s32 v.
Proof. apply sN_small; [done|]. unfold sN. pose proof (Z.mod_pos_bound (v + 2 ^ (32 - 1)) (2 ^ 32) ltac:(done)). lia. Qed.

Section ls_thms.
Context (open_ : list Z → option node) (fmtbuf : list Z).
Hypothesis Hfmt : length fmtbuf = S dirsiz.

Definition chars_ok (s : list Z) : Prop := Forall (λ c, 0 < c < 256) s.

Lemma chars_nonzero s : chars_ok s → nonzero s.
Proof. intros Hs. eapply Forall_impl; [exact Hs|]. intros c Hc. simpl in Hc. lia. Qed.
Lemma chars_bytes s : chars_ok s → Forall (λ c, 0 <= c < 256) s.
Proof. intros Hs. eapply Forall_impl; [exact Hs|]. intros c Hc. simpl in Hc. lia. Qed.
Lemma chars_cstr l : Forall is_byte l → chars_ok (cstr l).
Proof.
  induction 1 as [|c l Hc _ IH]; simpl; [constructor|]. case_bool_decide; [constructor|]. constructor; [unfold is_byte in Hc; lia|done].
Qed.
Lemma chars_padded s : chars_ok s → chars_ok (padded s).
Proof. intros Hs. apply Forall_app_2; [done|]. apply Forall_replicate. lia. Qed.

(** A line: the name, the type, the inode number and the size. *)
Definition line_of (path : list Z) (s : fstat_) : list Z :=
  padded (last_name path) ++ [32] ++ unumber (s32 (fs_type s)) 10 true ++ [32] ++ unumber (s32 (fs_ino s)) 10 true ++
  [32] ++ unumber (s32 (fs_size s)) 10 true ++ [10].

Lemma wp_ls_line path s (Q : unit → written → Prop) out :
  chars_ok path → Q tt (out ++ on 1 (line_of path s)) → wp (ls_line fmtbuf path s) Q out.
Proof.
  intros Hp HQ. unfold ls_line. apply wp_bind, wp_fmtname; [done|by apply chars_nonzero|].
  eapply (wp_vprintf 1 [Fs; Lit 32; Num 0 Fd; Lit 32; Num 0 Fd; Lit 32; Num 0 Fd; Lit 10]); [| |exact HQ].
  - apply (bool_decide_unpack _). vm_compute. exact I.
  - cbn [urender_all urender conv]. cbn [default]. rewrite u8_bytes by (apply chars_bytes, chars_padded; unfold last_name; by apply Forall_drop).
    unfold line_of. f_equal. rewrite s32_idem. done.
Qed.

(** What is printed for one entry of the directory [path]. *)
Definition entry_of (path : list Z) (de : dirent_) : list Z :=
  let q := path ++ slash :: cstr (take dirsiz (de_name_ de)) in
  if bool_decide (de_inum de = 0) then [] else
  match ustat open_ q with None => str "ls: cannot stat " ++ q ++ [10] | Some s => line_of q s end.

Definition dent_ok (de : dirent_) : Prop := length (de_name_ de) = dirsiz ∧ Forall is_byte (de_name_ de).

(** The path of an entry, as it stands in the array. *)
Lemma entry_path path buf de :
  chars_ok path → length buf = 512%nat → (length path + 16 <= 512)%nat → dent_ok de → take (S (length path)) buf = path ++ [slash] →
  let buf1 := take (S (length path)) buf ++ take dirsiz (de_name_ de) ++ drop (S (length path) + length (take dirsiz (de_name_ de))) buf in
  let buf2 := take (S (length path) + dirsiz) buf1 ++ [0] ++ drop (S (length path) + dirsiz + length [0]) buf1 in
  length buf1 = 512%nat ∧ length buf2 = 512%nat ∧ take (S (length path)) buf2 = path ++ [slash] ∧
  cstr buf2 = path ++ slash :: cstr (take dirsiz (de_name_ de)).
Proof.
  intros Hp Hl Hlen [Hd _] Ht. assert (length (take dirsiz (de_name_ de)) = 14%nat) as Hd' by (rewrite length_take, Hd; done).
  change dirsiz with 14%nat in *. revert Hd'. generalize (take 14 (de_name_ de)) as nm. intros nm Hd' buf1 buf2.
  assert (length buf1 = 512%nat) as H1 by (unfold buf1; rewrite length_write; lia).
  assert (length buf2 = 512%nat) as H2 by (unfold buf2; rewrite (length_write (S (length path) + 14) [0]); simpl; lia).
  assert (buf2 = (path ++ [slash]) ++ nm ++ 0 :: drop (S (length path) + 14 + 1) buf1) as E.
  { assert (buf1 = ((path ++ [slash]) ++ nm) ++ drop (S (length path) + length nm) buf) as E1 by (unfold buf1; by rewrite Ht, <-(app_assoc (path ++ [slash]))).
    unfold buf2. rewrite E1 at 1. rewrite take_app_length' by (rewrite !length_app; simpl; lia). by rewrite <-app_assoc. }
  split_and!; [done|done| |].
  - rewrite E. rewrite take_app_length' by (rewrite length_app; simpl; lia). done.
  - rewrite E, <-app_assoc. rewrite cstr_app by (by apply chars_nonzero). cbn [app]. cbn [cstr].
    rewrite bool_decide_eq_false_2 by done. by rewrite cstr_end.
Qed.

Lemma wp_ls_dents path des (Q : unit → written → Prop) : ∀ buf out,
  chars_ok path → length buf = 512%nat → (length path + 16 <= 512)%nat → Forall dent_ok des →
  take (S (length path)) buf = path ++ [slash] →
  Q tt (out ++ on 1 (flat_map (entry_of path) des)) → wp (ls_dents open_ fmtbuf (S (length path)) buf des) Q out.
Proof.
  induction des as [|de des IH]; intros buf out Hp Hl Hlen Hok Ht HQ; cbn [ls_dents flat_map] in *.
  { apply wp_ret. by rewrite app_nil_r in HQ. }
  apply Forall_cons in Hok as [Hde Hok]. unfold entry_of in HQ at 1. rewrite on_app, app_assoc in HQ. case_bool_decide as Hi.
  { rewrite app_nil_r in HQ. by apply (IH buf). }
  destruct (entry_path path buf de Hp Hl Hlen Hde Ht) as (H1 & H2 & H3 & H4).
  assert (length (take dirsiz (de_name_ de)) = 14%nat) as Hd by (rewrite length_take, (proj1 Hde); done).
  apply wp_bind, wp_write_at; [lia|]. apply wp_bind, wp_write_at; [rewrite H1; change dirsiz with 14%nat; simpl; lia|].
  assert (chars_ok (path ++ slash :: cstr (take dirsiz (de_name_ de)))) as Hq.
  { apply Forall_app_2; [done|]. constructor; [by unfold slash|]. apply chars_cstr, Forall_take, Hde. }
  cbv zeta in H4. rewrite H4. destruct (ustat open_ _) as [s|].
  - apply wp_bind, wp_ls_line; [done|]. by apply IH.
  - apply wp_bind, (wp_uprintf_str 1 (str "ls: cannot stat ")); [apply (bool_decide_unpack _); vm_compute; exact I|by apply chars_bytes|].
    by apply IH.
Qed.

(** What ls writes for a path. *)
Definition listing (path : list Z) : written :=
  match open_ path with
  | None => on 2 (str "ls: cannot open " ++ path ++ [10])
  | Some f =>
      match nd_stat f with
      | None => on 2 (str "ls: cannot stat " ++ path ++ [10])
      | Some s =>
          if decide (fs_type s = T_DEVICE ∨ fs_type s = T_FILE) then on 1 (line_of path s)
          else if decide (fs_type s = T_DIR) then
            on 1 (if decide (length path <= 496)%nat then flat_map (entry_of path) (nd_dents f) else str "ls: path too long" ++ [10])
          else []
      end
  end.

(** ls shows a file as one line, and of a directory every entry that is in use, in
    order, with what stat says of it; the path of no entry is written past the end of
    the array. *)
Theorem ls_correct buf0 path out :
  length buf0 = 512%nat → chars_ok path → (∀ f, open_ path = Some f → Forall dent_ok (nd_dents f)) →
  ls open_ fmtbuf buf0 path out = Ok tt (out ++ listing path).
Proof.
  intros Hb Hp Hd. apply wp_run. unfold ls, listing. destruct (open_ path) as [f|] eqn:Ho.
  2: { apply (wp_uprintf_str 2 (str "ls: cannot open ")); [apply (bool_decide_unpack _); vm_compute; exact I|by apply chars_bytes|done]. }
  destruct (nd_stat f) as [s|].
  2: { apply (wp_uprintf_str 2 (str "ls: cannot stat ")); [apply (bool_decide_unpack _); vm_compute; exact I|by apply chars_bytes|done]. }
  case_bool_decide as Hf; [rewrite decide_True by done; by apply wp_ls_line|]. rewrite decide_False by done.
  case_bool_decide as Ht; [|rewrite decide_False by done; rewrite app_nil_r; by apply wp_ret]. rewrite decide_True by done.
  change dirsiz with 14%nat. case_bool_decide as Hl.
  { rewrite decide_False by lia. apply wp_uprintf_lit; [apply (bool_decide_unpack _); vm_compute; exact I|done]. }
  rewrite decide_True by lia. apply wp_bind, wp_write_at; [rewrite length_app, Hb; simpl; lia|]. rewrite take_0, app_nil_l.
  apply wp_bind, wp_write_at; [rewrite !length_app, length_drop, ?length_app, Hb; simpl; lia|].
  apply wp_ls_dents; [done| |lia|by apply Hd| |done].
  - rewrite (length_write (length path) [slash]); rewrite !length_app, length_drop, ?length_app, Hb; simpl; lia.
  - rewrite <-app_assoc, take_app_length. rewrite app_assoc. by rewrite take_app_length' by (rewrite length_app; simpl; lia).
Qed.
End ls_thms.
