(* ===== verification/Asm.v ===== *)
(** * kernel/swtch.S, kernel/trampoline.S, kernel/kernelvec.S: registers and traps

    A hart has its registers, the control registers of Trap.v, a program counter and
    a mode; memory is that of Mem.v.  A program is a list of instructions with the
    addresses at which the linker puts them.  Instructions and data are reached
    through [translate], which is what the MMU does with the page table that a value
    of satp names.  After a write to satp the entries of the old table may still be in
    use until the next sfence.vma ([tlb]): an address that the two tables map
    differently faults. *)
From S2P Require Import Prelude.
From S2P Require Import Mem.
From S2P Require Import Heap.
From S2P Require Import Params.
From S2P Require Import State.
From S2P Require Import Sched.
From S2P Require Import Bio.
From S2P Require Import Proc.
From S2P Require Import Trap.
From S2P Require Import Wp.
From stdpp Require Import functions.
From iris.proofmode Require Import proofmode.
#[local] Open Scope Z_scope.

Inductive reg : Type :=
| ra | sp | gp | tp | t0 | t1 | t2 | s0 | s1
| a0 | a1 | a2 | a3 | a4 | a5 | a6 | a7
| s2 | s3 | s4 | s5 | s6 | s7 | s8 | s9 | s10 | s11
| t3 | t4 | t5 | t6.

#[export] Instance reg_eq : EqDecision reg.
Proof. solve_decision. Defined.

Record hart : Type := Hart {
  x : reg → Z;
  csr : csrs;
  sscratch : Z;
  tlb : option Z;
  user : bool;
  pc : Z }.

#[export] Instance set_x : Setter x := λ g r, Hart (g (x r)) (csr r) (sscratch r) (tlb r) (user r) (pc r).
#[export] Instance set_csr : Setter csr := λ g r, Hart (x r) (g (csr r)) (sscratch r) (tlb r) (user r) (pc r).
#[export] Instance set_sscratch : Setter sscratch := λ g r, Hart (x r) (csr r) (g (sscratch r)) (tlb r) (user r) (pc r).
#[export] Instance set_tlb : Setter tlb := λ g r, Hart (x r) (csr r) (sscratch r) (g (tlb r)) (user r) (pc r).
#[export] Instance set_user : Setter user := λ g r, Hart (x r) (csr r) (sscratch r) (tlb r) (g (user r)) (pc r).
#[export] Instance set_pc : Setter pc := λ g r, Hart (x r) (csr r) (sscratch r) (tlb r) (user r) (g (pc r)).

Abbreviation H := (M (st hart)).

Inductive instr : Type :=
| SD (rs : reg) (off : Z) (base : reg)
| LD (rd : reg) (off : Z) (base : reg)
| LI (rd : reg) (v : Z)
| ADDI (rd rs : reg) (v : Z)
| CSRW_SSCRATCH (rs : reg)
| CSRR_SSCRATCH (rd : reg)
| CSRW_SATP (rs : reg)
| SFENCE_VMA
| JALR (rs : reg)
| CALL (f : Z)
| RET
| SRET.

(** The exception return of the hardware, and its entry to a trap. *)
Definition sret_status (s : Z) : Z :=
  let s1 := if bool_decide (Z.land s SSTATUS_SPIE ≠ 0) then Z.lor s SSTATUS_SIE else Z.land s (Z.lnot SSTATUS_SIE) in
  Z.land (Z.lor s1 SSTATUS_SPIE) (Z.lnot SSTATUS_SPP).
Definition sret (h : hart) : hart :=
  let s := sstatus (csr h) in
  h <| pc := sepc (csr h) |> <| user := bool_decide (Z.land s SSTATUS_SPP = 0) |> <| csr := (csr h) <| sstatus := sret_status s |> |>.

Definition trap_status (user : bool) (s : Z) : Z :=
  let s1 := if bool_decide (Z.land s SSTATUS_SIE ≠ 0) then Z.lor s SSTATUS_SPIE else Z.land s (Z.lnot SSTATUS_SPIE) in
  let s2 := if user then Z.land s1 (Z.lnot SSTATUS_SPP) else Z.lor s1 SSTATUS_SPP in
  Z.land s2 (Z.lnot SSTATUS_SIE).
Definition trap (cause val : Z) (h : hart) : hart :=
  let c := (csr h) <| sstatus ::= trap_status (user h) |> <| sepc := pc h |> <| scause := cause |> <| stval := val |> in
  h <| csr := c |> <| user := false |> <| pc := stvec (csr h) |>.

(** A program in memory: its virtual and physical address, and where in it the
    instructions are. *)
Record code : Type := Code { c_va : Z; c_pa : Z; c_off : nat → Z }.

Section machine.
Context (translate : Z → Z → option Z).

Definition xlate (va : Z) : H Z :=
  h ← get_rest;
  match translate (satp (csr h)) va, tlb h with
  | Some pa, None => mret pa
  | Some pa, Some old => if bool_decide (translate old va = Some pa) then mret pa else fault
  | None, _ => fault
  end.

Definition set_reg (r : reg) (v : Z) : H unit :=
  h ← get_rest; put_rest (h <| x := <[r := v]> (x h) |>).

(** The address of a doubleword; it has to be aligned. *)
Definition data_addr (base : reg) (off : Z) : H Z :=
  h ← get_rest;
  let va := u64 (x h base + off) in
  if bool_decide (va mod 8 = 0) then xlate va else fault.

(** One instruction, the [i]th of the program; whether it was a jump. *)
Definition exec (k : code) (i : nat) (ins : instr) : H bool :=
  h ← get_rest;
  match ins with
  | SD rs off base => a ← data_addr base off; store64 a (x h rs);; mret false
  | LD rd off base => a ← data_addr base off; v ← load64 a; set_reg rd v;; mret false
  | LI rd v => set_reg rd (u64 v);; mret false
  | ADDI rd rs v => set_reg rd (u64 (x h rs + v));; mret false
  | CSRW_SSCRATCH rs => put_rest (h <| sscratch := x h rs |>);; mret false
  | CSRR_SSCRATCH rd => set_reg rd (sscratch h);; mret false
  | CSRW_SATP rs => put_rest (h <| csr := (csr h) <| satp := x h rs |> |> <| tlb := Some (satp (csr h)) |>);; mret false
  | SFENCE_VMA => put_rest (h <| tlb := None |>);; mret false
  | JALR rs => put_rest (h <| pc := x h rs |> <| x := <[ra := c_va k + c_off k (S i)]> (x h) |>);; mret true
  | CALL f => put_rest (h <| pc := f |> <| x := <[ra := c_va k + c_off k (S i)]> (x h) |>);; mret true
  | RET => put_rest (h <| pc := x h ra |>);; mret true
  | SRET => put_rest (sret h);; mret true
  end.

(** The instruction is fetched through the page table as well. *)
Definition fetch (k : code) (i : nat) : H unit :=
  pa ← xlate (c_va k + c_off k i);
  if bool_decide (pa = c_pa k + c_off k i) then mret tt else fault.

(** Run from the [i]th instruction, [prog], up to a jump. *)
Fixpoint run (k : code) (i : nat) (prog : list instr) : H unit :=
  match prog with
  | [] => fault
  | ins :: prog' =>
      fetch k i;;
      jumped ← exec k i ins;
      if jumped : bool then mret tt else run k (S i) prog'
  end.

(** Run from where the program counter is. *)
Definition run_at (k : code) (i : nat) (prog : list instr) : H unit :=
  h ← get_rest;
  if bool_decide (pc h = c_va k + c_off k i) then run k i prog else fault.
End machine.

(** ** kernel/swtch.S *)
Definition swtch_asm : list instr :=
  [ SD ra 0 a0; SD sp 8 a0; SD s0 16 a0; SD s1 24 a0; SD s2 32 a0; SD s3 40 a0; SD s4 48 a0; SD s5 56 a0; SD s6 64 a0;
    SD s7 72 a0; SD s8 80 a0; SD s9 88 a0; SD s10 96 a0; SD s11 104 a0;
    LD ra 0 a1; LD sp 8 a1; LD s0 16 a1; LD s1 24 a1; LD s2 32 a1; LD s3 40 a1; LD s4 48 a1; LD s5 56 a1; LD s6 64 a1;
    LD s7 72 a1; LD s8 80 a1; LD s9 88 a1; LD s10 96 a1; LD s11 104 a1;
    RET ].

(** ** kernel/trampoline.S *)
Definition uservec : list instr :=
  [ CSRW_SSCRATCH a0; LI a0 TRAPFRAME;
    SD ra 40 a0; SD sp 48 a0; SD gp 56 a0; SD tp 64 a0; SD t0 72 a0; SD t1 80 a0; SD t2 88 a0; SD s0 96 a0; SD s1 104 a0;
    SD a1 120 a0; SD a2 128 a0; SD a3 136 a0; SD a4 144 a0; SD a5 152 a0; SD a6 160 a0; SD a7 168 a0;
    SD s2 176 a0; SD s3 184 a0; SD s4 192 a0; SD s5 200 a0; SD s6 208 a0; SD s7 216 a0; SD s8 224 a0; SD s9 232 a0;
    SD s10 240 a0; SD s11 248 a0; SD t3 256 a0; SD t4 264 a0; SD t5 272 a0; SD t6 280 a0;
    CSRR_SSCRATCH t0; SD t0 112 a0;
    LD sp 8 a0; LD tp 32 a0; LD t0 16 a0; LD t1 0 a0;
    SFENCE_VMA; CSRW_SATP t1; SFENCE_VMA; JALR t0 ].

Definition userret : list instr :=
  [ SFENCE_VMA; CSRW_SATP a0; SFENCE_VMA; LI a0 TRAPFRAME;
    LD ra 40 a0; LD sp 48 a0; LD gp 56 a0; LD tp 64 a0; LD t0 72 a0; LD t1 80 a0; LD t2 88 a0; LD s0 96 a0; LD s1 104 a0;
    LD a1 120 a0; LD a2 128 a0; LD a3 136 a0; LD a4 144 a0; LD a5 152 a0; LD a6 160 a0; LD a7 168 a0;
    LD s2 176 a0; LD s3 184 a0; LD s4 192 a0; LD s5 200 a0; LD s6 208 a0; LD s7 216 a0; LD s8 224 a0; LD s9 232 a0;
    LD s10 240 a0; LD s11 248 a0; LD t3 256 a0; LD t4 264 a0; LD t5 272 a0; LD t6 280 a0;
    LD a0 112 a0;
    SRET ].

(** ** kernel/kernelvec.S: up to the call of kerneltrap, and from its return *)
Definition kernelvec (kerneltrap : Z) : list instr :=
  [ ADDI sp sp (-256);
    SD ra 0 sp; SD gp 16 sp; SD tp 24 sp; SD t0 32 sp; SD t1 40 sp; SD t2 48 sp; SD a0 72 sp; SD a1 80 sp; SD a2 88 sp;
    SD a3 96 sp; SD a4 104 sp; SD a5 112 sp; SD a6 120 sp; SD a7 128 sp; SD t3 216 sp; SD t4 224 sp; SD t5 232 sp; SD t6 240 sp;
    CALL kerneltrap ].

Definition kernelvec_return : list instr :=
  [ LD ra 0 sp; LD gp 16 sp; LD t0 32 sp; LD t1 40 sp; LD t2 48 sp; LD a0 72 sp; LD a1 80 sp; LD a2 88 sp;
    LD a3 96 sp; LD a4 104 sp; LD a5 112 sp; LD a6 120 sp; LD a7 128 sp; LD t3 216 sp; LD t4 224 sp; LD t5 232 sp; LD t6 240 sp;
    ADDI sp sp 256;
    SRET ].

(** ** Running an instruction *)
Section machine_rules.
Context (translate : Z → Z → option Z).

(** What an address is mapped to, whichever of the tables in use the MMU takes. *)
Definition maps (h : hart) (va pa : Z) : Prop :=
  translate (satp (csr h)) va = Some pa ∧ match tlb h with Some old => translate old va = Some pa | None => True end.

Definition fetchable (k : code) (h : hart) : Prop := ∀ i, maps h (c_va k + c_off k i) (c_pa k + c_off k i).

(** The register [b] points to [n] doublewords, which are at [pa]. *)
Definition points (h : hart) (b : reg) (n : nat) (pa : Z) : Prop :=
  ∀ j, (j < n)%nat → u64 (x h b + 8 * Z.of_nat j) mod 8 = 0 ∧ maps h (u64 (x h b + 8 * Z.of_nat j)) (pa + 8 * Z.of_nat j).

Lemma hwp_xlate va pa (Q : Z → hart → hprop) h : maps h va pa → Q pa h ⊢ hwp (xlate translate va) Q h.
Proof.
  intros [H1 H2]. apply (hwp_rest _ pa h). intros m. rw /xlate /mbind /M_bind /= H1. destruct (tlb h); [|done].
  by rw bool_decide_eq_true_2.
Qed.

Lemma hwp_fetch k i (Q : unit → hart → hprop) h : fetchable k h → Q tt h ⊢ hwp (fetch translate k i) Q h.
Proof.
  iIntros (Hf) "HQ". iApply hwp_bind. iApply hwp_xlate; [apply Hf|]. rw bool_decide_eq_true_2; [|done]. by iApply hwp_ret.
Qed.

Lemma hwp_data_addr b j n pa (Q : Z → hart → hprop) h :
  points h b n pa → (j < n)%nat → Q (pa + 8 * Z.of_nat j) h ⊢ hwp (data_addr translate b (8 * Z.of_nat j)) Q h.
Proof.
  iIntros (Hp Hj) "HQ". destruct (Hp j Hj) as [Ha Hm]. iApply hwp_bind. iApply hwp_get_rest. cbv zeta.
  rw bool_decide_eq_true_2; [|done]. by iApply hwp_xlate.
Qed.

(** An instruction that only changes the hart. *)
Lemma hwp_run_step k i ins prog (Q : unit → hart → hprop) h h' :
  fetchable k h → (∀ m, exec translate k i ins (St m h) = Ok false (St m h')) →
  hwp (run translate k (S i) prog) Q h' ⊢ hwp (run translate k i (ins :: prog)) Q h.
Proof.
  iIntros (Hf He) "HQ". cbn [run]. iApply hwp_bind. iApply hwp_fetch; [done|]. iApply hwp_bind. by iApply (hwp_rest _ false h').
Qed.

Lemma hwp_run_jump k i ins prog (Q : unit → hart → hprop) h h' :
  fetchable k h → (∀ m, exec translate k i ins (St m h) = Ok true (St m h')) →
  Q tt h' ⊢ hwp (run translate k i (ins :: prog)) Q h.
Proof.
  iIntros (Hf He) "HQ". cbn [run]. iApply hwp_bind. iApply hwp_fetch; [done|]. iApply hwp_bind.
  iApply (hwp_rest _ true h'); [done|]. by iApply hwp_ret.
Qed.

Lemma words_acc a ws j w :
  ws !! j = Some w → words a ws ⊢ (a + 8 * Z.of_nat j) ↦w w ∗ ∀ w', (a + 8 * Z.of_nat j) ↦w w' -∗ words a (<[j := w']> ws).
Proof.
  intros Hj. rw /words. iIntros "Hw". iApply (big_sepL_insert_acc (λ i w, (a + 8 * Z.of_nat i) ↦w w)%I _ _ _ Hj with "Hw").
Qed.

(** [sd] for each of the registers of [l], to its doubleword. *)
Definition sds (b : reg) (l : list (reg * nat)) : list instr := (λ rj, SD rj.1 (8 * Z.of_nat rj.2) b) <$> l.
Definition saved (f : reg → Z) (l : list (reg * nat)) (ws : list Z) : list Z :=
  foldl (λ ws rj, <[rj.2 := u64 (f rj.1)]> ws) ws l.

Lemma length_saved f l ws : length (saved f l ws) = length ws.
Proof. revert ws; induction l as [|rj l IH]; intros ws; [done|]. cbn [saved foldl]. rw (IH (<[_ := _]> ws)). apply length_insert. Qed.

Lemma hwp_run_sds k b l pa prog (Q : unit → hart → hprop) h : ∀ i ws,
  fetchable k h → points h b (length ws) pa → Forall (λ rj, rj.2 < length ws)%nat l →
  words pa ws ∗ (words pa (saved (x h) l ws) -∗ hwp (run translate k (i + length l) prog) Q h) ⊢
  hwp (run translate k i (sds b l ++ prog)) Q h.
Proof.
  induction l as [|[r j] l IH]; iIntros (i ws Hf Hp Hl) "[Hw HQ]"; [rw Nat.add_0_r; by iApply "HQ"|].
  apply Forall_cons in Hl as [Hj Hl]. cbn [sds fmap list_fmap app run fst snd] in *.
  iApply hwp_bind. iApply hwp_fetch; [done|]. iApply hwp_bind. cbn [exec]. iApply hwp_bind. iApply hwp_get_rest.
  iApply hwp_bind. iApply hwp_data_addr; [done|done|]. iApply hwp_bind.
  destruct (lookup_lt_is_Some_2 ws j Hj) as [w Hw]. iDestruct (words_acc _ _ _ _ Hw with "Hw") as "[Hj Hw]".
  iApply hwp_store64. iFrame "Hj". iIntros "Hj". iSpecialize ("Hw" with "Hj"). iApply hwp_ret.
  iApply (IH (S i) (<[j := _]> ws)); [done|by rw length_insert|by rw length_insert|]. iFrame "Hw".
  by rw Nat.add_succ_comm.
Qed.

(** [ld] for each of the registers of [l]. *)
Definition lds (b : reg) (l : list (reg * nat)) : list instr := (λ rj, LD rj.1 (8 * Z.of_nat rj.2) b) <$> l.
Definition loaded (ws : list Z) (l : list (reg * nat)) (f : reg → Z) : reg → Z :=
  foldl (λ f rj, <[rj.1 := ws !!! rj.2]> f) f l.

Lemma hwp_run_ld k b r j pa ws prog (Q : unit → hart → hprop) h i :
  fetchable k h → points h b (length ws) pa → (j < length ws)%nat →
  words pa ws ∗ (words pa ws -∗ hwp (run translate k (S i) prog) Q (h <| x := <[r := ws !!! j]> (x h) |>)) ⊢
  hwp (run translate k i (LD r (8 * Z.of_nat j) b :: prog)) Q h.
Proof.
  iIntros (Hf Hp Hj) "[Hw HQ]". cbn [run]. iApply hwp_bind. iApply hwp_fetch; [done|]. iApply hwp_bind. cbn [exec].
  iApply hwp_bind. iApply hwp_get_rest. iApply hwp_bind. iApply hwp_data_addr; [done|done|]. iApply hwp_bind.
  destruct (lookup_lt_is_Some_2 ws j Hj) as [w Hw]. iDestruct (words_acc _ _ _ _ Hw with "Hw") as "[Hj Hw]".
  iApply hwp_load64. iFrame "Hj". iIntros "Hj". iSpecialize ("Hw" with "Hj"). rw list_insert_id; [|done].
  rw (list_lookup_total_correct _ _ _ Hw). iApply hwp_bind. iApply (hwp_rest _ tt (h <| x := <[r := w]> (x h) |>)); [done|].
  iApply hwp_ret. by iApply "HQ".
Qed.

Lemma hwp_run_lds k b l pa ws prog (Q : unit → hart → hprop) : ∀ i h,
  fetchable k h → points h b (length ws) pa → Forall (λ rj, rj.1 ≠ b ∧ rj.2 < length ws)%nat l →
  words pa ws ∗ (words pa ws -∗ hwp (run translate k (i + length l) prog) Q (h <| x := loaded ws l (x h) |>)) ⊢
  hwp (run translate k i (lds b l ++ prog)) Q h.
Proof.
  induction l as [|[r j] l IH]; iIntros (i h Hf Hp Hl) "[Hw HQ]"; [rw Nat.add_0_r; destruct h; by iApply "HQ"|].
  apply Forall_cons in Hl as [[Hr Hj] Hl]. cbn [lds fmap list_fmap app fst snd] in *.
  iApply hwp_run_ld; [done|done|done|]. iFrame "Hw". iIntros "Hw". iApply (IH (S i)); [done| |done|].
  - intros j' Hj'. specialize (Hp j' Hj'). cbn. by rw fn_lookup_insert_ne.
  - iFrame "Hw". by rw Nat.add_succ_comm.
Qed.
End machine_rules.

(** ** struct context and struct trapframe, as the assembly lays them out *)
Definition regs_ok (h : hart) : Prop := ∀ r, 0 <= x h r < 2 ^ 64.

Definition context_of (h : hart) : context :=
  Context (x h ra) (x h sp) (x h <$> [s0; s1; s2; s3; s4; s5; s6; s7; s8; s9; s10; s11]).
Definition context_words (c : context) : list Z := ctx_ra c :: ctx_sp c :: ctx_s c.

(** The registers in the order of struct trapframe, which begins with
    kernel_satp, kernel_sp, kernel_trap, epc and kernel_hartid. *)
Definition tf_regs : list reg :=
  [ra; sp; gp; tp; t0; t1; t2; s0; s1; a0; a1; a2; a3; a4; a5; a6; a7; s2; s3; s4; s5; s6; s7; s8; s9; s10; s11; t3; t4; t5; t6].

Lemma tf_regs_all r : r ∈ tf_regs.
Proof. destruct r; apply (bool_decide_unpack _); vm_compute; exact I. Qed.

Lemma u64_reg h r : regs_ok h → u64 (x h r) = x h r.
Proof. intros Hr. apply Z.mod_small, Hr. Qed.

(** Name the elements of a list whose length is a numeral. *)
Ltac list_elements ws Hl :=
  repeat (destruct ws as [|? ws]; [discriminate Hl|]); destruct ws; [clear Hl|discriminate Hl].

(** An instruction other than sd and ld. *)
Ltac asm_eval := intros ?; cbv [exec set_reg mbind M_bind mret M_ret get_rest put_rest rest mem]; reflexivity.
Ltac asm_step := iApply hwp_run_step; [|asm_eval|].
Ltac asm_jump := iApply hwp_run_jump; [|asm_eval|].

Section asm_thms.
Context (translate : Z → Z → option Z).
Abbreviation run := (run translate).

Definition swtch_slots : list (reg * nat) :=
  [(ra, 0); (sp, 1); (s0, 2); (s1, 3); (s2, 4); (s3, 5); (s4, 6); (s5, 7); (s6, 8); (s7, 9); (s8, 10); (s9, 11); (s10, 12); (s11, 13)]%nat.

Lemma hwp_swtch k h old new ws c (Q : unit → hart → hprop) :
  fetchable translate k h → regs_ok h → points translate h a0 14 old → points translate h a1 14 new →
  length ws = 14%nat → length (ctx_s c) = 12%nat →
  words old ws ∗ words new (context_words c) ∗
    (words old (context_words (context_of h)) -∗ words new (context_words c) -∗
     Q tt (h <| x := loaded (context_words c) swtch_slots (x h) |> <| pc := ctx_ra c |>)) ⊢
  hwp (run k 0 swtch_asm) Q h.
Proof.
  iIntros (Hf Hr Hold Hnew Hl Hc) "(Hold & Hnew & HQ)". change swtch_asm with (sds a0 swtch_slots ++ lds a1 swtch_slots ++ [RET]).
  iApply (hwp_run_sds _ _ _ _ old _ _ _ _ ws); [done|by rw Hl|rw Hl; repeat constructor|]. iFrame "Hold". iIntros "Hold".
  iApply (hwp_run_lds _ _ _ _ new (context_words c));
    [done|by rw /context_words /= Hc|rw /context_words /= Hc; repeat (constructor; [split; [done|cbn; lia]|]); constructor|].
  iFrame "Hnew". iIntros "Hnew". asm_jump; [done|].
  assert (saved (x h) swtch_slots ws = context_words (context_of h)) as ->.
  { list_elements ws Hl. cbn. by rw !(u64_reg h). }
  iApply ("HQ" with "Hold Hnew").
Qed.

(** A page table that maps the trampoline, and one that maps the trapframe. *)
Definition text_mapped (s : Z) (k : code) : Prop := ∀ i, translate s (c_va k + c_off k i) = Some (c_pa k + c_off k i).
Definition tf_mapped (s tf : Z) : Prop := ∀ j, (j < 36)%nat → translate s (TRAPFRAME + 8 * Z.of_nat j) = Some (tf + 8 * Z.of_nat j).

Lemma text_fetchable k h : text_mapped (satp (csr h)) k → (∀ old, tlb h = Some old → text_mapped old k) → fetchable translate k h.
Proof. intros Ht Ho i. split; [apply Ht|]. destruct (tlb h) as [old|]; [|done]. by apply Ho. Qed.

Lemma tf_points h r tf : x h r = u64 TRAPFRAME → tlb h = None → tf_mapped (satp (csr h)) tf → points translate h r 36 tf.
Proof.
  intros Hx Ht Hm j Hj. rw Hx /maps Ht. change (u64 TRAPFRAME) with TRAPFRAME.
  replace (u64 (TRAPFRAME + 8 * j)) with (TRAPFRAME + 8 * j).
  - split; [|split; [by apply Hm|done]]. rw (Z.mul_comm 8) Z_mod_plus_full. done.
  - symmetry. apply Z.mod_small. change TRAPFRAME with 274877898752. lia.
Qed.

Definition tf_slots : list (reg * nat) := zip tf_regs (seq 5 31).
Definition tf_slots' : list (reg * nat) := Eval vm_compute in filter (λ rj, rj.1 ≠ a0) tf_slots.

Definition enter (k : code) (ws : list Z) (h : hart) : hart :=
  Hart (<[ra := c_va k + c_off k (length uservec)]> (loaded ws [(sp, 1); (tp, 4); (t0, 2); (t1, 0)]%nat
         (<[t0 := x h a0]> (<[a0 := u64 TRAPFRAME]> (x h)))))
    ((csr h) <| satp := ws !!! 0%nat |>) (x h a0) None (user h) (ws !!! 2%nat).

Lemma hwp_uservec k h tf ws (Q : unit → hart → hprop) :
  regs_ok h → tlb h = None → text_mapped (satp (csr h)) k → tf_mapped (satp (csr h)) tf → length ws = 36%nat →
  text_mapped (ws !!! 0%nat) k →
  words tf ws ∗ (words tf (take 5 ws ++ (x h <$> tf_regs)) -∗ Q tt (enter k ws h)) ⊢ hwp (run k 0 uservec) Q h.
Proof.
  iIntros (Hr Ht Hk Htf Hl Hk') "[Hw HQ]".
  change uservec with ([CSRW_SSCRATCH a0; LI a0 TRAPFRAME] ++ sds a0 tf_slots' ++ CSRR_SSCRATCH t0 :: sds a0 [(t0, 14%nat)] ++
    lds a0 [(sp, 1); (tp, 4); (t0, 2); (t1, 0)]%nat ++ [SFENCE_VMA; CSRW_SATP t1; SFENCE_VMA; JALR t0]).
  asm_step; [by apply text_fetchable; [|rw Ht]|]. asm_step; [by apply text_fetchable; [|rw /= Ht]|].
  iApply (hwp_run_sds _ _ _ _ tf _ _ _ _ ws); [by apply text_fetchable; [|rw /= Ht]|by rw Hl; apply tf_points|rw Hl; repeat constructor|].
  iFrame "Hw". iIntros "Hw".
  set (ws1 := saved _ tf_slots' ws). assert (length ws1 = 36%nat) as Hl1 by (by rw length_saved).
  asm_step; [by apply text_fetchable; [|rw /= Ht]|].
  iApply (hwp_run_sds _ _ _ _ tf _ _ _ _ ws1); [by apply text_fetchable; [|rw /= Ht]|by rw Hl1; apply tf_points|rw Hl1; repeat constructor|].
  iFrame "Hw". iIntros "Hw".
  assert (saved _ [(t0, 14%nat)] ws1 = take 5 ws ++ (x h <$> tf_regs)) as ->.
  { subst ws1. list_elements ws Hl. cbn. by rw !(u64_reg h). }
  set (ws2 := take 5 ws ++ _). assert (length ws2 = 36%nat) as Hl2 by (rw /ws2 length_app length_take Hl; done).
  iApply (hwp_run_lds _ _ _ _ tf ws2);
    [by apply text_fetchable; [|rw /= Ht]|by rw Hl2; apply tf_points|rw Hl2; repeat (constructor; [split; [done|cbn; lia]|]); constructor|].
  iFrame "Hw". iIntros "Hw".
  assert (loaded ws2 [(sp, 1); (tp, 4); (t0, 2); (t1, 0)]%nat = loaded ws [(sp, 1); (tp, 4); (t0, 2); (t1, 0)]%nat) as ->.
  { rw /ws2. by list_elements ws Hl. }
  asm_step; [by apply text_fetchable; [|rw /= Ht]|]. asm_step; [by apply text_fetchable|].
  asm_step; [apply text_fetchable; [done|by intros old [= <-]]|]. asm_jump; [by apply text_fetchable|].
  iApply ("HQ" with "Hw").
Qed.

Definition leave (ws : list Z) (h : hart) : hart :=
  sret (Hart (loaded ws (tf_slots' ++ [(a0, 14%nat)]) (<[a0 := u64 TRAPFRAME]> (x h)))
    ((csr h) <| satp := x h a0 |>) (sscratch h) None (user h) (pc h)).

Lemma leave_regs head f h r : length head = 5%nat → x (leave (head ++ (f <$> tf_regs)) h) r = f r.
Proof. intros Hl. list_elements head Hl. by destruct r. Qed.

Lemma hwp_userret k h tf ws (Q : unit → hart → hprop) :
  tlb h = None → text_mapped (satp (csr h)) k → text_mapped (x h a0) k → tf_mapped (x h a0) tf → length ws = 36%nat →
  words tf ws ∗ (words tf ws -∗ Q tt (leave ws h)) ⊢ hwp (run k (length uservec) userret) Q h.
Proof.
  iIntros (Ht Hk Hk' Htf Hl) "[Hw HQ]".
  change userret with ([SFENCE_VMA; CSRW_SATP a0; SFENCE_VMA; LI a0 TRAPFRAME] ++ lds a0 tf_slots' ++ [LD a0 (8 * Z.of_nat 14) a0; SRET]).
  asm_step; [by apply text_fetchable; [|rw Ht]|]. asm_step; [by apply text_fetchable|].
  asm_step; [apply text_fetchable; [done|by intros old [= <-]]|]. asm_step; [by apply text_fetchable|].
  iApply (hwp_run_lds _ _ _ _ tf ws);
    [by apply text_fetchable|by rw Hl; apply tf_points|rw Hl; repeat (constructor; [split; [done|cbn; lia]|]); constructor|].
  iFrame "Hw". iIntros "Hw".
  iApply (hwp_run_ld _ _ _ _ _ tf ws); [by apply text_fetchable|by rw Hl; apply tf_points|rw Hl; lia|].
  iFrame "Hw". iIntros "Hw". asm_jump; [by apply text_fetchable|]. iApply ("HQ" with "Hw").
Qed.

Definition kv_slots : list (reg * nat) :=
  [(ra, 0); (gp, 2); (tp, 3); (t0, 4); (t1, 5); (t2, 6); (a0, 9); (a1, 10); (a2, 11); (a3, 12); (a4, 13); (a5, 14); (a6, 15); (a7, 16);
   (t3, 27); (t4, 28); (t5, 29); (t6, 30)]%nat.
Definition kv_slots' : list (reg * nat) := Eval vm_compute in filter (λ rj, rj.1 ≠ tp) kv_slots.

Lemma hwp_kernelvec k h f pa ws (Q : unit → hart → hprop) :
  let h1 := h <| x := <[sp := u64 (x h sp + -256)]> (x h) |> in
  fetchable translate k h → points translate h1 sp 32 pa → length ws = 32%nat →
  words pa ws ∗ (words pa (saved (x h) kv_slots ws) -∗ Q tt (h1 <| pc := f |> <| x := <[ra := c_va k + c_off k 20]> (x h1) |>)) ⊢
  hwp (run k 0 (kernelvec f)) Q h.
Proof.
  iIntros (h1 Hk Hp Hl) "[Hw HQ]". change (kernelvec f) with (ADDI sp sp (-256) :: sds sp kv_slots ++ [CALL f]).
  asm_step; [done|]. iApply (hwp_run_sds _ _ _ _ pa _ _ _ _ ws); [done|by rw Hl|rw Hl; repeat constructor|].
  iFrame "Hw". iIntros "Hw". asm_jump; [done|]. iApply ("HQ" with "Hw").
Qed.

Definition resume (ws : list Z) (h : hart) : hart :=
  let f := loaded ws kv_slots' (x h) in sret (h <| x := <[sp := u64 (f sp + 256)]> f |>).

Lemma hwp_kernelvec_return k i h pa ws (Q : unit → hart → hprop) :
  fetchable translate k h → points translate h sp 32 pa → length ws = 32%nat →
  words pa ws ∗ (words pa ws -∗ Q tt (resume ws h)) ⊢ hwp (run k i kernelvec_return) Q h.
Proof.
  iIntros (Hk Hp Hl) "[Hw HQ]". change kernelvec_return with (lds sp kv_slots' ++ [ADDI sp sp 256; SRET]).
  iApply (hwp_run_lds _ _ _ _ pa ws); [done|by rw Hl|rw Hl; repeat (constructor; [split; [done|cbn; lia]|]); constructor|].
  iFrame "Hw". iIntros "Hw". asm_step; [done|]. asm_jump; [done|]. iApply ("HQ" with "Hw").
Qed.
End asm_thms.

(** ** Status bits *)
Lemma land_bit v n : 0 <= n → bool_decide (Z.land v (Z.shiftl 1 n) ≠ 0) = Z.testbit v n.
Proof.
  intros Hn. rw Z.shiftl_1_l. destruct (Z.testbit v n) eqn:E.
  - apply bool_decide_eq_true_2. intros H0. apply (f_equal (λ z, Z.testbit z n)) in H0.
    rw Z.land_spec E Z.pow2_bits_true in H0; [|lia]. by rw Z.bits_0 in H0.
  - apply bool_decide_eq_false_2. intros H0. apply H0. apply Z.bits_inj'. intros j Hj.
    rw Z.land_spec Z.bits_0 Z.pow2_bits_eqb; [|lia]. destruct (Z.eqb_spec n j) as [->|]; [by rw E|apply andb_false_r].
Qed.

Lemma set_bit v n j : 0 <= n → 0 <= j → Z.testbit (Z.lor v (Z.shiftl 1 n)) j = Z.testbit v j || bool_decide (j = n).
Proof.
  intros Hn Hj. rw Z.lor_spec Z.shiftl_1_l Z.pow2_bits_eqb; [|lia]. f_equal.
  destruct (Z.eqb_spec n j); [by rw bool_decide_eq_true_2|by rw bool_decide_eq_false_2; auto].
Qed.
Lemma clear_bit v n j : 0 <= n → 0 <= j → Z.testbit (Z.land v (Z.lnot (Z.shiftl 1 n))) j = Z.testbit v j && bool_decide (j ≠ n).
Proof.
  intros Hn Hj. rw Z.land_spec Z.lnot_spec; [|lia]. rw Z.shiftl_1_l Z.pow2_bits_eqb; [|lia]. f_equal.
  destruct (Z.eqb_spec n j); [by rw bool_decide_eq_false_2; auto|by rw bool_decide_eq_true_2; auto].
Qed.

Abbreviation SIE h := (Z.testbit (sstatus (csr h)) 1).
Abbreviation SPIE h := (Z.testbit (sstatus (csr h)) 5).
Abbreviation SPP h := (Z.testbit (sstatus (csr h)) 8).

Lemma sret_bits h : user (sret h) = negb (SPP h) ∧ SIE (sret h) = SPIE h ∧ pc (sret h) = sepc (csr h).
Proof.
  split_and!; [| |done].
  - change (user (sret h)) with (bool_decide (Z.land (sstatus (csr h)) (Z.shiftl 1 8) = 0)).
    rw -(land_bit _ 8) //. by case_bool_decide; case_bool_decide.
  - change (sstatus (csr (sret h))) with (sret_status (sstatus (csr h))). generalize (sstatus (csr h)) as s. intros s.
    rw /sret_status /SSTATUS_SPP /SSTATUS_SPIE /SSTATUS_SIE (land_bit _ 5) // clear_bit // set_bit //.
    destruct (Z.testbit s 5); [rw set_bit //|rw clear_bit //]; by destruct (Z.testbit s 1).
Qed.

Lemma trap_bits cause val h :
  SPP (trap cause val h) = negb (user h) ∧ SPIE (trap cause val h) = SIE h ∧ SIE (trap cause val h) = false.
Proof.
  change (sstatus (csr (trap cause val h))) with (trap_status (user h) (sstatus (csr h))).
  generalize (sstatus (csr h)), (user h). intros s u. rw /trap_status /SSTATUS_SPP /SSTATUS_SPIE /SSTATUS_SIE (land_bit _ 1) //.
  rw !clear_bit //. split_and!; [| |by rw andb_false_r].
  - destruct u; [rw clear_bit //|rw set_bit //]; by rw ?andb_false_r ?orb_true_r.
  - destruct u; [rw clear_bit //|rw set_bit //]; (destruct (Z.testbit s 1); [rw set_bit //|rw clear_bit //]); by destruct (Z.testbit s 5).
Qed.

Lemma leave_bits ws h : user (leave ws h) = negb (SPP h) ∧ SIE (leave ws h) = SPIE h ∧ pc (leave ws h) = sepc (csr h).
Proof. exact (sret_bits _). Qed.

Section rules.
Context (translate : Z → Z → option Z).

Lemma hwp_run_at k i prog (Q : unit → hart → hprop) h :
  pc h = c_va k + c_off k i → hwp (run translate k i prog) Q h ⊢ hwp (run_at translate k i prog) Q h.
Proof. iIntros (Hpc) "HQ". iApply hwp_bind. iApply hwp_get_rest. by rw bool_decide_eq_true_2. Qed.

Lemma hwp_of_triple {R A} P (m : M (st R) A) r (Q Q' : A → R → hprop) :
  triple P m r Q → P ∗ (∀ a r', Q a r' -∗ Q' a r') ⊢ hwp m Q' r.
Proof.
  iIntros (Ht) "[HP HQ]". iApply hwp_wand. iFrame "HQ". by iApply (triple_hwp _ _ _ _ Ht).
Qed.

(** The fields of the trapframe that are for the kernel, and the registers. *)
Lemma words_head a w0 w1 w2 w3 w4 ws :
  words a (w0 :: w1 :: w2 :: w3 :: w4 :: ws) ⊣⊢
  (a + tf_kernel_satp) ↦w w0 ∗ (a + tf_kernel_sp) ↦w w1 ∗ (a + tf_kernel_trap) ↦w w2 ∗ (a + tf_epc) ↦w w3 ∗
  (a + tf_kernel_hartid) ↦w w4 ∗ words (a + 40) ws.
Proof. rw !words_cons -!Z.add_assoc /tf_kernel_satp Z.add_0_r. done. Qed.

(** kernel/trap.c prepare_return, on the trapframe of the running process. *)
Lemma hwp_prepare_return `{TextSyms} c r i p ws (Q : csrs → sys → hprop) :
  cur r = Some i → procs r !! i = Some p → length ws = 36%nat →
  let ws' := u64 (satp c) :: u64 (p_kstack p + PGSIZE) :: u64 usertrap_sym :: ws !!! 3%nat :: u64 (hartid c) :: drop 5 ws in
  let s := Z.land (sstatus c) (Z.lnot SSTATUS_SIE) in
  words (p_trapframe p) ws ∗
  (words (p_trapframe p) ws' -∗
   Q (c <| stvec := u64 (TRAMPOLINE + uservec_off) |> <| sstatus := Z.lor (Z.land s (Z.lnot SSTATUS_SPP)) SSTATUS_SPIE |>
        <| sepc := ws !!! 3%nat |>) r) ⊢
  hwp (prepare_return c) Q r.
Proof.
  iIntros (Hc Hp Hl ws' s) "[Hw HQ]". subst ws' s. destruct ws as [|w0 [|w1 [|w2 [|w3 [|w4 ws]]]]]; try discriminate Hl.
  change ((w0 :: w1 :: w2 :: w3 :: w4 :: ws) !!! 3%nat) with w3. change (drop 5 (w0 :: w1 :: w2 :: w3 :: w4 :: ws)) with ws.
  rw !words_head. iDestruct "Hw" as "(W0 & W1 & W2 & W3 & W4 & Hw)". rw /prepare_return.
  iApply hwp_bind. iApply (hwp_rest _ i r); [intros m; by rw /the_proc /myproc /rd /mbind /M_bind /= Hc|].
  iApply hwp_bind. iApply (hwp_rest _ p r); [intros m; by rw /proc_get /rd /mbind /M_bind /= Hp|].
  iApply hwp_bind. iApply hwp_store64. iFrame "W0". iIntros "W0".
  iApply hwp_bind. iApply hwp_store64. iFrame "W1". iIntros "W1". replace (u64 (u64 (p_kstack p + PGSIZE))) with (u64 (p_kstack p + PGSIZE)) by (symmetry; by apply Z.mod_mod).
  iApply hwp_bind. iApply hwp_store64. iFrame "W2". iIntros "W2".
  iApply hwp_bind. iApply hwp_store64. iFrame "W4". iIntros "W4".
  iApply hwp_bind. iApply hwp_load64. iFrame "W3". iIntros "W3".
  iApply hwp_ret. iApply "HQ". iFrame.
Qed.
End rules.

(** ** Theorems *)
Section theorems.
Context (translate : Z → Z → option Z).
Abbreviation run_at := (run_at translate).
Abbreviation text_mapped := (text_mapped translate).
Abbreviation tf_mapped := (tf_mapped translate).

Definition callee_saved : list reg := [ra; sp; s0; s1; s2; s3; s4; s5; s6; s7; s8; s9; s10; s11].

Lemma loaded_context c f :
  length (ctx_s c) = 12%nat →
  (∀ h, x h = loaded (context_words c) swtch_slots f → context_of h = c) ∧
  (∀ r, r ∉ callee_saved → loaded (context_words c) swtch_slots f r = f r).
Proof.
  destruct c as [cra csp l]. cbn [ctx_s]. intros Hl. list_elements l Hl. split; [intros h Hx; rw /context_of Hx //|].
  intros r Hr. by destruct r; try (exfalso; apply Hr, (bool_decide_unpack _); vm_compute; exact I).
Qed.

(** C19. A context switch: swtch saves the registers that a C function may expect to
    be kept in the old context and takes them from the new one, continues at the
    return address that was saved there, and touches nothing else. *)
Theorem swtch_correct k h old new ws c :
  fetchable translate k h → regs_ok h → points translate h a0 14 old → points translate h a1 14 new →
  length ws = 14%nat → length (ctx_s c) = 12%nat → pc h = c_va k + c_off k 0 →
  ⦃ words old ws ∗ words new (context_words c) ⦄ (run_at k 0 swtch_asm) @ h
  ⟪ _ h', words old (context_words (context_of h)) ∗ words new (context_words c) ∗
    ⟦context_of h' = c ∧ pc h' = ctx_ra c ∧ csr h' = csr h ∧ ∀ r, r ∉ callee_saved → x h' r = x h r⟧ ⟫.
Proof.
  intros Hk Hr Hold Hnew Hl Hc Hpc. destruct (loaded_context c (x h) Hc) as [Hcx Hother]. apply hwp_triple. iIntros "[Hold Hnew]".
  iApply hwp_run_at; [done|]. iApply hwp_swtch; [done..|]. iFrame. iIntros "$ $". iPureIntro. split_and!; [by apply Hcx|done|done|done].
Qed.

(** What usertrap promises to the trampoline: it returns to the caller with the
    user page table's satp in a0, paging and the TLB as they were, the status set
    for a return to user mode; in the trapframe it may set a0, the result of a
    system call, and the fields that are not user registers. *)
Definition kernel_ok (kernel : H unit) (tf usatp : Z) : Prop :=
  ∀ h head f, length head = 5%nat → tlb h = None →
  ⦃ words tf (head ++ (f <$> tf_regs)) ⦄ kernel @ h
  ⟪ _ h', ∃ head' v, words tf (head' ++ (<[a0 := v]> f <$> tf_regs)) ∗
    ⟦length head' = 5%nat ∧ pc h' = x h ra ∧ x h' a0 = usatp ∧ satp (csr h') = satp (csr h) ∧ tlb h' = None ∧
     SPP h' = false ∧ SPIE h' = true ∧ sepc (csr h') = head' !!! 3%nat⟧ ⟫.


Lemma prepare_bits s :
  let s' := Z.lor (Z.land (Z.land s (Z.lnot SSTATUS_SIE)) (Z.lnot SSTATUS_SPP)) SSTATUS_SPIE in
  Z.testbit s' 8 = false ∧ Z.testbit s' 5 = true.
Proof. cbv zeta. rw /SSTATUS_SPP /SSTATUS_SPIE /SSTATUS_SIE !set_bit // clear_bit // andb_false_r orb_true_r //. Qed.

(** A user program that has been entered by [u0]: it cannot change satp and stvec. *)
Definition user_run (u0 u : hart) : Prop :=
  user u = true ∧ tlb u = None ∧ regs_ok u ∧ satp (csr u) = satp (csr u0) ∧ stvec (csr u) = stvec (csr u0).

(** C11. The way out and the way in fit together.  After prepare_return userret
    enters user mode at the saved pc with the registers of the trapframe; and when
    the program then traps, with whatever registers, uservec saves them and calls
    usertrap on the process's kernel stack, with the kernel's page table, the hart's
    number in tp and a return address that is userret, in supervisor mode with
    interrupts off, as usertrap expects. *)
Theorem trap_cycle `{TextSyms} k c r i p head (f : reg → Z) usatp :
  cur r = Some i → procs r !! i = Some p → length head = 5%nat →
  u64 (TRAMPOLINE + uservec_off) = c_va k + c_off k 0 →
  0 <= satp c < 2 ^ 64 → 0 <= hartid c < 2 ^ 64 → 0 <= usertrap_sym < 2 ^ 64 →
  text_mapped (satp c) k → text_mapped usatp k → tf_mapped usatp (p_trapframe p) →
  ⦃ words (p_trapframe p) (head ++ (f <$> tf_regs)) ⦄ (prepare_return c) @ r
  ⟪ c' r', ∃ ws, words (p_trapframe p) ws ∗ ⟦r' = r ∧
    ∀ h, csr h = c' → x h a0 = usatp → tlb h = None → pc h = (c_va k + c_off k (length uservec))%Z →
      ⦃ words (p_trapframe p) ws ⦄ (run_at k (length uservec) userret) @ h
      ⟪ _ u0, words (p_trapframe p) ws ∗
        ⟦user u0 = true ∧ SIE u0 = true ∧ pc u0 = head !!! 3%nat ∧ satp (csr u0) = usatp ∧ (∀ r, x u0 r = f r) ∧
         ∀ u cause val, user_run u0 u →
           ⦃ words (p_trapframe p) ws ⦄ (run_at k 0 uservec) @ (trap cause val u)
           ⟪ _ h', words (p_trapframe p) (take 5 ws ++ (x u <$> tf_regs)) ∗
             ⟦pc h' = usertrap_sym ∧ x h' sp = u64 (p_kstack p + PGSIZE)%Z ∧ x h' tp = hartid c ∧
              satp (csr h') = satp c ∧ x h' ra = (c_va k + c_off k (length uservec))%Z ∧
              user h' = false ∧ SPP h' = false ∧ SIE h' = false ∧ sepc (csr h') = pc u⟧ ⟫⟧ ⟫⟧ ⟫.
Proof.
  intros Hc Hp Hl Hv Hsatp Hid Hsym Hk Hk' Htf. apply hwp_triple. iIntros "Hw".
  assert (length (head ++ (f <$> tf_regs)) = 36%nat) as Hlw by (by rw length_app Hl length_fmap).
  iApply (hwp_prepare_return _ _ _ _ _ _ Hc Hp Hlw). iFrame "Hw". iIntros "Hw".
  assert (drop 5 (head ++ (f <$> tf_regs)) = f <$> tf_regs) as -> by (by rw drop_app_length').
  assert ((head ++ (f <$> tf_regs)) !!! 3%nat = head !!! 3%nat) as -> by (rw lookup_total_app_l //; lia).
  rw /uN !(Z.mod_small (satp c)) // (Z.mod_small (hartid c)) // (Z.mod_small usertrap_sym) //. fold (u64 (p_kstack p + PGSIZE)).
  set (ws := satp c :: _). iExists ws. iFrame "Hw". iPureIntro. split; [done|].
  assert (length ws = 36%nat) as Hws by reflexivity.
  intros h Hcsr Ha0 Ht Hpc. apply hwp_triple. iIntros "Hw". iApply hwp_run_at; [done|].
  iApply (hwp_userret _ _ _ _ ws); [done|by rw Hcsr|by rw Ha0|by rw Ha0|done|]. iFrame "Hw". iIntros "$". iPureIntro.
  destruct (leave_bits ws h) as (Hu & Hsie & Hepc). destruct (prepare_bits (sstatus c)) as [Hspp Hspie]. rw Hcsr in Hu Hsie Hepc.
  split_and!; [by rw Hu; rw Hspp|by rw Hsie; rw Hspie|done|done|by intros r'; apply (leave_regs [_; _; _; _; _])|].
  intros u cause val (Huser & Htu & Hr & Hs & Hst). change (satp (csr (leave ws h))) with (x h a0) in Hs.
  change (stvec (csr (leave ws h))) with (stvec (csr h)) in Hst. rw Ha0 in Hs. rw Hcsr in Hst.
  destruct (trap_bits cause val u) as (HSPP & _ & HSIE). rw Huser in HSPP.
  apply hwp_triple. iIntros "Hw". iApply hwp_run_at; [by rw -Hv|].
  iApply (hwp_uservec _ _ _ _ ws); [done|done|by rw /= Hs|by rw /= Hs|done|done|]. iFrame "Hw". iIntros "$". iPureIntro.
  split_and!; done.
Qed.

(** What kerneltrap promises to kernelvec: the calling convention of C, a stack
    frame of the caller that it does not touch, and the registers that it restores
    (see [kerneltrap_restores]). *)
Definition abi_kept (h h' : hart) : Prop :=
  (∀ r, r ∈ [sp; s0; s1; s2; s3; s4; s5; s6; s7; s8; s9; s10; s11] → x h' r = x h r) ∧ pc h' = x h ra ∧ tlb h' = None ∧
  satp (csr h') = satp (csr h) ∧ sepc (csr h') = sepc (csr h) ∧ sstatus (csr h') = sstatus (csr h).

Definition abi_ok (kerneltrap : H unit) (pa : Z) : Prop :=
  ∀ h ws, length ws = 32%nat → tlb h = None →
  ⦃ words pa ws ⦄ kerneltrap @ h ⟪ _ h', words pa ws ∗ ⟦abi_kept h h'⟧ ⟫.

Lemma hwp_abi kerneltrap pa h ws (Q : unit → hart → hprop) :
  abi_ok kerneltrap pa → length ws = 32%nat → tlb h = None →
  words pa ws ∗ (∀ h', ⟦abi_kept h h'⟧ -∗ words pa ws -∗ Q tt h') ⊢ hwp kerneltrap Q h.
Proof.
  iIntros (Ha Hl Ht) "[Hw HQ]". iApply (hwp_of_triple _ _ _ _ _ (Ha h ws Hl Ht)). iFrame "Hw".
  iIntros ([] h') "[Hw Hk]". iApply ("HQ" with "Hk Hw").
Qed.

Lemma resume_regs f ws h h1 r :
  length ws = 32%nat → regs_ok h → r ≠ tp → x h1 sp = u64 (x h sp + -256) →
  (∀ r, r ∈ [s0; s1; s2; s3; s4; s5; s6; s7; s8; s9; s10; s11] → x h1 r = x h r) → f = x h →
  x (resume (saved f kv_slots ws) h1) r = x h r.
Proof.
  intros Hl Hr Htp Hsp Hs ->. list_elements ws Hl.
  destruct r; try done; try (apply Hs, (bool_decide_unpack _); vm_compute; exact I); try apply (u64_reg h _ Hr).
  change (u64 (x h1 sp + 256) = x h sp). rw Hsp /uN Zplus_mod_idemp_l -Z.add_assoc Z.add_0_r. apply Z.mod_small, Hr.
Qed.

End theorems.

(** kerneltrap leaves sepc and sstatus as they were. *)
Lemma kerneltrap_restores `{Linker} `{Sched} `{BlockDev} `{TextSyms} c s c' s' :
  kerneltrap c s = Ok c' s' → sepc c' = sepc c ∧ sstatus c' = sstatus c.
Proof.
  rw /kerneltrap. case_bool_decide; [done|]. destruct (intr_get c); [done|]. intros ([c1 dev] & s1 & _ & Hrun)%bind_ok.
  case_bool_decide; [by apply bind_ok in Hrun as (? & ? & _ & Hrun)|].
  apply bind_ok in Hrun as (p & s2 & _ & Hrun). apply bind_ok in Hrun as (? & s3 & _ & Hrun). by injection Hrun as <- _.
Qed.

(** ** Witnesses *)
Ltac va_lia := change TRAMPOLINE with 274877902848 in *; change TRAPFRAME with 274877898752 in *; change MAXVA with 274877906944; lia.
Lemma sat_words a ws : Forall (λ w, 0 <= w < 2 ^ 64) ws → sat (words a ws) a (a + 8 * Z.of_nat (length ws)).
Proof.
  intros Hws. revert a; induction Hws as [|w ws Hw _ IH]; intros a; [rw Z.add_0_r; apply sat_emp|].
  apply (sat_mono (a ↦w w ∗ words (a + 8) ws)%I); [by rw words_cons|]. apply sat_sep with (a + 8); [simpl; lia| |].
  - apply (sat_mono (a ↦∗ le_split 8 w)%I); [rw /pt64; iIntros "$"; by iPureIntro|].
    pose proof (sat_array a (le_split 8 w)) as Hs. by rw length_le_split in Hs.
  - replace (a + 8 * Z.of_nat (length (w :: ws))) with (a + 8 + 8 * Z.of_nat (length ws)) by (simpl; lia). apply IH.
Qed.

(** Memory that is mapped to itself except for the two pages at the top, as the user
    page table, 1, and the kernel's, any other, have it. *)
Definition translate0 (s va : Z) : option Z :=
  if decide (TRAMPOLINE <= va < MAXVA) then Some (va - TRAMPOLINE + 4096)
  else if decide (s = 1 ∧ TRAPFRAME <= va < TRAMPOLINE) then Some (va - TRAPFRAME + 8192) else Some va.

Definition trampoline0 : code := Code TRAMPOLINE 4096 (λ i, 4 * (Z.of_nat i mod 1024)).
Definition text0 : code := Code (2 ^ 31) (2 ^ 31) (λ i, 4 * (Z.of_nat i mod 1024)).
Definition csrs0 : csrs := CSRs 0 0 0 0 TRAMPOLINE 1 0 0 0 0.
Definition reg0 (r : reg) : Z :=
  match r with ra => 77 | sp => 65536 | s1 => 11 | a0 => 12288 | a1 => 16384 | a7 => 16 | t6 => 36 | _ => 5 end.
Definition hart0 : hart := Hart reg0 csrs0 0 None true 1234.

Lemma trampoline0_mapped s : text_mapped translate0 s trampoline0.
Proof. intros i. cbn [trampoline0 c_va c_off c_pa]. pose proof (Z.mod_pos_bound (Z.of_nat i) 1024 ltac:(lia)). rw /translate0 decide_True; [f_equal; va_lia|]. va_lia. Qed.
Lemma reg0_ok : regs_ok hart0.
Proof. intros r. by destruct r. Qed.

Lemma low_points h r n a :
  x h r = a → a mod 8 = 0 → 0 <= a → a + 8 * Z.of_nat n <= 2 ^ 32 → tlb h = None → points translate0 h r n a.
Proof.
  intros <- Ha H0 Hn Ht j Hj. assert (u64 (x h r + 8 * Z.of_nat j) = x h r + 8 * Z.of_nat j) as -> by (apply Z.mod_small; lia).
  split; [rw (Z.mul_comm 8) Z_mod_plus_full //|]. rw /maps Ht. split; [|done].
  rw /translate0 decide_False; [|va_lia]. rw decide_False; [done|]. va_lia.
Qed.

Lemma text0_mapped s : text_mapped translate0 s text0.
Proof.
  intros i. cbn [text0 c_va c_off c_pa]. pose proof (Z.mod_pos_bound (Z.of_nat i) 1024 ltac:(lia)).
  rw /translate0 decide_False; [|va_lia]. rw decide_False; [done|]. va_lia.
Qed.

Lemma trapframe0_mapped : tf_mapped translate0 1 8192.
Proof.
  intros j Hj. rw /translate0 decide_False; [|va_lia].
  rw decide_True; [f_equal; va_lia|]. va_lia.
Qed.

Definition kernel_hart0 : hart := Hart reg0 (csrs0 <| satp := 0 |> <| stvec := 2 ^ 31 |>) 0 None false (2 ^ 31).
Definition context0 : context := Context 500 600 (replicate 12 9).

Lemma sat_words_in a ws lo hi :
  Forall (λ w, 0 <= w < 2 ^ 64) ws → lo <= a → a + 8 * Z.of_nat (length ws) <= hi → sat (words a ws) lo hi.
Proof.
  intros Hws Hlo Hhi. destruct (sat_words a ws Hws) as (m & Hm & Hd). exists m. split; [done|]. intros b Hb. specialize (Hd b Hb). lia.
Qed.

Lemma swtch_correct_witness :
  ∃ m h' m', run_at translate0 text0 0 swtch_asm (St m kernel_hart0) = Ok tt (St m' h').
Proof.
  destruct (sat_sep (words 12288 (replicate 14 3)) (words 16384 (context_words context0)) 12288 16384 20480) as (m & Hm & _);
    [lia|apply sat_words_in; [by repeat constructor|lia|simpl; lia]..|].
  destruct (triple_run _ _ _ _ _ (swtch_correct translate0 text0 kernel_hart0 12288 16384 (replicate 14 3) context0
    ltac:(apply text_fetchable; [apply text0_mapped|done]) ltac:(intros r; by destruct r)
    ltac:(by apply low_points) ltac:(by apply low_points)
    ltac:(done) ltac:(done) ltac:(done)) Hm) as ([] & h' & m' & Hrun & _).
  by exists m, h', m'.
Defined.

(** A kernel that returns 42 from the system call. *)
Definition kernel0 : H unit :=
  store64 (8192 + tf_a 0) 42;;
  epc ← load64 (8192 + tf_epc);
  h ← get_rest;
  put_rest (Hart (<[a0 := 1]> (λ _, 0)) ((csr h) <| sepc := epc |> <| sstatus := 32 |>) 0 None false (x h ra)).

Lemma kernel0_ok : kernel_ok kernel0 8192 1.
Proof.
  intros h head f Hl Ht. apply hwp_triple. iIntros "Hw". rw /kernel0. iApply hwp_bind.
  assert ((head ++ (f <$> tf_regs)) !! 14%nat = Some (f a0)) as H14 by (rw lookup_app_r; [by rw Hl|lia]).
  iDestruct (words_acc _ _ _ _ H14 with "Hw") as "[W Hw]". iApply hwp_store64. change (8192 + 8 * 14%nat) with (8192 + tf_a 0).
  iFrame "W". iIntros "W". iSpecialize ("Hw" with "W").
  rw insert_app_r_alt; [|lia]. rw Hl. change (<[(14 - 5)%nat := u64 42]> (f <$> tf_regs)) with (<[a0 := 42]> f <$> tf_regs).
  assert ((head ++ (<[a0 := 42]> f <$> tf_regs)) !! 3%nat = Some (head !!! 3%nat)) as H3.
  { rw lookup_app_l; [|lia]. apply list_lookup_lookup_total_lt. lia. }
  iDestruct (words_acc _ _ _ _ H3 with "Hw") as "[W Hw]". iApply hwp_bind. iApply hwp_load64.
  change (8192 + 8 * 3%nat) with (8192 + tf_epc). iFrame "W". iIntros "W". iSpecialize ("Hw" with "W"). rw list_insert_id //.
  iApply hwp_bind. iApply hwp_get_rest. iApply hwp_put_rest. iExists head, 42. iFrame "Hw". done.
Qed.


Definition asm_syms : TextSyms := Build_TextSyms 1 2 3 0 168.
Definition proc_tf : proc := proc0 <| p_trapframe := 8192 |> <| p_kstack := 65536 |>.
Definition sys_tf : sys := (sys0 ∅) <| cur := Some 0%nat |> <| procs := [proc_tf] |>.

Lemma trap_cycle_witness :
  ∃ m c' r' m', @prepare_return asm_syms (csrs0 <| satp := 0 |>) (St m sys_tf) = Ok c' (St m' r').
Proof.
  destruct (sat_words 8192 ([0; 0; 0; 4096; 0] ++ (reg0 <$> tf_regs))) as (m & Hm & _); [by repeat constructor|].
  destruct (triple_run _ _ _ _ _ (@trap_cycle translate0 asm_syms trampoline0 (csrs0 <| satp := 0 |>) sys_tf 0 proc_tf [0; 0; 0; 4096; 0] reg0 1
    eq_refl eq_refl eq_refl eq_refl ltac:(done) ltac:(done) ltac:(done)
    (trampoline0_mapped 0) (trampoline0_mapped 1) trapframe0_mapped) Hm) as (c' & r' & m' & Hrun & _).
  by exists m, c', r', m'.
Defined.

(** A kerneltrap that uses the registers it may use. *)
Definition kerneltrap0 : H unit :=
  h ← get_rest;
  put_rest (h <| x := <[tp := 1]> (<[t0 := 99]> (<[a0 := 99]> (<[ra := 99]> (x h)))) |> <| pc := x h ra |>).

Lemma kerneltrap0_ok pa : abi_ok kerneltrap0 pa.
Proof.
  intros h ws Hl Ht. apply hwp_triple. iIntros "Hw". iApply hwp_bind. iApply hwp_get_rest. iApply hwp_put_rest. iFrame "Hw".
  iPureIntro. split_and!; [|done..]. intros r Hr. destruct r; try done; exfalso; revert Hr; apply (bool_decide_unpack _); vm_compute; exact I.
Qed.

