(* ===== verification/Start.v ===== *)
(** * kernel/entry.S, kernel/start.c, kernel/plic.c: a hart comes up

    The machine-mode registers that start writes are [mregs]; the functions of
    riscv.h that read and write them are its fields and updates.  The interrupt
    controller is its 32-bit registers by address. *)
From S2P Require Import Prelude.
From S2P Require Import Params.
From S2P Require Import State.
From S2P Require Import Spinlock.
From S2P Require Import Trap.
#[local] Open Scope Z_scope.

Inductive mode : Type := Machine | Supervisor | User.

#[export] Instance mode_eq : EqDecision mode.
Proof. solve_decision. Defined.

Record mregs : Type := MRegs {
  m_mode : mode;
  m_pc : Z;
  m_sp : Z;
  m_tp : Z;
  mhartid : Z;
  mstatus : Z;
  mepc : Z;
  m_satp : Z;
  medeleg : Z;
  mideleg : Z;
  sie : Z;
  pmpaddr0 : Z;
  pmpcfg0 : Z;
  mie : Z;
  menvcfg : Z;
  mcounteren : Z;
  m_stimecmp : Z;
  time : Z }.

#[export] Instance set_m_mode : Setter m_mode := λ g r,
  MRegs
    (g (m_mode r)) (m_pc r) (m_sp r) (m_tp r) (mhartid r) (mstatus r) (mepc r) (m_satp r)
    (medeleg r) (mideleg r) (sie r) (pmpaddr0 r) (pmpcfg0 r) (mie r) (menvcfg r) (mcounteren r)
    (m_stimecmp r) (time r).
#[export] Instance set_m_pc : Setter m_pc := λ g r,
  MRegs
    (m_mode r) (g (m_pc r)) (m_sp r) (m_tp r) (mhartid r) (mstatus r) (mepc r) (m_satp r)
    (medeleg r) (mideleg r) (sie r) (pmpaddr0 r) (pmpcfg0 r) (mie r) (menvcfg r) (mcounteren r)
    (m_stimecmp r) (time r).
#[export] Instance set_m_sp : Setter m_sp := λ g r,
  MRegs
    (m_mode r) (m_pc r) (g (m_sp r)) (m_tp r) (mhartid r) (mstatus r) (mepc r) (m_satp r)
    (medeleg r) (mideleg r) (sie r) (pmpaddr0 r) (pmpcfg0 r) (mie r) (menvcfg r) (mcounteren r)
    (m_stimecmp r) (time r).
#[export] Instance set_m_tp : Setter m_tp := λ g r,
  MRegs
    (m_mode r) (m_pc r) (m_sp r) (g (m_tp r)) (mhartid r) (mstatus r) (mepc r) (m_satp r)
    (medeleg r) (mideleg r) (sie r) (pmpaddr0 r) (pmpcfg0 r) (mie r) (menvcfg r) (mcounteren r)
    (m_stimecmp r) (time r).
#[export] Instance set_mhartid : Setter mhartid := λ g r,
  MRegs
    (m_mode r) (m_pc r) (m_sp r) (m_tp r) (g (mhartid r)) (mstatus r) (mepc r) (m_satp r)
    (medeleg r) (mideleg r) (sie r) (pmpaddr0 r) (pmpcfg0 r) (mie r) (menvcfg r) (mcounteren r)
    (m_stimecmp r) (time r).
#[export] Instance set_mstatus : Setter mstatus := λ g r,
  MRegs
    (m_mode r) (m_pc r) (m_sp r) (m_tp r) (mhartid r) (g (mstatus r)) (mepc r) (m_satp r)
    (medeleg r) (mideleg r) (sie r) (pmpaddr0 r) (pmpcfg0 r) (mie r) (menvcfg r) (mcounteren r)
    (m_stimecmp r) (time r).
#[export] Instance set_mepc : Setter mepc := λ g r,
  MRegs
    (m_mode r) (m_pc r) (m_sp r) (m_tp r) (mhartid r) (mstatus r) (g (mepc r)) (m_satp r)
    (medeleg r) (mideleg r) (sie r) (pmpaddr0 r) (pmpcfg0 r) (mie r) (menvcfg r) (mcounteren r)
    (m_stimecmp r) (time r).
#[export] Instance set_m_satp : Setter m_satp := λ g r,
  MRegs
    (m_mode r) (m_pc r) (m_sp r) (m_tp r) (mhartid r) (mstatus r) (mepc r) (g (m_satp r))
    (medeleg r) (mideleg r) (sie r) (pmpaddr0 r) (pmpcfg0 r) (mie r) (menvcfg r) (mcounteren r)
    (m_stimecmp r) (time r).
#[export] Instance set_medeleg : Setter medeleg := λ g r,
  MRegs
    (m_mode r) (m_pc r) (m_sp r) (m_tp r) (mhartid r) (mstatus r) (mepc r) (m_satp r)
    (g (medeleg r)) (mideleg r) (sie r) (pmpaddr0 r) (pmpcfg0 r) (mie r) (menvcfg r) (mcounteren r)
    (m_stimecmp r) (time r).
#[export] Instance set_mideleg : Setter mideleg := λ g r,
  MRegs
    (m_mode r) (m_pc r) (m_sp r) (m_tp r) (mhartid r) (mstatus r) (mepc r) (m_satp r) (medeleg r)
    (g (mideleg r)) (sie r) (pmpaddr0 r) (pmpcfg0 r) (mie r) (menvcfg r) (mcounteren r)
    (m_stimecmp r) (time r).
#[export] Instance set_sie : Setter sie := λ g r,
  MRegs
    (m_mode r) (m_pc r) (m_sp r) (m_tp r) (mhartid r) (mstatus r) (mepc r) (m_satp r) (medeleg r)
    (mideleg r) (g (sie r)) (pmpaddr0 r) (pmpcfg0 r) (mie r) (menvcfg r) (mcounteren r)
    (m_stimecmp r) (time r).
#[export] Instance set_pmpaddr0 : Setter pmpaddr0 := λ g r,
  MRegs
    (m_mode r) (m_pc r) (m_sp r) (m_tp r) (mhartid r) (mstatus r) (mepc r) (m_satp r) (medeleg r)
    (mideleg r) (sie r) (g (pmpaddr0 r)) (pmpcfg0 r) (mie r) (menvcfg r) (mcounteren r)
    (m_stimecmp r) (time r).
#[export] Instance set_pmpcfg0 : Setter pmpcfg0 := λ g r,
  MRegs
    (m_mode r) (m_pc r) (m_sp r) (m_tp r) (mhartid r) (mstatus r) (mepc r) (m_satp r) (medeleg r)
    (mideleg r) (sie r) (pmpaddr0 r) (g (pmpcfg0 r)) (mie r) (menvcfg r) (mcounteren r)
    (m_stimecmp r) (time r).
#[export] Instance set_mie : Setter mie := λ g r,
  MRegs
    (m_mode r) (m_pc r) (m_sp r) (m_tp r) (mhartid r) (mstatus r) (mepc r) (m_satp r) (medeleg r)
    (mideleg r) (sie r) (pmpaddr0 r) (pmpcfg0 r) (g (mie r)) (menvcfg r) (mcounteren r)
    (m_stimecmp r) (time r).
#[export] Instance set_menvcfg : Setter menvcfg := λ g r,
  MRegs
    (m_mode r) (m_pc r) (m_sp r) (m_tp r) (mhartid r) (mstatus r) (mepc r) (m_satp r) (medeleg r)
    (mideleg r) (sie r) (pmpaddr0 r) (pmpcfg0 r) (mie r) (g (menvcfg r)) (mcounteren r)
    (m_stimecmp r) (time r).
#[export] Instance set_mcounteren : Setter mcounteren := λ g r,
  MRegs
    (m_mode r) (m_pc r) (m_sp r) (m_tp r) (mhartid r) (mstatus r) (mepc r) (m_satp r) (medeleg r)
    (mideleg r) (sie r) (pmpaddr0 r) (pmpcfg0 r) (mie r) (menvcfg r) (g (mcounteren r))
    (m_stimecmp r) (time r).
#[export] Instance set_m_stimecmp : Setter m_stimecmp := λ g r,
  MRegs
    (m_mode r) (m_pc r) (m_sp r) (m_tp r) (mhartid r) (mstatus r) (mepc r) (m_satp r) (medeleg r)
    (mideleg r) (sie r) (pmpaddr0 r) (pmpcfg0 r) (mie r) (menvcfg r) (mcounteren r)
    (g (m_stimecmp r)) (time r).
#[export] Instance set_time : Setter time := λ g r,
  MRegs
    (m_mode r) (m_pc r) (m_sp r) (m_tp r) (mhartid r) (mstatus r) (mepc r) (m_satp r) (medeleg r)
    (mideleg r) (sie r) (pmpaddr0 r) (pmpcfg0 r) (mie r) (menvcfg r) (mcounteren r) (m_stimecmp r)
    (g (time r)).

(** ** kernel/riscv.h *)
Definition MSTATUS_MPP_MASK : Z := Z.shiftl 3 11.
Definition MSTATUS_MPP_S : Z := Z.shiftl 1 11.
Definition SIE_SEIE : Z := Z.shiftl 1 9.
Definition SIE_STIE : Z := Z.shiftl 1 5.
Definition MIE_STIE : Z := Z.shiftl 1 5.

(** What the hardware does at mret: MPP says which mode to enter. *)
Definition mret_ (r : mregs) : mregs :=
  let mpp := Z.land (Z.shiftr (mstatus r) 11) 3 in
  r <| m_pc := mepc r |> <| m_mode := if decide (mpp = 3) then Machine else if decide (mpp = 1) then Supervisor else User |>.

(** ** kernel/entry.S and kernel/start.c

    [stack0] and [main] are addresses that the linker chooses. *)
Definition _entry (stack0 start : Z) (r : mregs) : mregs :=
  let sp := stack0 in
  let a0 := 1024 * 4 in
  let a1 := mhartid r in
  let a1 := u64 (a1 + 1) in
  let a0 := u64 (a0 * a1) in
  let sp := u64 (sp + a0) in
  r <| m_sp := sp |> <| m_pc := start |>.

Definition timerinit (r : mregs) : mregs :=
  let r := r <| mie := Z.lor (mie r) MIE_STIE |> in
  let r := r <| menvcfg := Z.lor (menvcfg r) (u64 (Z.shiftl 1 63)) |> in
  let r := r <| mcounteren := Z.lor (mcounteren r) 2 |> in
  r <| m_stimecmp := u64 (time r + 1000000) |>.

Definition start (main : Z) (r : mregs) : mregs :=
  let x := mstatus r in
  let x := Z.land x (Z.lnot MSTATUS_MPP_MASK) in
  let x := Z.lor x MSTATUS_MPP_S in
  let r := r <| mstatus := x |> in
  let r := r <| mepc := main |> in
  let r := r <| m_satp := 0 |> in
  let r := r <| medeleg := 65535 |> in
  let r := r <| mideleg := 65535 |> in
  let r := r <| sie := Z.lor (Z.lor (sie r) SIE_SEIE) SIE_STIE |> in
  let r := r <| pmpaddr0 := 2 ^ 54 - 1 |> in
  let r := r <| pmpcfg0 := 15 |> in
  let r := timerinit r in
  let id := s32 (mhartid r) in
  let r := r <| m_tp := u64 id |> in
  mret_ r.

(** ** kernel/plic.c *)
Definition PLIC_SENABLE (hart : Z) : Z := PLIC + 8320 + hart * 256.
Definition PLIC_SPRIORITY (hart : Z) : Z := PLIC + 2101248 + hart * 8192.
Definition PLIC_SCLAIM (hart : Z) : Z := PLIC + 2101252 + hart * 8192.

Abbreviation plic := (gmap Z Z).

Definition plicinit (d : plic) : plic :=
  let d := <[PLIC + UART0_IRQ * 4 := 1]> d in
  <[PLIC + VIRTIO0_IRQ * 4 := 1]> d.

(** [hart] is cpuid(). *)
Definition plicinithart (hart : Z) (d : plic) : plic :=
  let d := <[PLIC_SENABLE hart := Z.lor (Z.shiftl 1 UART0_IRQ) (Z.shiftl 1 VIRTIO0_IRQ)]> d in
  <[PLIC_SPRIORITY hart := 0]> d.

(** [claim] is what the device answers at the address of the claim register. *)
Definition plic_claim (claim : Z → Z) (hart : Z) : Z := s32 (claim (PLIC_SCLAIM hart)).
Definition plic_complete (hart irq : Z) (d : plic) : plic := <[PLIC_SCLAIM hart := u32 irq]> d.

(** ** What start leaves *)
Lemma start_mpp s :
  Z.land (Z.shiftr (Z.lor (Z.land s (Z.lnot MSTATUS_MPP_MASK)) MSTATUS_MPP_S) 11) 3 = 1.
Proof.
  unfold MSTATUS_MPP_MASK, MSTATUS_MPP_S. rewrite Z.shiftr_lor, Z.shiftr_land, Z.land_lor_distr_l, <-Z.land_assoc.
  replace (Z.land (Z.shiftr (Z.lnot (Z.shiftl 3 11)) 11) 3) with 0 by reflexivity. by rewrite Z.land_0_r.
Qed.

(** Every hart enters main in supervisor mode, with paging off, its number in tp and
    a stack page of its own. *)
Theorem boot_hart stack0 start_sym main r :
  0 <= mhartid r < Z.of_nat NCPU → 0 <= stack0 → stack0 + 4096 * Z.of_nat NCPU < 2 ^ 64 →
  let r' := start main (_entry stack0 start_sym r) in
  m_mode r' = Supervisor ∧ m_pc r' = main ∧ m_satp r' = 0 ∧ m_tp r' = mhartid r ∧
  m_sp r' = stack0 + 4096 * (mhartid r + 1) ∧
  (∀ irq, irq ∈ [5; 9] → Z.testbit (sie r') irq = true).
Proof.
  intros Hid Hs Hsp. change (Z.of_nat NCPU) with 8 in *. cbv zeta. split_and!.
  - cbn. by rewrite start_mpp.
  - done.
  - done.
  - change (u64 (s32 (mhartid r)) = mhartid r). rewrite sN_small by lia. by rewrite uN_small by lia.
  - change (u64 (stack0 + u64 (4096 * u64 (mhartid r + 1))) = stack0 + 4096 * (mhartid r + 1)).
    rewrite (uN_small 64 (mhartid r + 1)) by lia. rewrite (uN_small 64 (4096 * (mhartid r + 1))) by lia. by rewrite uN_small by lia.
  - intros irq Hirq. change (sie _) with (Z.lor (Z.lor (sie r) SIE_SEIE) SIE_STIE). rewrite !Z.lor_spec.
    rewrite !elem_of_cons in Hirq. destruct Hirq as [->|[->|Hirq]]; [..|by apply not_elem_of_nil in Hirq].
    + rewrite (eq_refl : Z.testbit SIE_STIE 5 = true). apply orb_true_r.
    + rewrite (eq_refl : Z.testbit SIE_SEIE 9 = true). by rewrite orb_true_r.
Qed.

(** The stack pages of two harts do not overlap. *)
Lemma boot_stacks stack0 start_sym main r1 r2 a :
  0 <= mhartid r1 < Z.of_nat NCPU → 0 <= mhartid r2 < Z.of_nat NCPU → 0 <= stack0 → stack0 + 4096 * Z.of_nat NCPU < 2 ^ 64 →
  let top r := m_sp (start main (_entry stack0 start_sym r)) in
  top r1 - 4096 <= a < top r1 → top r2 - 4096 <= a < top r2 → mhartid r1 = mhartid r2.
Proof.
  intros H1 H2 Hs Hsp top. subst top. cbv beta.
  destruct (boot_hart stack0 start_sym main r1 H1 Hs Hsp) as (_ & _ & _ & _ & -> & _).
  destruct (boot_hart stack0 start_sym main r2 H2 Hs Hsp) as (_ & _ & _ & _ & -> & _). lia.
Qed.

(** ** Which interrupts reach a hart *)
Definition plic_reg (d : plic) (a : Z) : Z := default 0 (d !! a).
Definition delivers (d : plic) (hart irq : Z) : Prop :=
  plic_reg d (PLIC_SPRIORITY hart) < plic_reg d (PLIC + irq * 4) ∧ Z.testbit (plic_reg d (PLIC_SENABLE hart)) irq = true.

(** The harts initialise their part of the controller in any order. *)
Definition plic_boot (harts : list Z) : plic := foldr plicinithart (plicinit ∅) harts.

Lemma plic_boot_priority harts irq :
  Forall (λ h, 0 <= h < Z.of_nat NCPU) harts → 0 <= irq < 1024 →
  plic_reg (plic_boot harts) (PLIC + irq * 4) = if decide (irq = UART0_IRQ ∨ irq = VIRTIO0_IRQ) then 1 else 0.
Proof.
  intros Hh Hi. induction Hh as [|h hs Hh _ IH]; simpl.
  - unfold plic_reg, plicinit. unfold UART0_IRQ, VIRTIO0_IRQ. destruct (decide (irq = 1)) as [->|]; [done|].
    rewrite lookup_insert_ne by lia. destruct (decide (irq = 10)) as [->|]; [done|]. rewrite lookup_insert_ne by lia.
    rewrite decide_False by lia. done.
  - change (Z.of_nat NCPU) with 8 in *. unfold plic_reg, plicinithart, PLIC_SPRIORITY, PLIC_SENABLE in *. by rewrite !lookup_insert_ne by lia.
Qed.

Lemma plic_boot_hart harts hart :
  Forall (λ h, 0 <= h < Z.of_nat NCPU) harts → 0 <= hart < Z.of_nat NCPU →
  plic_reg (plic_boot harts) (PLIC_SPRIORITY hart) = 0 ∧
  plic_reg (plic_boot harts) (PLIC_SENABLE hart) = if decide (hart ∈ harts) then 1026 else 0.
Proof.
  intros Hh Hi. change (Z.of_nat NCPU) with 8 in *. induction Hh as [|h hs Hh _ [IH1 IH2]]; simpl.
  - unfold plic_reg, plicinit, UART0_IRQ, VIRTIO0_IRQ, PLIC_SPRIORITY, PLIC_SENABLE. by rewrite !lookup_insert_ne by lia.
  - unfold plic_reg, plicinithart in *. destruct (decide (h = hart)) as [->|Hne].
    + rewrite lookup_insert_eq. rewrite lookup_insert_ne by (unfold PLIC_SPRIORITY, PLIC_SENABLE; lia).
      rewrite lookup_insert_eq. rewrite decide_True by set_solver. done.
    + unfold PLIC_SPRIORITY, PLIC_SENABLE in *. rewrite !lookup_insert_ne by lia. rewrite IH1, IH2. split; [done|].
      by repeat case_decide; set_solver.
Qed.

(** The controller delivers the interrupts of the UART and of the disk, and no
    others, to the harts that have run plicinithart, and to no others. *)
Theorem plic_delivers harts hart irq :
  Forall (λ h, 0 <= h < Z.of_nat NCPU) harts → 0 <= hart < Z.of_nat NCPU → 0 <= irq < 32 →
  delivers (plic_boot harts) hart irq ↔ hart ∈ harts ∧ (irq = UART0_IRQ ∨ irq = VIRTIO0_IRQ).
Proof.
  intros Hh Hi Hirq. unfold delivers. rewrite plic_boot_priority by (try done; lia). destruct (plic_boot_hart harts hart Hh Hi) as [-> ->].
  destruct (decide (irq = UART0_IRQ ∨ irq = VIRTIO0_IRQ)) as [Hq|Hq]; [|split; [intros [? _]; lia|by intros [_ ?]]].
  destruct (decide (hart ∈ harts)); split.
  - done.
  - intros _. split; [lia|]. by destruct Hq as [->| ->].
  - intros [_ Hb]. by rewrite Z.bits_0 in Hb.
  - by intros [? _].
Qed.
